(** * Wallet storage core (src/Core/Wallet.cpp): a shallow embedding.

    The development follows the source file: byte buffers and
    little-endian integers, what both back ends share, the flat container
    ([WalletContainerStorage]: loading, saving, address generation, address
    lookup, first-output pinning), then the HD back end ([WalletHD]: row
    encryption, the database and the address window, the payment queue)
    and the mnemonic generator.  Library code that Wallet.cpp calls
    (ciphers, hashes, key derivation, word tables) enters as section
    variables, with the facts assumed of it as section hypotheses. *)

From Stdlib Require Import ZArith Lia Bool.
From Stdlib.Strings Require Import Byte.
From stdpp Require Import base option list gmap strings sorting.

Set Default Proof Using "Type".
Local Open Scope Z_scope.

(** ** Bytes, buffers and machine integers *)

Module Bytes.

Definition Z_of_byte (b : byte) : Z := Z.of_N (Byte.to_N b).

Definition byte_of_Z (z : Z) : byte :=
  match Byte.of_N (Z.to_N (z mod 256)) with
  | Some b => b
  | None => x00
  end.

(** [size_t] and [uint64_t] are 64 bits wide; arithmetic on them wraps. *)
Definition wrap64 (z : Z) : Z := z mod 2 ^ 64.

(** Modelled from the spec: [common::uint_le_to_bytes] (common/Varint.hpp is
    not part of the sources at hand); "all multi-byte integers little-endian":
    byte [i] of the buffer is bits [8i .. 8i+7] of the value. *)
Fixpoint uint_le_to_bytes (si : nat) (val : Z) : list byte :=
  match si with
  | O => []
  | S si' => byte_of_Z val :: uint_le_to_bytes si' (val / 256)
  end.

(** Modelled from the spec: [common::uint_le_from_bytes], the inverse
    reading of a little-endian buffer. *)
Fixpoint uint_le_from_bytes (buf : list byte) : Z :=
  match buf with
  | [] => 0
  | b :: buf' => Z_of_byte b + 256 * uint_le_from_bytes buf'
  end.

(** A zero-initialised buffer, [BinaryArray(n)] or [unsigned char x[n]{}]. *)
Definition zeros (n : nat) : list byte := replicate n x00.

(** [memcpy (buf + off, src, |src|)] for a write that stays inside [buf]. *)
Definition memcpy_at (buf : list byte) (off : nat) (src : list byte) : list byte :=
  take off buf ++ src ++ drop (off + length src) buf.

(** The bytes [buf + off .. buf + off + n). *)
Definition slice (buf : list byte) (off n : nat) : list byte :=
  take n (drop off buf).

(** A toy stream cipher for the examples: every byte is XORed with the
    first byte of the key. *)
Definition byte_xor (a b : byte) : byte :=
  byte_of_Z (Z.lxor (Z_of_byte a) (Z_of_byte b)).

Definition xor_cipher (rounds : nat) (data key iv : list byte) : list byte :=
  map (fun b => byte_xor b (default x00 (head key))) data.

Lemma byte_to_N_inj (a b : byte) : Byte.to_N a = Byte.to_N b -> a = b.
Proof.
  intros H. apply (f_equal Byte.of_N) in H.
  rewrite !Byte.of_to_N in H. congruence.
Qed.

#[global] Instance byte_eq_dec : EqDecision byte.
Proof.
  intros a b. destruct (decide (Byte.to_N a = Byte.to_N b)) as [H|H].
  - left. by apply byte_to_N_inj.
  - right. congruence.
Defined.

#[global] Instance byte_countable : Countable byte :=
  inj_countable Byte.to_N Byte.of_N Byte.of_to_N.

Lemma Z_of_byte_range (b : byte) : 0 <= Z_of_byte b < 256.
Proof.
  unfold Z_of_byte. pose proof (Byte.to_N_bounded b) as H. lia.
Qed.

Lemma Z_of_byte_of_Z (z : Z) : Z_of_byte (byte_of_Z z) = z mod 256.
Proof.
  unfold Z_of_byte, byte_of_Z.
  assert (Hr : 0 <= z mod 256 < 256) by (apply Z.mod_pos_bound; lia).
  destruct (Byte.of_N (Z.to_N (z mod 256))) as [b|] eqn:E.
  - apply Byte.to_of_N in E. rewrite E. lia.
  - apply Byte.of_N_None_iff in E. lia.
Qed.

Lemma byte_of_Z_of_byte (b : byte) : byte_of_Z (Z_of_byte b) = b.
Proof.
  apply byte_to_N_inj. apply N2Z.inj.
  change (Z_of_byte (byte_of_Z (Z_of_byte b)) = Z_of_byte b).
  rewrite Z_of_byte_of_Z. apply Z.mod_small, Z_of_byte_range.
Qed.

Lemma length_uint_le_to_bytes (si : nat) (val : Z) :
  length (uint_le_to_bytes si val) = si.
Proof. revert val. induction si as [|si IH]; intros val; simpl; [done|]. by rewrite IH. Qed.

Lemma uint_le_from_to_bytes (si : nat) (val : Z) :
  uint_le_from_bytes (uint_le_to_bytes si val) = val mod 2 ^ (8 * Z.of_nat si).
Proof.
  revert val. induction si as [|si IH]; intros val.
  - simpl. by rewrite Z.mod_1_r.
  - cbn [uint_le_to_bytes uint_le_from_bytes].
    rewrite IH, Z_of_byte_of_Z.
    replace (8 * Z.of_nat (S si)) with (8 + 8 * Z.of_nat si) by lia.
    rewrite Z.pow_add_r by lia. change (2 ^ 8) with 256.
    rewrite Z.rem_mul_r by lia. lia.
Qed.

Lemma uint_le_from_bytes_range (buf : list byte) :
  0 <= uint_le_from_bytes buf < 2 ^ (8 * Z.of_nat (length buf)).
Proof.
  induction buf as [|b buf IH].
  - simpl. lia.
  - cbn [uint_le_from_bytes length].
    replace (8 * Z.of_nat (S (length buf))) with (8 + 8 * Z.of_nat (length buf)) by lia.
    rewrite Z.pow_add_r by lia. change (2 ^ 8) with 256.
    pose proof (Z_of_byte_range b). nia.
Qed.

Lemma length_zeros (n : nat) : length (zeros n) = n.
Proof. apply length_replicate. Qed.

Lemma memcpy_at_0 (buf src : list byte) :
  memcpy_at buf 0 src = src ++ drop (length src) buf.
Proof. unfold memcpy_at. by rewrite take_0. Qed.

Lemma memcpy_at_app (pre buf src : list byte) :
  memcpy_at (pre ++ buf) (length pre) src = pre ++ src ++ drop (length src) buf.
Proof.
  unfold memcpy_at. rewrite take_app_length.
  rewrite drop_app_ge by lia. do 3 f_equal. lia.
Qed.

Lemma slice_app_l (a b : list byte) : slice (a ++ b) 0 (length a) = a.
Proof. unfold slice. rewrite drop_0. apply take_app_length. Qed.

Lemma slice_app_r (a b : list byte) (n : nat) :
  slice (a ++ b) (length a) n = take n b.
Proof. unfold slice. by rewrite drop_app_length. Qed.

Lemma slice_slice (buf : list byte) (p n o m : nat) :
  (o + m <= n)%nat -> slice (slice buf p n) o m = slice buf (p + o) m.
Proof.
  intros H. unfold slice.
  rewrite skipn_firstn_comm, take_take, drop_drop. f_equal. lia.
Qed.

Lemma wrap64_small (z : Z) : 0 <= z < 2 ^ 64 -> wrap64 z = z.
Proof. intros H. unfold wrap64. by apply Z.mod_small. Qed.

Lemma lxor_range (n a b : Z) :
  0 <= n -> 0 <= a < 2 ^ n -> 0 <= b < 2 ^ n -> 0 <= Z.lxor a b < 2 ^ n.
Proof.
  intros Hn Ha Hb.
  assert (Hnn : 0 <= Z.lxor a b) by (apply Z.lxor_nonneg; lia).
  split; [done|].
  destruct (Z.eq_dec (Z.lxor a b) 0) as [->|Hne]; [lia|].
  apply Z.log2_lt_pow2; [lia|].
  pose proof (Z.log2_lxor a b ltac:(lia) ltac:(lia)) as Hl.
  assert (Hla : Z.log2 a < n \/ a = 0).
  { destruct (Z.eq_dec a 0); [by right|left]. apply Z.log2_lt_pow2; lia. }
  assert (Hlb : Z.log2 b < n \/ b = 0).
  { destruct (Z.eq_dec b 0); [by right|left]. apply Z.log2_lt_pow2; lia. }
  destruct Hla as [Hla| ->], Hlb as [Hlb| ->];
    rewrite ?Z.lxor_0_r, ?Z.lxor_0_l in *; try lia.
  all: apply Z.log2_lt_pow2; lia.
Qed.

Lemma byte_xor_involutive (a k : byte) : byte_xor (byte_xor a k) k = a.
Proof.
  unfold byte_xor. rewrite Z_of_byte_of_Z.
  pose proof (Z_of_byte_range a). pose proof (Z_of_byte_range k).
  rewrite Z.mod_small by (apply (lxor_range 8); lia).
  rewrite Z.lxor_assoc, Z.lxor_nilpotent, Z.lxor_0_r.
  apply byte_of_Z_of_byte.
Qed.

Lemma xor_cipher_length (rounds : nat) (data key iv : list byte) :
  length (xor_cipher rounds data key iv) = length data.
Proof. apply length_map. Qed.

Lemma xor_cipher_involutive (rounds : nat) (data key iv : list byte) :
  xor_cipher rounds (xor_cipher rounds data key iv) key iv = data.
Proof.
  unfold xor_cipher. rewrite map_map.
  induction data as [|b data IH]; [done|].
  cbn [map]. by rewrite byte_xor_involutive, IH.
Qed.

End Bytes.

(** ** Outcomes of fallible operations *)

(** The exceptions of Wallet.cpp: [cn::Exception] with an [api] code,
    the generic code 101, [std::runtime_error], a failed [invariant],
    [std::out_of_range] of [vector::at], [common::StreamError] and
    [std::bad_alloc]; [NoReturn] stands for a call that has not come back. *)
Inductive error : Type :=
  | WALLET_FILE_DECRYPT_ERROR
  | WALLET_FILE_UNKNOWN_VERSION
  | WALLET_FILE_READ_ERROR
  | WALLET_FILE_WRITE_ERROR
  | Code101
  | RuntimeError
  | InvariantFailed
  | OutOfRange
  | StreamError
  | BadAlloc
  | NoReturn.

Inductive result (A : Type) : Type :=
  | Ok (a : A)
  | Throw (e : error).

Arguments Ok {A} a.
Arguments Throw {A} e.

Definition bind {A B : Type} (r : result A) (k : A -> result B) : result B :=
  match r with
  | Ok a => k a
  | Throw e => Throw e
  end.

Notation "'let*' x ':=' r 'in' k" := (bind r (fun x => k))
  (at level 10, x pattern, r at level 100, k at level 200).

(** [invariant (cond, "")] *)
Definition invariant (cond : bool) : result unit :=
  if cond then Ok () else Throw InvariantFailed.

(** ** What both back ends share (Wallet.hpp) *)

Module WalletCore.
Import Bytes.

(** [PublicKey], [SecretKey]: 32-byte values, compared bytewise. *)
Abbreviation PublicKey := (list byte) (only parsing).
Abbreviation SecretKey := (list byte) (only parsing).

Record WalletRecord : Type := {
  spend_public_key : PublicKey;
  spend_secret_key : SecretKey;
  creation_timestamp : Z
}.

#[global] Instance WalletRecord_eq_dec : EqDecision WalletRecord.
Proof. solve_decision. Defined.

(** Modelled from the spec: [sizeof (PublicKey)] and [sizeof (SecretKey)],
    "32-byte curve point", "32-byte scalar". *)
Definition KEY_SIZE : nat := 32.
(** [SecretKey{}] *)
Definition zero_key : SecretKey := zeros KEY_SIZE.
(** [WalletRecord{}] *)
Definition empty_record : WalletRecord :=
  {| spend_public_key := zeros KEY_SIZE; spend_secret_key := zero_key;
     creation_timestamp := 0 |}.

Definition with_creation_timestamp (r : WalletRecord) (ts : Z) : WalletRecord :=
  {| spend_public_key := spend_public_key r;
     spend_secret_key := spend_secret_key r;
     creation_timestamp := ts |}.

(** [std::map::insert (std::make_pair (k, v))]: an existing key keeps its
    value. *)
Definition map_insert_new (k : list byte) (v : nat) (m : gmap (list byte) nat)
  : gmap (list byte) nat :=
  match m !! k with
  | Some _ => m
  | None => <[k := v]> m
  end.

(** [AccountAddress], a variant of the simple and the unlinkable address. *)
Inductive AccountAddress : Type :=
  | AccountAddressSimple (spend view : PublicKey)
  | AccountAddressUnlinkable (s sv : PublicKey) (is_auditable : bool).

End WalletCore.

(** ** Flat container back end *)

Module WalletContainerStorage.
Import Bytes WalletCore.

Definition SERIALIZATION_VERSION_V2 : Z := 6.
Definition CHECK_KEYS_COUNT : Z := 128.
Definition SIZE_MAX : Z := 2 ^ 64 - 1.

(** The in-memory wallet: the fields of [Wallet] that the container code
    reads and writes.  [m_file_open] is [m_file.get () != nullptr]. *)
Record Wallet : Type := {
  m_view_public_key : PublicKey;
  m_view_secret_key : SecretKey;
  m_wallet_records : list WalletRecord;
  m_records_map : gmap (list byte) nat;
  m_oldest_timestamp : Z;
  m_file_open : bool
}.

(** [EncryptedWalletRecord] *)
Record EncryptedWalletRecord : Type := {
  ewr_iv : list byte;
  ewr_data : list byte
}.

(** [m_file->read (buf, n)] at offset [pos]: all [n] bytes or a
    [common::StreamError]. *)
Definition file_read (file : list byte) (pos n : nat) : result (list byte) :=
  if decide (pos + n <= length file)%nat then Ok (slice file pos n)
  else Throw StreamError.

Section Container.

(** From the crypto library and the headers: [sizeof (crypto::chacha_iv)],
    [chacha8 (data, length, key, iv, cipher)], [keys_match], [key_isvalid],
    [secret_key_to_public_key] and [std::numeric_limits<Timestamp>::max ()]
    ([Timestamp] is an unsigned integer type). *)
Variable CHACHA_IV_SIZE : nat.
Variable chacha8 : list byte -> list byte -> list byte -> list byte.
Variable keys_match : SecretKey -> PublicKey -> bool.
Variable key_isvalid : PublicKey -> bool.
Variable secret_key_to_public_key : SecretKey -> option PublicKey.
Variable TIMESTAMP_MAX : Z.

(** [sizeof (r.data)], [sizeof (EncryptedWalletRecord)] and
    [sizeof (ContainerStoragePrefix)] (packed structs). *)
Definition RECORD_DATA_SIZE : nat := KEY_SIZE + KEY_SIZE + 8.
Definition EWR_SIZE : nat := CHACHA_IV_SIZE + RECORD_DATA_SIZE.
Definition PREFIX_SIZE : nat := CHACHA_IV_SIZE + EWR_SIZE.

Definition wallet_file_size (records : Z) : Z :=
  wrap64 (1 + Z.of_nat PREFIX_SIZE + 8 * 2 + Z.of_nat EWR_SIZE * records).

(** [static_cast<Timestamp> (x)] of a [uint64_t]. *)
Definition to_Timestamp (x : Z) : Z := x mod (TIMESTAMP_MAX + 1).

(** Modelled from the spec: the member initialisers of [Wallet] (Wallet.hpp
    is not part of the sources at hand).  A fresh object has no keys and no
    records and [m_file] is null; "track [m_oldest_timestamp = min
    (creation_timestamp)]" while the records are read makes its initial
    value the largest [Timestamp]. *)
Definition new_wallet : Wallet :=
  {| m_view_public_key := zeros KEY_SIZE; m_view_secret_key := zero_key;
     m_wallet_records := []; m_records_map := ∅;
     m_oldest_timestamp := TIMESTAMP_MAX; m_file_open := false |}.

Definition parse_encrypted_record (buf : list byte) : EncryptedWalletRecord :=
  {| ewr_iv := slice buf 0 CHACHA_IV_SIZE;
     ewr_data := slice buf CHACHA_IV_SIZE RECORD_DATA_SIZE |}.

Definition decrypt_key_pair (r : EncryptedWalletRecord) (key : list byte)
  : WalletRecord :=
  let rec_data := chacha8 (ewr_data r) key (ewr_iv r) in
  {| spend_public_key := slice rec_data 0 KEY_SIZE;
     spend_secret_key := slice rec_data KEY_SIZE KEY_SIZE;
     creation_timestamp :=
       to_Timestamp (uint_le_from_bytes (slice rec_data (KEY_SIZE + KEY_SIZE) 8)) |}.

(** [all_encrypted]: the [n] records of [sizeof (EncryptedWalletRecord)]
    bytes each that one [read] fills. *)
Fixpoint split_records (n : nat) (buf : list byte) : list EncryptedWalletRecord :=
  match n with
  | O => []
  | S n' => parse_encrypted_record (take EWR_SIZE buf)
            :: split_records n' (drop EWR_SIZE buf)
  end.

(** The body of the loop over [all_encrypted], from index [i] on. *)
Fixpoint load_records (wallet_key : list byte) (item_count : Z) (i : Z)
    (all_encrypted : list EncryptedWalletRecord) (tracking_mode : bool)
    (w : Wallet) : result Wallet :=
  match all_encrypted with
  | [] => Ok w
  | enc :: rest =>
      let wallet_record := decrypt_key_pair enc wallet_key in
      let no_secret := bool_decide (spend_secret_key wallet_record = zero_key) in
      let* tracking_mode :=
        (if i =? 0 then Ok no_secret
         else if (tracking_mode && negb no_secret) || (negb tracking_mode && no_secret)
              then Throw WALLET_FILE_DECRYPT_ERROR
              else Ok tracking_mode) in
      let* _ :=
        (if (i <? CHECK_KEYS_COUNT) || (wrap64 (item_count - CHECK_KEYS_COUNT) <=? i)
         then
           if negb no_secret
           then if keys_match (spend_secret_key wallet_record)
                     (spend_public_key wallet_record)
                then Ok () else Throw WALLET_FILE_DECRYPT_ERROR
           else if key_isvalid (spend_public_key wallet_record)
                then Ok () else Throw WALLET_FILE_DECRYPT_ERROR
         else Ok ()) in
      load_records wallet_key item_count (i + 1) rest tracking_mode
        {| m_view_public_key := m_view_public_key w;
           m_view_secret_key := m_view_secret_key w;
           m_wallet_records := m_wallet_records w ++ [wallet_record];
           m_records_map :=
             map_insert_new (spend_public_key wallet_record)
               (length (m_wallet_records w)) (m_records_map w);
           m_oldest_timestamp :=
             Z.min (m_oldest_timestamp w) (creation_timestamp wallet_record);
           m_file_open := m_file_open w |}
  end.

(** The two counters of the file header, as stored. *)
Definition f_item_capacity (file : list byte) : Z :=
  uint_le_from_bytes (slice file (1 + PREFIX_SIZE) 8).
Definition f_item_count (file : list byte) : Z :=
  uint_le_from_bytes (slice file (1 + PREFIX_SIZE + 8) 8).

(** [load_container_storage], on the content of [m_file]; the closing
    truncation of an over-long file changes the file only and is left out. *)
Definition load_container_storage (file wallet_key : list byte) (w : Wallet)
  : result Wallet :=
  let* version_data := file_read file 0 1 in
  let version := uint_le_from_bytes version_data in
  let* prefix := file_read file 1 PREFIX_SIZE in
  let* count_capacity_data := file_read file (1 + PREFIX_SIZE) (2 * 8) in
  let f_item_capacity := uint_le_from_bytes (slice count_capacity_data 0 8) in
  let f_item_count := uint_le_from_bytes (slice count_capacity_data 8 8) in
  if version <? SERIALIZATION_VERSION_V2 then Throw WALLET_FILE_DECRYPT_ERROR else
  let view_keys :=
    decrypt_key_pair (parse_encrypted_record (drop CHACHA_IV_SIZE prefix)) wallet_key in
  let w :=
    {| m_view_public_key := spend_public_key view_keys;
       m_view_secret_key := spend_secret_key view_keys;
       m_wallet_records := m_wallet_records w;
       m_records_map := m_records_map w;
       m_oldest_timestamp := m_oldest_timestamp w;
       m_file_open := m_file_open w |} in
  if negb (keys_match (m_view_secret_key w) (m_view_public_key w))
  then Throw WALLET_FILE_DECRYPT_ERROR else
  let item_count := Z.min f_item_count f_item_capacity in
  if item_count >? SIZE_MAX / Z.of_nat EWR_SIZE then Throw WALLET_FILE_DECRYPT_ERROR else
  let* all_encrypted :=
    file_read file (1 + PREFIX_SIZE + 2 * 8) (EWR_SIZE * Z.to_nat item_count) in
  load_records wallet_key item_count 0
    (split_records (Z.to_nat item_count) all_encrypted) false w.

(** [encrypt_key_pair]; [iv] is the value of
    [crypto::rand<crypto::chacha_iv> ()]. *)
Definition encrypt_key_pair (iv : list byte) (pk : PublicKey) (sk : SecretKey)
    (ct : Z) (key : list byte) : EncryptedWalletRecord :=
  let rec_data := zeros RECORD_DATA_SIZE in
  let rec_data := memcpy_at rec_data 0 pk in
  let rec_data := memcpy_at rec_data KEY_SIZE sk in
  let rec_data := memcpy_at rec_data (KEY_SIZE + KEY_SIZE) (uint_le_to_bytes 8 ct) in
  {| ewr_iv := iv; ewr_data := chacha8 rec_data key iv |}.

(** The bytes of a packed [EncryptedWalletRecord]. *)
Definition record_bytes (r : EncryptedWalletRecord) : list byte :=
  ewr_iv r ++ ewr_data r.

(** [save]: the bytes written to the new file.  [ivs 0] encrypts the view
    keys and [ivs (i + 1)] record [i]; [next_iv] stays zero. *)
Definition save (w : Wallet) (wallet_key : list byte) (view_only : bool)
    (ivs : nat -> list byte) : list byte :=
  let version := uint_le_to_bytes 1 SERIALIZATION_VERSION_V2 in
  let prefix :=
    zeros CHACHA_IV_SIZE ++
    record_bytes (encrypt_key_pair (ivs 0%nat) (m_view_public_key w)
                    (m_view_secret_key w) (m_oldest_timestamp w) wallet_key) in
  let count_capacity_data :=
    uint_le_to_bytes 8 (Z.of_nat (length (m_wallet_records w))) in
  version ++ prefix ++ count_capacity_data ++ count_capacity_data ++
  concat (imap (fun i rec =>
                  record_bytes
                    (encrypt_key_pair (ivs (S i)) (spend_public_key rec)
                       (if view_only then zero_key else spend_secret_key rec)
                       (creation_timestamp rec) wallet_key))
            (m_wallet_records w)).

(** *** Operations on a loaded wallet *)

Definition with_records (w : Wallet) (rs : list WalletRecord) : Wallet :=
  {| m_view_public_key := m_view_public_key w;
     m_view_secret_key := m_view_secret_key w;
     m_wallet_records := rs;
     m_records_map := m_records_map w;
     m_oldest_timestamp := m_oldest_timestamp w;
     m_file_open := m_file_open w |}.

Definition with_records_map (w : Wallet) (m : gmap (list byte) nat) : Wallet :=
  {| m_view_public_key := m_view_public_key w;
     m_view_secret_key := m_view_secret_key w;
     m_wallet_records := m_wallet_records w;
     m_records_map := m;
     m_oldest_timestamp := m_oldest_timestamp w;
     m_file_open := m_file_open w |}.

Definition with_oldest_timestamp (w : Wallet) (ts : Z) : Wallet :=
  {| m_view_public_key := m_view_public_key w;
     m_view_secret_key := m_view_secret_key w;
     m_wallet_records := m_wallet_records w;
     m_records_map := m_records_map w;
     m_oldest_timestamp := ts;
     m_file_open := m_file_open w |}.

Definition with_file_open (w : Wallet) (b : bool) : Wallet :=
  {| m_view_public_key := m_view_public_key w;
     m_view_secret_key := m_view_secret_key w;
     m_wallet_records := m_wallet_records w;
     m_records_map := m_records_map w;
     m_oldest_timestamp := m_oldest_timestamp w;
     m_file_open := b |}.

(** [m_wallet_records.at (i)] *)
Definition records_at (w : Wallet) (i : nat) : result WalletRecord :=
  match m_wallet_records w !! i with
  | Some r => Ok r
  | None => Throw OutOfRange
  end.

(** Modelled from the spec: [Wallet::is_view_only] (Wallet.hpp is not part
    of the sources at hand), "true iff the first record has no spend
    secret". *)
Definition is_view_only (w : Wallet) : result bool :=
  let* r := records_at w 0 in
  Ok (bool_decide (spend_secret_key r = zero_key)).

(** Modelled from the spec: [Wallet::get_actual_records_count], "for
    container: all records". *)
Definition get_actual_records_count (w : Wallet) : nat :=
  length (m_wallet_records w).

Definition record_to_address (w : Wallet) (record : WalletRecord) : AccountAddress :=
  AccountAddressSimple (spend_public_key record) (m_view_public_key w).

(** [get_record (&record, v_addr)]: the returned pair is the [bool] result
    and the content of [*record] after the call. *)
Definition get_record (w : Wallet) (record : WalletRecord) (v_addr : AccountAddress)
  : result (bool * WalletRecord) :=
  match v_addr with
  | AccountAddressUnlinkable _ _ _ => Ok (false, record)
  | AccountAddressSimple addr_spend addr_view =>
      let rit := m_records_map w !! addr_spend in
      if negb (bool_decide (m_view_public_key w = addr_view)) || bool_decide (rit = None)
      then Ok (false, record)
      else
        match rit with
        | None => Ok (false, record)
        | Some idx =>
            if bool_decide (get_actual_records_count w <= idx)%nat
            then Ok (false, record)
            else
              let* r := records_at w idx in
              let* _ := invariant (bool_decide (spend_public_key r = addr_spend)) in
              Ok (true, r)
        end
  end.

(** [Wallet::is_our_address] *)
Definition is_our_address (w : Wallet) (v_addr : AccountAddress) : result bool :=
  let* r := get_record w empty_record v_addr in
  Ok (fst r).

(** What the disk does to a [save_and_check]: the rewrite goes through,
    the temporary copy is rejected (it does not load back, or differs), or
    the atomic replace fails. *)
Inductive save_outcome : Type :=
  | Saved
  | SaveRejected (e : error)
  | ReplaceFailed.

Variable disk : Wallet -> save_outcome.

(** [save_and_check] changes [m_file] only. *)
Definition save_and_check (w : Wallet) : Wallet * result unit :=
  match disk w with
  | Saved => (with_file_open w true, Ok ())
  | SaveRejected e => (w, Throw e)
  | ReplaceFailed => (with_file_open w false, Throw WALLET_FILE_WRITE_ERROR)
  end.

(** [on_first_output_found (ts)]; [net] is [m_currency.net].  The wallet
    after the call comes with the outcome, since an exception of
    [save_and_check] leaves the fields as they were set. *)
Definition on_first_output_found (net : string) (w : Wallet) (ts : Z)
  : Wallet * result unit :=
  if negb (bool_decide (net = "main"%string)) then (w, Ok ())
  else if (ts =? 0) || negb (m_oldest_timestamp w =? 0) then (w, Ok ())
  else
    let w := with_oldest_timestamp w ts in
    let w :=
      with_records w
        (map (fun rec => if creation_timestamp rec =? 0
                         then with_creation_timestamp rec ts else rec)
             (m_wallet_records w)) in
    save_and_check w.

(** *** [generate_new_addresses] *)

(** What the call writes to [m_file], in order. *)
Inductive io_event : Type :=
  | IoSeek (pos : Z)
  | IoWriteRecord (r : WalletRecord)
  | IoWriteCount (n : Z)
  | IoFsync.

(** The variables of the call: the wallet, [*rescan_from_ct], [result], the
    values [crypto::random_keypair] has yet to return, and the file
    operations so far. *)
Record gna_state : Type := {
  g_wallet : Wallet;
  g_rescan_from_ct : bool;
  g_result : list WalletRecord;
  g_random : list (PublicKey * SecretKey);
  g_io : list io_event
}.

(** How a piece of the call ends: it goes on, an exception leaves it (the
    state is what the exception leaves behind), or the supplied random
    values ran out while the [do ... while] was still drawing. *)
Inductive gna_outcome : Type :=
  | Next (s : gna_state)
  | Raise (s : gna_state) (e : error)
  | Starved.

(** [do { random_keypair (pk, sk); } while (m_records_map.count (pk) != 0);] *)
Fixpoint random_fresh_keypair (m : gmap (list byte) nat)
    (random : list (PublicKey * SecretKey))
  : option ((PublicKey * SecretKey) * list (PublicKey * SecretKey)) :=
  match random with
  | [] => None
  | kp :: random' =>
      if bool_decide (m !! fst kp = None) then Some (kp, random')
      else random_fresh_keypair m random'
  end.

(** First half of the loop body: the record of this input, either drawn at
    random with timestamp [now] or imported with timestamp [ct]. *)
Definition new_record (s : gna_state) (sk : SecretKey) (ct now : Z)
  : option (gna_state * result WalletRecord) :=
  if bool_decide (sk = zero_key) then
    match random_fresh_keypair (m_records_map (g_wallet s)) (g_random s) with
    | None => None
    | Some (kp, random') =>
        let record :=
          {| spend_public_key := fst kp; spend_secret_key := snd kp;
             creation_timestamp := now |} in
        let w := g_wallet s in
        let w := with_oldest_timestamp w (Z.min (m_oldest_timestamp w) now) in
        Some ({| g_wallet := w; g_rescan_from_ct := g_rescan_from_ct s;
                 g_result := g_result s; g_random := random'; g_io := g_io s |},
              Ok record)
    end
  else
    match secret_key_to_public_key sk with
    | None => Some (s, Throw Code101)
    | Some pk =>
        Some (s, Ok {| spend_public_key := pk; spend_secret_key := sk;
                       creation_timestamp := ct |})
    end.

(** Second half of the loop body: a known spend key has its timestamp
    lowered, a new one is appended to the records and to the file. *)
Definition store_record (s : gna_state) (record : WalletRecord) : gna_outcome :=
  let w := g_wallet s in
  match m_records_map w !! spend_public_key record with
  | Some idx =>
      match m_wallet_records w !! idx with
      | None => Raise s OutOfRange
      | Some stored =>
          if creation_timestamp stored >? creation_timestamp record then
            let stored' := with_creation_timestamp stored (creation_timestamp record) in
            let w := with_records w (<[idx := stored']> (m_wallet_records w)) in
            let w := with_oldest_timestamp w
                       (Z.min (m_oldest_timestamp w) (creation_timestamp record)) in
            Next {| g_wallet := w; g_rescan_from_ct := true;
                    g_result := g_result s ++ [stored'];
                    g_random := g_random s; g_io := g_io s |}
          else
            Next {| g_wallet := w; g_rescan_from_ct := g_rescan_from_ct s;
                    g_result := g_result s ++ [stored];
                    g_random := g_random s; g_io := g_io s |}
      end
  | None =>
      let w := with_records_map w
                 (map_insert_new (spend_public_key record)
                    (length (m_wallet_records w)) (m_records_map w)) in
      let w := with_records w (m_wallet_records w ++ [record]) in
      Next {| g_wallet := w; g_rescan_from_ct := g_rescan_from_ct s;
              g_result := g_result s ++ [record];
              g_random := g_random s; g_io := g_io s ++ [IoWriteRecord record] |}
  end.

(** One turn of [for (auto &&sk : sks)]. *)
Definition gna_step (ct now : Z) (s : gna_state) (sk : SecretKey) : gna_outcome :=
  match new_record s sk ct now with
  | None => Starved
  | Some (s, Throw e) => Raise s e
  | Some (s, Ok record) => store_record s record
  end.

Fixpoint gna_loop (ct now : Z) (s : gna_state) (sks : list SecretKey) : gna_outcome :=
  match sks with
  | [] => Next s
  | sk :: sks' =>
      match gna_step ct now s sk with
      | Next s' => gna_loop ct now s' sks'
      | other => other
      end
  end.

Definition with_wallet (s : gna_state) (w : Wallet) : gna_state :=
  {| g_wallet := w; g_rescan_from_ct := g_rescan_from_ct s;
     g_result := g_result s; g_random := g_random s; g_io := g_io s |}.

Definition with_io (s : gna_state) (evs : list io_event) : gna_state :=
  {| g_wallet := g_wallet s; g_rescan_from_ct := g_rescan_from_ct s;
     g_result := g_result s; g_random := g_random s; g_io := g_io s ++ evs |}.

(** The whole call.  [rescan_from_ct] is the value [*rescan_from_ct] has
    when the call starts; the vector returned on success is [g_result]. *)
Definition generate_new_addresses (w : Wallet) (rescan_from_ct : bool)
    (random : list (PublicKey * SecretKey))
    (sks : list SecretKey) (ct now : Z) : gna_outcome :=
  let s := {| g_wallet := w; g_rescan_from_ct := rescan_from_ct; g_result := [];
              g_random := random; g_io := [] |} in
  match is_view_only w with
  | Throw e => Raise s e
  | Ok true => Raise s Code101
  | Ok false =>
      let '(w, saved) :=
        if negb (m_file_open w) then save_and_check w else (w, Ok ()) in
      match saved with
      | Throw e => Raise (with_wallet s w) e
      | Ok _ =>
          let s := {| g_wallet := w; g_rescan_from_ct := false; g_result := [];
                      g_random := random;
                      g_io := [IoSeek (wallet_file_size
                                 (Z.of_nat (length (m_wallet_records w))))] |} in
          match gna_loop ct now s sks with
          | Next s =>
              let n := Z.of_nat (length (m_wallet_records (g_wallet s))) in
              let s := with_io s
                         [IoFsync; IoSeek (1 + Z.of_nat PREFIX_SIZE);
                          IoWriteCount n; IoWriteCount n; IoFsync] in
              if g_rescan_from_ct s then
                let '(w, saved) := save_and_check (g_wallet s) in
                match saved with
                | Throw e => Raise (with_wallet s w) e
                | Ok _ => Next (with_wallet s w)
                end
              else Next s
          | other => other
          end
      end
  end.

(** *** Loading: what a successful load leaves in memory *)

Definition no_secret (r : WalletRecord) : bool :=
  bool_decide (spend_secret_key r = zero_key).

(** The records a file holds under a key: [min (count, capacity)] slots
    after the header, decrypted. *)
Definition file_item_count (file : list byte) : Z :=
  Z.min (f_item_count file) (f_item_capacity file).

Definition HEADER_SIZE : nat := 1 + PREFIX_SIZE + 2 * 8.

Definition file_records (file wallet_key : list byte) : list WalletRecord :=
  map (fun e => decrypt_key_pair e wallet_key)
    (split_records (Z.to_nat (file_item_count file))
       (slice file HEADER_SIZE (EWR_SIZE * Z.to_nat (file_item_count file)))).

(** The state a call of [generate_new_addresses] leaves, returned or thrown. *)
Definition outcome_state (o : gna_outcome) : option gna_state :=
  match o with
  | Next s => Some s
  | Raise s _ => Some s
  | Starved => None
  end.

Definition oldest_of (s : gna_state) : Z := m_oldest_timestamp (g_wallet s).

Lemma length_split_records (n : nat) (buf : list byte) :
  length (split_records n buf) = n.
Proof. revert buf. induction n as [|n IH]; intros buf; simpl; [done|]. by rewrite IH. Qed.

Lemma load_records_ok (wallet_key : list byte) (item_count : Z)
    (encs : list EncryptedWalletRecord) :
  forall (i : Z) (tm : bool) (w w' : Wallet),
    0 <= i ->
    load_records wallet_key item_count i encs tm w = Ok w' ->
    m_wallet_records w'
      = m_wallet_records w ++ map (fun e => decrypt_key_pair e wallet_key) encs /\
    m_oldest_timestamp w'
      = foldl Z.min (m_oldest_timestamp w)
          (map (fun e => creation_timestamp (decrypt_key_pair e wallet_key)) encs) /\
    (i <> 0 ->
     Forall (fun e => no_secret (decrypt_key_pair e wallet_key) = tm) encs).
Proof.
  induction encs as [|enc rest IH]; intros i tm w w' Hi H.
  - cbn in H. injection H as <-. rewrite app_nil_r. by repeat split.
  - cbn [load_records] in H.
    set (r := decrypt_key_pair enc wallet_key) in *.
    fold (no_secret r) in H.
    destruct (i =? 0) eqn:Ei.
    + apply Z.eqb_eq in Ei. subst i. cbn [bind] in H.
      destruct ((0 <? CHECK_KEYS_COUNT) || _) in H;
        [destruct (negb (no_secret r)) in H;
         [destruct (keys_match _ _) in H | destruct (key_isvalid _) in H]|];
        cbn [bind] in H; try discriminate.
      all: apply IH in H; [|lia]; cbn [m_wallet_records m_oldest_timestamp] in H;
        destruct H as (Hr & Ho & Ht);
        rewrite <- app_assoc in Hr; (split; [exact Hr|]); (split; [exact Ho|]); done.
    + apply Z.eqb_neq in Ei.
      destruct ((tm && negb (no_secret r)) || (negb tm && no_secret r)) eqn:Et;
        cbn [bind] in H; [discriminate|].
      assert (Htm : no_secret r = tm) by (destruct tm, (no_secret r); done).
      destruct ((i <? CHECK_KEYS_COUNT) || _) in H;
        [destruct (negb (no_secret r)) in H;
         [destruct (keys_match _ _) in H | destruct (key_isvalid _) in H]|];
        cbn [bind] in H; try discriminate.
      all: apply IH in H; [|lia]; cbn [m_wallet_records m_oldest_timestamp] in H;
        destruct H as (Hr & Ho & Ht);
        rewrite <- app_assoc in Hr; (split; [exact Hr|]); (split; [exact Ho|]);
        intros _; constructor; [exact Htm | apply Ht; lia].
Qed.

Lemma load_records_uniform (wallet_key : list byte) (item_count : Z)
    (encs : list EncryptedWalletRecord) (tm : bool) (w w' : Wallet)
    (e0 : EncryptedWalletRecord) :
  load_records wallet_key item_count 0 encs tm w = Ok w' ->
  head encs = Some e0 ->
  Forall (fun e => no_secret (decrypt_key_pair e wallet_key)
                   = no_secret (decrypt_key_pair e0 wallet_key)) encs.
Proof.
  intros H Hhd. destruct encs as [|enc rest]; [done|].
  injection Hhd as ->. cbn [load_records] in H.
  set (r := decrypt_key_pair e0 wallet_key) in *. fold (no_secret r) in H.
  change (0 =? 0) with true in H. cbn [bind] in H.
  constructor; [done|].
  destruct ((0 <? CHECK_KEYS_COUNT) || _) in H;
    [destruct (negb (no_secret r)) in H;
     [destruct (keys_match _ _) in H | destruct (key_isvalid _) in H]|];
    cbn [bind] in H; try discriminate.
  all: apply load_records_ok in H; [|lia]; apply H; lia.
Qed.

(** Every exception of the loop carries [WALLET_FILE_DECRYPT_ERROR]. *)
Lemma load_records_error (wallet_key : list byte) (item_count : Z)
    (encs : list EncryptedWalletRecord) :
  forall (i : Z) (tm : bool) (w : Wallet) (e : error),
    load_records wallet_key item_count i encs tm w = Throw e ->
    e = WALLET_FILE_DECRYPT_ERROR.
Proof.
  induction encs as [|enc rest IH]; intros i tm w e H; [done|].
  cbn [load_records] in H.
  set (r := decrypt_key_pair enc wallet_key) in *. fold (no_secret r) in H.
  destruct (i =? 0);
    [|destruct ((tm && negb (no_secret r)) || (negb tm && no_secret r))];
    cbn [bind] in H; try (by injection H).
  all: destruct ((i <? CHECK_KEYS_COUNT) || _) in H;
    [destruct (negb (no_secret r)) in H;
     [destruct (keys_match _ _) in H | destruct (key_isvalid _) in H]|];
    cbn [bind] in H; try (by injection H); by apply IH in H.
Qed.

Lemma file_read_ok (file : list byte) (pos n : nat) (buf : list byte) :
  file_read file pos n = Ok buf ->
  (pos + n <= length file)%nat /\ buf = slice file pos n.
Proof.
  unfold file_read. destruct (decide _); [|done]. intros H. by injection H as <-.
Qed.

(** A successful [load_container_storage]: the file holds the header and
    the [min (count, capacity)] record slots, the decrypted records are
    appended in order, the oldest timestamp is folded over them, and they
    agree with the first of them on having a spend secret. *)
Lemma load_container_storage_ok (file wallet_key : list byte) (w w' : Wallet) :
  load_container_storage file wallet_key w = Ok w' ->
  (HEADER_SIZE + EWR_SIZE * Z.to_nat (file_item_count file) <= length file)%nat /\
  m_wallet_records w' = m_wallet_records w ++ file_records file wallet_key /\
  m_oldest_timestamp w'
    = foldl Z.min (m_oldest_timestamp w)
        (map creation_timestamp (file_records file wallet_key)) /\
  (forall r0, head (file_records file wallet_key) = Some r0 ->
   Forall (fun r => no_secret r = no_secret r0) (file_records file wallet_key)).
Proof.
  unfold load_container_storage. intros H.
  destruct (file_read file 0 1) as [version_data|] eqn:E0; [|done].
  destruct (file_read file 1 PREFIX_SIZE) as [prefix|] eqn:E1; [|done].
  destruct (file_read file (1 + PREFIX_SIZE) (2 * 8)) as [ccd|] eqn:E2; [|done].
  cbn [bind] in H. clear E0 E1.
  apply file_read_ok in E2 as [Hlen2 ->].
  rewrite !slice_slice in H by lia.
  rewrite Nat.add_0_r in H.
  fold (f_item_capacity file) (f_item_count file) in H.
  fold (file_item_count file) in H.
  destruct (_ <? SERIALIZATION_VERSION_V2) in H; [done|].
  cbn [m_view_public_key m_view_secret_key] in H.
  destruct (negb (keys_match _ _)) in H; [done|].
  destruct (_ >? _) in H; [done|].
  destruct (file_read file _ _) as [all_encrypted|] eqn:E3; [|done].
  cbn [bind] in H.
  apply file_read_ok in E3 as [Hlen3 ->].
  fold HEADER_SIZE in H, Hlen3.
  split; [exact Hlen3|].
  pose proof (load_records_ok _ _ _ _ _ _ _ (Z.le_refl 0) H) as (Hr & Ho & _).
  cbn [m_wallet_records m_oldest_timestamp] in Hr, Ho.
  split; [exact Hr|]. split.
  { rewrite Ho. unfold file_records. by rewrite map_map. }
  intros r0 Hhd. unfold file_records in *.
  destruct (split_records _ _) as [|e0 rest] eqn:Es; [done|].
  injection Hhd as <-.
  apply Forall_map.
  exact (load_records_uniform _ _ _ _ _ _ e0 H eq_refl).
Qed.

Lemma load_container_storage_error (file wallet_key : list byte) (w : Wallet)
    (e : error) :
  (HEADER_SIZE + EWR_SIZE * Z.to_nat (file_item_count file) <= length file)%nat ->
  load_container_storage file wallet_key w = Throw e ->
  e = WALLET_FILE_DECRYPT_ERROR.
Proof.
  intros Hlen. unfold load_container_storage, file_read.
  unfold HEADER_SIZE in Hlen.
  destruct (decide (0 + 1 <= length file)%nat); [|lia].
  destruct (decide (1 + PREFIX_SIZE <= length file)%nat); [|lia].
  destruct (decide (1 + PREFIX_SIZE + 2 * 8 <= length file)%nat); [|lia].
  cbn [bind].
  rewrite !slice_slice by lia. rewrite Nat.add_0_r.
  fold (f_item_capacity file) (f_item_count file).
  fold (file_item_count file).
  destruct (_ <? SERIALIZATION_VERSION_V2); [by intros [= <-]|].
  destruct (negb (keys_match _ _)); [by intros [= <-]|].
  destruct (_ >? _); [by intros [= <-]|].
  destruct (decide _) as [|Hn]; [|lia].
  cbn [bind]. apply load_records_error.
Qed.

Lemma length_file_records (file wallet_key : list byte) :
  length (file_records file wallet_key) = Z.to_nat (file_item_count file).
Proof. unfold file_records. by rewrite length_map, length_split_records. Qed.

Lemma file_item_count_nonneg (file : list byte) : 0 <= file_item_count file.
Proof.
  unfold file_item_count, f_item_count, f_item_capacity.
  pose proof (uint_le_from_bytes_range (slice file (1 + PREFIX_SIZE + 8) 8)).
  pose proof (uint_le_from_bytes_range (slice file (1 + PREFIX_SIZE) 8)).
  lia.
Qed.

Lemma foldl_min_le (l : list Z) (a : Z) :
  foldl Z.min a l <= a /\ Forall (fun x => foldl Z.min a l <= x) l.
Proof.
  revert a. induction l as [|x l IH]; intros a; cbn [foldl]; [split; [lia|done]|].
  destruct (IH (Z.min a x)) as [H1 H2]. split; [lia|].
  constructor; [lia|done].
Qed.

Lemma foldl_min_attained (l : list Z) (a : Z) :
  foldl Z.min a l = a \/ foldl Z.min a l ∈ l.
Proof.
  revert a. induction l as [|x l IH]; intros a; cbn [foldl]; [by left|].
  destruct (IH (Z.min a x)) as [H|H].
  - rewrite H. destruct (Z.min_spec a x) as [[_ ->]|[_ ->]]; [by left|right; left].
  - right. by right.
Qed.

Lemma to_Timestamp_le (x : Z) : 0 <= TIMESTAMP_MAX -> to_Timestamp x <= TIMESTAMP_MAX.
Proof.
  intros H. unfold to_Timestamp.
  pose proof (Z.mod_pos_bound x (TIMESTAMP_MAX + 1)). lia.
Qed.

Lemma file_records_timestamp_le (file wallet_key : list byte) :
  0 <= TIMESTAMP_MAX ->
  Forall (fun r => creation_timestamp r <= TIMESTAMP_MAX) (file_records file wallet_key).
Proof.
  intros H. unfold file_records. apply Forall_map, Forall_forall. intros e _.
  cbn. by apply to_Timestamp_le.
Qed.

(** *** The oldest timestamp under the operations *)

Lemma save_and_check_oldest (w : Wallet) :
  m_oldest_timestamp (fst (save_and_check w)) = m_oldest_timestamp w.
Proof. unfold save_and_check. by destruct (disk w). Qed.

Lemma new_record_oldest (s s1 : gna_state) (sk : SecretKey) (ct now : Z)
    (r : result WalletRecord) :
  new_record s sk ct now = Some (s1, r) -> oldest_of s1 <= oldest_of s.
Proof.
  unfold new_record, oldest_of.
  destruct (bool_decide (sk = zero_key)).
  - destruct (random_fresh_keypair _ _) as [[kp random']|]; [|done].
    intros [= <- _]. cbn. lia.
  - destruct (secret_key_to_public_key sk); intros [= <- _]; lia.
Qed.

Lemma store_record_oldest (s s' : gna_state) (record : WalletRecord) :
  outcome_state (store_record s record) = Some s' -> oldest_of s' <= oldest_of s.
Proof.
  unfold store_record, oldest_of.
  destruct (m_records_map (g_wallet s) !! spend_public_key record) as [idx|].
  - destruct (m_wallet_records (g_wallet s) !! idx) as [stored|].
    + destruct (_ >? _); intros [= <-]; cbn; lia.
    + intros [= <-]. lia.
  - intros [= <-]. cbn. lia.
Qed.

Lemma gna_step_oldest (ct now : Z) (s s' : gna_state) (sk : SecretKey) :
  outcome_state (gna_step ct now s sk) = Some s' -> oldest_of s' <= oldest_of s.
Proof.
  unfold gna_step.
  destruct (new_record s sk ct now) as [[s1 [record|e]]|] eqn:E; [| |done].
  - intros H. apply store_record_oldest in H. apply new_record_oldest in E. lia.
  - intros [= <-]. by apply new_record_oldest in E.
Qed.

Lemma gna_loop_oldest (ct now : Z) (sks : list SecretKey) :
  forall s s' : gna_state,
    outcome_state (gna_loop ct now s sks) = Some s' -> oldest_of s' <= oldest_of s.
Proof.
  induction sks as [|sk sks IH]; intros s s' H.
  - injection H as <-. lia.
  - cbn [gna_loop] in H.
    destruct (gna_step ct now s sk) as [s1|s1 e|] eqn:E; [| |done].
    + apply IH in H.
      assert (oldest_of s1 <= oldest_of s) by (apply (gna_step_oldest ct now s s1 sk); by rewrite E).
      lia.
    + apply (gna_step_oldest ct now s s' sk). by rewrite E.
Qed.

Lemma generate_new_addresses_oldest (w : Wallet) (rescan_from_ct : bool)
    (random : list (PublicKey * SecretKey)) (sks : list SecretKey) (ct now : Z)
    (s' : gna_state) :
  outcome_state (generate_new_addresses w rescan_from_ct random sks ct now) = Some s' ->
  oldest_of s' <= m_oldest_timestamp w.
Proof.
  unfold generate_new_addresses.
  destruct (is_view_only w) as [[|]|e]; [by intros [= <-]| |by intros [= <-]].
  assert (Hsave : forall w0 : Wallet,
    m_oldest_timestamp
      (fst (if negb (m_file_open w0) then save_and_check w0 else (w0, Ok ())))
    = m_oldest_timestamp w0).
  { intros w0. destruct (negb (m_file_open w0)); [apply save_and_check_oldest|done]. }
  specialize (Hsave w).
  destruct (if negb (m_file_open w) then save_and_check w else (w, Ok ()))
    as [w1 [[]|e]]; cbn [fst] in Hsave.
  2: { intros [= <-]. unfold oldest_of. cbn. lia. }
  match goal with |- context [gna_loop ct now ?s0 sks] => set (s0' := s0) end.
  destruct (gna_loop ct now s0' sks) as [s1|s1 e|] eqn:E; [| |done].
  - assert (H1 : oldest_of s1 <= oldest_of s0')
      by (apply (gna_loop_oldest ct now sks); by rewrite E).
    unfold oldest_of in H1 at 2. cbn in H1.
    destruct (g_rescan_from_ct _).
    + pose proof (save_and_check_oldest (g_wallet (with_io s1
        [IoFsync; IoSeek (1 + Z.of_nat PREFIX_SIZE);
         IoWriteCount (Z.of_nat (length (m_wallet_records (g_wallet s1))));
         IoWriteCount (Z.of_nat (length (m_wallet_records (g_wallet s1)))); IoFsync])))
        as Hs.
      destruct (save_and_check _) as [w2 [[]|e]]; cbn [fst] in Hs;
        intros [= <-]; unfold oldest_of in *; cbn in *; lia.
    + intros [= <-]. unfold oldest_of in *. cbn in *. lia.
  - intros [= <-].
    assert (H1 : oldest_of s1 <= oldest_of s0')
      by (apply (gna_loop_oldest ct now sks); by rewrite E).
    unfold oldest_of in *. cbn in H1. lia.
Qed.

Lemma on_first_output_found_oldest (net : string) (w : Wallet) (ts : Z) :
  m_oldest_timestamp (fst (on_first_output_found net w ts))
  = if bool_decide (net = "main"%string) && negb (ts =? 0) && (m_oldest_timestamp w =? 0)
    then ts else m_oldest_timestamp w.
Proof.
  unfold on_first_output_found.
  destruct (bool_decide (net = "main"%string)); [|done]. cbn [negb andb].
  destruct (ts =? 0); [done|]. cbn [negb orb].
  destruct (m_oldest_timestamp w =? 0); [|done]. cbn [negb].
  by rewrite save_and_check_oldest.
Qed.

(** *** The claims about the container *)

(** C5.  A V2 file that loads leaves exactly [min (file_item_count,
    file_item_capacity)] more records in [m_wallet_records] than there were:
    the decrypted slots that follow the header, in file order.  On a fresh
    wallet object that is the number of records of the wallet. *)
Theorem load_keeps_min_count_capacity (file wallet_key : list byte) (w w' : Wallet) :
  load_container_storage file wallet_key w = Ok w' ->
  m_wallet_records w' = m_wallet_records w ++ file_records file wallet_key /\
  Z.of_nat (length (file_records file wallet_key))
    = Z.min (f_item_count file) (f_item_capacity file) /\
  Z.of_nat (length (m_wallet_records w'))
    = Z.of_nat (length (m_wallet_records w))
      + Z.min (f_item_count file) (f_item_capacity file).
Proof.
  intros H. apply load_container_storage_ok in H as (_ & Hr & _).
  pose proof (file_item_count_nonneg file) as Hn.
  pose proof (length_file_records file wallet_key) as Hl.
  unfold file_item_count in *.
  split; [exact Hr|]. split; [lia|].
  rewrite Hr, length_app. lia.
Qed.

(** C7.  In a wallet loaded from a V2 file either every record has a zero
    spend secret or none has, as record 0 has it; and a file whose header
    and record slots are all there, but where some later record disagrees
    with record 0, does not load: [WALLET_FILE_DECRYPT_ERROR]. *)
Theorem load_tracking_mode_uniform (file wallet_key : list byte) :
  (forall w' : Wallet,
     load_container_storage file wallet_key new_wallet = Ok w' ->
     (Forall (fun r => spend_secret_key r = zero_key) (m_wallet_records w') \/
      Forall (fun r => spend_secret_key r <> zero_key) (m_wallet_records w')) /\
     (forall r0, head (m_wallet_records w') = Some r0 ->
      Forall (fun r => spend_secret_key r = zero_key <-> spend_secret_key r0 = zero_key)
        (m_wallet_records w'))) /\
  (forall (w : Wallet) (i : nat) (r0 ri : WalletRecord),
     (HEADER_SIZE + EWR_SIZE * Z.to_nat (file_item_count file) <= length file)%nat ->
     file_records file wallet_key !! 0%nat = Some r0 ->
     file_records file wallet_key !! i = Some ri ->
     no_secret ri <> no_secret r0 ->
     load_container_storage file wallet_key w = Throw WALLET_FILE_DECRYPT_ERROR).
Proof.
  split.
  - intros w' H. apply load_container_storage_ok in H as (_ & Hr & _ & Hu).
    cbn [new_wallet m_wallet_records app] in Hr. rewrite Hr.
    assert (Hsame : forall r0, head (file_records file wallet_key) = Some r0 ->
      Forall (fun r => spend_secret_key r = zero_key <-> spend_secret_key r0 = zero_key)
        (file_records file wallet_key)).
    { intros r0 Hhd. eapply Forall_impl; [exact (Hu r0 Hhd)|].
      intros r Hrr. unfold no_secret in Hrr.
      destruct (decide (spend_secret_key r = zero_key)) as [Hz|Hz],
               (decide (spend_secret_key r0 = zero_key)) as [Hz0|Hz0];
        rewrite ?(bool_decide_eq_true_2 _ Hz), ?(bool_decide_eq_false_2 _ Hz),
          ?(bool_decide_eq_true_2 _ Hz0), ?(bool_decide_eq_false_2 _ Hz0) in Hrr;
        try discriminate; split; intros ?; first [assumption | contradiction]. }
    split; [|exact Hsame].
    destruct (file_records file wallet_key) as [|r0 rest] eqn:E; [left; constructor|].
    specialize (Hsame r0 eq_refl).
    destruct (decide (spend_secret_key r0 = zero_key)) as [Hz|Hz]; [left|right];
      (eapply Forall_impl; [exact Hsame|]); cbn; intros r Hrr.
    + apply Hrr, Hz.
    + intros Hc. apply Hz, Hrr, Hc.
  - intros w i r0 ri Hlen H0 Hi Hne.
    destruct (load_container_storage file wallet_key w) as [w'|e] eqn:E.
    + exfalso. apply load_container_storage_ok in E as (_ & _ & _ & Hu).
      assert (Hhd : head (file_records file wallet_key) = Some r0).
      { destruct (file_records file wallet_key); [done|]. by injection H0 as ->. }
      specialize (Hu r0 Hhd). rewrite Forall_lookup in Hu.
      apply Hne. exact (Hu i ri Hi).
    + f_equal. by apply (load_container_storage_error file wallet_key w).
Qed.

(** C2, as the code has it.  A fresh wallet object that loads a V2 file
    ends with [m_oldest_timestamp] at the least [creation_timestamp] of its
    records; no load raises it; [generate_new_addresses] never raises it,
    whether it returns or throws; [on_first_output_found] leaves it as it
    is unless it is 0 (unknown), the net is "main" and [ts] is not 0, and
    then replaces the 0 by [ts]. *)
Theorem oldest_timestamp_lifetime :
  0 <= TIMESTAMP_MAX ->
  (forall (file wallet_key : list byte) (w' : Wallet),
     load_container_storage file wallet_key new_wallet = Ok w' ->
     Forall (fun r => m_oldest_timestamp w' <= creation_timestamp r)
       (m_wallet_records w') /\
     (m_wallet_records w' <> [] ->
      exists r, r ∈ m_wallet_records w' /\
                creation_timestamp r = m_oldest_timestamp w')) /\
  (forall (file wallet_key : list byte) (w w' : Wallet),
     load_container_storage file wallet_key w = Ok w' ->
     m_oldest_timestamp w' <= m_oldest_timestamp w) /\
  (forall (w : Wallet) (rescan_from_ct : bool) (random : list (PublicKey * SecretKey))
          (sks : list SecretKey) (ct now : Z) (s' : gna_state),
     outcome_state (generate_new_addresses w rescan_from_ct random sks ct now) = Some s' ->
     m_oldest_timestamp (g_wallet s') <= m_oldest_timestamp w) /\
  (forall (net : string) (w : Wallet) (ts : Z),
     m_oldest_timestamp (fst (on_first_output_found net w ts))
     = if bool_decide (net = "main"%string) && negb (ts =? 0)
          && (m_oldest_timestamp w =? 0)
       then ts else m_oldest_timestamp w).
Proof.
  intros Hmax. split; [|split; [|split]].
  - intros file wallet_key w' H.
    apply load_container_storage_ok in H as (_ & Hr & Ho & _).
    cbn [new_wallet m_wallet_records m_oldest_timestamp app] in Hr, Ho.
    rewrite Hr, Ho.
    set (recs := file_records file wallet_key).
    destruct (foldl_min_le (map creation_timestamp recs) TIMESTAMP_MAX) as [Hle Hall].
    split.
    + rewrite Forall_map in Hall. exact Hall.
    + intros Hne.
      destruct (foldl_min_attained (map creation_timestamp recs) TIMESTAMP_MAX)
        as [Heq|Hin].
      * destruct recs as [|r rest] eqn:E; [done|].
        pose proof (file_records_timestamp_le file wallet_key Hmax) as Hb.
        fold recs in Hb. rewrite E in Hb.
        apply Forall_cons in Hb as [Hb _].
        apply Forall_cons in Hall as [Hall _].
        exists r. split; [left|]. lia.
      * apply list_elem_of_fmap in Hin as (r & Hr' & Hin). eauto.
  - intros file wallet_key w w' H.
    apply load_container_storage_ok in H as (_ & _ & Ho & _).
    rewrite Ho. apply foldl_min_le.
  - intros w rescan_from_ct random sks ct now s'.
    apply generate_new_addresses_oldest.
  - apply on_first_output_found_oldest.
Qed.


(** The state in which the loop over [sks] starts, and the file
    operations that follow the loop. *)
Definition gna_start (w : Wallet) (random : list (PublicKey * SecretKey)) : gna_state :=
  {| g_wallet := w; g_rescan_from_ct := false; g_result := [];
     g_random := random;
     g_io := [IoSeek (wallet_file_size (Z.of_nat (length (m_wallet_records w))))] |}.

Definition gna_counters (s : gna_state) : list io_event :=
  let n := Z.of_nat (length (m_wallet_records (g_wallet s))) in
  [IoFsync; IoSeek (1 + Z.of_nat PREFIX_SIZE); IoWriteCount n; IoWriteCount n; IoFsync].

Lemma with_file_open_id (w : Wallet) :
  m_file_open w = true -> with_file_open w true = w.
Proof. destruct w. cbn. by intros ->. Qed.

(** A call that returns: the loop went through from the start state, the
    rewrites of [save_and_check] that were due went through, and the
    state returned is the state after the loop with the counters written
    and, after a rewrite, [m_file] reopened. *)
Lemma generate_new_addresses_next (w : Wallet) (rescan_from_ct : bool)
    (random : list (PublicKey * SecretKey)) (sks : list SecretKey) (ct now : Z)
    (s' : gna_state) :
  generate_new_addresses w rescan_from_ct random sks ct now = Next s' ->
  exists s_end : gna_state,
    gna_loop ct now (gna_start (with_file_open w true) random) sks = Next s_end /\
    (m_file_open w = false -> disk w = Saved) /\
    (g_rescan_from_ct s_end = true -> disk (g_wallet s_end) = Saved) /\
    s' = (if g_rescan_from_ct s_end
          then with_wallet (with_io s_end (gna_counters s_end))
                 (with_file_open (g_wallet s_end) true)
          else with_io s_end (gna_counters s_end)).
Proof.
  unfold generate_new_addresses. intros H.
  destruct (is_view_only w) as [[]|]; [done| |done].
  assert (Hentry : (if negb (m_file_open w) then save_and_check w else (w, Ok ()))
                   = (with_file_open w true, Ok ()) /\
                   (m_file_open w = false -> disk w = Saved)
                   \/ exists w1 e, (if negb (m_file_open w) then save_and_check w
                                    else (w, Ok ())) = (w1, Throw e)).
  { destruct (m_file_open w) eqn:Eopen; cbn [negb].
    - left. by rewrite with_file_open_id.
    - unfold save_and_check. destruct (disk w); [by left|right; eauto..]. }
  destruct Hentry as [[Hentry Hdisk]|(w1 & e & Hentry)]; rewrite Hentry in H; [|done].
  change {| g_wallet := with_file_open w true; g_rescan_from_ct := false;
            g_result := []; g_random := random;
            g_io := [IoSeek (wallet_file_size
                       (Z.of_nat (length (m_wallet_records (with_file_open w true)))))] |}
    with (gna_start (with_file_open w true) random) in H.
  destruct (gna_loop ct now _ sks) as [s_end|s_end e|]; [|done|done].
  exists s_end. split; [done|]. split; [done|].
  change (g_rescan_from_ct (with_io s_end _)) with (g_rescan_from_ct s_end) in H.
  destruct (g_rescan_from_ct s_end).
  - cbn [with_io g_wallet] in H. unfold save_and_check in H.
    destruct (disk (g_wallet s_end)); [|done|done].
    injection H as <-. by split.
  - injection H as <-. by split.
Qed.








(** C9.  [get_record] answers [false] and leaves [*record] alone for every
    address that is not of the simple variant and for every simple address
    with another view public key; an address that [is_our_address] accepts
    is a simple one with the view public key of the wallet and a spend
    public key that the map sends to the index of a record. *)
Theorem get_record_simple_own_view_only (w : Wallet) (record : WalletRecord) :
  (forall (s sv : PublicKey) (is_auditable : bool),
     get_record w record (AccountAddressUnlinkable s sv is_auditable)
     = Ok (false, record)) /\
  (forall spend view : PublicKey,
     view <> m_view_public_key w ->
     get_record w record (AccountAddressSimple spend view) = Ok (false, record)) /\
  (forall v_addr : AccountAddress,
     is_our_address w v_addr = Ok true ->
     exists (spend : PublicKey) (idx : nat),
       v_addr = AccountAddressSimple spend (m_view_public_key w) /\
       m_records_map w !! spend = Some idx /\
       (idx < length (m_wallet_records w))%nat).
Proof.
  split; [done|]. split.
  - intros spend view Hne. cbn [get_record].
    rewrite bool_decide_eq_false_2 by congruence. done.
  - intros [spend view|s sv a]; unfold is_our_address; cbn [get_record]; [|done].
    destruct (decide (m_view_public_key w = view)) as [<-|Hne];
      [rewrite bool_decide_eq_true_2 by done
      |rewrite bool_decide_eq_false_2 by done; done].
    destruct (m_records_map w !! spend) as [idx|] eqn:Em; [|done].
    rewrite bool_decide_eq_false_2 by done. cbn [negb orb].
    unfold get_actual_records_count.
    destruct (decide (length (m_wallet_records w) <= idx)%nat) as [Hge|Hlt];
      [rewrite bool_decide_eq_true_2 by done; done
      |rewrite bool_decide_eq_false_2 by done].
    intros _. exists spend, idx. repeat split; [done|lia].
Qed.

(** *** Saving a wallet and loading it back *)

(** [chacha8] writes as many bytes as it reads, and under one key and one
    iv it is its own inverse (a stream cipher). *)
Hypothesis chacha8_length :
  forall data key iv, length (chacha8 data key iv) = length data.
Hypothesis chacha8_involutive :
  forall data key iv, chacha8 (chacha8 data key iv) key iv = data.

(** The values the C++ types hold: keys of [KEY_SIZE] bytes and a
    [Timestamp]. *)
Definition record_wf (r : WalletRecord) : Prop :=
  length (spend_public_key r) = KEY_SIZE /\
  length (spend_secret_key r) = KEY_SIZE /\
  0 <= creation_timestamp r <= TIMESTAMP_MAX.

Definition wallet_wf (w : Wallet) : Prop :=
  length (m_view_public_key w) = KEY_SIZE /\
  length (m_view_secret_key w) = KEY_SIZE /\
  Forall record_wf (m_wallet_records w).

(** [save] with [view_only] writes every record without its secret. *)
Definition saved_record (view_only : bool) (r : WalletRecord) : WalletRecord :=
  {| spend_public_key := spend_public_key r;
     spend_secret_key := if view_only then zero_key else spend_secret_key r;
     creation_timestamp := creation_timestamp r |}.

(** The check [load_container_storage] makes on the first and the last
    [CHECK_KEYS_COUNT] records, and [export_wallet] on all of them. *)
Definition keys_check (r : WalletRecord) : bool :=
  if negb (bool_decide (spend_secret_key r = zero_key))
  then keys_match (spend_secret_key r) (spend_public_key r)
  else key_isvalid (spend_public_key r).

(** The plain text of a record: public key, secret key, timestamp. *)
Lemma rec_data_layout (pk sk : list byte) (ct : Z) :
  length pk = KEY_SIZE -> length sk = KEY_SIZE ->
  memcpy_at (memcpy_at (memcpy_at (zeros RECORD_DATA_SIZE) 0 pk) KEY_SIZE sk)
    (KEY_SIZE + KEY_SIZE) (uint_le_to_bytes 8 ct)
  = pk ++ sk ++ uint_le_to_bytes 8 ct.
Proof.
  intros Hpk Hsk. rewrite memcpy_at_0, Hpk.
  pose proof (memcpy_at_app pk (drop KEY_SIZE (zeros RECORD_DATA_SIZE)) sk) as H1.
  rewrite Hpk, Hsk in H1. rewrite H1. clear H1.
  pose proof (memcpy_at_app (pk ++ sk)
                (drop KEY_SIZE (drop KEY_SIZE (zeros RECORD_DATA_SIZE)))
                (uint_le_to_bytes 8 ct)) as H2.
  rewrite length_app, Hpk, Hsk, <- app_assoc in H2. rewrite H2. clear H2.
  unfold zeros, RECORD_DATA_SIZE.
  rewrite !drop_replicate, length_uint_le_to_bytes.
  replace (KEY_SIZE + KEY_SIZE + 8 - KEY_SIZE - KEY_SIZE - 8)%nat with 0%nat by lia.
  cbn [replicate]. by rewrite app_nil_r, <- app_assoc.
Qed.

(** The keys come back whatever the timestamp field holds. *)
Lemma decrypt_encrypt_keys (iv pk sk key : list byte) (ct : Z) :
  length pk = KEY_SIZE -> length sk = KEY_SIZE ->
  spend_public_key (decrypt_key_pair (encrypt_key_pair iv pk sk ct key) key) = pk /\
  spend_secret_key (decrypt_key_pair (encrypt_key_pair iv pk sk ct key) key) = sk /\
  creation_timestamp (decrypt_key_pair (encrypt_key_pair iv pk sk ct key) key)
  = to_Timestamp (ct mod 2 ^ 64).
Proof using chacha8_involutive.
  intros Hpk Hsk. unfold decrypt_key_pair, encrypt_key_pair.
  cbn [ewr_data ewr_iv spend_public_key spend_secret_key creation_timestamp].
  rewrite chacha8_involutive, rec_data_layout by done.
  split; [|split].
  - rewrite <- Hpk. apply slice_app_l.
  - rewrite <- Hpk at 1. rewrite slice_app_r. rewrite <- Hsk. apply take_app_length.
  - replace (KEY_SIZE + KEY_SIZE)%nat with (length (pk ++ sk))
      by (rewrite length_app; lia).
    rewrite app_assoc, slice_app_r.
    rewrite take_ge by (rewrite length_uint_le_to_bytes; lia).
    by rewrite uint_le_from_to_bytes.
Qed.

Lemma decrypt_encrypt_key_pair_eq (iv pk sk key : list byte) (ct : Z) :
  length pk = KEY_SIZE -> length sk = KEY_SIZE ->
  0 <= ct <= TIMESTAMP_MAX -> TIMESTAMP_MAX < 2 ^ 64 ->
  decrypt_key_pair (encrypt_key_pair iv pk sk ct key) key
  = {| spend_public_key := pk; spend_secret_key := sk; creation_timestamp := ct |}.
Proof using chacha8_involutive.
  intros Hpk Hsk Hct Hmax.
  destruct (decrypt_encrypt_keys iv pk sk key ct Hpk Hsk) as (H1 & H2 & H3).
  destruct (decrypt_key_pair _ _) as [pk' sk' ct']. cbn in H1, H2, H3. subst.
  f_equal. rewrite Z.mod_small by lia. unfold to_Timestamp. apply Z.mod_small. lia.
Qed.

(** X1.  [decrypt_key_pair] undoes [encrypt_key_pair]: whatever the iv,
    a record of two 32-byte keys and a timestamp that was encrypted under
    a key decrypts under that key to the same public key, secret key and
    timestamp. *)
Theorem decrypt_encrypt_key_pair (iv pk sk key : list byte) (ct : Z) :
  length pk = KEY_SIZE -> length sk = KEY_SIZE ->
  0 <= ct <= TIMESTAMP_MAX -> TIMESTAMP_MAX < 2 ^ 64 ->
  let r := decrypt_key_pair (encrypt_key_pair iv pk sk ct key) key in
  spend_public_key r = pk /\ spend_secret_key r = sk /\ creation_timestamp r = ct.
Proof using chacha8_involutive.
  intros Hpk Hsk Hct Hmax. cbv zeta.
  by rewrite decrypt_encrypt_key_pair_eq.
Qed.

(** An [EncryptedWalletRecord] as the packed struct has it. *)
Definition enc_wf (e : EncryptedWalletRecord) : Prop :=
  length (ewr_iv e) = CHACHA_IV_SIZE /\ length (ewr_data e) = RECORD_DATA_SIZE.

(** The records [save] writes after the header. *)
Definition saved_encrypted (w : Wallet) (wallet_key : list byte) (view_only : bool)
    (ivs : nat -> list byte) : list EncryptedWalletRecord :=
  imap (fun i rec =>
          encrypt_key_pair (ivs (S i)) (spend_public_key rec)
            (if view_only then zero_key else spend_secret_key rec)
            (creation_timestamp rec) wallet_key)
       (m_wallet_records w).

Lemma encrypt_key_pair_wf (iv pk sk key : list byte) (ct : Z) :
  length iv = CHACHA_IV_SIZE -> length pk = KEY_SIZE -> length sk = KEY_SIZE ->
  enc_wf (encrypt_key_pair iv pk sk ct key).
Proof using chacha8_length.
  intros Hiv Hpk Hsk. split; [done|]. unfold encrypt_key_pair. cbn [ewr_data].
  rewrite chacha8_length, rec_data_layout by done.
  rewrite !length_app, length_uint_le_to_bytes, Hpk, Hsk. done.
Qed.

Lemma length_record_bytes (e : EncryptedWalletRecord) :
  enc_wf e -> length (record_bytes e) = EWR_SIZE.
Proof. intros [Hiv Hdata]. unfold record_bytes, EWR_SIZE. rewrite length_app. lia. Qed.

Lemma parse_record_bytes (e : EncryptedWalletRecord) :
  enc_wf e -> parse_encrypted_record (record_bytes e) = e.
Proof.
  intros [Hiv Hdata]. unfold parse_encrypted_record, record_bytes.
  destruct e as [iv data]. cbn [ewr_iv ewr_data] in *. f_equal.
  - rewrite <- Hiv. apply slice_app_l.
  - rewrite <- Hiv. rewrite slice_app_r. apply take_ge. lia.
Qed.

Lemma split_records_concat (encs : list EncryptedWalletRecord) (rest : list byte) :
  Forall enc_wf encs ->
  split_records (length encs) (concat (map record_bytes encs) ++ rest) = encs.
Proof.
  induction 1 as [|e encs He _ IH]; [done|].
  cbn [length split_records map concat]. rewrite <- app_assoc.
  rewrite <- (length_record_bytes e He).
  by rewrite take_app_length, drop_app_length, parse_record_bytes, IH.
Qed.

Lemma length_concat_record_bytes (encs : list EncryptedWalletRecord) :
  Forall enc_wf encs ->
  length (concat (map record_bytes encs)) = (EWR_SIZE * length encs)%nat.
Proof.
  induction 1 as [|e encs He _ IH]; [cbn; lia|].
  cbn [map concat length]. rewrite length_app, IH, (length_record_bytes e He). lia.
Qed.

Lemma saved_encrypted_wf (w : Wallet) (wallet_key : list byte) (view_only : bool)
    (ivs : nat -> list byte) :
  wallet_wf w -> (forall i, length (ivs i) = CHACHA_IV_SIZE) ->
  Forall enc_wf (saved_encrypted w wallet_key view_only ivs).
Proof using chacha8_length.
  intros (_ & _ & Hrs) Hivs. unfold saved_encrypted.
  apply Forall_lookup. intros i e He.
  apply list_lookup_imap_Some in He as (r & Hr & ->).
  rewrite Forall_lookup in Hrs. destruct (Hrs i r Hr) as (Hpk & Hsk & _).
  apply encrypt_key_pair_wf; [done|done|].
  destruct view_only; [apply length_zeros|done].
Qed.

Lemma length_saved_encrypted (w : Wallet) (wallet_key : list byte) (view_only : bool)
    (ivs : nat -> list byte) :
  length (saved_encrypted w wallet_key view_only ivs) = length (m_wallet_records w).
Proof. unfold saved_encrypted. apply length_imap. Qed.

Lemma decrypt_saved_encrypted (w : Wallet) (wallet_key : list byte) (view_only : bool)
    (ivs : nat -> list byte) :
  TIMESTAMP_MAX < 2 ^ 64 -> wallet_wf w ->
  map (fun e => decrypt_key_pair e wallet_key)
    (saved_encrypted w wallet_key view_only ivs)
  = map (saved_record view_only) (m_wallet_records w).
Proof using chacha8_involutive.
  intros Hmax (_ & _ & Hrs). unfold saved_encrypted.
  apply list_eq. intros i. rewrite !list_lookup_fmap, list_lookup_imap.
  destruct (m_wallet_records w !! i) as [r|] eqn:Hr; [|done]. cbn. f_equal.
  rewrite Forall_lookup in Hrs. destruct (Hrs i r Hr) as (Hpk & Hsk & Hct).
  apply decrypt_encrypt_key_pair_eq; [done| |done|done].
  by destruct view_only.
Qed.

(** The file [save] writes, piece by piece. *)
Lemma save_layout (w : Wallet) (wallet_key : list byte) (view_only : bool)
    (ivs : nat -> list byte) :
  save w wallet_key view_only ivs
  = uint_le_to_bytes 1 SERIALIZATION_VERSION_V2
    ++ (zeros CHACHA_IV_SIZE
        ++ record_bytes (encrypt_key_pair (ivs 0%nat) (m_view_public_key w)
                           (m_view_secret_key w) (m_oldest_timestamp w) wallet_key))
    ++ uint_le_to_bytes 8 (Z.of_nat (length (m_wallet_records w)))
    ++ uint_le_to_bytes 8 (Z.of_nat (length (m_wallet_records w)))
    ++ concat (map record_bytes (saved_encrypted w wallet_key view_only ivs)).
Proof.
  unfold save, saved_encrypted. do 5 f_equal.
  by rewrite fmap_imap.
Qed.

Lemma length_save (w : Wallet) (wallet_key : list byte) (view_only : bool)
    (ivs : nat -> list byte) :
  wallet_wf w -> (forall i, length (ivs i) = CHACHA_IV_SIZE) ->
  length (save w wallet_key view_only ivs)
  = (HEADER_SIZE + EWR_SIZE * length (m_wallet_records w))%nat.
Proof using chacha8_length.
  intros Hwf Hivs. rewrite save_layout.
  pose proof (saved_encrypted_wf w wallet_key view_only ivs Hwf Hivs) as Hencs.
  destruct Hwf as (Hvpk & Hvsk & _).
  rewrite !length_app, !length_uint_le_to_bytes, length_zeros,
    length_concat_record_bytes, length_saved_encrypted by done.
  rewrite length_record_bytes by (by apply encrypt_key_pair_wf).
  unfold HEADER_SIZE, PREFIX_SIZE. lia.
Qed.

(** X2.  The file [save] writes is [wallet_file_size (n)] bytes long for a
    wallet of [n] records, the offset at which [generate_new_addresses]
    then appends: the header and [n] record slots, and nothing else. *)
Theorem save_file_size (w : Wallet) (wallet_key : list byte) (view_only : bool)
    (ivs : nat -> list byte) :
  wallet_wf w -> (forall i, length (ivs i) = CHACHA_IV_SIZE) ->
  Z.of_nat (HEADER_SIZE + EWR_SIZE * length (m_wallet_records w)) < 2 ^ 64 ->
  Z.of_nat (length (save w wallet_key view_only ivs))
  = wallet_file_size (Z.of_nat (length (m_wallet_records w))).
Proof using chacha8_length.
  intros Hwf Hivs Hfit. rewrite length_save by done.
  unfold wallet_file_size, HEADER_SIZE in *. rewrite wrap64_small; lia.
Qed.

(** Records that agree on having a spend secret and pass the key check
    load, whatever their number, and the loop touches neither the view keys
    nor [m_file]. *)
Lemma load_records_accepts (wallet_key : list byte) (item_count : Z)
    (encs : list EncryptedWalletRecord) (mode : bool) :
  forall (i : Z) (tm : bool) (w : Wallet),
    (i <> 0 -> tm = mode) ->
    Forall (fun e => no_secret (decrypt_key_pair e wallet_key) = mode /\
                     keys_check (decrypt_key_pair e wallet_key) = true) encs ->
    exists w' : Wallet,
      load_records wallet_key item_count i encs tm w = Ok w' /\
      m_view_public_key w' = m_view_public_key w /\
      m_view_secret_key w' = m_view_secret_key w /\
      m_file_open w' = m_file_open w.
Proof.
  induction encs as [|enc rest IH]; intros i tm w Htm Hall.
  - exists w. by cbn.
  - apply Forall_cons in Hall as [[Hmode Hcheck] Hall].
    cbn [load_records].
    set (r := decrypt_key_pair enc wallet_key) in *.
    unfold keys_check in Hcheck. fold (no_secret r) in Hcheck |- *.
    rewrite Hmode in Hcheck |- *.
    assert (Hchecked :
      (if (i <? CHECK_KEYS_COUNT) || (wrap64 (item_count - CHECK_KEYS_COUNT) <=? i)
       then
         if negb mode
         then if keys_match (spend_secret_key r) (spend_public_key r)
              then Ok () else Throw WALLET_FILE_DECRYPT_ERROR
         else if key_isvalid (spend_public_key r)
              then Ok () else Throw WALLET_FILE_DECRYPT_ERROR
       else Ok ()) = Ok ()).
    { destruct (_ || _); [|done]. destruct (negb mode); by rewrite Hcheck. }
    rewrite Hchecked.
    destruct (i =? 0) eqn:Ei; cbn [bind].
    + edestruct (IH (i + 1) mode) as (w' & Hw' & H1 & H2 & H3); [done|done|].
      exists w'. split; [exact Hw'|]. by rewrite H1, H2, H3.
    + apply Z.eqb_neq in Ei. rewrite (Htm Ei).
      replace ((mode && negb mode) || (negb mode && mode)) with false
        by (by destruct mode).
      cbn [bind].
      edestruct (IH (i + 1) mode) as (w' & Hw' & H1 & H2 & H3); [done|done|].
      exists w'. split; [exact Hw'|]. by rewrite H1, H2, H3.
Qed.

Lemma slice_middle (a b c : list byte) :
  slice (a ++ b ++ c) (length a) (length b) = b.
Proof. unfold slice. by rewrite drop_app_length, take_app_length. Qed.

(** What [load_container_storage] makes of a file that [save] wrote. *)
Lemma load_saved (w w0 : Wallet) (wallet_key : list byte) (view_only : bool)
    (ivs : nat -> list byte) (mode : bool) :
  TIMESTAMP_MAX < 2 ^ 64 ->
  wallet_wf w -> (forall i, length (ivs i) = CHACHA_IV_SIZE) ->
  keys_match (m_view_secret_key w) (m_view_public_key w) = true ->
  Z.of_nat (length (m_wallet_records w)) <= SIZE_MAX / Z.of_nat EWR_SIZE ->
  Forall (fun r => no_secret r = mode /\ keys_check r = true)
    (map (saved_record view_only) (m_wallet_records w)) ->
  exists w' : Wallet,
    load_container_storage (save w wallet_key view_only ivs) wallet_key w0 = Ok w' /\
    m_view_public_key w' = m_view_public_key w /\
    m_view_secret_key w' = m_view_secret_key w /\
    m_wallet_records w'
      = m_wallet_records w0 ++ map (saved_record view_only) (m_wallet_records w) /\
    m_oldest_timestamp w'
      = foldl Z.min (m_oldest_timestamp w0)
          (map creation_timestamp (m_wallet_records w)) /\
    m_file_open w' = m_file_open w0.
Proof using chacha8_length chacha8_involutive.
  intros Hmax Hwf Hivs Hview Hcount Hall.
  pose proof (saved_encrypted_wf w wallet_key view_only ivs Hwf Hivs) as Hencs.
  pose proof (decrypt_saved_encrypted w wallet_key view_only ivs Hmax Hwf) as Hdec.
  pose proof (length_saved_encrypted w wallet_key view_only ivs) as Hlen.
  set (encs := saved_encrypted w wallet_key view_only ivs) in *.
  set (n := length (m_wallet_records w)) in *.
  set (V := uint_le_to_bytes 1 SERIALIZATION_VERSION_V2).
  set (view := encrypt_key_pair (ivs 0%nat) (m_view_public_key w)
                 (m_view_secret_key w) (m_oldest_timestamp w) wallet_key).
  set (P := zeros CHACHA_IV_SIZE ++ record_bytes view).
  set (C := uint_le_to_bytes 8 (Z.of_nat n)).
  set (R := concat (map record_bytes encs)).
  assert (Hfile : save w wallet_key view_only ivs = V ++ P ++ C ++ C ++ R)
    by apply save_layout.
  destruct Hwf as (Hvpk & Hvsk & Hrs).
  assert (Hviewwf : enc_wf view) by (by apply encrypt_key_pair_wf).
  assert (HV : length V = 1%nat) by apply length_uint_le_to_bytes.
  assert (HP : length P = PREFIX_SIZE).
  { subst P. rewrite length_app, length_zeros, length_record_bytes by done.
    reflexivity. }
  assert (HC : length C = 8%nat) by apply length_uint_le_to_bytes.
  assert (HR : length R = (EWR_SIZE * n)%nat).
  { subst R. rewrite length_concat_record_bytes by done. by rewrite Hlen. }
  assert (Hn : 0 <= Z.of_nat n < 2 ^ 64).
  { split; [lia|]. unfold SIZE_MAX in Hcount.
    assert (Hewr : 0 < Z.of_nat EWR_SIZE)
      by (unfold EWR_SIZE, RECORD_DATA_SIZE, KEY_SIZE; lia).
    pose proof (Z.div_le_upper_bound (2 ^ 64 - 1) (Z.of_nat EWR_SIZE) (2 ^ 64 - 1) Hewr).
    nia. }
  assert (H0 : file_read (save w wallet_key view_only ivs) 0 1 = Ok V).
  { unfold file_read. rewrite Hfile, decide_True by (rewrite !length_app; lia).
    reflexivity. }
  assert (H1 : file_read (save w wallet_key view_only ivs) 1 PREFIX_SIZE = Ok P).
  { unfold file_read. rewrite Hfile, decide_True by (rewrite !length_app; lia).
    f_equal. rewrite <- HV, <- HP. apply slice_middle. }
  assert (H2 : file_read (save w wallet_key view_only ivs) (1 + PREFIX_SIZE) (2 * 8)
               = Ok (C ++ C)).
  { unfold file_read. rewrite Hfile, decide_True by (rewrite !length_app; lia).
    f_equal.
    replace (V ++ P ++ C ++ C ++ R) with ((V ++ P) ++ (C ++ C) ++ R)
      by (by rewrite <- !app_assoc).
    replace (1 + PREFIX_SIZE)%nat with (length (V ++ P)) by (rewrite length_app; lia).
    replace (2 * 8)%nat with (length (C ++ C)) by (rewrite length_app; lia).
    apply slice_middle. }
  assert (H3 : file_read (save w wallet_key view_only ivs) (1 + PREFIX_SIZE + 2 * 8)
                 (EWR_SIZE * n) = Ok R).
  { unfold file_read. rewrite Hfile, decide_True by (rewrite !length_app; lia).
    f_equal.
    replace (V ++ P ++ C ++ C ++ R) with ((V ++ P ++ C ++ C) ++ R ++ [])
      by (by rewrite app_nil_r, <- !app_assoc).
    replace (1 + PREFIX_SIZE + 2 * 8)%nat with (length (V ++ P ++ C ++ C))
      by (rewrite !length_app; lia).
    rewrite <- HR. apply slice_middle. }
  unfold load_container_storage. rewrite H0, H1, H2. cbn [bind].
  assert (Hversion : uint_le_from_bytes V = SERIALIZATION_VERSION_V2).
  { subst V. by rewrite uint_le_from_to_bytes. }
  rewrite Hversion. change (SERIALIZATION_VERSION_V2 <? SERIALIZATION_VERSION_V2) with false.
  cbv iota.
  assert (Hcount0 : uint_le_from_bytes (slice (C ++ C) 0 8) = Z.of_nat n).
  { pose proof (slice_app_l C C) as Hs. rewrite HC in Hs. rewrite Hs. subst C.
    rewrite uint_le_from_to_bytes. apply Z.mod_small. exact Hn. }
  assert (Hcount1 : uint_le_from_bytes (slice (C ++ C) 8 8) = Z.of_nat n).
  { pose proof (slice_app_r C C 8) as Hs. rewrite HC in Hs.
    rewrite Hs, take_ge by lia. subst C.
    rewrite uint_le_from_to_bytes. apply Z.mod_small. exact Hn. }
  rewrite Hcount0, Hcount1, Z.min_id.
  assert (Hparse : parse_encrypted_record (drop CHACHA_IV_SIZE P) = view).
  { subst P. rewrite <- (length_zeros CHACHA_IV_SIZE) at 1.
    rewrite drop_app_length. by apply parse_record_bytes. }
  rewrite Hparse.
  destruct (decrypt_encrypt_keys (ivs 0%nat) (m_view_public_key w) (m_view_secret_key w)
              wallet_key (m_oldest_timestamp w) Hvpk Hvsk) as (Hk1 & Hk2 & _).
  fold view in Hk1, Hk2.
  cbn [m_view_public_key m_view_secret_key]. rewrite Hk1, Hk2, Hview. cbn [negb].
  replace (Z.of_nat n >? SIZE_MAX / Z.of_nat EWR_SIZE) with false
    by (symmetry; rewrite Z.gtb_ltb; apply Z.ltb_ge; lia).
  rewrite Nat2Z.id, H3. cbn [bind].
  pose proof (split_records_concat encs [] Hencs) as Hsplit.
  rewrite app_nil_r, Hlen in Hsplit. fold R in Hsplit. rewrite Hsplit.
  match goal with |- context [load_records _ _ _ _ _ ?w1] => set (w1' := w1) end.
  destruct (load_records_accepts wallet_key (Z.of_nat n) encs mode 0 false w1')
    as (w' & Hw' & Hv1 & Hv2 & Hfo); [done| |].
  { rewrite <- Hdec in Hall. apply Forall_fmap in Hall.
    eapply Forall_impl; [exact Hall|]. by intros e He. }
  exists w'. split; [exact Hw'|].
  destruct (load_records_ok _ _ _ _ _ _ _ (Z.le_refl 0) Hw') as (Hr & Ho & _).
  rewrite Hv1, Hv2, Hfo, Hr, Ho, Hdec. subst w1'.
  cbn [m_view_public_key m_view_secret_key m_wallet_records m_file_open
       m_oldest_timestamp].
  repeat split. f_equal.
  transitivity (map creation_timestamp
                  (map (fun e => decrypt_key_pair e wallet_key) encs));
    [by rewrite map_map|].
  rewrite Hdec, map_map. by apply map_ext.
Qed.

Lemma saved_record_false (r : WalletRecord) : saved_record false r = r.
Proof. by destruct r. Qed.

(** X3.  Save, then load: a wallet whose view keys match and whose
    records agree on having a spend secret and pass the key check is read
    back from the file [save] wrote for it, by a fresh object under the
    same key, with the same view keys and the same records in the same
    order; the oldest timestamp of the reader is the least timestamp of
    the records. *)
Theorem save_load_roundtrip (w : Wallet) (wallet_key : list byte)
    (ivs : nat -> list byte) (mode : bool) :
  TIMESTAMP_MAX < 2 ^ 64 ->
  wallet_wf w -> (forall i, length (ivs i) = CHACHA_IV_SIZE) ->
  keys_match (m_view_secret_key w) (m_view_public_key w) = true ->
  Z.of_nat (length (m_wallet_records w)) <= SIZE_MAX / Z.of_nat EWR_SIZE ->
  Forall (fun r => no_secret r = mode /\ keys_check r = true) (m_wallet_records w) ->
  exists w' : Wallet,
    load_container_storage (save w wallet_key false ivs) wallet_key new_wallet = Ok w' /\
    m_view_public_key w' = m_view_public_key w /\
    m_view_secret_key w' = m_view_secret_key w /\
    m_wallet_records w' = m_wallet_records w /\
    m_oldest_timestamp w'
      = foldl Z.min TIMESTAMP_MAX (map creation_timestamp (m_wallet_records w)).
Proof using chacha8_length chacha8_involutive.
  intros Hmax Hwf Hivs Hview Hcount Hall.
  assert (Hid : map (saved_record false) (m_wallet_records w) = m_wallet_records w).
  { rewrite <- (map_id (m_wallet_records w)) at 2.
    apply map_ext. intros r. apply saved_record_false. }
  destruct (load_saved w new_wallet wallet_key false ivs mode)
    as (w' & Hw' & H1 & H2 & H3 & H4 & _); try done.
  { by rewrite Hid. }
  exists w'. rewrite Hid in H3. by repeat split.
Qed.

(** *** Opening a wallet file *)

(** [crypto::cn_fast_hash], and [WalletSerializerV1::load] of
    WalletSerializationV1.hpp: from the key, the file and what its three
    references hold to what they hold afterwards. *)
Variable cn_fast_hash : list byte -> list byte.
Variable WalletSerializerV1_load :
  list byte -> list byte -> PublicKey * SecretKey * list WalletRecord ->
  result (PublicKey * SecretKey * list WalletRecord).

(** The seeds [load] derives for a wallet that can spend. *)
Record Seeds : Type := {
  m_seed : list byte;
  m_tx_derivation_seed : list byte;
  m_history_filename_seed : list byte;
  m_history_key : list byte
}.

Definition as_binary_array (s : string) : list byte :=
  Strings.String.list_byte_of_string s.

Definition derive_from_seed_legacy (seed : list byte) (append : string) : list byte :=
  cn_fast_hash (as_binary_array append ++ seed).

Definition load_legacy_wallet_file (file wallet_key : list byte) (w : Wallet)
  : result Wallet :=
  let* loaded :=
    WalletSerializerV1_load wallet_key file
      (m_view_public_key w, m_view_secret_key w, m_wallet_records w) in
  let '(vpk, vsk, records) := loaded in
  Ok (foldl (fun (w : Wallet) (ir : nat * WalletRecord) =>
               with_records_map
                 (with_oldest_timestamp w
                    (Z.min (m_oldest_timestamp w) (creation_timestamp ir.2)))
                 (map_insert_new (spend_public_key ir.2) ir.1 (m_records_map w)))
        {| m_view_public_key := vpk; m_view_secret_key := vsk;
           m_wallet_records := records; m_records_map := m_records_map w;
           m_oldest_timestamp := m_oldest_timestamp w;
           m_file_open := m_file_open w |}
        (imap (fun i r => (i, r)) records)).

(** [load], on the content of the file at [m_path].  The seeds come with
    the wallet when the wallet can spend; for a view-only wallet they stay
    as they were ([None]). *)
Definition load (file wallet_key : list byte) (w : Wallet)
  : result (Wallet * option Seeds) :=
  let w := with_file_open w true in
  let* version_data := file_read file 0 1 in
  let version := uint_le_from_bytes version_data in
  if version >? SERIALIZATION_VERSION_V2 then Throw WALLET_FILE_UNKNOWN_VERSION else
  let* w :=
    (if version <? SERIALIZATION_VERSION_V2 then
       match load_legacy_wallet_file file wallet_key w with
       | Throw StreamError => Throw WALLET_FILE_READ_ERROR
       | Throw _ => Throw WALLET_FILE_DECRYPT_ERROR
       | Ok w => Ok (fst (save_and_check (with_file_open w false)))
       end
     else load_container_storage file wallet_key w) in
  if bool_decide (m_wallet_records w = []) then Throw WALLET_FILE_DECRYPT_ERROR else
  let* view_only := is_view_only w in
  if view_only then Ok (w, None) else
  let* r0 := records_at w 0 in
  let seed := cn_fast_hash (m_view_secret_key w ++ spend_secret_key r0) in
  Ok (w, Some {| m_seed := seed;
                 m_tx_derivation_seed := derive_from_seed_legacy seed "tx_derivation";
                 m_history_filename_seed :=
                   derive_from_seed_legacy seed "history_filename";
                 m_history_key := derive_from_seed_legacy seed "history" |}).

(** [operator==] *)
Definition operator_eq (a b : Wallet) : bool :=
  bool_decide (m_view_public_key a = m_view_public_key b) &&
  bool_decide (m_view_secret_key a = m_view_secret_key b) &&
  bool_decide (m_oldest_timestamp a = m_oldest_timestamp b) &&
  bool_decide (m_wallet_records a = m_wallet_records b).

(** What [save_and_check] does with the disk, once the temporary file is
    written: a second object opens it under the same key and is compared
    with this one, then the file replaces the wallet file; [replaced] is
    the answer of [platform::atomic_replace_file]. *)
Definition written_and_checked (wallet_key : list byte) (ivs : nat -> list byte)
    (replaced : bool) (w : Wallet) : save_outcome :=
  match load (save w wallet_key false ivs) wallet_key new_wallet with
  | Throw e => SaveRejected e
  | Ok (other, _) =>
      if negb (operator_eq w other) then SaveRejected WALLET_FILE_WRITE_ERROR
      else if replaced then Saved else ReplaceFailed
  end.

(** The tail of [load]: a wallet with a first record is handed out, with
    seeds exactly when that record has a spend secret. *)
Lemma load_tail (w : Wallet) (out : result (Wallet * option Seeds)) :
  out = (if bool_decide (m_wallet_records w = []) then Throw WALLET_FILE_DECRYPT_ERROR else
         let* view_only := is_view_only w in
         if view_only then Ok (w, None) else
         let* r0 := records_at w 0 in
         let seed := cn_fast_hash (m_view_secret_key w ++ spend_secret_key r0) in
         Ok (w, Some {| m_seed := seed;
                        m_tx_derivation_seed := derive_from_seed_legacy seed "tx_derivation";
                        m_history_filename_seed :=
                          derive_from_seed_legacy seed "history_filename";
                        m_history_key := derive_from_seed_legacy seed "history" |})) ->
  (m_wallet_records w = [] /\ out = Throw WALLET_FILE_DECRYPT_ERROR) \/
  (exists (r0 : WalletRecord) (seeds : option Seeds),
     m_wallet_records w !! 0%nat = Some r0 /\ out = Ok (w, seeds) /\
     (seeds = None <-> spend_secret_key r0 = zero_key)).
Proof.
  intros ->. unfold is_view_only, records_at.
  destruct (m_wallet_records w) as [|r0 rs] eqn:E; [by left|right].
  rewrite bool_decide_eq_false_2 by done. cbn [lookup list_lookup bind].
  exists r0. destruct (decide (spend_secret_key r0 = zero_key)) as [Hz|Hz].
  - rewrite bool_decide_eq_true_2 by done. by eexists.
  - rewrite bool_decide_eq_false_2 by done. eexists. split; [done|].
    split; [done|]. split; [done|]. intros H. by destruct Hz.
Qed.

(** X4.  What [load] refuses and what it hands out.  An empty file ends
    in a [StreamError]; a version byte above 6 in
    [WALLET_FILE_UNKNOWN_VERSION], whatever follows it; a file of an older
    version fails with [WALLET_FILE_READ_ERROR] or
    [WALLET_FILE_DECRYPT_ERROR] only; and a wallet that [load] returns has
    a first record, so that [is_view_only] answers, and comes with seeds
    exactly when that record has a spend secret. *)
Theorem load_guards (file wallet_key : list byte) (w : Wallet) :
  (file = [] -> load file wallet_key w = Throw StreamError) /\
  (forall (version : byte) (rest : list byte),
     file = version :: rest -> SERIALIZATION_VERSION_V2 < Z_of_byte version ->
     load file wallet_key w = Throw WALLET_FILE_UNKNOWN_VERSION) /\
  (forall (version : byte) (rest : list byte) (e : error),
     file = version :: rest -> Z_of_byte version < SERIALIZATION_VERSION_V2 ->
     load file wallet_key w = Throw e ->
     e = WALLET_FILE_READ_ERROR \/ e = WALLET_FILE_DECRYPT_ERROR) /\
  (forall (w' : Wallet) (seeds : option Seeds),
     load file wallet_key w = Ok (w', seeds) ->
     exists r0 : WalletRecord,
       m_wallet_records w' !! 0%nat = Some r0 /\
       is_view_only w' = Ok (bool_decide (spend_secret_key r0 = zero_key)) /\
       (seeds = None <-> spend_secret_key r0 = zero_key)).
Proof.
  assert (Hfirst : forall (version : byte) (rest : list byte),
    file_read (version :: rest) 0 1 = Ok [version]).
  { intros version rest. unfold file_read.
    by rewrite decide_True by (cbn; lia). }
  assert (Hbyte : forall version : byte, uint_le_from_bytes [version] = Z_of_byte version).
  { intros version. cbn [uint_le_from_bytes]. lia. }
  split; [|split; [|split]].
  - by intros ->.
  - intros version rest -> Hv. unfold load. rewrite Hfirst. cbn [bind].
    rewrite Hbyte. by replace (_ >? _) with true by (symmetry; apply Z.gtb_lt; lia).
  - intros version rest e -> Hv. unfold load. rewrite Hfirst. cbn [bind].
    rewrite Hbyte.
    replace (Z_of_byte version >? SERIALIZATION_VERSION_V2) with false
      by (symmetry; rewrite Z.gtb_ltb; apply Z.ltb_ge; lia).
    replace (Z_of_byte version <? SERIALIZATION_VERSION_V2) with true
      by (symmetry; apply Z.ltb_lt; lia).
    destruct (load_legacy_wallet_file _ _ _) as [w1|e1].
    + cbn [bind]. intros H. symmetry in H. apply load_tail in H.
      destruct H as [[_ [= ->]]|(r0 & seeds & _ & H & _)]; [by right|done].
    + destruct e1; cbn [bind]; intros [= <-]; auto.
  - intros w' seeds. unfold load.
    destruct (file_read file 0 1) as [version_data|]; [|done]. cbn [bind].
    destruct (_ >? _); [done|].
    match goal with |- context [bind ?r _] => destruct r as [w1|e1] end; [|done].
    cbn [bind]. intros H. symmetry in H. apply load_tail in H.
    destruct H as [[_ H]|(r0 & seeds' & Hr0 & [= -> ->] & Hseeds)]; [done|].
    exists r0. split; [done|]. split; [|done].
    unfold is_view_only, records_at. by rewrite Hr0.
Qed.

Lemma save_version (w : Wallet) (wallet_key : list byte) (view_only : bool)
    (ivs : nat -> list byte) :
  file_read (save w wallet_key view_only ivs) 0 1
  = Ok (uint_le_to_bytes 1 SERIALIZATION_VERSION_V2).
Proof.
  unfold file_read. rewrite save_layout.
  by rewrite decide_True by (rewrite length_app; cbn; lia).
Qed.

(** A file that [save] wrote goes the way of [load_container_storage]. *)
Lemma load_save (w w0 : Wallet) (wallet_key : list byte) (view_only : bool)
    (ivs : nat -> list byte) :
  load (save w wallet_key view_only ivs) wallet_key w0
  = let* w1 := load_container_storage (save w wallet_key view_only ivs) wallet_key
                 (with_file_open w0 true) in
    if bool_decide (m_wallet_records w1 = []) then Throw WALLET_FILE_DECRYPT_ERROR else
    let* view_only := is_view_only w1 in
    if view_only then Ok (w1, None) else
    let* r0 := records_at w1 0 in
    let seed := cn_fast_hash (m_view_secret_key w1 ++ spend_secret_key r0) in
    Ok (w1, Some {| m_seed := seed;
                    m_tx_derivation_seed := derive_from_seed_legacy seed "tx_derivation";
                    m_history_filename_seed :=
                      derive_from_seed_legacy seed "history_filename";
                    m_history_key := derive_from_seed_legacy seed "history" |}).
Proof. unfold load. by rewrite save_version. Qed.

(** What the comparison inside [save_and_check] comes to. *)
Lemma written_and_checked_outcome (w : Wallet) (wallet_key : list byte)
    (ivs : nat -> list byte) (replaced mode : bool) :
  TIMESTAMP_MAX < 2 ^ 64 ->
  wallet_wf w -> (forall i, length (ivs i) = CHACHA_IV_SIZE) ->
  keys_match (m_view_secret_key w) (m_view_public_key w) = true ->
  Z.of_nat (length (m_wallet_records w)) <= SIZE_MAX / Z.of_nat EWR_SIZE ->
  Forall (fun r => no_secret r = mode /\ keys_check r = true) (m_wallet_records w) ->
  written_and_checked wallet_key ivs replaced w
  = if bool_decide (m_wallet_records w = []) then SaveRejected WALLET_FILE_DECRYPT_ERROR
    else if bool_decide (m_oldest_timestamp w
                         = foldl Z.min TIMESTAMP_MAX
                             (map creation_timestamp (m_wallet_records w)))
         then (if replaced then Saved else ReplaceFailed)
         else SaveRejected WALLET_FILE_WRITE_ERROR.
Proof using chacha8_length chacha8_involutive.
  intros Hmax Hwf Hivs Hview Hcount Hall.
  assert (Hid : map (saved_record false) (m_wallet_records w) = m_wallet_records w).
  { rewrite <- (map_id (m_wallet_records w)) at 2.
    apply map_ext. intros r. apply saved_record_false. }
  destruct (load_saved w (with_file_open new_wallet true) wallet_key false ivs mode)
    as (w' & Hw' & H1 & H2 & H3 & H4 & _); try done.
  { by rewrite Hid. }
  rewrite Hid in H3. cbn [app new_wallet with_file_open m_wallet_records
                           m_oldest_timestamp] in H3, H4.
  unfold written_and_checked. rewrite load_save, Hw'. cbn [bind].
  match goal with |- context [match ?t with Ok _ => _ | Throw _ => _ end] =>
    pose proof (load_tail w' t eq_refl) as Ht; destruct t as [[other seeds]|e]
  end.
  - destruct Ht as [[_ Ht]|(r0 & seeds' & Hr0 & [= -> ->] & _)]; [done|].
    rewrite H3 in Hr0.
    rewrite bool_decide_eq_false_2 by (by destruct (m_wallet_records w)).
    unfold operator_eq. rewrite H1, H2, H3, H4.
    rewrite (bool_decide_eq_true_2 (m_view_public_key w = _)) by done.
    rewrite (bool_decide_eq_true_2 (m_view_secret_key w = _)) by done.
    rewrite (bool_decide_eq_true_2 (m_wallet_records w = _)) by done.
    cbn [andb]. rewrite andb_true_r. by destruct (bool_decide _).
  - destruct Ht as [[Hnil [= ->]]|(r0 & seeds' & Hr0 & Ht & _)]; [|done].
    rewrite H3 in Hnil. by rewrite bool_decide_eq_true_2.
Qed.

(** X5.  The comparison inside [save_and_check].  For a wallet that has
    records, matching view keys and records that agree on having a spend
    secret and pass the key check, the copy read back from the temporary
    file equals the wallet exactly when [m_oldest_timestamp] is the least
    creation timestamp of the records: then the outcome is that of the
    atomic replace, and otherwise the call ends in
    [WALLET_FILE_WRITE_ERROR].  A wallet without records is refused by the
    reader: [WALLET_FILE_DECRYPT_ERROR]. *)
Theorem save_and_check_comparison (w : Wallet) (wallet_key : list byte)
    (ivs : nat -> list byte) (replaced mode : bool) :
  TIMESTAMP_MAX < 2 ^ 64 ->
  wallet_wf w -> (forall i, length (ivs i) = CHACHA_IV_SIZE) ->
  keys_match (m_view_secret_key w) (m_view_public_key w) = true ->
  Z.of_nat (length (m_wallet_records w)) <= SIZE_MAX / Z.of_nat EWR_SIZE ->
  Forall (fun r => no_secret r = mode /\ keys_check r = true) (m_wallet_records w) ->
  written_and_checked wallet_key ivs replaced w
  = if bool_decide (m_wallet_records w = []) then SaveRejected WALLET_FILE_DECRYPT_ERROR
    else if bool_decide (m_oldest_timestamp w
                         = foldl Z.min TIMESTAMP_MAX
                             (map creation_timestamp (m_wallet_records w)))
         then (if replaced then Saved else ReplaceFailed)
         else SaveRejected WALLET_FILE_WRITE_ERROR.
Proof using chacha8_length chacha8_involutive.
  intros Hmax Hwf Hivs Hview Hcount Hall.
  by apply (written_and_checked_outcome w wallet_key ivs replaced mode).
Qed.

(** *** The map from spend public keys to records *)

(** Every entry of the map points at a record with that spend public key,
    and every record has its spend public key in the map. *)
Definition indexed (m : gmap (list byte) nat) (pks : list (list byte)) : Prop :=
  (forall pk idx, m !! pk = Some idx -> pks !! idx = Some pk) /\
  (forall pk, pk ∈ pks -> is_Some (m !! pk)).

Definition records_indexed (w : Wallet) : Prop :=
  indexed (m_records_map w) (map spend_public_key (m_wallet_records w)).

Lemma indexed_push (m : gmap (list byte) nat) (pks : list (list byte)) (pk : list byte) :
  indexed m pks -> indexed (map_insert_new pk (length pks) m) (pks ++ [pk]).
Proof.
  intros [Hmap Hall]. unfold map_insert_new.
  destruct (m !! pk) as [idx0|] eqn:E; split.
  - intros pk' idx H. apply lookup_app_l_Some. by apply Hmap.
  - intros pk' [Hin|Hin%list_elem_of_singleton]%elem_of_app; [by apply Hall|].
    subst pk'. by rewrite E.
  - intros pk' idx H. destruct (decide (pk = pk')) as [<-|Hne].
    + rewrite lookup_insert_eq in H. injection H as <-.
      by rewrite list_lookup_middle.
    + rewrite lookup_insert_ne in H by done.
      apply lookup_app_l_Some. by apply Hmap.
  - intros pk' [Hin|Hin%list_elem_of_singleton]%elem_of_app.
    + destruct (decide (pk = pk')) as [<-|Hne].
      * by rewrite lookup_insert_eq.
      * rewrite lookup_insert_ne by done. by apply Hall.
    + subst pk'. by rewrite lookup_insert_eq.
Qed.

Lemma records_indexed_push (w w' : Wallet) (r : WalletRecord) :
  records_indexed w ->
  m_wallet_records w' = m_wallet_records w ++ [r] ->
  m_records_map w'
    = map_insert_new (spend_public_key r) (length (m_wallet_records w)) (m_records_map w) ->
  records_indexed w'.
Proof.
  unfold records_indexed. intros H -> ->. rewrite map_app. cbn [map].
  rewrite <- (length_map spend_public_key). by apply indexed_push.
Qed.

Lemma records_indexed_same (w w' : Wallet) :
  records_indexed w ->
  map spend_public_key (m_wallet_records w') = map spend_public_key (m_wallet_records w) ->
  m_records_map w' = m_records_map w ->
  records_indexed w'.
Proof. unfold records_indexed. by intros H -> ->. Qed.

Lemma load_records_indexed (wallet_key : list byte) (item_count : Z)
    (encs : list EncryptedWalletRecord) :
  forall (i : Z) (tm : bool) (w w' : Wallet),
    load_records wallet_key item_count i encs tm w = Ok w' ->
    records_indexed w -> records_indexed w'.
Proof.
  induction encs as [|enc rest IH]; intros i tm w w' H Hw.
  - cbn in H. by injection H as <-.
  - cbn [load_records] in H.
    destruct (if i =? 0 then _ else _) as [tm'|]; [|done]. cbn [bind] in H.
    destruct (if (i <? CHECK_KEYS_COUNT) || _ then _ else _); [|done].
    cbn [bind] in H. apply IH in H; [done|].
    by apply (records_indexed_push w _ (decrypt_key_pair enc wallet_key)).
Qed.

Lemma load_container_storage_indexed (file wallet_key : list byte) (w w' : Wallet) :
  load_container_storage file wallet_key w = Ok w' ->
  records_indexed w -> records_indexed w'.
Proof.
  unfold load_container_storage. intros H Hw.
  destruct (file_read file 0 1); [|done].
  destruct (file_read file 1 PREFIX_SIZE); [|done].
  destruct (file_read file (1 + PREFIX_SIZE) (2 * 8)); [|done].
  cbn [bind] in H.
  destruct (_ <? SERIALIZATION_VERSION_V2); [done|].
  destruct (negb (keys_match _ _)); [done|].
  destruct (_ >? _); [done|].
  destruct (file_read file _ _); [|done]. cbn [bind] in H.
  eapply load_records_indexed; [exact H|].
  by apply (records_indexed_same w).
Qed.

Lemma save_and_check_indexed (w : Wallet) :
  records_indexed w -> records_indexed (fst (save_and_check w)).
Proof. unfold save_and_check. by destruct (disk w). Qed.

Lemma map_spend_public_key_insert (rs : list WalletRecord) (idx : nat)
    (stored : WalletRecord) (ts : Z) :
  rs !! idx = Some stored ->
  map spend_public_key (<[idx := with_creation_timestamp stored ts]> rs)
  = map spend_public_key rs.
Proof.
  intros H. change (map spend_public_key) with (fmap (M := list) spend_public_key).
  rewrite list_fmap_insert. cbn [with_creation_timestamp spend_public_key].
  apply list_insert_id. by rewrite list_lookup_fmap, H.
Qed.

Lemma store_record_indexed (s s' : gna_state) (record : WalletRecord) :
  outcome_state (store_record s record) = Some s' ->
  records_indexed (g_wallet s) -> records_indexed (g_wallet s').
Proof.
  unfold store_record. intros H Hs.
  destruct (m_records_map (g_wallet s) !! spend_public_key record) as [idx|] eqn:Em.
  - destruct (m_wallet_records (g_wallet s) !! idx) as [stored|] eqn:Er.
    + destruct (_ >? _); injection H as <-; cbn [g_wallet]; [|done].
      apply (records_indexed_same (g_wallet s)); [done| |done].
      cbn. by apply map_spend_public_key_insert.
    + by injection H as <-.
  - injection H as <-. cbn [g_wallet].
    apply (records_indexed_push (g_wallet s) _ record); [done|done|].
    cbn. unfold map_insert_new. by rewrite Em.
Qed.

Lemma new_record_indexed (s s1 : gna_state) (sk : SecretKey) (ct now : Z)
    (r : result WalletRecord) :
  new_record s sk ct now = Some (s1, r) ->
  records_indexed (g_wallet s) -> records_indexed (g_wallet s1).
Proof.
  unfold new_record. destruct (bool_decide (sk = zero_key)).
  - destruct (random_fresh_keypair _ _) as [[kp random']|]; [|done].
    by intros [= <- _].
  - destruct (secret_key_to_public_key sk); by intros [= <- _].
Qed.

Lemma gna_step_indexed (ct now : Z) (s s' : gna_state) (sk : SecretKey) :
  outcome_state (gna_step ct now s sk) = Some s' ->
  records_indexed (g_wallet s) -> records_indexed (g_wallet s').
Proof.
  unfold gna_step.
  destruct (new_record s sk ct now) as [[s1 [record|e]]|] eqn:E; [| |done].
  - intros H Hs. apply store_record_indexed in H; [done|].
    by apply (new_record_indexed s s1 sk ct now (Ok record)).
  - intros [= <-]. by apply (new_record_indexed s s1 sk ct now (Throw e)).
Qed.

Lemma gna_loop_indexed (ct now : Z) (sks : list SecretKey) :
  forall s s' : gna_state,
    outcome_state (gna_loop ct now s sks) = Some s' ->
    records_indexed (g_wallet s) -> records_indexed (g_wallet s').
Proof.
  induction sks as [|sk sks IH]; intros s s' H Hs.
  - by injection H as <-.
  - cbn [gna_loop] in H.
    destruct (gna_step ct now s sk) as [s1|s1 e|] eqn:E; [| |done].
    + apply (IH s1 s' H). apply (gna_step_indexed ct now s s1 sk); [by rewrite E|done].
    + apply (gna_step_indexed ct now s s' sk); [by rewrite E|done].
Qed.

Lemma generate_new_addresses_indexed (w : Wallet) (rescan_from_ct : bool)
    (random : list (PublicKey * SecretKey)) (sks : list SecretKey) (ct now : Z)
    (s' : gna_state) :
  outcome_state (generate_new_addresses w rescan_from_ct random sks ct now) = Some s' ->
  records_indexed w -> records_indexed (g_wallet s').
Proof.
  unfold generate_new_addresses. intros H Hw.
  destruct (is_view_only w) as [[|]|e]; [by injection H as <-| |by injection H as <-].
  assert (Hsave : records_indexed
            (fst (if negb (m_file_open w) then save_and_check w else (w, Ok ())))).
  { destruct (negb (m_file_open w)); [by apply save_and_check_indexed|done]. }
  destruct (if negb (m_file_open w) then save_and_check w else (w, Ok ()))
    as [w1 [[]|e]]; cbn [fst] in Hsave.
  2: { by injection H as <-. }
  match type of H with context [gna_loop ct now ?s0 sks] => set (s0' := s0) in H end.
  destruct (gna_loop ct now s0' sks) as [s1|s1 e|] eqn:E; [| |done].
  - assert (H1 : records_indexed (g_wallet s1))
      by (apply (gna_loop_indexed ct now sks s0' s1); [by rewrite E|done]).
    destruct (g_rescan_from_ct _).
    + pose proof (save_and_check_indexed (g_wallet (with_io s1
        [IoFsync; IoSeek (1 + Z.of_nat PREFIX_SIZE);
         IoWriteCount (Z.of_nat (length (m_wallet_records (g_wallet s1))));
         IoWriteCount (Z.of_nat (length (m_wallet_records (g_wallet s1)))); IoFsync]))
        H1) as Hs.
      destruct (save_and_check _) as [w2 [[]|e]]; cbn [fst] in Hs;
        by injection H as <-.
    + by injection H as <-.
  - injection H as <-.
    apply (gna_loop_indexed ct now sks s0' s1); [by rewrite E|done].
Qed.

Lemma on_first_output_found_indexed (net : string) (w : Wallet) (ts : Z) :
  records_indexed w -> records_indexed (fst (on_first_output_found net w ts)).
Proof.
  intros Hw. unfold on_first_output_found.
  destruct (negb (bool_decide (net = "main"%string))); [done|].
  destruct ((ts =? 0) || _); [done|].
  apply save_and_check_indexed.
  apply (records_indexed_same w); [done| |done].
  cbn [with_records with_oldest_timestamp m_wallet_records].
  rewrite map_map. apply map_ext. intros r. by destruct (creation_timestamp r =? 0).
Qed.

Lemma new_wallet_indexed : records_indexed new_wallet.
Proof.
  split; cbn [new_wallet m_records_map m_wallet_records map].
  - intros pk idx H. by rewrite lookup_empty in H.
  - intros pk H. by apply elem_of_nil in H.
Qed.

(** X6.  The map stays an index of the records: a fresh object has it,
    and [load_container_storage], [generate_new_addresses] -- whether it
    returns or throws -- and [on_first_output_found] keep it: every entry
    of [m_records_map] is the index of a record with that spend public
    key, and every record has its spend public key in the map. *)
Theorem records_index_kept :
  records_indexed new_wallet /\
  (forall (file wallet_key : list byte) (w w' : Wallet),
     load_container_storage file wallet_key w = Ok w' ->
     records_indexed w -> records_indexed w') /\
  (forall (w : Wallet) (rescan_from_ct : bool) (random : list (PublicKey * SecretKey))
          (sks : list SecretKey) (ct now : Z) (s' : gna_state),
     outcome_state (generate_new_addresses w rescan_from_ct random sks ct now) = Some s' ->
     records_indexed w -> records_indexed (g_wallet s')) /\
  (forall (net : string) (w : Wallet) (ts : Z),
     records_indexed w -> records_indexed (fst (on_first_output_found net w ts))).
Proof.
  split; [|split; [|split]].
  - apply new_wallet_indexed.
  - apply load_container_storage_indexed.
  - apply generate_new_addresses_indexed.
  - apply on_first_output_found_indexed.
Qed.

Lemma get_record_hit (w : Wallet) (record : WalletRecord) (spend : PublicKey)
    (idx : nat) :
  records_indexed w -> m_records_map w !! spend = Some idx ->
  exists r : WalletRecord,
    m_wallet_records w !! idx = Some r /\ spend_public_key r = spend /\
    get_record w record (AccountAddressSimple spend (m_view_public_key w))
    = Ok (true, r).
Proof.
  intros [Hmap _] Hidx. specialize (Hmap spend idx Hidx).
  change (map spend_public_key) with (fmap (M := list) spend_public_key) in Hmap.
  rewrite list_lookup_fmap in Hmap.
  destruct (m_wallet_records w !! idx) as [r|] eqn:Er; [|done].
  injection Hmap as Hpk. exists r. split; [done|]. split; [done|].
  cbn [get_record]. rewrite Hidx.
  rewrite (bool_decide_eq_true_2 (m_view_public_key w = _)) by done.
  rewrite (bool_decide_eq_false_2 (Some idx = None)) by done. cbn [negb orb].
  apply lookup_lt_Some in Er as Hlt. unfold get_actual_records_count.
  rewrite bool_decide_eq_false_2 by lia.
  unfold records_at. rewrite Er. cbn [bind]. unfold invariant.
  by rewrite bool_decide_eq_true_2.
Qed.

(** X7.  On a wallet whose map is an index of its records [get_record]
    never throws: it answers [true] with a record of the wallet whose
    address is the address asked for, or [false] with [*record] as it was;
    and the address of every record of the wallet is one of ours. *)
Theorem get_record_indexed (w : Wallet) :
  records_indexed w ->
  (forall (record : WalletRecord) (v_addr : AccountAddress),
     exists (found : bool) (r : WalletRecord),
       get_record w record v_addr = Ok (found, r) /\
       if found then r ∈ m_wallet_records w /\ record_to_address w r = v_addr
       else r = record) /\
  (forall r : WalletRecord, r ∈ m_wallet_records w ->
     is_our_address w (record_to_address w r) = Ok true).
Proof.
  intros Hw. split.
  - intros record [spend view|s sv a]; [|by exists false, record].
    destruct (decide (m_view_public_key w = view)) as [<-|Hne].
    + destruct (m_records_map w !! spend) as [idx|] eqn:Em.
      * destruct (get_record_hit w record spend idx Hw Em) as (r & Hr & Hpk & Hget).
        exists true, r. split; [done|]. split.
        -- by apply list_elem_of_lookup_2 in Hr.
        -- unfold record_to_address. by rewrite Hpk.
      * exists false, record. cbn [get_record]. rewrite Em.
        rewrite (bool_decide_eq_true_2 (None = None)) by done.
        by rewrite orb_true_r.
    + exists false, record. cbn [get_record].
      by rewrite (bool_decide_eq_false_2 (m_view_public_key w = view)).
  - intros r Hr. destruct Hw as [Hmap Hall].
    destruct (Hall (spend_public_key r)) as [idx Hidx].
    { by apply (list_elem_of_fmap_2 spend_public_key). }
    destruct (get_record_hit w empty_record (spend_public_key r) idx
                (conj Hmap Hall) Hidx) as (r' & _ & _ & Hget).
    unfold is_our_address, record_to_address. by rewrite Hget.
Qed.

(** *** What [generate_new_addresses] writes *)

Lemma save_and_check_records (w : Wallet) :
  m_wallet_records (fst (save_and_check w)) = m_wallet_records w.
Proof. unfold save_and_check. by destruct (disk w). Qed.

Lemma new_record_keeps (s s1 : gna_state) (sk : SecretKey) (ct now : Z)
    (r : result WalletRecord) :
  new_record s sk ct now = Some (s1, r) ->
  m_wallet_records (g_wallet s1) = m_wallet_records (g_wallet s) /\
  g_io s1 = g_io s /\ g_result s1 = g_result s.
Proof.
  unfold new_record. destruct (bool_decide (sk = zero_key)).
  - destruct (random_fresh_keypair _ _) as [[kp random']|]; [|done].
    by intros [= <- _].
  - destruct (secret_key_to_public_key sk); by intros [= <- _].
Qed.

Lemma store_record_appends (s s' : gna_state) (record : WalletRecord) :
  store_record s record = Next s' ->
  exists written : list WalletRecord,
    map spend_public_key (m_wallet_records (g_wallet s'))
    = map spend_public_key (m_wallet_records (g_wallet s))
      ++ map spend_public_key written /\
    g_io s' = g_io s ++ map IoWriteRecord written /\
    length (g_result s') = S (length (g_result s)).
Proof.
  unfold store_record.
  destruct (m_records_map (g_wallet s) !! spend_public_key record) as [idx|].
  - destruct (m_wallet_records (g_wallet s) !! idx) as [stored|] eqn:Er; [|done].
    destruct (_ >? _); intros [= <-]; exists []; cbn [g_wallet g_io g_result map];
      rewrite !app_nil_r, length_app; cbn [length]; (split; [|split; [done|lia]]).
    + cbn. by apply map_spend_public_key_insert.
    + done.
  - intros [= <-]. exists [record]. cbn [g_wallet g_io g_result map].
    rewrite length_app. cbn [length]. split; [|split; [done|lia]].
    cbn. by rewrite map_app.
Qed.

Lemma gna_loop_appends (ct now : Z) (sks : list SecretKey) :
  forall s s' : gna_state,
    gna_loop ct now s sks = Next s' ->
    exists written : list WalletRecord,
      map spend_public_key (m_wallet_records (g_wallet s'))
      = map spend_public_key (m_wallet_records (g_wallet s))
        ++ map spend_public_key written /\
      g_io s' = g_io s ++ map IoWriteRecord written /\
      length (g_result s') = (length (g_result s) + length sks)%nat.
Proof.
  induction sks as [|sk sks IH]; intros s s' H.
  - injection H as <-. exists []. cbn. rewrite !app_nil_r. repeat split. lia.
  - cbn [gna_loop] in H.
    destruct (gna_step ct now s sk) as [s1|s1 e|] eqn:E; [|done|done].
    unfold gna_step in E.
    destruct (new_record s sk ct now) as [[s0 [record|e]]|] eqn:En; [|done|done].
    apply new_record_keeps in En as (Hr0 & Hio0 & Hres0).
    apply store_record_appends in E as (written1 & Hr1 & Hio1 & Hres1).
    apply IH in H as (written2 & Hr2 & Hio2 & Hres2).
    exists (written1 ++ written2).
    rewrite Hr2, Hr1, Hr0, Hio2, Hio1, Hio0, Hres2, Hres1, Hres0, !map_app.
    rewrite <- !app_assoc. repeat split. cbn [length]. lia.
Qed.

(** The records handed back and the operations on [m_file] of a call
    that returns. *)
Lemma generate_new_addresses_io (w : Wallet) (rescan_from_ct : bool)
    (random : list (PublicKey * SecretKey)) (sks : list SecretKey) (ct now : Z)
    (s' : gna_state) :
  generate_new_addresses w rescan_from_ct random sks ct now = Next s' ->
  length (g_result s') = length sks /\
  exists written : list WalletRecord,
    map spend_public_key (m_wallet_records (g_wallet s'))
    = map spend_public_key (m_wallet_records w) ++ map spend_public_key written /\
    let n := Z.of_nat (length (m_wallet_records w) + length written) in
    g_io s'
    = IoSeek (wallet_file_size (Z.of_nat (length (m_wallet_records w))))
      :: map IoWriteRecord written
      ++ [IoFsync; IoSeek (1 + Z.of_nat PREFIX_SIZE);
          IoWriteCount n; IoWriteCount n; IoFsync].
Proof.
  unfold generate_new_addresses. intros H.
  destruct (is_view_only w) as [[|]|e]; [done| |done].
  assert (Hsave : m_wallet_records
            (fst (if negb (m_file_open w) then save_and_check w else (w, Ok ())))
            = m_wallet_records w).
  { destruct (negb (m_file_open w)); [apply save_and_check_records|done]. }
  destruct (if negb (m_file_open w) then save_and_check w else (w, Ok ()))
    as [w1 [[]|e]]; cbn [fst] in Hsave; [|done].
  match type of H with context [gna_loop ct now ?s0 sks] => set (s0' := s0) in H end.
  destruct (gna_loop ct now s0' sks) as [s1|s1 e|] eqn:E; [|done|done].
  apply gna_loop_appends in E as (written & Hr & Hio & Hres).
  subst s0'. cbn [g_wallet g_io g_result length Nat.add] in Hr, Hio, Hres.
  rewrite Hsave in Hr, Hio.
  assert (Hn : length (m_wallet_records (g_wallet s1))
               = (length (m_wallet_records w) + length written)%nat).
  { apply (f_equal length) in Hr. by rewrite length_app, !length_map in Hr. }
  assert (Hout : length (g_result s1) = length sks /\
    exists written0 : list WalletRecord,
      map spend_public_key (m_wallet_records (g_wallet s1))
      = map spend_public_key (m_wallet_records w) ++ map spend_public_key written0 /\
      g_io (with_io s1
              [IoFsync; IoSeek (1 + Z.of_nat PREFIX_SIZE);
               IoWriteCount (Z.of_nat (length (m_wallet_records (g_wallet s1))));
               IoWriteCount (Z.of_nat (length (m_wallet_records (g_wallet s1))));
               IoFsync])
      = IoSeek (wallet_file_size (Z.of_nat (length (m_wallet_records w))))
        :: map IoWriteRecord written0
        ++ [IoFsync; IoSeek (1 + Z.of_nat PREFIX_SIZE);
            IoWriteCount (Z.of_nat (length (m_wallet_records w) + length written0));
            IoWriteCount (Z.of_nat (length (m_wallet_records w) + length written0));
            IoFsync]).
  { split; [done|]. exists written. split; [done|].
    cbn [with_io g_io]. by rewrite Hio, Hn. }
  destruct (g_rescan_from_ct _).
  - pose proof (save_and_check_records (g_wallet (with_io s1
      [IoFsync; IoSeek (1 + Z.of_nat PREFIX_SIZE);
       IoWriteCount (Z.of_nat (length (m_wallet_records (g_wallet s1))));
       IoWriteCount (Z.of_nat (length (m_wallet_records (g_wallet s1)))); IoFsync])))
      as Hs.
    destruct (save_and_check _) as [w2 [[]|e]]; cbn [fst] in Hs; [|done].
    injection H as <-. cbn [with_wallet g_result g_wallet g_io].
    cbn [with_io g_wallet] in Hs. rewrite Hs. exact Hout.
  - injection H as <-. exact Hout.
Qed.

Lemma save_and_check_saved (w : Wallet) :
  disk w = Saved -> save_and_check w = (with_file_open w true, Ok ()).
Proof. unfold save_and_check. by intros ->. Qed.

(** X8.  A call of [generate_new_addresses] that returns hands back one
    record for every secret key it was given.  Its operations on [m_file]
    are, in this order: a seek to the end of the record slots, the
    records that are new (the spend public keys of the records in memory
    are the old ones followed by those of the records written), a sync,
    the new number of records in both counters of the header, a sync.
    These are not all the call does to the file: [save_and_check], which
    writes the whole wallet anew and puts it in the place of the file,
    runs before them when [m_file] is null on entry, and after them when
    the loop lowered a timestamp; in a call that returns both went
    through, and the wallet returned after the second is the one it
    leaves, with [m_file] opened anew.  When the loop lowered no
    timestamp the state returned is the state after the loop with the
    counters written. *)
Theorem generate_new_addresses_appends (w : Wallet) (rescan_from_ct : bool)
    (random : list (PublicKey * SecretKey)) (sks : list SecretKey) (ct now : Z)
    (s' : gna_state) :
  generate_new_addresses w rescan_from_ct random sks ct now = Next s' ->
  length (g_result s') = length sks /\
  (exists written : list WalletRecord,
     map spend_public_key (m_wallet_records (g_wallet s'))
     = map spend_public_key (m_wallet_records w) ++ map spend_public_key written /\
     let n := Z.of_nat (length (m_wallet_records w) + length written) in
     g_io s'
     = IoSeek (wallet_file_size (Z.of_nat (length (m_wallet_records w))))
       :: map IoWriteRecord written
       ++ [IoFsync; IoSeek (1 + Z.of_nat PREFIX_SIZE);
           IoWriteCount n; IoWriteCount n; IoFsync]) /\
  (if m_file_open w then with_file_open w true = w
   else save_and_check w = (with_file_open w true, Ok ())) /\
  exists s_end : gna_state,
    gna_loop ct now (gna_start (with_file_open w true) random) sks = Next s_end /\
    let s_io := with_io s_end (gna_counters s_end) in
    if g_rescan_from_ct s_end
    then save_and_check (g_wallet s_io) = (with_file_open (g_wallet s_end) true, Ok ()) /\
         s' = with_wallet s_io (with_file_open (g_wallet s_end) true)
    else s' = s_io.
Proof.
  intros H. pose proof (generate_new_addresses_io _ _ _ _ _ _ _ H) as [Hres Hio].
  apply generate_new_addresses_next in H as (s_end & Hloop & Hentry & Hexit & Hs').
  split; [done|]. split; [done|]. split.
  - destruct (m_file_open w) eqn:Eopen.
    + by apply with_file_open_id.
    + by apply save_and_check_saved, Hentry.
  - exists s_end. split; [done|]. cbn zeta.
    destruct (g_rescan_from_ct s_end); [|done].
    split; [|done]. by apply save_and_check_saved, Hexit.
Qed.

(** *** Exporting a wallet *)

(** The files of the disk, by path. *)
Abbreviation Files := (gmap string (list byte)) (only parsing).

(** [generate_chacha8_key (cn_ctx, password)] *)
Variable generate_chacha8_key : string -> list byte.

(** [export_wallet]: every record is checked, then the file is created at
    [export_path], which must be free ([O_CREATE_NEW]), under the key of
    the new password. *)
Definition export_wallet (fs : Files) (w : Wallet) (export_path new_password : string)
    (view_only view_outgoing_addresses : bool) (ivs : nat -> list byte)
  : result Files :=
  if negb (forallb keys_check (m_wallet_records w)) then Throw WALLET_FILE_DECRYPT_ERROR
  else
    let new_wallet_key := generate_chacha8_key new_password in
    if bool_decide (is_Some (fs !! export_path)) then Throw StreamError
    else Ok (<[export_path := save w new_wallet_key view_only ivs]> fs).

(** X9.  A view-only export holds no spend secret.  When every record
    passes the key check and the path is free, [export_wallet] with
    [view_only] creates one file and changes no other; a fresh object
    opens that file under the key of the new password as a view-only
    wallet with the same view keys and, record by record, the same spend
    public key and timestamp and a zero spend secret.  When a record fails
    the check the call ends in [WALLET_FILE_DECRYPT_ERROR], and on a path
    that is taken in a [StreamError]; nothing is written then. *)
Theorem export_wallet_view_only (fs : Files) (w : Wallet)
    (export_path new_password : string) (view_outgoing_addresses : bool)
    (ivs : nat -> list byte) :
  TIMESTAMP_MAX < 2 ^ 64 ->
  (forall sk pk, keys_match sk pk = true -> key_isvalid pk = true) ->
  wallet_wf w -> (forall i, length (ivs i) = CHACHA_IV_SIZE) ->
  keys_match (m_view_secret_key w) (m_view_public_key w) = true ->
  Z.of_nat (length (m_wallet_records w)) <= SIZE_MAX / Z.of_nat EWR_SIZE ->
  m_wallet_records w <> [] ->
  let out := export_wallet fs w export_path new_password true
               view_outgoing_addresses ivs in
  (Exists (fun r => keys_check r = false) (m_wallet_records w) ->
   out = Throw WALLET_FILE_DECRYPT_ERROR) /\
  (Forall (fun r => keys_check r = true) (m_wallet_records w) ->
   is_Some (fs !! export_path) -> out = Throw StreamError) /\
  (Forall (fun r => keys_check r = true) (m_wallet_records w) ->
   fs !! export_path = None ->
   exists (file : list byte) (w' : Wallet),
     out = Ok (<[export_path := file]> fs) /\
     load file (generate_chacha8_key new_password) new_wallet = Ok (w', None) /\
     is_view_only w' = Ok true /\
     m_view_public_key w' = m_view_public_key w /\
     m_view_secret_key w' = m_view_secret_key w /\
     m_wallet_records w' = map (saved_record true) (m_wallet_records w) /\
     Forall (fun r => spend_secret_key r = zero_key) (m_wallet_records w')).
Proof using chacha8_length chacha8_involutive.
  intros Hmax Hvalid Hwf Hivs Hview Hcount Hne. cbv zeta. unfold export_wallet.
  split; [|split].
  - intros Hbad.
    replace (forallb keys_check (m_wallet_records w)) with false; [done|].
    symmetry. apply not_true_is_false. intros Hall.
    rewrite forallb_forall in Hall. apply Exists_exists in Hbad as (r & Hin & Hr).
    apply list_elem_of_In, Hall in Hin. congruence.
  - intros Hall Hpath.
    replace (forallb keys_check (m_wallet_records w)) with true.
    2: { symmetry. apply forallb_forall. intros r Hin.
         rewrite Forall_forall in Hall. by apply Hall, list_elem_of_In. }
    by rewrite bool_decide_eq_true_2.
  - intros Hall Hpath.
    replace (forallb keys_check (m_wallet_records w)) with true.
    2: { symmetry. apply forallb_forall. intros r Hin.
         rewrite Forall_forall in Hall. by apply Hall, list_elem_of_In. }
    rewrite bool_decide_eq_false_2 by (rewrite Hpath; by intros [? ?]).
    cbn [negb].
    destruct (load_saved w (with_file_open new_wallet true)
                (generate_chacha8_key new_password) true ivs true)
      as (w' & Hw' & H1 & H2 & H3 & _); try done.
    { apply Forall_fmap. eapply Forall_impl; [exact Hall|].
      intros r Hr. cbn. split; [done|].
      unfold keys_check in *. cbn [saved_record spend_secret_key spend_public_key].
      rewrite bool_decide_eq_true_2 by done. cbn [negb].
      destruct (negb (bool_decide (spend_secret_key r = zero_key)));
        [by apply (Hvalid (spend_secret_key r))|done]. }
    cbn [app new_wallet with_file_open m_wallet_records] in H3.
    assert (Hzero : Forall (fun r => spend_secret_key r = zero_key) (m_wallet_records w')).
    { rewrite H3. apply Forall_fmap, Forall_forall. by intros r _. }
    eexists _, w'. split; [reflexivity|].
    rewrite load_save, Hw'. cbn [bind].
    match goal with |- context [?t = Ok (w', None)] =>
      pose proof (load_tail w' t eq_refl) as Ht
    end.
    destruct Ht as [[Hnil _]|(r0 & seeds & Hr0 & -> & Hseeds)].
    { rewrite H3 in Hnil. by destruct (m_wallet_records w). }
    assert (Hz0 : spend_secret_key r0 = zero_key).
    { rewrite Forall_forall in Hzero. apply Hzero.
      by apply list_elem_of_lookup_2 in Hr0. }
    apply Hseeds in Hz0 as Hnone. rewrite Hnone.
    repeat (split; [done|]). split; [|done].
    unfold is_view_only, records_at. rewrite Hr0. cbn [bind].
    by rewrite bool_decide_eq_true_2.
Qed.

(** *** The history of used addresses *)

(** [common::pod_to_hex] *)
Variable pod_to_hex : list byte -> string.

Definition net_append (net : string) : string :=
  if bool_decide (net = "main"%string) then ""%string
  else ("_" +:+ net +:+ "net")%string.

Definition get_history_folder (m_path net : string) : string :=
  (m_path +:+ ".history" +:+ net_append net)%string.

Definition get_payment_queue_folder (m_path net : string) : string :=
  (m_path +:+ ".payments" +:+ net_append net)%string.

(** An [AccountAddressSimple] of a [History]: spend public key, view
    public key. *)
Abbreviation History := (gset (list byte * list byte)) (only parsing).

(** [save_history (tid, used_addresses)].  [used_addresses] are the
    elements of the set in the order the loop visits them, [iv] is the
    value of [crypto::rand<crypto::chacha_iv> ()]; [folders_ok] and [saved]
    are the answers of [platform::create_folders_if_necessary] and
    [platform::atomic_save_file], a save that fails leaving the file as it
    was. *)
Definition save_history (fs : Files) (m_path net : string) (seeds : Seeds)
    (tid : list byte) (used_addresses : list (list byte * list byte))
    (iv : list byte) (folders_ok saved : bool) : Files * bool :=
  let history_folder := get_history_folder m_path net in
  if negb folders_ok then (fs, false)
  else if bool_decide (used_addresses = []) then (fs, true)
  else
    let data := concat (map (fun addr => addr.2 ++ addr.1) used_addresses) in
    let encrypted_data := iv ++ chacha8 data (m_history_key seeds) iv in
    let filename_hash := cn_fast_hash (tid ++ m_history_filename_seed seeds) in
    let path := (history_folder +:+ "/" +:+ pod_to_hex filename_hash +:+ ".txh")%string in
    if saved then (<[path := encrypted_data]> fs, true) else (fs, false).

Definition load_history (fs : Files) (m_path net : string) (seeds : Seeds)
    (tid : list byte) : History :=
  let history_folder := get_history_folder m_path net in
  let filename_hash := cn_fast_hash (tid ++ m_history_filename_seed seeds) in
  match fs !! (history_folder +:+ "/" +:+ pod_to_hex filename_hash +:+ ".txh")%string with
  | None => ∅
  | Some hist =>
      if (length hist <? CHACHA_IV_SIZE)%nat ||
         negb ((length hist - CHACHA_IV_SIZE) mod (2 * KEY_SIZE) =? 0)%nat
      then ∅
      else
        let iv := slice hist 0 CHACHA_IV_SIZE in
        let dec :=
          chacha8 (slice hist CHACHA_IV_SIZE (length hist - CHACHA_IV_SIZE))
            (m_history_key seeds) iv in
        list_to_set
          (map (fun i : nat =>
                  (slice dec (i * 2 * KEY_SIZE + KEY_SIZE) KEY_SIZE,
                   slice dec (i * 2 * KEY_SIZE) KEY_SIZE))
               (seq 0 (length dec / (2 * KEY_SIZE))))
  end.

Lemma history_pairs (used : list (list byte * list byte)) :
  Forall (fun addr => length addr.1 = KEY_SIZE /\ length addr.2 = KEY_SIZE) used ->
  forall (pre : list byte) (k : nat),
    length pre = (k * 2 * KEY_SIZE)%nat ->
    map (fun i : nat =>
           (slice (pre ++ concat (map (fun addr => addr.2 ++ addr.1) used))
              (i * 2 * KEY_SIZE + KEY_SIZE) KEY_SIZE,
            slice (pre ++ concat (map (fun addr => addr.2 ++ addr.1) used))
              (i * 2 * KEY_SIZE) KEY_SIZE))
        (seq k (length used))
    = used.
Proof.
  induction 1 as [|[spend view] used [Hs Hv] _ IH]; intros pre k Hpre; [done|].
  cbn [fst snd] in Hs, Hv. cbn [length seq map concat fst snd]. f_equal.
  - set (rest := concat (map (fun addr => addr.2 ++ addr.1) used)).
    f_equal.
    + pose proof (slice_middle (pre ++ view) spend rest) as H.
      rewrite length_app, Hpre, Hs, Hv, <- !app_assoc in H.
      by rewrite <- !app_assoc.
    + pose proof (slice_middle pre view (spend ++ rest)) as H.
      rewrite Hpre, Hv in H. by rewrite <- !app_assoc.
  - specialize (IH (pre ++ view ++ spend) (S k)).
    rewrite <- !app_assoc in IH. rewrite <- !app_assoc. apply IH.
    rewrite !length_app, Hpre, Hs, Hv. lia.
Qed.

Lemma length_history_data (used : list (list byte * list byte)) :
  Forall (fun addr => length addr.1 = KEY_SIZE /\ length addr.2 = KEY_SIZE) used ->
  length (concat (map (fun addr => addr.2 ++ addr.1) used))
  = (length used * 2 * KEY_SIZE)%nat.
Proof.
  induction 1 as [|[spend view] used [Hs Hv] _ IH]; [done|].
  cbn [fst snd] in Hs, Hv. cbn [map concat length fst snd].
  rewrite !length_app, IH, Hs, Hv. lia.
Qed.

(** X10.  The history of a transaction comes back.  [load_history] never
    fails: a file that is missing, shorter than an iv or not a whole number
    of address pairs gives the empty set.  [save_history] of an empty
    history writes nothing and answers [true]; of a non-empty one, once
    the folders are there and the save went through, it answers [true] and
    [load_history] of the same transaction then returns exactly the
    addresses that were saved. *)
Theorem load_save_history (fs : Files) (m_path net : string) (seeds : Seeds)
    (tid iv : list byte) (used_addresses : list (list byte * list byte)) :
  length iv = CHACHA_IV_SIZE ->
  Forall (fun addr => length addr.1 = KEY_SIZE /\ length addr.2 = KEY_SIZE)
    used_addresses ->
  save_history fs m_path net seeds tid [] iv true true = (fs, true) /\
  (forall saved : bool,
     save_history fs m_path net seeds tid used_addresses iv false saved = (fs, false)) /\
  (used_addresses <> [] ->
   (save_history fs m_path net seeds tid used_addresses iv true true).2 = true /\
   load_history (save_history fs m_path net seeds tid used_addresses iv true true).1
     m_path net seeds tid
   = list_to_set used_addresses).
Proof using chacha8_length chacha8_involutive.
  intros Hiv Hused. split; [done|]. split; [done|].
  intros Hne.
  set (data := concat (map (fun addr => addr.2 ++ addr.1) used_addresses)).
  assert (Hsave :
    save_history fs m_path net seeds tid used_addresses iv true true
    = (<[(get_history_folder m_path net +:+ "/"
          +:+ pod_to_hex (cn_fast_hash (tid ++ m_history_filename_seed seeds))
          +:+ ".txh")%string := iv ++ chacha8 data (m_history_key seeds) iv]> fs, true)).
  { unfold save_history. cbn [negb]. by rewrite bool_decide_eq_false_2. }
  rewrite Hsave. cbn [fst snd]. split; [done|].
  unfold load_history. cbv zeta. rewrite lookup_insert_eq.
  assert (Hdata : length data = (length used_addresses * 2 * KEY_SIZE)%nat)
    by (by apply length_history_data).
  assert (Hhist : length (iv ++ chacha8 data (m_history_key seeds) iv)
                  = (CHACHA_IV_SIZE + length data)%nat)
    by (by rewrite length_app, chacha8_length, Hiv).
  rewrite Hhist.
  replace (CHACHA_IV_SIZE + length data - CHACHA_IV_SIZE)%nat with (length data) by lia.
  replace (CHACHA_IV_SIZE + length data <? CHACHA_IV_SIZE)%nat with false
    by (symmetry; apply Nat.ltb_ge; lia).
  replace (length data mod (2 * KEY_SIZE) =? 0)%nat with true.
  2: { symmetry. apply Nat.eqb_eq. rewrite Hdata.
       replace (length used_addresses * 2 * KEY_SIZE)%nat
         with (length used_addresses * (2 * KEY_SIZE))%nat by lia.
       apply Nat.Div0.mod_mul. }
  cbn [orb negb].
  assert (Hs0 : slice (iv ++ chacha8 data (m_history_key seeds) iv) 0 CHACHA_IV_SIZE = iv).
  { rewrite <- Hiv. apply slice_app_l. }
  assert (Hs1 : slice (iv ++ chacha8 data (m_history_key seeds) iv) CHACHA_IV_SIZE
                  (length data) = chacha8 data (m_history_key seeds) iv).
  { rewrite <- Hiv. rewrite slice_app_r. apply take_ge. by rewrite chacha8_length. }
  rewrite Hs0, Hs1, chacha8_involutive. f_equal.
  replace (length data / (2 * KEY_SIZE))%nat with (length used_addresses).
  2: { rewrite Hdata.
       replace (length used_addresses * 2 * KEY_SIZE)%nat
         with (length used_addresses * (2 * KEY_SIZE))%nat by lia.
       symmetry. apply Nat.div_mul. unfold KEY_SIZE. lia. }
  exact (history_pairs used_addresses Hused [] 0%nat eq_refl).
Qed.

(** *** Creating a wallet file *)

(** [common::to_hex] and [common::pod_from_hex] for a 32-byte key. *)
Variable to_hex : list byte -> string.
Variable pod_from_hex : string -> option (list byte).

(** [export_keys] *)
Definition export_keys (w : Wallet) : result string :=
  let* r0 := records_at w 0 in
  Ok (to_hex (spend_public_key r0 ++ m_view_public_key w
              ++ spend_secret_key r0 ++ m_view_secret_key w)).

(** [save_and_check] with the disk spelled out: the temporary file is
    written, read back and compared, and then renamed onto the wallet
    file; [replaced] is the answer of [platform::atomic_replace_file]. *)
Definition save_and_check_files (fs : Files) (m_path : string) (wallet_key : list byte)
    (ivs : nat -> list byte) (replaced : bool) (w : Wallet)
  : Files * Wallet * result unit :=
  let tmp_path := (m_path +:+ ".tmp")%string in
  let file := save w wallet_key false ivs in
  let fs := <[tmp_path := file]> fs in
  match written_and_checked wallet_key ivs replaced w with
  | Saved => (<[m_path := file]> (delete tmp_path fs), with_file_open w true, Ok ())
  | SaveRejected e => (fs, w, Throw e)
  | ReplaceFailed => (fs, with_file_open w false, Throw WALLET_FILE_WRITE_ERROR)
  end.

(** The first record and the keys of the object before it is saved:
    fresh keys stamped [now], or the four keys of [import_keys] stamped
    [creation_timestamp]. *)
Definition created_members (import_keys : string) (creation_timestamp now : Z)
    (view_keys spend_keys : PublicKey * SecretKey) : result Wallet :=
  if bool_decide (import_keys = ""%string) then
    Ok {| m_view_public_key := view_keys.1; m_view_secret_key := view_keys.2;
          m_wallet_records :=
            [{| spend_public_key := spend_keys.1; spend_secret_key := spend_keys.2;
                creation_timestamp := now |}];
          m_records_map := ∅; m_oldest_timestamp := now; m_file_open := true |}
  else if negb (Strings.String.length import_keys =? 256)%nat
  then Throw WALLET_FILE_DECRYPT_ERROR
  else
    match pod_from_hex (Strings.String.substring 0 64 import_keys),
          pod_from_hex (Strings.String.substring 64 64 import_keys),
          pod_from_hex (Strings.String.substring 128 64 import_keys),
          pod_from_hex (Strings.String.substring 192 64 import_keys) with
    | Some spk, Some vpk, Some ssk, Some vsk =>
        if negb (keys_match vsk vpk) then Throw WALLET_FILE_DECRYPT_ERROR
        else if negb (bool_decide (ssk = zero_key)) && negb (keys_match ssk spk)
        then Throw WALLET_FILE_DECRYPT_ERROR
        else
          Ok {| m_view_public_key := vpk; m_view_secret_key := vsk;
                m_wallet_records :=
                  [{| spend_public_key := spk; spend_secret_key := ssk;
                      creation_timestamp := creation_timestamp |}];
                m_records_map := ∅; m_oldest_timestamp := 0; m_file_open := true |}
    | _, _, _, _ => Throw WALLET_FILE_DECRYPT_ERROR
    end.

(** The constructor that creates a wallet file: the disk afterwards and
    the object, or the exception.  The file is created first and must be
    new; [view_keys] and [spend_keys] are the two values of
    [crypto::random_keypair], [now] that of
    [platform::now_unix_timestamp]. *)
Definition create (fs : Files) (path password import_keys : string)
    (creation_timestamp now : Z) (view_keys spend_keys : PublicKey * SecretKey)
    (ivs : nat -> list byte) (replaced : bool)
  : Files * result (Wallet * option Seeds) :=
  let wallet_key := generate_chacha8_key password in
  if bool_decide (is_Some (fs !! path)) then (fs, Throw StreamError)
  else
    let fs := <[path := []]> fs in
    match created_members import_keys creation_timestamp now view_keys spend_keys with
    | Throw e => (fs, Throw e)
    | Ok w =>
        match records_at w 0 with
        | Throw e => (fs, Throw e)
        | Ok r0 =>
            let w := with_records_map w
                       (map_insert_new (spend_public_key r0) 0 (m_records_map w)) in
            let saved := save_and_check_files fs path wallet_key ivs replaced w in
            match saved.2 with
            | Throw e => (saved.1.1, Throw e)
            | Ok _ =>
                match saved.1.1 !! path with
                | None => (saved.1.1, Throw StreamError)
                | Some file => (saved.1.1, load file wallet_key saved.1.2)
                end
            end
        end
    end.

(** An object with one record [r], saved and loaded again. *)
Lemma create_saved (fs : Files) (path : string) (wallet_key : list byte)
    (ivs : nat -> list byte) (w : Wallet) (r : WalletRecord) :
  TIMESTAMP_MAX < 2 ^ 64 ->
  wallet_wf w -> (forall i, length (ivs i) = CHACHA_IV_SIZE) ->
  keys_match (m_view_secret_key w) (m_view_public_key w) = true ->
  1 <= SIZE_MAX / Z.of_nat EWR_SIZE ->
  m_wallet_records w = [r] -> keys_check r = true ->
  let file := save w wallet_key false ivs in
  let saved := save_and_check_files fs path wallet_key ivs true w in
  (m_oldest_timestamp w <> creation_timestamp r ->
   saved = (<[(path +:+ ".tmp")%string := file]> fs, w, Throw WALLET_FILE_WRITE_ERROR)) /\
  (m_oldest_timestamp w = creation_timestamp r ->
   saved = (<[path := file]> (delete (path +:+ ".tmp")%string
                                (<[(path +:+ ".tmp")%string := file]> fs)),
            with_file_open w true, Ok ()) /\
   exists (w' : Wallet) (seeds : option Seeds),
     load file wallet_key (with_file_open w true) = Ok (w', seeds) /\
     m_view_public_key w' = m_view_public_key w /\
     m_view_secret_key w' = m_view_secret_key w /\
     m_wallet_records w' = [r; r] /\
     m_oldest_timestamp w' = m_oldest_timestamp w /\
     (seeds = None <-> spend_secret_key r = zero_key)).
Proof using chacha8_length chacha8_involutive.
  intros Hmax Hwf Hivs Hview Hsize Hrs Hcheck file saved.
  assert (Hr : record_wf r).
  { destruct Hwf as (_ & _ & Hall). rewrite Hrs in Hall. by inversion Hall. }
  destruct Hr as (Hpk & Hsk & Hct).
  assert (Hcount : Z.of_nat (length (m_wallet_records w)) <= SIZE_MAX / Z.of_nat EWR_SIZE)
    by (rewrite Hrs; cbn [length]; lia).
  assert (Hall : Forall (fun r' => no_secret r' = no_secret r /\ keys_check r' = true)
                   (m_wallet_records w)).
  { rewrite Hrs. by repeat constructor. }
  pose proof (written_and_checked_outcome w wallet_key ivs true (no_secret r)
                Hmax Hwf Hivs Hview Hcount Hall) as Hout.
  rewrite Hrs in Hout. rewrite bool_decide_eq_false_2 in Hout by done.
  cbn [map foldl] in Hout.
  replace (Z.min TIMESTAMP_MAX (creation_timestamp r)) with (creation_timestamp r)
    in Hout by lia.
  subst saved. unfold save_and_check_files. cbv zeta. rewrite Hout. split.
  - intros Hne. by rewrite bool_decide_eq_false_2.
  - intros Heq. rewrite bool_decide_eq_true_2 by done. split; [done|].
    assert (Hid : map (saved_record false) (m_wallet_records w) = m_wallet_records w).
    { rewrite <- (map_id (m_wallet_records w)) at 2.
      apply map_ext. intros r'. apply saved_record_false. }
    destruct (load_saved w (with_file_open (with_file_open w true) true) wallet_key
                false ivs (no_secret r))
      as (w' & Hw' & H1 & H2 & H3 & H4 & _); try done.
    { by rewrite Hid. }
    rewrite Hid, Hrs in H3. cbn [with_file_open m_wallet_records m_oldest_timestamp] in H3, H4.
    rewrite Hrs in H3, H4. cbn [app map foldl] in H3, H4.
    subst file.
    pose proof (load_save w (with_file_open w true) wallet_key false ivs) as Hload.
    rewrite Hw' in Hload. cbn [bind] in Hload.
    destruct (load_tail w' _ Hload) as [[Hnil _]|(r0 & seeds & Hr0 & Ht & Hseeds)];
      [by rewrite H3 in Hnil|].
    rewrite H3 in Hr0. injection Hr0 as <-.
    exists w', seeds. split; [exact Ht|]. do 3 (split; [done|]).
    split; [rewrite H4; lia|done].
Qed.

Lemma string_length_app (s1 s2 : string) :
  Strings.String.length (s1 +:+ s2)
  = (Strings.String.length s1 + Strings.String.length s2)%nat.
Proof.
  induction s1 as [|c s1 IH]; [done|].
  change (String c s1 +:+ s2)%string with (String c (s1 +:+ s2)).
  cbn [Strings.String.length]. by rewrite IH.
Qed.

Lemma tmp_path_ne (path : string) : (path +:+ ".tmp")%string <> path.
Proof.
  intros H. apply (f_equal Strings.String.length) in H.
  rewrite string_length_app in H. cbn in H. lia.
Qed.

(** The file [save] wrote for an object with one record, opened by a
    fresh object. *)
Lemma saved_reopens (wallet_key : list byte) (ivs : nat -> list byte) (w : Wallet)
    (r : WalletRecord) :
  TIMESTAMP_MAX < 2 ^ 64 ->
  wallet_wf w -> (forall i, length (ivs i) = CHACHA_IV_SIZE) ->
  keys_match (m_view_secret_key w) (m_view_public_key w) = true ->
  1 <= SIZE_MAX / Z.of_nat EWR_SIZE ->
  m_wallet_records w = [r] -> keys_check r = true ->
  exists (reopened : Wallet) (seeds : option Seeds),
    load (save w wallet_key false ivs) wallet_key new_wallet = Ok (reopened, seeds) /\
    m_view_public_key reopened = m_view_public_key w /\
    m_view_secret_key reopened = m_view_secret_key w /\
    m_wallet_records reopened = [r] /\
    m_oldest_timestamp reopened = creation_timestamp r.
Proof using chacha8_length chacha8_involutive.
  intros Hmax Hwf Hivs Hview Hsize Hrs Hcheck.
  assert (Hr : record_wf r).
  { destruct Hwf as (_ & _ & Hall). rewrite Hrs in Hall. by inversion Hall. }
  destruct Hr as (Hpk & Hsk & Hct).
  assert (Hid : map (saved_record false) (m_wallet_records w) = m_wallet_records w).
  { rewrite <- (map_id (m_wallet_records w)) at 2.
    apply map_ext. intros r'. apply saved_record_false. }
  destruct (load_saved w (with_file_open new_wallet true) wallet_key
              false ivs (no_secret r))
    as (w' & Hw' & H1 & H2 & H3 & H4 & _); try done.
  { rewrite Hrs. cbn [length]. lia. }
  { rewrite Hid, Hrs. by repeat constructor. }
  rewrite Hid, Hrs in H3.
  cbn [with_file_open new_wallet m_wallet_records m_oldest_timestamp] in H3, H4.
  rewrite Hrs in H4. cbn [app map foldl] in H3, H4.
  pose proof (load_save w new_wallet wallet_key false ivs) as Hload.
  rewrite Hw' in Hload. cbn [bind] in Hload.
  destruct (load_tail w' _ Hload) as [[Hnil _]|(r0 & seeds & Hr0 & Ht & Hseeds)];
    [by rewrite H3 in Hnil|].
  exists w', seeds. split; [exact Ht|]. do 3 (split; [done|]). rewrite H4. lia.
Qed.

(** What [create] comes to once the members are set. *)
Lemma create_members (fs : Files) (path password import_keys : string)
    (creation_timestamp now : Z) (view_keys spend_keys : PublicKey * SecretKey)
    (ivs : nat -> list byte) (w : Wallet) (r : WalletRecord) :
  TIMESTAMP_MAX < 2 ^ 64 ->
  (forall i, length (ivs i) = CHACHA_IV_SIZE) ->
  1 <= SIZE_MAX / Z.of_nat EWR_SIZE ->
  fs !! path = None ->
  created_members import_keys creation_timestamp now view_keys spend_keys = Ok w ->
  wallet_wf w ->
  keys_match (m_view_secret_key w) (m_view_public_key w) = true ->
  m_wallet_records w = [r] -> keys_check r = true ->
  let out := create fs path password import_keys creation_timestamp now
               view_keys spend_keys ivs true in
  (m_oldest_timestamp w <> WalletCore.creation_timestamp r ->
   exists file : list byte,
     out = (<[(path +:+ ".tmp")%string := file]> (<[path := []]> fs),
            Throw WALLET_FILE_WRITE_ERROR)) /\
  (m_oldest_timestamp w = WalletCore.creation_timestamp r ->
   exists (fs' : Files) (file : list byte) (w' reopened : Wallet)
          (seeds seeds' : option Seeds),
     out = (fs', Ok (w', seeds)) /\
     fs' !! path = Some file /\ fs' !! (path +:+ ".tmp")%string = None /\
     (forall p, p <> path -> p <> (path +:+ ".tmp")%string -> fs' !! p = fs !! p) /\
     m_view_public_key w' = m_view_public_key w /\
     m_view_secret_key w' = m_view_secret_key w /\
     m_wallet_records w' = [r; r] /\
     m_oldest_timestamp w' = WalletCore.creation_timestamp r /\
     (seeds = None <-> spend_secret_key r = zero_key) /\
     load file (generate_chacha8_key password) new_wallet = Ok (reopened, seeds') /\
     m_view_public_key reopened = m_view_public_key w /\
     m_view_secret_key reopened = m_view_secret_key w /\
     m_wallet_records reopened = [r] /\
     m_oldest_timestamp reopened = WalletCore.creation_timestamp r).
Proof using chacha8_length chacha8_involutive.
  intros Hmax Hivs Hsize Hfree Hmembers Hwf Hview Hrs Hcheck out.
  subst out. unfold create. rewrite Hfree.
  rewrite bool_decide_eq_false_2 by (by intros [? ?]).
  rewrite Hmembers. unfold records_at. rewrite Hrs. cbn [lookup list_lookup].
  set (w1 := with_records_map w _).
  assert (Hwf1 : wallet_wf w1) by done.
  destruct (create_saved (<[path := []]> fs) path (generate_chacha8_key password)
              ivs w1 r Hmax Hwf1 Hivs Hview Hsize Hrs Hcheck) as [Hbad Hgood].
  cbv zeta in Hbad, Hgood. split.
  - intros Hne. rewrite (Hbad Hne). cbn [fst snd]. by eexists.
  - intros Heq. destruct (Hgood Heq) as (-> & w' & seeds & Hload & H1 & H2 & H3 & H4 & H5).
    cbn [fst snd]. rewrite lookup_insert_eq.
    destruct (saved_reopens (generate_chacha8_key password) ivs w1 r
                Hmax Hwf1 Hivs Hview Hsize Hrs Hcheck)
      as (reopened & seeds' & Hre & R1 & R2 & R3 & R4).
    eexists _, _, w', reopened, seeds, seeds'.
    split; [by rewrite Hload|]. split; [by rewrite lookup_insert_eq|].
    split.
    { rewrite lookup_insert_ne by (intros H; by apply (tmp_path_ne path)).
      by rewrite lookup_delete_eq. }
    split.
    { intros p Hp Htmp. rewrite lookup_insert_ne by done.
      rewrite lookup_delete_ne by done. by rewrite !lookup_insert_ne. }
    do 3 (split; [done|]). split; [rewrite H4; exact Heq|].
    split; [exact H5|]. by repeat split.
Qed.

(** X23.  Creating a wallet with fresh keys.  On a path that is taken
    the constructor throws and writes nothing.  On a free path, with key
    pairs that match, it leaves the wallet file at the path and no
    temporary file beside it, touching no other file; a fresh object
    opens that file under the key of the password with the one record,
    stamped [now]; the object the constructor built holds that record
    twice, since it loads the file it has just saved on top of the record
    it started with. *)
Theorem create_new_wallet (fs : Files) (path password : string)
    (creation_timestamp now : Z) (view_keys spend_keys : PublicKey * SecretKey)
    (ivs : nat -> list byte) :
  TIMESTAMP_MAX < 2 ^ 64 -> 0 <= now <= TIMESTAMP_MAX ->
  length view_keys.1 = KEY_SIZE -> length view_keys.2 = KEY_SIZE ->
  length spend_keys.1 = KEY_SIZE -> length spend_keys.2 = KEY_SIZE ->
  (forall i, length (ivs i) = CHACHA_IV_SIZE) ->
  keys_match view_keys.2 view_keys.1 = true ->
  spend_keys.2 <> zero_key -> keys_match spend_keys.2 spend_keys.1 = true ->
  1 <= SIZE_MAX / Z.of_nat EWR_SIZE ->
  let r := {| spend_public_key := spend_keys.1; spend_secret_key := spend_keys.2;
              creation_timestamp := now |} in
  let out := create fs path password "" creation_timestamp now view_keys spend_keys
               ivs true in
  (is_Some (fs !! path) -> out = (fs, Throw StreamError)) /\
  (fs !! path = None ->
   exists (fs' : Files) (file : list byte) (w reopened : Wallet) (seeds seeds' : Seeds),
     out = (fs', Ok (w, Some seeds)) /\
     fs' !! path = Some file /\ fs' !! (path +:+ ".tmp")%string = None /\
     (forall p, p <> path -> p <> (path +:+ ".tmp")%string -> fs' !! p = fs !! p) /\
     m_view_public_key w = view_keys.1 /\ m_view_secret_key w = view_keys.2 /\
     m_wallet_records w = [r; r] /\ m_oldest_timestamp w = now /\
     load file (generate_chacha8_key password) new_wallet = Ok (reopened, Some seeds') /\
     m_view_public_key reopened = view_keys.1 /\
     m_view_secret_key reopened = view_keys.2 /\
     m_wallet_records reopened = [r] /\ m_oldest_timestamp reopened = now).
Proof using chacha8_length chacha8_involutive.
  intros Hmax Hnow Hvpk Hvsk Hspk Hssk Hivs Hview Hnz Hspend Hsize r out. split.
  - intros Htaken. subst out. unfold create. by rewrite bool_decide_eq_true_2.
  - intros Hfree.
    assert (Hcheck : keys_check r = true).
    { unfold keys_check. cbn [r spend_secret_key spend_public_key].
      by rewrite bool_decide_eq_false_2. }
    destruct (create_members fs path password "" creation_timestamp now view_keys
                spend_keys ivs _ r Hmax Hivs Hsize Hfree eq_refl) as [_ Hgood];
      [by repeat split; try constructor|done|done|done|].
    destruct (Hgood eq_refl)
      as (fs' & file & w & reopened & seeds & seeds' & Hout & F1 & F2 & F3
          & W1 & W2 & W3 & W4 & Hseeds & Hre & R1 & R2 & R3 & R4).
    destruct seeds as [seeds|]; [|by destruct Hnz; apply Hseeds].
    assert (exists s', seeds' = Some s') as [s' ->].
    { unfold load in Hre. revert Hre.
      destruct (file_read file 0 1); [|done]. cbn [bind].
      destruct (_ >? _); [done|].
      match goal with |- context [bind ?x _] => destruct x as [w1|]; [|done] end.
      cbn [bind]. intros Hre.
      destruct (load_tail w1 _ (eq_sym Hre)) as [[_ [=]]|(r0 & sd & Hr0 & [= -> ->] & Hsd)].
      rewrite R3 in Hr0. injection Hr0 as <-.
      destruct sd as [sd|]; [by exists sd|]. destruct Hnz. by apply Hsd. }
    by exists fs', file, w, reopened, seeds, s'.
Qed.

(** [pod_from_hex] fills a key when it succeeds; [to_hex] writes two
    digits for a byte, one byte after the other, and [pod_from_hex] reads
    them back. *)
Hypothesis pod_from_hex_length :
  forall s k, pod_from_hex s = Some k -> length k = KEY_SIZE.
Hypothesis to_hex_app :
  forall a b, to_hex (a ++ b) = (to_hex a +:+ to_hex b)%string.
Hypothesis to_hex_length :
  forall a, Strings.String.length (to_hex a) = (2 * length a)%nat.
Hypothesis pod_from_hex_to_hex :
  forall a, length a = KEY_SIZE -> pod_from_hex (to_hex a) = Some a.

(** [Wallet::get_first_address] *)
Definition get_first_address (w : Wallet) : result AccountAddress :=
  let* r := records_at w 0 in
  Ok (record_to_address w r).

Lemma created_members_import (import_keys : string) (creation_timestamp now : Z)
    (view_keys spend_keys : PublicKey * SecretKey) (spk vpk ssk vsk : list byte) :
  Strings.String.length import_keys = 256%nat ->
  pod_from_hex (Strings.String.substring 0 64 import_keys) = Some spk ->
  pod_from_hex (Strings.String.substring 64 64 import_keys) = Some vpk ->
  pod_from_hex (Strings.String.substring 128 64 import_keys) = Some ssk ->
  pod_from_hex (Strings.String.substring 192 64 import_keys) = Some vsk ->
  created_members import_keys creation_timestamp now view_keys spend_keys
  = if negb (keys_match vsk vpk) then Throw WALLET_FILE_DECRYPT_ERROR
    else if negb (bool_decide (ssk = zero_key)) && negb (keys_match ssk spk)
    then Throw WALLET_FILE_DECRYPT_ERROR
    else
      Ok {| m_view_public_key := vpk; m_view_secret_key := vsk;
            m_wallet_records :=
              [{| spend_public_key := spk; spend_secret_key := ssk;
                  WalletCore.creation_timestamp := creation_timestamp |}];
            m_records_map := ∅; m_oldest_timestamp := 0; m_file_open := true |}.
Proof.
  intros Hlen H1 H2 H3 H4. unfold created_members.
  rewrite bool_decide_eq_false_2 by (intros ->; done).
  rewrite Hlen. cbn [Nat.eqb negb]. by rewrite H1, H2, H3, H4.
Qed.

(** X24.  Importing keys.  Keys that are not 256 characters long, or a
    secret key that does not match its public key, end the constructor in
    [WALLET_FILE_DECRYPT_ERROR], with the empty file it created left at
    the path.  Keys that pass are written and read back -- and since the
    object sets [m_oldest_timestamp] to 0 while the reader takes the
    timestamp of the record, the comparison of [save_and_check] fails for
    every [creation_timestamp] but 0: [WALLET_FILE_WRITE_ERROR], the
    temporary file left behind.  With [creation_timestamp = 0] the wallet
    file holds the imported record and the object has the imported keys. *)
Theorem create_import_keys (fs : Files) (path password import_keys : string)
    (creation_timestamp now : Z) (view_keys spend_keys : PublicKey * SecretKey)
    (ivs : nat -> list byte) (spk vpk ssk vsk : list byte) :
  TIMESTAMP_MAX < 2 ^ 64 -> 0 <= creation_timestamp <= TIMESTAMP_MAX ->
  (forall i, length (ivs i) = CHACHA_IV_SIZE) ->
  1 <= SIZE_MAX / Z.of_nat EWR_SIZE ->
  fs !! path = None -> import_keys <> ""%string ->
  let r := {| spend_public_key := spk; spend_secret_key := ssk;
              WalletCore.creation_timestamp := creation_timestamp |} in
  let out := create fs path password import_keys creation_timestamp now
               view_keys spend_keys ivs true in
  (Strings.String.length import_keys <> 256%nat ->
   out = (<[path := []]> fs, Throw WALLET_FILE_DECRYPT_ERROR)) /\
  (Strings.String.length import_keys = 256%nat ->
   pod_from_hex (Strings.String.substring 0 64 import_keys) = Some spk ->
   pod_from_hex (Strings.String.substring 64 64 import_keys) = Some vpk ->
   pod_from_hex (Strings.String.substring 128 64 import_keys) = Some ssk ->
   pod_from_hex (Strings.String.substring 192 64 import_keys) = Some vsk ->
   (keys_match vsk vpk = false \/ (ssk <> zero_key /\ keys_match ssk spk = false) ->
    out = (<[path := []]> fs, Throw WALLET_FILE_DECRYPT_ERROR)) /\
   (keys_match vsk vpk = true -> keys_check r = true ->
    (creation_timestamp <> 0 ->
     exists file : list byte,
       out = (<[(path +:+ ".tmp")%string := file]> (<[path := []]> fs),
              Throw WALLET_FILE_WRITE_ERROR)) /\
    (creation_timestamp = 0 ->
     exists (fs' : Files) (file : list byte) (w reopened : Wallet)
            (seeds seeds' : option Seeds),
       out = (fs', Ok (w, seeds)) /\
       fs' !! path = Some file /\ fs' !! (path +:+ ".tmp")%string = None /\
       m_view_public_key w = vpk /\ m_view_secret_key w = vsk /\
       m_wallet_records w = [r; r] /\ m_oldest_timestamp w = 0 /\
       (seeds = None <-> ssk = zero_key) /\
       load file (generate_chacha8_key password) new_wallet = Ok (reopened, seeds') /\
       m_wallet_records reopened = [r]))).
Proof using chacha8_length chacha8_involutive pod_from_hex_length.
  intros Hmax Hct Hivs Hsize Hfree Hne r out. split.
  - intros Hlen. subst out. unfold create, created_members. rewrite Hfree.
    rewrite bool_decide_eq_false_2 by (by intros [? ?]).
    rewrite bool_decide_eq_false_2 by done.
    by replace (Strings.String.length import_keys =? 256)%nat with false
      by (symmetry; by apply Nat.eqb_neq).
  - intros Hlen H1 H2 H3 H4.
    pose proof (created_members_import import_keys creation_timestamp now view_keys
                  spend_keys spk vpk ssk vsk Hlen H1 H2 H3 H4) as Hm.
    split.
    + intros Hbad. subst out. unfold create. rewrite Hfree.
      rewrite bool_decide_eq_false_2 by (by intros [? ?]). rewrite Hm.
      destruct Hbad as [->|[Hnz ->]]; [done|].
      rewrite bool_decide_eq_false_2 by done. by destruct (keys_match vsk vpk).
    + intros Hview Hcheck.
      assert (Hspend : negb (bool_decide (ssk = zero_key)) && negb (keys_match ssk spk)
                       = false).
      { unfold keys_check in Hcheck. cbn [r spend_secret_key spend_public_key] in Hcheck.
        destruct (negb (bool_decide (ssk = zero_key))); [by rewrite Hcheck|done]. }
      rewrite Hview, Hspend in Hm. cbn [negb] in Hm.
      destruct (create_members fs path password import_keys creation_timestamp now
                  view_keys spend_keys ivs _ r Hmax Hivs Hsize Hfree Hm)
        as [Hbad Hgood]; [|done|done|done|].
      { split; [by apply (pod_from_hex_length _ _ H2)|].
        split; [by apply (pod_from_hex_length _ _ H4)|].
        cbn [m_wallet_records]. constructor; [|constructor].
        split; [by apply (pod_from_hex_length _ _ H1)|].
        split; [by apply (pod_from_hex_length _ _ H3)|done]. }
      cbn [m_oldest_timestamp r WalletCore.creation_timestamp] in Hbad, Hgood.
      split.
      * intros Hnz. apply Hbad. by intros <-.
      * intros ->. destruct (Hgood eq_refl)
          as (fs' & file & w & reopened & seeds & seeds' & Hout & F1 & F2 & _
              & W1 & W2 & W3 & W4 & Hseeds & Hre & _ & _ & R3 & _).
        by exists fs', file, w, reopened, seeds, seeds'.
Qed.

Lemma substring_piece (h rest : string) :
  Strings.String.substring 0 (Strings.String.length h) (h +:+ rest) = h.
Proof.
  induction h as [|c h IH]; [by destruct rest|].
  change (String c h +:+ rest)%string with (String c (h +:+ rest)).
  cbn [Strings.String.length Strings.String.substring]. by rewrite IH.
Qed.

Lemma substring_skip (h rest : string) (k m : nat) :
  Strings.String.substring (Strings.String.length h + k) m (h +:+ rest)
  = Strings.String.substring k m rest.
Proof.
  induction h as [|c h IH]; [done|].
  change (String c h +:+ rest)%string with (String c (h +:+ rest)).
  cbn [Strings.String.length Nat.add Strings.String.substring]. exact IH.
Qed.

Lemma substring_all (h : string) :
  Strings.String.substring 0 (Strings.String.length h) h = h.
Proof.
  induction h as [|c h IH]; [done|].
  cbn [Strings.String.length Strings.String.substring]. by rewrite IH.
Qed.

(** The four keys in the string [export_keys] makes of them. *)
Lemma hex_keys_split (a b c d : list byte) :
  length a = KEY_SIZE -> length b = KEY_SIZE ->
  length c = KEY_SIZE -> length d = KEY_SIZE ->
  let keys := to_hex (a ++ b ++ c ++ d) in
  Strings.String.length keys = 256%nat /\
  Strings.String.substring 0 64 keys = to_hex a /\
  Strings.String.substring 64 64 keys = to_hex b /\
  Strings.String.substring 128 64 keys = to_hex c /\
  Strings.String.substring 192 64 keys = to_hex d.
Proof using to_hex_app to_hex_length.
  intros Ha Hb Hc Hd keys. subst keys. rewrite !to_hex_app.
  pose proof (to_hex_length a) as La. pose proof (to_hex_length b) as Lb.
  pose proof (to_hex_length c) as Lc. pose proof (to_hex_length d) as Ld.
  rewrite Ha in La. rewrite Hb in Lb. rewrite Hc in Lc. rewrite Hd in Ld.
  change (2 * KEY_SIZE)%nat with 64%nat in *.
  split; [by rewrite !string_length_app, La, Lb, Lc, Ld|].
  split; [rewrite <- La at 1; apply substring_piece|].
  split.
  { change 64%nat with (64 + 0)%nat at 1. rewrite <- La at 1.
    rewrite substring_skip. rewrite <- Lb at 1. apply substring_piece. }
  split.
  { change 128%nat with (64 + 64)%nat. rewrite <- La at 1. rewrite substring_skip.
    change 64%nat with (64 + 0)%nat at 1. rewrite <- Lb at 1.
    rewrite substring_skip. rewrite <- Lc at 1. apply substring_piece. }
  change 192%nat with (64 + 128)%nat. rewrite <- La at 1. rewrite substring_skip.
  change 128%nat with (64 + 64)%nat. rewrite <- Lb at 1. rewrite substring_skip.
  change 64%nat with (64 + 0)%nat at 1. rewrite <- Lc at 1. rewrite substring_skip.
  rewrite <- Ld at 1. apply substring_all.
Qed.

(** X25.  Exported keys can be imported.  The string [export_keys]
    returns for a wallet whose keys match has 256 characters, and the
    constructor handed this string and [creation_timestamp = 0] on a free
    path builds a wallet with the same view keys and the same first
    record, stamped 0: its first address is the first address of the
    wallet the keys came from, and [export_keys] on it returns the same
    string. *)
Theorem export_keys_import (fs : Files) (path password : string) (now : Z)
    (view_keys spend_keys : PublicKey * SecretKey) (ivs : nat -> list byte)
    (w0 : Wallet) (r0 : WalletRecord) :
  TIMESTAMP_MAX < 2 ^ 64 -> 0 <= TIMESTAMP_MAX ->
  (forall i, length (ivs i) = CHACHA_IV_SIZE) ->
  1 <= SIZE_MAX / Z.of_nat EWR_SIZE ->
  fs !! path = None ->
  wallet_wf w0 -> m_wallet_records w0 !! 0%nat = Some r0 ->
  keys_match (m_view_secret_key w0) (m_view_public_key w0) = true ->
  keys_check r0 = true ->
  exists (keys : string) (fs' : Files) (w : Wallet) (seeds : option Seeds),
    export_keys w0 = Ok keys /\ Strings.String.length keys = 256%nat /\
    create fs path password keys 0 now view_keys spend_keys ivs true
    = (fs', Ok (w, seeds)) /\
    m_view_public_key w = m_view_public_key w0 /\
    m_view_secret_key w = m_view_secret_key w0 /\
    m_wallet_records w !! 0%nat = Some (with_creation_timestamp r0 0) /\
    get_first_address w = get_first_address w0 /\
    export_keys w = Ok keys.
Proof using chacha8_length chacha8_involutive to_hex_app to_hex_length
  pod_from_hex_to_hex.
  intros Hmax Hmax0 Hivs Hsize Hfree Hwf Hr0 Hview Hcheck.
  destruct Hwf as (Hvpk & Hvsk & Hall).
  assert (Hr : record_wf r0).
  { rewrite Forall_forall in Hall. apply Hall. by apply list_elem_of_lookup_2 in Hr0. }
  destruct Hr as (Hspk & Hssk & _).
  destruct (hex_keys_split (spend_public_key r0) (m_view_public_key w0)
              (spend_secret_key r0) (m_view_secret_key w0) Hspk Hvpk Hssk Hvsk)
    as (Hlen & S1 & S2 & S3 & S4).
  set (keys := to_hex _) in *.
  set (r := with_creation_timestamp r0 0).
  assert (Hm : created_members keys 0 now view_keys spend_keys
               = Ok {| m_view_public_key := m_view_public_key w0;
                       m_view_secret_key := m_view_secret_key w0;
                       m_wallet_records := [r];
                       m_records_map := ∅; m_oldest_timestamp := 0;
                       m_file_open := true |}).
  { rewrite (created_members_import keys 0 now view_keys spend_keys
               (spend_public_key r0) (m_view_public_key w0)
               (spend_secret_key r0) (m_view_secret_key w0) Hlen).
    - rewrite Hview. cbn [negb]. unfold keys_check in Hcheck.
      destruct (negb (bool_decide (spend_secret_key r0 = zero_key)));
        [by rewrite Hcheck|done].
    - rewrite S1. by apply pod_from_hex_to_hex.
    - rewrite S2. by apply pod_from_hex_to_hex.
    - rewrite S3. by apply pod_from_hex_to_hex.
    - rewrite S4. by apply pod_from_hex_to_hex. }
  destruct (create_members fs path password keys 0 now view_keys spend_keys ivs _ r
              Hmax Hivs Hsize Hfree Hm) as [_ Hgood]; [|done|done|done|].
  { split; [done|]. split; [done|]. cbn [m_wallet_records]. constructor; [|constructor].
    split; [done|]. split; [done|]. cbn. lia. }
  destruct (Hgood eq_refl)
    as (fs' & file & w & reopened & seeds & seeds' & Hout & _ & _ & _
        & W1 & W2 & W3 & _).
  cbn [m_view_public_key m_view_secret_key] in W1, W2.
  exists keys, fs', w, seeds.
  split; [unfold export_keys, records_at; by rewrite Hr0|].
  split; [done|]. split; [done|]. split; [done|]. split; [done|].
  split; [by rewrite W3|]. split.
  - unfold get_first_address, records_at. rewrite W3, Hr0. cbn [lookup list_lookup bind].
    unfold record_to_address. by rewrite W1.
  - unfold export_keys, records_at. rewrite W3. cbn [lookup list_lookup bind].
    by rewrite W1, W2.
Qed.

End Container.

(** *** A small wallet on a toy curve

    The public key of a secret key is the secret key read backwards, the
    cipher XORs with the first key byte, timestamps are 32 bits wide and
    the disk never fails. *)

Definition toy_CHACHA_IV_SIZE : nat := 8.
Definition toy_chacha8 (data key iv : list byte) : list byte :=
  xor_cipher 8 data key iv.
Definition toy_keys_match (sk pk : list byte) : bool := bool_decide (rev sk = pk).
Definition toy_key_isvalid (pk : list byte) : bool := true.
Definition toy_secret_key_to_public_key (sk : list byte) : option (list byte) :=
  Some (rev sk).
Definition toy_TIMESTAMP_MAX : Z := 2 ^ 32 - 1.
Definition toy_disk (w : Wallet) : save_outcome := Saved.
Definition toy_ivs (i : nat) : list byte := replicate 8 x07.
Definition toy_wallet_key : list byte := [x2a].

Definition toy_secret (b : byte) : list byte := b :: replicate 31 x00.

Definition toy_record (b : byte) (ct : Z) : WalletRecord :=
  {| spend_public_key := rev (toy_secret b); spend_secret_key := toy_secret b;
     creation_timestamp := ct |}.

(** A record without spend secret *)
Definition toy_tracking_record (b : byte) (ct : Z) : WalletRecord :=
  {| spend_public_key := rev (toy_secret b); spend_secret_key := zero_key;
     creation_timestamp := ct |}.

Definition toy_wallet_in (file_open : bool) (records : list WalletRecord)
    (oldest : Z) : Wallet :=
  {| m_view_public_key := rev (toy_secret x01);
     m_view_secret_key := toy_secret x01;
     m_wallet_records := records;
     m_records_map :=
       foldr (fun ir m => map_insert_new (spend_public_key ir.2) ir.1 m) ∅
         (imap (fun i r => (i, r)) records);
     m_oldest_timestamp := oldest;
     m_file_open := file_open |}.

Definition toy_wallet : list WalletRecord -> Z -> Wallet := toy_wallet_in true.

Definition toy_load (file : list byte) : result Wallet :=
  load_container_storage toy_CHACHA_IV_SIZE toy_chacha8 toy_keys_match
    toy_key_isvalid toy_TIMESTAMP_MAX file toy_wallet_key
    (new_wallet toy_TIMESTAMP_MAX).

Definition loaded (file : list byte) : Wallet :=
  match toy_load file with
  | Ok w => w
  | Throw _ => new_wallet toy_TIMESTAMP_MAX
  end.

(** An imported wallet: one record, timestamp unknown (0). *)
Definition imported_file : list byte :=
  save toy_CHACHA_IV_SIZE toy_chacha8 (toy_wallet [toy_record x02 0] 0)
    toy_wallet_key false toy_ivs.

(** Two slots written, the count field still at 1 (a write that extended
    the capacity and did not finish). *)
Definition shredded_file : list byte :=
  let file :=
    save toy_CHACHA_IV_SIZE toy_chacha8
      (toy_wallet [toy_record x02 100; toy_record x03 200] 100)
      toy_wallet_key false toy_ivs in
  memcpy_at file (1 + PREFIX_SIZE toy_CHACHA_IV_SIZE + 8) (uint_le_to_bytes 8 1).

(** A spending record followed by a tracking record. *)
Definition mixed_file : list byte :=
  save toy_CHACHA_IV_SIZE toy_chacha8
    (toy_wallet [toy_record x02 100; toy_tracking_record x03 200] 100)
    toy_wallet_key false toy_ivs.

Example imported_file_loads :
  toy_load imported_file = Ok (toy_wallet_in false [toy_record x02 0] 0).
Proof. vm_compute. reflexivity. Qed.

Example shredded_file_loads :
  toy_load shredded_file = Ok (toy_wallet_in false [toy_record x02 100] 100).
Proof. vm_compute. reflexivity. Qed.

Example mixed_file_fails : toy_load mixed_file = Throw WALLET_FILE_DECRYPT_ERROR.
Proof. vm_compute. reflexivity. Qed.

Lemma load_keeps_min_count_capacity_witness :
  m_wallet_records (loaded shredded_file)
    = m_wallet_records (new_wallet toy_TIMESTAMP_MAX)
      ++ file_records toy_CHACHA_IV_SIZE toy_chacha8 toy_TIMESTAMP_MAX
           shredded_file toy_wallet_key /\
  Z.of_nat (length (file_records toy_CHACHA_IV_SIZE toy_chacha8 toy_TIMESTAMP_MAX
                      shredded_file toy_wallet_key))
    = Z.min (f_item_count toy_CHACHA_IV_SIZE shredded_file)
        (f_item_capacity toy_CHACHA_IV_SIZE shredded_file) /\
  Z.of_nat (length (m_wallet_records (loaded shredded_file)))
    = Z.of_nat (length (m_wallet_records (new_wallet toy_TIMESTAMP_MAX)))
      + Z.min (f_item_count toy_CHACHA_IV_SIZE shredded_file)
          (f_item_capacity toy_CHACHA_IV_SIZE shredded_file).
Proof.
  apply (load_keeps_min_count_capacity toy_CHACHA_IV_SIZE toy_chacha8 toy_keys_match
           toy_key_isvalid toy_TIMESTAMP_MAX shredded_file toy_wallet_key
           (new_wallet toy_TIMESTAMP_MAX) (loaded shredded_file)).
  vm_compute. reflexivity.
Defined.

Lemma load_tracking_mode_uniform_witness :
  ((Forall (fun r => spend_secret_key r = zero_key)
      (m_wallet_records (loaded imported_file)) \/
    Forall (fun r => spend_secret_key r <> zero_key)
      (m_wallet_records (loaded imported_file))) /\
   (forall r0, head (m_wallet_records (loaded imported_file)) = Some r0 ->
    Forall (fun r => spend_secret_key r = zero_key <-> spend_secret_key r0 = zero_key)
      (m_wallet_records (loaded imported_file)))) /\
  load_container_storage toy_CHACHA_IV_SIZE toy_chacha8 toy_keys_match
    toy_key_isvalid toy_TIMESTAMP_MAX mixed_file toy_wallet_key
    (new_wallet toy_TIMESTAMP_MAX) = Throw WALLET_FILE_DECRYPT_ERROR.
Proof.
  split.
  - apply (proj1 (load_tracking_mode_uniform toy_CHACHA_IV_SIZE toy_chacha8
                    toy_keys_match toy_key_isvalid toy_TIMESTAMP_MAX
                    imported_file toy_wallet_key) (loaded imported_file)).
    vm_compute. reflexivity.
  - apply (proj2 (load_tracking_mode_uniform toy_CHACHA_IV_SIZE toy_chacha8
                    toy_keys_match toy_key_isvalid toy_TIMESTAMP_MAX
                    mixed_file toy_wallet_key)
             (new_wallet toy_TIMESTAMP_MAX) 1%nat
             (toy_record x02 100) (toy_tracking_record x03 200)).
    + vm_compute. lia.
    + vm_compute. reflexivity.
    + vm_compute. reflexivity.
    + vm_compute. discriminate.
Defined.

(** The state of a call of [generate_new_addresses] that is about to
    enter the loop. *)
Definition toy_gna_state (w : Wallet) : gna_state :=
  {| g_wallet := w; g_rescan_from_ct := false; g_result := [];
     g_random := []; g_io := [] |}.

(** Importing the known secret key again with an earlier timestamp. *)
Definition toy_reimport : gna_outcome :=
  generate_new_addresses toy_CHACHA_IV_SIZE toy_secret_key_to_public_key toy_disk
    (toy_wallet [toy_record x02 100] 100) true [] [toy_secret x02] 50 200.

Definition toy_reimported : gna_state :=
  default (toy_gna_state (toy_wallet [toy_record x02 100] 100))
    (outcome_state toy_reimport).

Example toy_reimport_lowers :
  m_wallet_records (g_wallet toy_reimported) = [toy_record x02 50] /\
  m_oldest_timestamp (g_wallet toy_reimported) = 50 /\
  g_rescan_from_ct toy_reimported = true /\
  g_result toy_reimported = [toy_record x02 50].
Proof. vm_compute. repeat split; reflexivity. Qed.

Lemma oldest_timestamp_lifetime_witness :
  0 <= toy_TIMESTAMP_MAX /\
  (Forall (fun r => m_oldest_timestamp (loaded shredded_file) <= creation_timestamp r)
     (m_wallet_records (loaded shredded_file)) /\
   (m_wallet_records (loaded shredded_file) <> [] ->
    exists r, r ∈ m_wallet_records (loaded shredded_file) /\
              creation_timestamp r = m_oldest_timestamp (loaded shredded_file))) /\
  m_oldest_timestamp (loaded shredded_file)
    <= m_oldest_timestamp (new_wallet toy_TIMESTAMP_MAX) /\
  m_oldest_timestamp (g_wallet toy_reimported)
    <= m_oldest_timestamp (toy_wallet [toy_record x02 100] 100) /\
  m_oldest_timestamp
    (fst (on_first_output_found toy_disk "main" (toy_wallet [toy_record x02 100] 100) 5))
  = if bool_decide ("main"%string = "main"%string) && negb (5 =? 0)
       && (m_oldest_timestamp (toy_wallet [toy_record x02 100] 100) =? 0)
    then 5 else m_oldest_timestamp (toy_wallet [toy_record x02 100] 100).
Proof.
  assert (Hmax : 0 <= toy_TIMESTAMP_MAX) by (unfold toy_TIMESTAMP_MAX; lia).
  destruct (oldest_timestamp_lifetime toy_CHACHA_IV_SIZE toy_chacha8 toy_keys_match
              toy_key_isvalid toy_secret_key_to_public_key toy_TIMESTAMP_MAX
              toy_disk Hmax) as (Hload & Hagain & Hgna & Hfirst).
  split; [exact Hmax|]. split; [|split; [|split]].
  - apply (Hload shredded_file toy_wallet_key). vm_compute. reflexivity.
  - apply (Hagain shredded_file toy_wallet_key). vm_compute. reflexivity.
  - apply (Hgna (toy_wallet [toy_record x02 100] 100) true [] [toy_secret x02] 50 200).
    vm_compute. reflexivity.
  - apply Hfirst.
Defined.

(** C2 as stated fails: a wallet imported with an unknown timestamp loads
    with [m_oldest_timestamp = 0], and the first output found at time 5
    raises it to 5. *)
Lemma on_first_output_found_raises_oldest_timestamp :
  toy_load imported_file = Ok (loaded imported_file) /\
  m_oldest_timestamp (loaded imported_file) = 0 /\
  m_oldest_timestamp
    (fst (on_first_output_found toy_disk "main" (loaded imported_file) 5)) = 5 /\
  m_oldest_timestamp (loaded imported_file)
  < m_oldest_timestamp
      (fst (on_first_output_found toy_disk "main" (loaded imported_file) 5)).
Proof. vm_compute. repeat split; reflexivity. Qed.


Lemma get_record_simple_own_view_only_witness :
  get_record (toy_wallet [toy_record x02 100] 100) empty_record
    (AccountAddressSimple (rev (toy_secret x02)) (rev (toy_secret x09)))
  = Ok (false, empty_record) /\
  exists (spend : PublicKey) (idx : nat),
    AccountAddressSimple (rev (toy_secret x02)) (rev (toy_secret x01))
    = AccountAddressSimple spend (m_view_public_key (toy_wallet [toy_record x02 100] 100)) /\
    m_records_map (toy_wallet [toy_record x02 100] 100) !! spend = Some idx /\
    (idx < length (m_wallet_records (toy_wallet [toy_record x02 100] 100)))%nat.
Proof.
  destruct (get_record_simple_own_view_only (toy_wallet [toy_record x02 100] 100)
              empty_record) as (_ & Hview & Hours).
  split.
  - apply Hview. vm_compute. discriminate.
  - apply Hours. vm_compute. reflexivity.
Defined.

(** *** The toy wallet saved, loaded, extended and exported *)

Lemma toy_chacha8_length (data key iv : list byte) :
  length (toy_chacha8 data key iv) = length data.
Proof. apply xor_cipher_length. Qed.

Lemma toy_chacha8_involutive (data key iv : list byte) :
  toy_chacha8 (toy_chacha8 data key iv) key iv = data.
Proof. apply xor_cipher_involutive. Qed.

Definition toy_cn_fast_hash (data : list byte) : list byte := take 32 data.
Definition toy_WalletSerializerV1_load (wallet_key file : list byte)
    (held : list byte * list byte * list WalletRecord)
  : result (list byte * list byte * list WalletRecord) :=
  Throw StreamError.
Definition toy_generate_chacha8_key (password : string) : list byte :=
  Strings.String.list_byte_of_string password.
Definition toy_pod_to_hex (h : list byte) : string :=
  Strings.String.string_of_list_byte h.

(** Two records that can spend. *)
Definition toy_pair : Wallet := toy_wallet [toy_record x02 100; toy_record x03 200] 100.

Lemma toy_pair_wf : wallet_wf toy_TIMESTAMP_MAX toy_pair.
Proof.
  split; [reflexivity|]. split; [reflexivity|].
  repeat constructor; cbn; unfold toy_TIMESTAMP_MAX; lia.
Qed.

Lemma toy_ivs_length (i : nat) : length (toy_ivs i) = toy_CHACHA_IV_SIZE.
Proof. reflexivity. Qed.

Lemma toy_pair_checked :
  Forall (fun r => no_secret r = false /\ keys_check toy_keys_match toy_key_isvalid r = true)
    (m_wallet_records toy_pair).
Proof. repeat constructor. Qed.

Lemma decrypt_encrypt_key_pair_witness :
  let r := decrypt_key_pair toy_chacha8 toy_TIMESTAMP_MAX
             (encrypt_key_pair toy_chacha8 (toy_ivs 0) (rev (toy_secret x02))
                (toy_secret x02) 100 toy_wallet_key) toy_wallet_key in
  spend_public_key r = rev (toy_secret x02) /\ spend_secret_key r = toy_secret x02 /\
  creation_timestamp r = 100.
Proof.
  apply (decrypt_encrypt_key_pair toy_chacha8 toy_TIMESTAMP_MAX toy_chacha8_involutive).
  - reflexivity.
  - reflexivity.
  - unfold toy_TIMESTAMP_MAX. lia.
  - unfold toy_TIMESTAMP_MAX. lia.
Defined.

Lemma save_file_size_witness :
  Z.of_nat (length (save toy_CHACHA_IV_SIZE toy_chacha8 toy_pair toy_wallet_key false toy_ivs))
  = wallet_file_size toy_CHACHA_IV_SIZE (Z.of_nat (length (m_wallet_records toy_pair))).
Proof.
  apply (save_file_size toy_CHACHA_IV_SIZE toy_chacha8 toy_TIMESTAMP_MAX toy_chacha8_length).
  - exact toy_pair_wf.
  - exact toy_ivs_length.
  - vm_compute. reflexivity.
Defined.

Lemma save_load_roundtrip_witness :
  exists w' : Wallet,
    load_container_storage toy_CHACHA_IV_SIZE toy_chacha8 toy_keys_match toy_key_isvalid
      toy_TIMESTAMP_MAX
      (save toy_CHACHA_IV_SIZE toy_chacha8 toy_pair toy_wallet_key false toy_ivs)
      toy_wallet_key (new_wallet toy_TIMESTAMP_MAX) = Ok w' /\
    m_view_public_key w' = m_view_public_key toy_pair /\
    m_view_secret_key w' = m_view_secret_key toy_pair /\
    m_wallet_records w' = m_wallet_records toy_pair /\
    m_oldest_timestamp w'
      = foldl Z.min toy_TIMESTAMP_MAX
          (map creation_timestamp (m_wallet_records toy_pair)).
Proof.
  apply (save_load_roundtrip toy_CHACHA_IV_SIZE toy_chacha8 toy_keys_match
           toy_key_isvalid toy_TIMESTAMP_MAX toy_chacha8_length toy_chacha8_involutive
           toy_pair toy_wallet_key toy_ivs false).
  - unfold toy_TIMESTAMP_MAX. lia.
  - exact toy_pair_wf.
  - exact toy_ivs_length.
  - reflexivity.
  - vm_compute. discriminate.
  - exact toy_pair_checked.
Defined.

Definition toy_load_file (file : list byte) : result (Wallet * option Seeds) :=
  load toy_CHACHA_IV_SIZE toy_chacha8 toy_keys_match toy_key_isvalid toy_TIMESTAMP_MAX
    toy_disk toy_cn_fast_hash toy_WalletSerializerV1_load file toy_wallet_key
    (new_wallet toy_TIMESTAMP_MAX).

Definition toy_loaded (file : list byte) : Wallet * option Seeds :=
  match toy_load_file file with
  | Ok out => out
  | Throw _ => (new_wallet toy_TIMESTAMP_MAX, None)
  end.

Lemma load_guards_witness :
  toy_load_file [] = Throw StreamError /\
  toy_load_file [x07; x00] = Throw WALLET_FILE_UNKNOWN_VERSION /\
  (toy_load_file [x05; x00] = Throw WALLET_FILE_READ_ERROR \/
   toy_load_file [x05; x00] = Throw WALLET_FILE_DECRYPT_ERROR) /\
  exists r0 : WalletRecord,
    m_wallet_records (toy_loaded imported_file).1 !! 0%nat = Some r0 /\
    is_view_only (toy_loaded imported_file).1
    = Ok (bool_decide (spend_secret_key r0 = zero_key)) /\
    ((toy_loaded imported_file).2 = None <-> spend_secret_key r0 = zero_key).
Proof.
  split; [|split; [|split]].
  - apply (load_guards toy_CHACHA_IV_SIZE toy_chacha8 toy_keys_match toy_key_isvalid
             toy_TIMESTAMP_MAX toy_disk toy_cn_fast_hash toy_WalletSerializerV1_load
             [] toy_wallet_key (new_wallet toy_TIMESTAMP_MAX)).
    reflexivity.
  - apply (proj1 (proj2 (load_guards toy_CHACHA_IV_SIZE toy_chacha8 toy_keys_match
             toy_key_isvalid toy_TIMESTAMP_MAX toy_disk toy_cn_fast_hash
             toy_WalletSerializerV1_load [x07; x00] toy_wallet_key
             (new_wallet toy_TIMESTAMP_MAX))) x07 [x00]).
    + reflexivity.
    + vm_compute. reflexivity.
  - destruct (proj1 (proj2 (proj2 (load_guards toy_CHACHA_IV_SIZE toy_chacha8
             toy_keys_match toy_key_isvalid toy_TIMESTAMP_MAX toy_disk toy_cn_fast_hash
             toy_WalletSerializerV1_load [x05; x00] toy_wallet_key
             (new_wallet toy_TIMESTAMP_MAX)))) x05 [x00] WALLET_FILE_READ_ERROR)
      as [H|H].
    + reflexivity.
    + vm_compute. reflexivity.
    + vm_compute. reflexivity.
    + left. reflexivity.
    + discriminate H.
  - apply (proj2 (proj2 (proj2 (load_guards toy_CHACHA_IV_SIZE toy_chacha8
             toy_keys_match toy_key_isvalid toy_TIMESTAMP_MAX toy_disk toy_cn_fast_hash
             toy_WalletSerializerV1_load imported_file toy_wallet_key
             (new_wallet toy_TIMESTAMP_MAX)))) (toy_loaded imported_file).1
             (toy_loaded imported_file).2).
    vm_compute. reflexivity.
Defined.

(** The wallet of two records with its oldest timestamp right, and with
    the oldest timestamp pinned above the timestamp of a record. *)
Lemma save_and_check_comparison_witness :
  written_and_checked toy_CHACHA_IV_SIZE toy_chacha8 toy_keys_match toy_key_isvalid
    toy_TIMESTAMP_MAX toy_disk toy_cn_fast_hash toy_WalletSerializerV1_load
    toy_wallet_key toy_ivs true toy_pair
  = (if bool_decide (m_wallet_records toy_pair = [])
     then SaveRejected WALLET_FILE_DECRYPT_ERROR
     else if bool_decide (m_oldest_timestamp toy_pair
                          = foldl Z.min toy_TIMESTAMP_MAX
                              (map creation_timestamp (m_wallet_records toy_pair)))
          then Saved else SaveRejected WALLET_FILE_WRITE_ERROR).
Proof.
  apply (save_and_check_comparison toy_CHACHA_IV_SIZE toy_chacha8 toy_keys_match
           toy_key_isvalid toy_TIMESTAMP_MAX toy_disk toy_chacha8_length
           toy_chacha8_involutive toy_cn_fast_hash toy_WalletSerializerV1_load
           toy_pair toy_wallet_key toy_ivs true false).
  - unfold toy_TIMESTAMP_MAX. lia.
  - exact toy_pair_wf.
  - exact toy_ivs_length.
  - reflexivity.
  - vm_compute. discriminate.
  - exact toy_pair_checked.
Defined.

Example toy_pair_saves :
  written_and_checked toy_CHACHA_IV_SIZE toy_chacha8 toy_keys_match toy_key_isvalid
    toy_TIMESTAMP_MAX toy_disk toy_cn_fast_hash toy_WalletSerializerV1_load
    toy_wallet_key toy_ivs true toy_pair = Saved /\
  written_and_checked toy_CHACHA_IV_SIZE toy_chacha8 toy_keys_match toy_key_isvalid
    toy_TIMESTAMP_MAX toy_disk toy_cn_fast_hash toy_WalletSerializerV1_load
    toy_wallet_key toy_ivs true
    (toy_wallet [toy_record x02 300; toy_record x03 200] 300)
  = SaveRejected WALLET_FILE_WRITE_ERROR.
Proof. vm_compute. split; reflexivity. Qed.

(** The wallet a fresh object reads from the file of the two records. *)
Definition toy_pair_file : list byte :=
  save toy_CHACHA_IV_SIZE toy_chacha8 toy_pair toy_wallet_key false toy_ivs.

Example toy_pair_file_loads : toy_load toy_pair_file = Ok (loaded toy_pair_file).
Proof. vm_compute. reflexivity. Qed.

Lemma toy_pair_file_indexed : records_indexed (loaded toy_pair_file).
Proof.
  apply (load_container_storage_indexed toy_CHACHA_IV_SIZE toy_chacha8 toy_keys_match
           toy_key_isvalid toy_TIMESTAMP_MAX toy_pair_file toy_wallet_key
           (new_wallet toy_TIMESTAMP_MAX)).
  - vm_compute. reflexivity.
  - apply new_wallet_indexed.
Qed.

(** One address drawn at random, then the first secret key imported again
    with an earlier timestamp. *)
Definition toy_grow : gna_outcome :=
  generate_new_addresses toy_CHACHA_IV_SIZE toy_secret_key_to_public_key toy_disk
    (loaded toy_pair_file) false [(rev (toy_secret x09), toy_secret x09)]
    [zero_key; toy_secret x02] 50 300.

Definition toy_grown : gna_state :=
  default (toy_gna_state (loaded toy_pair_file)) (outcome_state toy_grow).

Example toy_grow_returns :
  toy_grow = Next toy_grown /\
  m_wallet_records (g_wallet toy_grown)
  = [toy_record x02 50; toy_record x03 200; toy_record x09 300] /\
  g_result toy_grown = [toy_record x09 300; toy_record x02 50] /\
  g_rescan_from_ct toy_grown = true.
Proof. vm_compute. repeat split; reflexivity. Qed.

Lemma records_index_kept_witness :
  records_indexed (new_wallet toy_TIMESTAMP_MAX) /\
  records_indexed (loaded toy_pair_file) /\
  records_indexed (g_wallet toy_grown) /\
  records_indexed
    (on_first_output_found toy_disk "main" (loaded toy_pair_file) 5).1.
Proof.
  destruct (records_index_kept toy_CHACHA_IV_SIZE toy_chacha8 toy_keys_match
              toy_key_isvalid toy_secret_key_to_public_key toy_TIMESTAMP_MAX toy_disk)
    as (Hnew & Hload & Hgna & Hfirst).
  assert (Hpair : records_indexed (loaded toy_pair_file)).
  { apply (Hload toy_pair_file toy_wallet_key (new_wallet toy_TIMESTAMP_MAX));
      [vm_compute; reflexivity | exact Hnew]. }
  split; [exact Hnew|]. split; [exact Hpair|]. split.
  - apply (Hgna (loaded toy_pair_file) false [(rev (toy_secret x09), toy_secret x09)]
             [zero_key; toy_secret x02] 50 300).
    + vm_compute. reflexivity.
    + exact Hpair.
  - apply Hfirst. exact Hpair.
Defined.

Lemma get_record_indexed_witness :
  (exists (found : bool) (r : WalletRecord),
     get_record (loaded toy_pair_file) empty_record
       (AccountAddressSimple (rev (toy_secret x03)) (rev (toy_secret x01)))
     = Ok (found, r) /\
     if found
     then r ∈ m_wallet_records (loaded toy_pair_file) /\
          record_to_address (loaded toy_pair_file) r
          = AccountAddressSimple (rev (toy_secret x03)) (rev (toy_secret x01))
     else r = empty_record) /\
  is_our_address (loaded toy_pair_file)
    (record_to_address (loaded toy_pair_file) (toy_record x03 200)) = Ok true.
Proof.
  destruct (get_record_indexed (loaded toy_pair_file) toy_pair_file_indexed)
    as [Hget Hours].
  split.
  - apply Hget.
  - apply Hours. vm_compute. right. left.
Defined.

Lemma generate_new_addresses_appends_witness :
  length (g_result toy_grown) = length [zero_key; toy_secret x02] /\
  (exists written : list WalletRecord,
     map spend_public_key (m_wallet_records (g_wallet toy_grown))
     = map spend_public_key (m_wallet_records (loaded toy_pair_file))
       ++ map spend_public_key written /\
     let n := Z.of_nat (length (m_wallet_records (loaded toy_pair_file))
                        + length written) in
     g_io toy_grown
     = IoSeek (wallet_file_size toy_CHACHA_IV_SIZE
                 (Z.of_nat (length (m_wallet_records (loaded toy_pair_file)))))
       :: map IoWriteRecord written
       ++ [IoFsync; IoSeek (1 + Z.of_nat (PREFIX_SIZE toy_CHACHA_IV_SIZE));
           IoWriteCount n; IoWriteCount n; IoFsync]) /\
  (if m_file_open (loaded toy_pair_file)
   then with_file_open (loaded toy_pair_file) true = loaded toy_pair_file
   else save_and_check toy_disk (loaded toy_pair_file)
        = (with_file_open (loaded toy_pair_file) true, Ok ())) /\
  exists s_end : gna_state,
    gna_loop toy_secret_key_to_public_key 50 300
      (gna_start toy_CHACHA_IV_SIZE (with_file_open (loaded toy_pair_file) true)
         [(rev (toy_secret x09), toy_secret x09)])
      [zero_key; toy_secret x02] = Next s_end /\
    let s_io := with_io s_end (gna_counters toy_CHACHA_IV_SIZE s_end) in
    if g_rescan_from_ct s_end
    then save_and_check toy_disk (g_wallet s_io)
         = (with_file_open (g_wallet s_end) true, Ok ()) /\
         toy_grown = with_wallet s_io (with_file_open (g_wallet s_end) true)
    else toy_grown = s_io.
Proof.
  apply (generate_new_addresses_appends toy_CHACHA_IV_SIZE toy_secret_key_to_public_key
           toy_disk (loaded toy_pair_file) false [(rev (toy_secret x09), toy_secret x09)]
           [zero_key; toy_secret x02] 50 300 toy_grown).
  vm_compute. reflexivity.
Defined.

Lemma export_wallet_view_only_witness :
  exists (file : list byte) (w' : Wallet),
    export_wallet toy_CHACHA_IV_SIZE toy_chacha8 toy_keys_match toy_key_isvalid
      toy_generate_chacha8_key ∅ toy_pair "copy" "pw" true false toy_ivs
    = Ok (<["copy"%string := file]> ∅) /\
    load toy_CHACHA_IV_SIZE toy_chacha8 toy_keys_match toy_key_isvalid toy_TIMESTAMP_MAX
      toy_disk toy_cn_fast_hash toy_WalletSerializerV1_load file
      (toy_generate_chacha8_key "pw") (new_wallet toy_TIMESTAMP_MAX) = Ok (w', None) /\
    is_view_only w' = Ok true /\
    m_view_public_key w' = m_view_public_key toy_pair /\
    m_view_secret_key w' = m_view_secret_key toy_pair /\
    m_wallet_records w' = map (saved_record true) (m_wallet_records toy_pair) /\
    Forall (fun r => spend_secret_key r = zero_key) (m_wallet_records w').
Proof.
  apply (export_wallet_view_only toy_CHACHA_IV_SIZE toy_chacha8 toy_keys_match
           toy_key_isvalid toy_TIMESTAMP_MAX toy_disk toy_chacha8_length
           toy_chacha8_involutive toy_cn_fast_hash toy_WalletSerializerV1_load
           toy_generate_chacha8_key ∅ toy_pair "copy" "pw" false toy_ivs).
  - unfold toy_TIMESTAMP_MAX. lia.
  - reflexivity.
  - exact toy_pair_wf.
  - exact toy_ivs_length.
  - reflexivity.
  - vm_compute. discriminate.
  - discriminate.
  - repeat constructor.
  - reflexivity.
Defined.

Definition toy_seeds : Seeds :=
  {| m_seed := [x01]; m_tx_derivation_seed := [x02];
     m_history_filename_seed := [x03]; m_history_key := [x04] |}.

Definition toy_history : list (list byte * list byte) :=
  [(rev (toy_secret x02), rev (toy_secret x01));
   (rev (toy_secret x03), rev (toy_secret x01))].

Lemma load_save_history_witness :
  (save_history toy_chacha8 toy_cn_fast_hash toy_pod_to_hex ∅ "w" "test" toy_seeds
     [x0a] toy_history (toy_ivs 0) true true).2 = true /\
  load_history toy_CHACHA_IV_SIZE toy_chacha8 toy_cn_fast_hash toy_pod_to_hex
    (save_history toy_chacha8 toy_cn_fast_hash toy_pod_to_hex ∅ "w" "test" toy_seeds
       [x0a] toy_history (toy_ivs 0) true true).1 "w" "test" toy_seeds [x0a]
  = list_to_set toy_history.
Proof.
  apply (load_save_history toy_CHACHA_IV_SIZE toy_chacha8 toy_chacha8_length
           toy_chacha8_involutive toy_cn_fast_hash toy_pod_to_hex ∅ "w" "test"
           toy_seeds [x0a] (toy_ivs 0) toy_history).
  - reflexivity.
  - repeat constructor.
  - discriminate.
Defined.

(** *** Creating the toy wallet

    The toy hex string of a key writes every byte twice. *)

Fixpoint toy_to_hex (a : list byte) : string :=
  match a with
  | [] => ""
  | b :: a' =>
      String (Ascii.ascii_of_byte b) (String (Ascii.ascii_of_byte b) (toy_to_hex a'))
  end.

Fixpoint toy_from_hex (s : string) : list byte :=
  match s with
  | String c (String _ s') => Ascii.byte_of_ascii c :: toy_from_hex s'
  | _ => []
  end.

Definition toy_pod_from_hex (s : string) : option (list byte) :=
  if (length (toy_from_hex s) =? KEY_SIZE)%nat then Some (toy_from_hex s) else None.

Lemma toy_pod_from_hex_length (s : string) (k : list byte) :
  toy_pod_from_hex s = Some k -> length k = KEY_SIZE.
Proof.
  unfold toy_pod_from_hex.
  destruct (length (toy_from_hex s) =? KEY_SIZE)%nat eqn:E; [|done].
  intros [= <-]. by apply Nat.eqb_eq.
Qed.

Lemma toy_to_hex_app (a b : list byte) :
  toy_to_hex (a ++ b) = (toy_to_hex a +:+ toy_to_hex b)%string.
Proof.
  induction a as [|x a IH]; [done|].
  cbn [app toy_to_hex]. rewrite IH. reflexivity.
Qed.

Lemma toy_to_hex_length (a : list byte) :
  Strings.String.length (toy_to_hex a) = (2 * length a)%nat.
Proof.
  induction a as [|x a IH]; [done|].
  cbn [toy_to_hex Strings.String.length length]. rewrite IH. lia.
Qed.

Lemma toy_from_hex_to_hex (a : list byte) : toy_from_hex (toy_to_hex a) = a.
Proof.
  induction a as [|x a IH]; [done|].
  cbn [toy_to_hex toy_from_hex]. by rewrite IH, Ascii.byte_of_ascii_of_byte.
Qed.

Lemma toy_pod_from_hex_to_hex (a : list byte) :
  length a = KEY_SIZE -> toy_pod_from_hex (toy_to_hex a) = Some a.
Proof.
  intros Ha. unfold toy_pod_from_hex. rewrite toy_from_hex_to_hex, Ha.
  by rewrite Nat.eqb_refl.
Qed.

Definition toy_create (import_keys : string) (creation_timestamp : Z)
  : gmap string (list byte) * result (Wallet * option Seeds) :=
  create toy_CHACHA_IV_SIZE toy_chacha8 toy_keys_match toy_key_isvalid
    toy_TIMESTAMP_MAX toy_disk toy_cn_fast_hash toy_WalletSerializerV1_load
    toy_generate_chacha8_key toy_pod_from_hex
    ∅ "wallet" "pw" import_keys creation_timestamp 100
    (rev (toy_secret x01), toy_secret x01) (rev (toy_secret x02), toy_secret x02)
    toy_ivs true.

Lemma create_new_wallet_witness :
  exists (fs' : gmap string (list byte)) (file : list byte) (w reopened : Wallet)
         (seeds seeds' : Seeds),
    toy_create "" 0 = (fs', Ok (w, Some seeds)) /\
    fs' !! "wallet"%string = Some file /\ fs' !! "wallet.tmp"%string = None /\
    (forall p, p <> "wallet"%string -> p <> "wallet.tmp"%string ->
       fs' !! p = (∅ : gmap string (list byte)) !! p) /\
    m_view_public_key w = rev (toy_secret x01) /\
    m_view_secret_key w = toy_secret x01 /\
    m_wallet_records w = [toy_record x02 100; toy_record x02 100] /\
    m_oldest_timestamp w = 100 /\
    load toy_CHACHA_IV_SIZE toy_chacha8 toy_keys_match toy_key_isvalid
      toy_TIMESTAMP_MAX toy_disk toy_cn_fast_hash toy_WalletSerializerV1_load
      file (toy_generate_chacha8_key "pw") (new_wallet toy_TIMESTAMP_MAX)
    = Ok (reopened, Some seeds') /\
    m_view_public_key reopened = rev (toy_secret x01) /\
    m_view_secret_key reopened = toy_secret x01 /\
    m_wallet_records reopened = [toy_record x02 100] /\
    m_oldest_timestamp reopened = 100.
Proof.
  refine (proj2 (create_new_wallet toy_CHACHA_IV_SIZE toy_chacha8 toy_keys_match
            toy_key_isvalid toy_TIMESTAMP_MAX toy_disk toy_chacha8_length
            toy_chacha8_involutive toy_cn_fast_hash toy_WalletSerializerV1_load
            toy_generate_chacha8_key toy_pod_from_hex
            ∅ "wallet" "pw" 0 100
            (rev (toy_secret x01), toy_secret x01)
            (rev (toy_secret x02), toy_secret x02) toy_ivs
            _ _ _ _ _ _ _ _ _ _ _) _).
  - vm_compute. reflexivity.
  - vm_compute. split; discriminate.
  - reflexivity.
  - reflexivity.
  - reflexivity.
  - reflexivity.
  - reflexivity.
  - vm_compute. reflexivity.
  - discriminate.
  - vm_compute. reflexivity.
  - vm_compute. discriminate.
  - apply lookup_empty.
Defined.

Definition toy_import_keys : string :=
  toy_to_hex (rev (toy_secret x02) ++ rev (toy_secret x01)
              ++ toy_secret x02 ++ toy_secret x01).

Lemma create_import_keys_witness :
  exists file : list byte,
    toy_create toy_import_keys 5
    = (<["wallet.tmp"%string := file]> (<["wallet"%string := []]> ∅),
       Throw WALLET_FILE_WRITE_ERROR).
Proof.
  destruct (create_import_keys toy_CHACHA_IV_SIZE toy_chacha8 toy_keys_match
              toy_key_isvalid toy_TIMESTAMP_MAX toy_disk toy_chacha8_length
              toy_chacha8_involutive toy_cn_fast_hash toy_WalletSerializerV1_load
              toy_generate_chacha8_key toy_pod_from_hex toy_pod_from_hex_length
              ∅ "wallet" "pw" toy_import_keys 5 100
              (rev (toy_secret x01), toy_secret x01)
              (rev (toy_secret x02), toy_secret x02) toy_ivs
              (rev (toy_secret x02)) (rev (toy_secret x01))
              (toy_secret x02) (toy_secret x01)) as [_ H].
  - vm_compute. reflexivity.
  - vm_compute. split; discriminate.
  - reflexivity.
  - vm_compute. discriminate.
  - apply lookup_empty.
  - vm_compute. discriminate.
  - destruct H as [_ H]; [vm_compute; reflexivity..|].
    destruct H as [H _]; [vm_compute; reflexivity..|].
    apply H. discriminate.
Defined.

Lemma export_keys_import_witness :
  exists (keys : string) (fs' : gmap string (list byte)) (w : Wallet)
         (seeds : option Seeds),
    export_keys toy_to_hex (toy_wallet [toy_record x02 100] 100) = Ok keys /\
    Strings.String.length keys = 256%nat /\
    toy_create keys 0 = (fs', Ok (w, seeds)) /\
    m_view_public_key w = rev (toy_secret x01) /\
    m_view_secret_key w = toy_secret x01 /\
    m_wallet_records w !! 0%nat = Some (toy_record x02 0) /\
    get_first_address w = get_first_address (toy_wallet [toy_record x02 100] 100) /\
    export_keys toy_to_hex w = Ok keys.
Proof.
  apply (export_keys_import toy_CHACHA_IV_SIZE toy_chacha8 toy_keys_match
           toy_key_isvalid toy_TIMESTAMP_MAX toy_disk toy_chacha8_length
           toy_chacha8_involutive toy_cn_fast_hash toy_WalletSerializerV1_load
           toy_generate_chacha8_key toy_to_hex toy_pod_from_hex
           toy_to_hex_app toy_to_hex_length toy_pod_from_hex_to_hex
           ∅ "wallet" "pw" 100
           (rev (toy_secret x01), toy_secret x01)
           (rev (toy_secret x02), toy_secret x02) toy_ivs
           (toy_wallet [toy_record x02 100] 100) (toy_record x02 100)).
  - vm_compute. reflexivity.
  - vm_compute. discriminate.
  - reflexivity.
  - vm_compute. discriminate.
  - apply lookup_empty.
  - split; [reflexivity|]. split; [reflexivity|].
    repeat constructor; vm_compute; discriminate.
  - reflexivity.
  - vm_compute. reflexivity.
  - vm_compute. reflexivity.
Defined.

End WalletContainerStorage.

(** ** HD back end: encrypted rows *)

Module WalletHD.
Import Bytes WalletCore.

(** Modelled from the spec: [sizeof (Hash)], "iv(32)". *)
Definition HASH_SIZE : nat := 32.
Definition MIN_SIZE : Z := 256.
(** iv, actual size in le *)
Definition EXTRA_SIZE : Z := Z.of_nat HASH_SIZE + 4.

(** [while (actual_size < data.size() + EXTRA_SIZE || actual_size < MIN_SIZE)
       actual_size *= 2;]
    [need] is [data.size() + EXTRA_SIZE].  A [size_t] that was doubled 64
    times is 0 and stays 0, so a loop still running after 65 tests never
    ends: [None]. *)
Fixpoint grow_actual_size (fuel : nat) (actual_size need : Z) : option Z :=
  match fuel with
  | O => None
  | S fuel' =>
      if (actual_size <? need) || (actual_size <? MIN_SIZE)
      then grow_actual_size fuel' (wrap64 (actual_size * 2)) need
      else Some actual_size
  end.

Section Storage.

(** [crypto::cn_fast_hash], [chacha (rounds, data, length, key, iv, cipher)]
    and [sizeof (crypto::chacha_iv)] come from the crypto library. *)
Variable cn_fast_hash : list byte -> list byte.
Variable chacha : nat -> list byte -> list byte -> list byte -> list byte.
Variable CHACHA_IV_SIZE : nat.

(** The cipher writes as many bytes as it reads, and applying it twice
    under one key and one nonce gives the input back (a stream cipher). *)
Hypothesis chacha_length :
  forall rounds data key iv, length (chacha rounds data key iv) = length data.
Hypothesis chacha_involutive :
  forall rounds data key iv, chacha rounds (chacha rounds data key iv) key iv = data.

(** [iv] is the value of [crypto::rand<Hash>()]; the result is [None] when
    the sizing loop does not end. *)
Definition encrypt_data (wallet_key iv data : list byte) : option (list byte) :=
  match grow_actual_size 65 1 (wrap64 (Z.of_nat (length data) + EXTRA_SIZE)) with
  | None => None
  | Some actual_size =>
      let large_data := zeros (Z.to_nat (wrap64 (actual_size - Z.of_nat HASH_SIZE))) in
      let large_data := memcpy_at large_data 0 (uint_le_to_bytes 4 (Z.of_nat (length data))) in
      let large_data := memcpy_at large_data 4 data in
      let enc_data := zeros (HASH_SIZE + length large_data) in
      let enc_data := memcpy_at enc_data 0 iv in
      let key := cn_fast_hash (wallet_key ++ iv) in
      Some (memcpy_at enc_data HASH_SIZE
              (chacha 20 large_data key (zeros CHACHA_IV_SIZE)))
  end.

Definition decrypt_data (wallet_key value : list byte) : result (list byte) :=
  let* _ := invariant (4 + Z.of_nat HASH_SIZE <=? Z.of_nat (length value)) in
  let iv := slice value 0 HASH_SIZE in
  let result_size := (length value - HASH_SIZE)%nat in
  let key := cn_fast_hash (wallet_key ++ iv) in
  let result :=
    memcpy_at (zeros result_size) 0
      (chacha 20 (slice value HASH_SIZE result_size) key (zeros CHACHA_IV_SIZE)) in
  let real_size := uint_le_from_bytes (slice result 0 4) in
  let* _ := invariant (real_size <=? Z.of_nat (length result) - 4) in
  Ok (slice result 4 (Z.to_nat real_size)).

(** *** The database and the address window *)

(** The three encrypted tables, each keyed by its hashed primary key. *)
Record Tables : Type := {
  parameters : gmap (list byte) (list byte * list byte);
  labels : gmap (list byte) (list byte * list byte);
  payment_queue : gmap (list byte * list byte) (list byte * list byte * list byte)
}.

(** [sqlite::Dbi] inside its long-lived transaction: what the last commit
    left on disk, what the open transaction has changed so far, and how
    many transactions were committed. *)
Record Dbi : Type := {
  committed : Tables;
  pending : Tables;
  commits : nat
}.

Record KeyPair : Type := {
  public_key : PublicKey;
  secret_key : SecretKey
}.

Record Wallet : Type := {
  m_wallet_key : list byte;
  m_spend_key_base : KeyPair;
  m_wallet_records : list WalletRecord;
  m_records_map : gmap (list byte) nat;
  m_used_address_count : Z;
  m_db_dbi : Dbi
}.

Definition GENERATE_AHEAD : Z := 20000.
Definition ADDRESS_COUNT_PREFIX : string := "total_address_count".

(** From the libraries: [crypto::generate_hd_spendkeys] (it fills the
    vector it is handed), [std::thread::hardware_concurrency],
    [seria::to_binary] and [std::numeric_limits<Timestamp>::max ()]. *)
Variable generate_hd_spendkeys : KeyPair -> list byte -> Z -> nat -> list KeyPair.
Variable hardware_concurrency : Z.
Variable to_binary : Z -> list byte.
Variable TIMESTAMP_MAX : Z.

(** The generator fills every slot of a vector of [n] slots, and the
    serialised counter is a short byte string. *)
Hypothesis generate_hd_spendkeys_length :
  forall base view_seed counter n,
    length (generate_hd_spendkeys base view_seed counter n) = n.
Hypothesis to_binary_length :
  forall z, Z.of_nat (length (to_binary z)) <= 2 ^ 31.

Definition as_binary_array (s : string) : list byte :=
  Strings.String.list_byte_of_string s.

Definition derive_from_key (key : list byte) (append : list byte) : list byte :=
  cn_fast_hash (key ++ append ++ key).

Definition with_db (w : Wallet) (db : Dbi) : Wallet :=
  {| m_wallet_key := m_wallet_key w; m_spend_key_base := m_spend_key_base w;
     m_wallet_records := m_wallet_records w; m_records_map := m_records_map w;
     m_used_address_count := m_used_address_count w; m_db_dbi := db |}.

Definition with_used_address_count (w : Wallet) (n : Z) : Wallet :=
  {| m_wallet_key := m_wallet_key w; m_spend_key_base := m_spend_key_base w;
     m_wallet_records := m_wallet_records w; m_records_map := m_records_map w;
     m_used_address_count := n; m_db_dbi := m_db_dbi w |}.

(** [commit]: [commit_txn] then [begin_txn]. *)
Definition commit (w : Wallet) : Wallet :=
  let db := m_db_dbi w in
  with_db w {| committed := pending db; pending := pending db;
               commits := S (commits db) |}.

Definition with_pending (w : Wallet) (t : Tables) : Wallet :=
  let db := m_db_dbi w in
  with_db w {| committed := committed db; pending := t; commits := commits db |}.

(** [put (key, value, nooverwrite)]: [INSERT] fails on a key that is there,
    [REPLACE] overwrites.  [iv_key] and [iv_value] are the two values of
    [crypto::rand<Hash> ()]. *)
Definition put (w : Wallet) (key : string) (value : list byte) (nooverwrite : bool)
    (iv_key iv_value : list byte) : result Wallet :=
  let key_hash :=
    derive_from_key (m_wallet_key w) (as_binary_array ("db_parameters" +:+ key)) in
  match encrypt_data (m_wallet_key w) iv_key (as_binary_array key),
        encrypt_data (m_wallet_key w) iv_value value with
  | Some enc_key, Some enc_value =>
      let t := pending (m_db_dbi w) in
      if nooverwrite && bool_decide (is_Some (parameters t !! key_hash))
      then Throw RuntimeError
      else Ok (with_pending w
                 {| parameters := <[key_hash := (enc_key, enc_value)]> (parameters t);
                    labels := labels t; payment_queue := payment_queue t |})
  | _, _ => Throw NoReturn
  end.

Definition hd_record (kp : KeyPair) : WalletRecord :=
  {| spend_public_key := public_key kp; spend_secret_key := secret_key kp;
     creation_timestamp := TIMESTAMP_MAX |}.

(** [generate_ahead1 (counter, result)] for a [result] of [n] slots. *)
Definition generate_ahead1 (w : Wallet) (counter : Z) (n : nat) : list WalletRecord :=
  let view_seed := public_key (m_spend_key_base w) in
  map hd_record (generate_hd_spendkeys (m_spend_key_base w) view_seed counter n).

(** The slices the worker threads fill, in the order [results] keeps them. *)
Definition generate_ahead_results (w : Wallet) (size delta : Z)
  : list (list WalletRecord) :=
  if delta <? 1000 then [generate_ahead1 w size (Z.to_nat delta)]
  else
    let thc := hardware_concurrency in
    map (fun i : nat =>
           let start := wrap64 (delta * Z.of_nat i) / thc in
           generate_ahead1 w (wrap64 (size + start))
             (Z.to_nat (wrap64 (wrap64 (delta * (Z.of_nat i + 1)) / thc - start))))
        (seq 0 (Z.to_nat thc)).

(** [m_records_map.insert (...); m_wallet_records.push_back (record);] *)
Definition push_record (w : Wallet) (record : WalletRecord) : Wallet :=
  {| m_wallet_key := m_wallet_key w; m_spend_key_base := m_spend_key_base w;
     m_wallet_records := m_wallet_records w ++ [record];
     m_records_map :=
       map_insert_new (spend_public_key record) (length (m_wallet_records w))
         (m_records_map w);
     m_used_address_count := m_used_address_count w; m_db_dbi := m_db_dbi w |}.

Definition generate_ahead (w : Wallet) : Wallet :=
  let size := Z.of_nat (length (m_wallet_records w)) in
  let target := wrap64 (m_used_address_count w + GENERATE_AHEAD) in
  if size >=? target then w
  else
    let delta := wrap64 (target - size) in
    foldl push_record w (concat (generate_ahead_results w size delta)).

(** [m_wallet_records.at (i)] *)
Definition records_at (w : Wallet) (i : Z) : result WalletRecord :=
  match m_wallet_records w !! Z.to_nat i with
  | Some r => Ok r
  | None => Throw OutOfRange
  end.

(** [for (i = 0; i != n; ++i) result.push_back (m_wallet_records.at (was + i));] *)
Fixpoint take_records (w : Wallet) (was : Z) (i : Z) (n : nat)
  : result (list WalletRecord) :=
  match n with
  | O => Ok []
  | S n' =>
      let* r := records_at w (wrap64 (was + i)) in
      let* rest := take_records w was (i + 1) n' in
      Ok (r :: rest)
  end.

(** [generate_new_addresses]: the wallet and [*rescan_from_ct] after the
    call, and the vector returned or the exception. *)
Definition generate_new_addresses (w : Wallet) (rescan_from_ct : bool)
    (sks : list SecretKey) (ct now : Z) (iv_key iv_value : list byte)
  : Wallet * bool * result (list WalletRecord) :=
  if existsb (fun sk => negb (bool_decide (sk = zero_key))) sks
  then (w, rescan_from_ct, Throw RuntimeError)
  else
    match sks with
    | [] => (w, rescan_from_ct, Ok [])
    | _ :: _ =>
        let was_used_address_count := m_used_address_count w in
        let w := with_used_address_count w
                   (wrap64 (m_used_address_count w + Z.of_nat (length sks))) in
        let w := generate_ahead w in
        match take_records w was_used_address_count 0 (length sks) with
        | Throw e => (w, rescan_from_ct, Throw e)
        | Ok result =>
            match put w ADDRESS_COUNT_PREFIX (to_binary (m_used_address_count w))
                    false iv_key iv_value with
            | Throw e => (w, rescan_from_ct, Throw e)
            | Ok w => (commit w, rescan_from_ct, Ok result)
            end
        end
    end.

(** [payment_queue_remove (tid)]; [net] is [m_currency.net]. *)
Definition payment_queue_remove (net : string) (w : Wallet) (tid : list byte) : Wallet :=
  let tid_hash :=
    derive_from_key (m_wallet_key w) (as_binary_array "db_payment_queue_tid" ++ tid) in
  let net_hash :=
    derive_from_key (m_wallet_key w) (as_binary_array ("db_payment_queue_net" +:+ net)) in
  let t := pending (m_db_dbi w) in
  let w := with_pending w
             {| parameters := parameters t; labels := labels t;
                payment_queue := delete (tid_hash, net_hash) (payment_queue t) |} in
  if bool_decide (head tid = Some "x"%byte) then commit w else w.

(** *** Encrypted rows: what [encrypt_data] builds and [decrypt_data] reads *)

(** The sizing loop started at [2 ^ j] stops at the first power of two that
    is at least [need] and at least [MIN_SIZE]. *)
Lemma grow_actual_size_pow2 (fuel : nat) (j need : Z) :
  0 <= j <= 63 -> need <= 2 ^ 63 -> (Z.to_nat (63 - j) < fuel)%nat ->
  exists k, j <= k <= 63 /\
    grow_actual_size fuel (2 ^ j) need = Some (2 ^ k) /\
    need <= 2 ^ k /\ MIN_SIZE <= 2 ^ k /\
    (k = j \/ 2 ^ (k - 1) < need \/ 2 ^ (k - 1) < MIN_SIZE).
Proof.
  revert j. induction fuel as [|fuel IH]; intros j Hj Hneed Hfuel; [lia|].
  cbn [grow_actual_size].
  destruct ((2 ^ j <? need) || (2 ^ j <? MIN_SIZE)) eqn:E.
  - assert (Hj63 : j < 63).
    { destruct (Z.eq_dec j 63) as [->|]; [|lia].
      apply orb_true_iff in E. unfold MIN_SIZE in E.
      destruct E as [E|E]; apply Z.ltb_lt in E; lia. }
    assert (Hw : wrap64 (2 ^ j * 2) = 2 ^ (j + 1)).
    { unfold wrap64. rewrite Z.pow_add_r by lia. change (2 ^ 1) with 2.
      apply Z.mod_small. split; [lia|].
      change (2 ^ 64) with (2 ^ 63 * 2).
      assert (2 ^ j < 2 ^ 63) by (apply Z.pow_lt_mono_r; lia). lia. }
    rewrite Hw.
    destruct (IH (j + 1)) as (k & Hk & Hg & Hn & Hm & Hmin); [lia|lia|lia|].
    exists k. split; [lia|]. split; [done|]. split; [done|]. split; [done|].
    right. destruct Hmin as [->|Hmin]; [|done].
    replace (j + 1 - 1) with j by lia.
    apply orb_true_iff in E. destruct E as [E|E]; apply Z.ltb_lt in E; auto.
  - apply orb_false_iff in E. destruct E as [E1 E2].
    apply Z.ltb_ge in E1, E2.
    exists j. split; [lia|]. auto.
Qed.

(** The buffer handed to the cipher: length, payload, zero padding. *)
Lemma large_data_layout (n : nat) (data : list byte) :
  (4 + length data <= n)%nat ->
  memcpy_at (memcpy_at (zeros n) 0 (uint_le_to_bytes 4 (Z.of_nat (length data)))) 4 data
  = uint_le_to_bytes 4 (Z.of_nat (length data)) ++ data
      ++ zeros (n - 4 - length data).
Proof.
  intros Hn. rewrite memcpy_at_0.
  pose proof (length_uint_le_to_bytes 4 (Z.of_nat (length data))) as Hl.
  rewrite <- Hl at 3. rewrite memcpy_at_app. do 2 f_equal.
  unfold zeros. by rewrite !drop_replicate, Hl.
Qed.

(** What [encrypt_data] returns, written out: the iv, then the cipher text
    of the padded buffer; the whole value has the length the sizing loop
    found. *)
Lemma encrypt_data_layout (wallet_key iv data : list byte) :
  length iv = HASH_SIZE -> Z.of_nat (length data) <= 2 ^ 31 ->
  exists k : Z, 8 <= k <= 63 /\
    Z.of_nat (length data) + EXTRA_SIZE <= 2 ^ k /\
    (k = 8 \/ 2 ^ (k - 1) < Z.of_nat (length data) + EXTRA_SIZE) /\
    encrypt_data wallet_key iv data =
      Some (iv ++ chacha 20
                    (uint_le_to_bytes 4 (Z.of_nat (length data)) ++ data ++
                     zeros (Z.to_nat (2 ^ k) - HASH_SIZE - 4 - length data))
                    (cn_fast_hash (wallet_key ++ iv)) (zeros CHACHA_IV_SIZE)).
Proof using chacha_length.
  intros Hiv Hlen. unfold encrypt_data.
  assert (Hneed : wrap64 (Z.of_nat (length data) + EXTRA_SIZE)
                  = Z.of_nat (length data) + EXTRA_SIZE).
  { unfold wrap64, EXTRA_SIZE, HASH_SIZE. apply Z.mod_small. lia. }
  rewrite Hneed.
  destruct (grow_actual_size_pow2 65 0 (Z.of_nat (length data) + EXTRA_SIZE))
    as (k & Hk & Hg & Hn & Hmin & Hleast);
    [lia | unfold EXTRA_SIZE, HASH_SIZE; lia | simpl; lia |].
  change (2 ^ 0) with 1 in Hg. rewrite Hg.
  assert (Hk8 : 8 <= k).
  { destruct (Z.lt_ge_cases k 8) as [Hlt|]; [|done].
    assert (2 ^ k < 2 ^ 8) by (apply Z.pow_lt_mono_r; lia).
    unfold MIN_SIZE in Hmin. lia. }
  assert (Hk64 : 2 ^ k < 2 ^ 64) by (apply Z.pow_lt_mono_r; lia).
  exists k. split; [lia|]. split; [done|]. split.
  { destruct Hleast as [->|[H|H]]; [lia|by right|].
    unfold MIN_SIZE in H. change 256 with (2 ^ 8) in H.
    apply Z.pow_lt_mono_r_iff in H; lia. }
  assert (Hw : wrap64 (2 ^ k - Z.of_nat HASH_SIZE) = 2 ^ k - Z.of_nat HASH_SIZE).
  { unfold wrap64, HASH_SIZE, MIN_SIZE in *. apply Z.mod_small. lia. }
  rewrite Hw.
  unfold EXTRA_SIZE, HASH_SIZE, MIN_SIZE in *.
  rewrite large_data_layout by lia.
  set (large := uint_le_to_bytes 4 (Z.of_nat (length data)) ++ data ++ _).
  f_equal. rewrite memcpy_at_0.
  unfold zeros at 1. rewrite drop_replicate.
  replace (32 + length large - length iv)%nat with (length large) by lia.
  rewrite <- Hiv. rewrite memcpy_at_app, chacha_length.
  rewrite drop_replicate, Nat.sub_diag. cbn [replicate].
  rewrite app_nil_r. do 2 f_equal. subst large. do 3 f_equal. lia.
Qed.

(** [decrypt_data] on a value of that shape gives the payload back. *)
Lemma decrypt_data_layout (wallet_key iv data : list byte) (pad : nat) :
  length iv = HASH_SIZE -> Z.of_nat (length data) < 2 ^ 32 ->
  decrypt_data wallet_key
    (iv ++ chacha 20
             (uint_le_to_bytes 4 (Z.of_nat (length data)) ++ data ++ zeros pad)
             (cn_fast_hash (wallet_key ++ iv)) (zeros CHACHA_IV_SIZE))
  = Ok data.
Proof using chacha_length chacha_involutive.
  intros Hiv Hlen.
  set (large := uint_le_to_bytes 4 (Z.of_nat (length data)) ++ data ++ zeros pad).
  set (key := cn_fast_hash (wallet_key ++ iv)).
  set (value := iv ++ chacha 20 large key (zeros CHACHA_IV_SIZE)).
  pose proof (length_uint_le_to_bytes 4 (Z.of_nat (length data))) as Hl4.
  assert (Hlarge : length large = (4 + length data + pad)%nat).
  { subst large. rewrite !length_app, Hl4, length_zeros. lia. }
  assert (Hvalue : length value = (HASH_SIZE + length large)%nat).
  { subst value. by rewrite length_app, chacha_length, Hiv. }
  assert (Hs0 : slice value 0 HASH_SIZE = iv).
  { subst value. rewrite <- Hiv. apply slice_app_l. }
  assert (Hs1 : slice value HASH_SIZE (length value - HASH_SIZE)
                = chacha 20 large key (zeros CHACHA_IV_SIZE)).
  { subst value. rewrite <- Hiv at 1. rewrite slice_app_r.
    apply take_ge. rewrite length_app, Hiv. lia. }
  assert (Hres : memcpy_at (zeros (length value - HASH_SIZE)) 0 large = large).
  { rewrite memcpy_at_0. unfold zeros. rewrite drop_replicate.
    replace (length value - HASH_SIZE - length large)%nat with 0%nat by lia.
    apply app_nil_r. }
  assert (Hhead : slice large 0 4 = uint_le_to_bytes 4 (Z.of_nat (length data))).
  { subst large. rewrite <- Hl4 at 1. apply slice_app_l. }
  assert (Hbody : slice large 4 (length data) = data).
  { subst large. rewrite <- Hl4 at 2. rewrite slice_app_r. apply take_app_length. }
  unfold decrypt_data.
  rewrite Hs0, Hs1. fold key. rewrite chacha_involutive, Hres, Hhead.
  rewrite uint_le_from_to_bytes.
  change (2 ^ (8 * Z.of_nat 4)) with (2 ^ 32).
  rewrite Z.mod_small by lia. rewrite Nat2Z.id, Hbody.
  unfold invariant.
  replace (4 + Z.of_nat HASH_SIZE <=? Z.of_nat (length value))
    with true by (symmetry; apply Z.leb_le; lia).
  replace (Z.of_nat (length data) <=? Z.of_nat (length large) - 4)
    with true by (symmetry; apply Z.leb_le; lia).
  reflexivity.
Qed.

(** C1, as the code has it.  For every payload of at most [2 ^ 31] bytes
    [encrypt_data] returns a value that [decrypt_data] turns back into the
    payload; the length of that value (the 32-byte iv included) is a power
    of two, at least 256, and the smallest such power that holds the
    payload, the iv and the 4-byte length. *)
Theorem encrypt_decrypt_roundtrip (wallet_key iv plain : list byte) :
  length iv = HASH_SIZE -> Z.of_nat (length plain) <= 2 ^ 31 ->
  exists (enc : list byte) (k : Z),
    encrypt_data wallet_key iv plain = Some enc /\
    decrypt_data wallet_key enc = Ok plain /\
    Z.of_nat (length enc) = 2 ^ k /\ 256 <= Z.of_nat (length enc) /\
    Z.of_nat (length plain) + EXTRA_SIZE <= 2 ^ k /\
    (k = 8 \/ 2 ^ (k - 1) < Z.of_nat (length plain) + EXTRA_SIZE).
Proof using chacha_length chacha_involutive.
  intros Hiv Hlen.
  destruct (encrypt_data_layout wallet_key iv plain Hiv Hlen)
    as (k & Hk & Hfit & Hleast & Henc).
  eexists _, k. split; [exact Henc|]. split.
  { apply decrypt_data_layout; [done|lia]. }
  assert (Hpow : Z.of_nat (length
      (iv ++ chacha 20
          (uint_le_to_bytes 4 (Z.of_nat (length plain)) ++ plain ++
           zeros (Z.to_nat (2 ^ k) - HASH_SIZE - 4 - length plain))
          (cn_fast_hash (wallet_key ++ iv)) (zeros CHACHA_IV_SIZE))) = 2 ^ k).
  { rewrite length_app, chacha_length, !length_app, length_uint_le_to_bytes,
      length_zeros, Hiv.
    unfold EXTRA_SIZE, HASH_SIZE in *. lia. }
  rewrite Hpow. split; [done|]. split; [|done].
  change 256 with (2 ^ 8). apply Z.pow_le_mono_r; lia.
Qed.

(** *** The address window grows to [m_used_address_count + GENERATE_AHEAD] *)

Lemma length_generate_ahead1 (w : Wallet) (counter : Z) (n : nat) :
  length (generate_ahead1 w counter n) = n.
Proof using generate_hd_spendkeys_length.
  unfold generate_ahead1. by rewrite length_map, generate_hd_spendkeys_length.
Qed.

(** The first [k] slices of the threads hold [delta * k / thc] records. *)
Lemma length_thread_slices (w : Wallet) (size delta : Z) (k : nat) :
  0 < hardware_concurrency -> 0 <= delta ->
  delta * hardware_concurrency < 2 ^ 64 ->
  Z.of_nat k <= hardware_concurrency ->
  length (concat (map (fun i : nat =>
            let start := wrap64 (delta * Z.of_nat i) / hardware_concurrency in
            generate_ahead1 w (wrap64 (size + start))
              (Z.to_nat (wrap64 (wrap64 (delta * (Z.of_nat i + 1))
                                   / hardware_concurrency - start))))
          (seq 0 k)))
  = Z.to_nat (delta * Z.of_nat k / hardware_concurrency).
Proof using generate_hd_spendkeys_length.
  intros Hthc Hdelta Hmul. induction k as [|k IH]; intros Hk.
  - cbn. by rewrite Z.mul_0_r.
  - rewrite seq_S, map_app, concat_app, length_app, IH by lia.
    cbn [map concat Nat.add]. rewrite app_nil_r, length_generate_ahead1.
    assert (H1 : 0 <= delta * Z.of_nat k < 2 ^ 64) by nia.
    assert (H2 : 0 <= delta * (Z.of_nat k + 1) < 2 ^ 64) by nia.
    rewrite (wrap64_small _ H1), (wrap64_small _ H2).
    assert (H3 : delta * Z.of_nat k / hardware_concurrency
                 <= delta * (Z.of_nat k + 1) / hardware_concurrency)
      by (apply Z.div_le_mono; nia).
    assert (H4 : 0 <= delta * Z.of_nat k / hardware_concurrency)
      by (apply Z.div_pos; lia).
    assert (H5 : delta * (Z.of_nat k + 1) / hardware_concurrency < 2 ^ 64).
    { apply Z.div_lt_upper_bound; nia. }
    rewrite wrap64_small by lia.
    replace (Z.of_nat (S k)) with (Z.of_nat k + 1) by lia. lia.
Qed.

Lemma length_generate_ahead_results (w : Wallet) (size delta : Z) :
  0 < hardware_concurrency -> 0 <= delta ->
  delta * hardware_concurrency < 2 ^ 64 ->
  length (concat (generate_ahead_results w size delta)) = Z.to_nat delta.
Proof using generate_hd_spendkeys_length.
  intros Hthc Hdelta Hmul. unfold generate_ahead_results.
  destruct (delta <? 1000).
  - cbn [concat]. by rewrite app_nil_r, length_generate_ahead1.
  - rewrite length_thread_slices by lia.
    rewrite Z2Nat.id by lia. by rewrite Z.div_mul by lia.
Qed.

Lemma foldl_push_record (l : list WalletRecord) :
  forall w : Wallet,
    m_wallet_records (foldl push_record w l) = m_wallet_records w ++ l /\
    m_used_address_count (foldl push_record w l) = m_used_address_count w /\
    m_db_dbi (foldl push_record w l) = m_db_dbi w /\
    m_wallet_key (foldl push_record w l) = m_wallet_key w.
Proof.
  induction l as [|r l IH]; intros w; cbn [foldl].
  - by rewrite app_nil_r.
  - destruct (IH (push_record w r)) as (H1 & H2 & H3 & H4).
    rewrite H1, H2, H3, H4. cbn. by rewrite <- app_assoc.
Qed.

(** Without overflow [generate_ahead] appends records, and only as many as
    the window lacks. *)
Lemma generate_ahead_window (w : Wallet) :
  0 < hardware_concurrency -> 0 <= m_used_address_count w ->
  (m_used_address_count w + GENERATE_AHEAD) * hardware_concurrency < 2 ^ 64 ->
  exists tail : list WalletRecord,
    m_wallet_records (generate_ahead w) = m_wallet_records w ++ tail /\
    m_used_address_count w + GENERATE_AHEAD
      <= Z.of_nat (length (m_wallet_records (generate_ahead w))) /\
    m_used_address_count (generate_ahead w) = m_used_address_count w /\
    m_db_dbi (generate_ahead w) = m_db_dbi w /\
    m_wallet_key (generate_ahead w) = m_wallet_key w.
Proof using generate_hd_spendkeys_length.
  intros Hthc Hused Hmul. unfold generate_ahead.
  assert (Ht : 0 <= m_used_address_count w + GENERATE_AHEAD < 2 ^ 64)
    by (unfold GENERATE_AHEAD in *; nia).
  rewrite (wrap64_small _ Ht).
  destruct (_ >=? _) eqn:E.
  - exists []. rewrite app_nil_r. repeat split. lia.
  - rewrite Z.geb_leb in E. apply Z.leb_gt in E.
    set (size := Z.of_nat (length (m_wallet_records w))) in *.
    set (target := m_used_address_count w + GENERATE_AHEAD) in *.
    rewrite (wrap64_small (target - size)) by lia.
    destruct (foldl_push_record
                (concat (generate_ahead_results w size (target - size))) w)
      as (H1 & H2 & H3 & H4).
    eexists. split; [exact H1|]. rewrite H1, H2, H3, H4, length_app.
    rewrite length_generate_ahead_results by nia.
    repeat split. lia.
Qed.

Lemma take_records_window (w : Wallet) (was : Z) (n : nat) :
  forall i : Z,
    0 <= was -> 0 <= i ->
    was + i + Z.of_nat n <= Z.of_nat (length (m_wallet_records w)) ->
    was + i + Z.of_nat n <= 2 ^ 64 ->
    take_records w was i n
    = Ok (take n (drop (Z.to_nat (was + i)) (m_wallet_records w))).
Proof.
  induction n as [|n IH]; intros i Hwas Hi Hlen Hmax; cbn [take_records]; [done|].
  rewrite wrap64_small by lia. unfold records_at.
  destruct (m_wallet_records w !! Z.to_nat (was + i)) as [r|] eqn:E.
  - cbn [bind]. rewrite IH by lia. cbn [bind].
    rewrite (drop_S _ r _ E). cbn [take]. do 4 f_equal. lia.
  - apply lookup_ge_None in E. lia.
Qed.

Lemma encrypt_data_returns (wallet_key iv data : list byte) :
  Z.of_nat (length data) <= 2 ^ 31 -> is_Some (encrypt_data wallet_key iv data).
Proof.
  intros Hlen. unfold encrypt_data.
  rewrite wrap64_small by (unfold EXTRA_SIZE, HASH_SIZE; lia).
  destruct (grow_actual_size_pow2 65 0 (Z.of_nat (length data) + EXTRA_SIZE))
    as (k & _ & Hg & _);
    [lia | unfold EXTRA_SIZE, HASH_SIZE; lia | simpl; lia |].
  change (2 ^ 0) with 1 in Hg. rewrite Hg. eauto.
Qed.

Lemma put_replace (w : Wallet) (key : string) (value iv_key iv_value : list byte) :
  Z.of_nat (length (as_binary_array key)) <= 2 ^ 31 ->
  Z.of_nat (length value) <= 2 ^ 31 ->
  exists w' : Wallet,
    put w key value false iv_key iv_value = Ok w' /\
    m_wallet_records w' = m_wallet_records w /\
    m_used_address_count w' = m_used_address_count w /\
    committed (m_db_dbi w') = committed (m_db_dbi w) /\
    commits (m_db_dbi w') = commits (m_db_dbi w) /\
    is_Some (parameters (pending (m_db_dbi w'))
               !! derive_from_key (m_wallet_key w)
                    (as_binary_array ("db_parameters" +:+ key))).
Proof.
  intros Hk Hv. unfold put.
  destruct (encrypt_data_returns (m_wallet_key w) iv_key (as_binary_array key) Hk)
    as [enc_key ->].
  destruct (encrypt_data_returns (m_wallet_key w) iv_value value Hv)
    as [enc_value ->].
  cbn [andb]. eexists. split; [reflexivity|]. cbn.
  repeat split. rewrite lookup_insert_eq. eauto.
Qed.

Lemma decrypt_encrypt_data (wallet_key iv data enc : list byte) :
  length iv = HASH_SIZE -> Z.of_nat (length data) <= 2 ^ 31 ->
  encrypt_data wallet_key iv data = Some enc ->
  decrypt_data wallet_key enc = Ok data.
Proof using chacha_length chacha_involutive.
  intros Hiv Hlen Henc.
  destruct (encrypt_data_layout wallet_key iv data Hiv Hlen) as (k & _ & _ & _ & Hlay).
  rewrite Hlay in Henc. injection Henc as <-.
  apply decrypt_data_layout; [done|lia].
Qed.

(** The row [put] leaves: the key name and the value, each encrypted
    under the wallet key with its iv. *)
Lemma put_replace_row (w : Wallet) (key : string) (value iv_key iv_value : list byte) :
  Z.of_nat (length (as_binary_array key)) <= 2 ^ 31 ->
  Z.of_nat (length value) <= 2 ^ 31 ->
  exists (w' : Wallet) (enc_key enc_value : list byte),
    put w key value false iv_key iv_value = Ok w' /\
    m_wallet_records w' = m_wallet_records w /\
    m_used_address_count w' = m_used_address_count w /\
    committed (m_db_dbi w') = committed (m_db_dbi w) /\
    commits (m_db_dbi w') = commits (m_db_dbi w) /\
    parameters (pending (m_db_dbi w'))
      !! derive_from_key (m_wallet_key w) (as_binary_array ("db_parameters" +:+ key))
    = Some (enc_key, enc_value) /\
    encrypt_data (m_wallet_key w) iv_key (as_binary_array key) = Some enc_key /\
    encrypt_data (m_wallet_key w) iv_value value = Some enc_value.
Proof.
  intros Hk Hv. unfold put.
  destruct (encrypt_data_returns (m_wallet_key w) iv_key (as_binary_array key) Hk)
    as [enc_key Ek].
  destruct (encrypt_data_returns (m_wallet_key w) iv_value value Hv)
    as [enc_value Ev].
  rewrite Ek, Ev. cbn [andb]. eexists _, enc_key, enc_value.
  split; [reflexivity|]. cbn.
  repeat split. by rewrite lookup_insert_eq.
Qed.

(** *** The claims about the HD back end *)

(** C4, as the code has it.  The call never writes [*rescan_from_ct]; any
    nonzero secret key makes it throw with the wallet untouched; the empty
    list returns the empty vector with the wallet untouched, without
    commit; a non-empty list of zero keys returns the records at indices
    [m_used_address_count .. m_used_address_count + len (sks) - 1] of the
    grown window, in order, raises [m_used_address_count] by [len (sks)],
    writes the counter to the parameters -- the row under the key of the
    counter holds the key name and the new counter, encrypted, and the
    value decrypts to the new counter -- and commits. *)
Theorem generate_new_addresses_deterministic (w : Wallet) (rescan_from_ct : bool)
    (sks : list SecretKey) (ct now : Z) (iv_key iv_value : list byte) :
  let out := generate_new_addresses w rescan_from_ct sks ct now iv_key iv_value in
  out.1.2 = rescan_from_ct /\
  (Exists (fun sk => sk <> zero_key) sks ->
   out = (w, rescan_from_ct, Throw RuntimeError)) /\
  (sks = [] -> out = (w, rescan_from_ct, Ok [])) /\
  (Forall (fun sk => sk = zero_key) sks -> sks <> [] ->
   0 < hardware_concurrency -> 0 <= m_used_address_count w ->
   (m_used_address_count w + Z.of_nat (length sks) + GENERATE_AHEAD)
     * hardware_concurrency < 2 ^ 64 ->
   exists (result tail : list WalletRecord),
     out.2 = Ok result /\
     m_wallet_records out.1.1 = m_wallet_records w ++ tail /\
     result = take (length sks)
                (drop (Z.to_nat (m_used_address_count w)) (m_wallet_records out.1.1)) /\
     length result = length sks /\
     m_used_address_count out.1.1
       = m_used_address_count w + Z.of_nat (length sks) /\
     m_used_address_count out.1.1 + GENERATE_AHEAD
       <= Z.of_nat (length (m_wallet_records out.1.1)) /\
     committed (m_db_dbi out.1.1) = pending (m_db_dbi out.1.1) /\
     commits (m_db_dbi out.1.1) = S (commits (m_db_dbi w)) /\
     exists enc_key enc_value : list byte,
       parameters (pending (m_db_dbi out.1.1))
         !! derive_from_key (m_wallet_key w)
              (as_binary_array ("db_parameters" +:+ ADDRESS_COUNT_PREFIX))
       = Some (enc_key, enc_value) /\
       encrypt_data (m_wallet_key w) iv_key (as_binary_array ADDRESS_COUNT_PREFIX)
       = Some enc_key /\
       encrypt_data (m_wallet_key w) iv_value
         (to_binary (m_used_address_count w + Z.of_nat (length sks)))
       = Some enc_value /\
       (length iv_value = HASH_SIZE ->
        decrypt_data (m_wallet_key w) enc_value
        = Ok (to_binary (m_used_address_count w + Z.of_nat (length sks))))).
Proof using generate_hd_spendkeys_length to_binary_length chacha_length
  chacha_involutive.
  cbv zeta. split; [|split; [|split]].
  - unfold generate_new_addresses.
    destruct (existsb _ sks); [done|]. destruct sks as [|sk sks]; [done|].
    destruct (take_records _ _ _ _); [|done]. by destruct (put _ _ _ _ _ _).
  - intros Hex. unfold generate_new_addresses.
    replace (existsb (fun sk => negb (bool_decide (sk = zero_key))) sks) with true; [done|].
    symmetry. apply existsb_exists. apply Exists_exists in Hex as (sk & Hin & Hsk).
    exists sk. split; [by apply list_elem_of_In|].
    by rewrite bool_decide_eq_false_2.
  - by intros ->.
  - intros Hall Hne Hthc Hused Hmul. unfold generate_new_addresses.
    replace (existsb (fun sk => negb (bool_decide (sk = zero_key))) sks) with false.
    2: { symmetry. apply not_true_is_false. intros Hex.
         apply existsb_exists in Hex as (sk & Hin & Hsk).
         rewrite Forall_forall in Hall.
         rewrite bool_decide_eq_true_2 in Hsk; [done|].
         by apply Hall, list_elem_of_In. }
    destruct sks as [|sk0 sks0] eqn:Esks; [done|]. rewrite <- Esks in *.
    clear Hne Hall.
    set (n := length sks) in *.
    assert (Hn : (0 < n)%nat) by (subst n; rewrite Esks; cbn; lia).
    set (w1 := with_used_address_count w (wrap64 (m_used_address_count w + Z.of_nat n))).
    assert (Hu1 : m_used_address_count w1 = m_used_address_count w + Z.of_nat n).
    { subst w1. cbn. apply wrap64_small. unfold GENERATE_AHEAD in *. nia. }
    destruct (generate_ahead_window w1) as (tail & Hrec & Hwin & Hu2 & Hdb & Hkey);
      [done | lia | by rewrite Hu1 |].
    rewrite Hu1 in Hwin, Hu2.
    set (w2 := generate_ahead w1) in *.
    rewrite (take_records_window w2 (m_used_address_count w) n 0)
      by (unfold GENERATE_AHEAD in *; nia).
    rewrite Z.add_0_r.
    destruct (put_replace_row w2 ADDRESS_COUNT_PREFIX
                (to_binary (m_used_address_count w2)) iv_key iv_value)
      as (w3 & enc_key & enc_value & -> & Hr3 & Hu3 & Hc3 & Hn3 & Hp3 & Ek & Ev);
      [vm_compute; discriminate | apply to_binary_length |].
    cbn [fst snd].
    eexists _, tail. split; [reflexivity|].
    assert (Hrc : m_wallet_records (commit w3) = m_wallet_records w2)
      by (cbn; by rewrite Hr3).
    assert (Huc : m_used_address_count (commit w3)
                  = m_used_address_count w + Z.of_nat n)
      by (cbn; by rewrite Hu3, Hu2).
    rewrite Hrc, Huc.
    split; [exact Hrec|]. split; [done|].
    split.
    { rewrite length_take, length_drop. unfold GENERATE_AHEAD in *. lia. }
    split; [done|]. split; [exact Hwin|]. split; [done|].
    split; [cbn; by rewrite Hn3, Hdb|].
    rewrite Hkey, Hu2 in *. exists enc_key, enc_value.
    split; [exact Hp3|]. split; [exact Ek|]. split; [exact Ev|].
    intros Hiv. apply (decrypt_encrypt_data _ iv_value); [done| |done].
    apply to_binary_length.
Qed.

(** C10.  With an empty list of secret keys the call returns the empty
    vector and the wallet it was given: the counter, the records, the map
    and the database (what is committed, what is pending, the number of
    commits) are the same, and so is [*rescan_from_ct]. *)
Theorem generate_new_addresses_empty (w : Wallet) (rescan_from_ct : bool)
    (ct now : Z) (iv_key iv_value : list byte) :
  let out := generate_new_addresses w rescan_from_ct [] ct now iv_key iv_value in
  out = (w, rescan_from_ct, Ok []) /\
  m_used_address_count out.1.1 = m_used_address_count w /\
  m_wallet_records out.1.1 = m_wallet_records w /\
  m_records_map out.1.1 = m_records_map w /\
  parameters (pending (m_db_dbi out.1.1)) = parameters (pending (m_db_dbi w)) /\
  pending (m_db_dbi out.1.1) = pending (m_db_dbi w) /\
  committed (m_db_dbi out.1.1) = committed (m_db_dbi w) /\
  commits (m_db_dbi out.1.1) = commits (m_db_dbi w).
Proof. cbv zeta. cbn [generate_new_addresses existsb fst snd]. repeat split. Qed.

(** C8.  [payment_queue_remove] deletes the row of [(tid, net)] inside the
    open transaction and touches no other row or table; it commits exactly
    when the first byte of [tid] is the character x, and otherwise what is
    committed stays as it was. *)
Theorem payment_queue_remove_commits_iff_x (net : string) (w : Wallet) (tid : list byte) :
  let w' := payment_queue_remove net w tid in
  let row :=
    (derive_from_key (m_wallet_key w) (as_binary_array "db_payment_queue_tid" ++ tid),
     derive_from_key (m_wallet_key w)
       (as_binary_array ("db_payment_queue_net" +:+ net))) in
  payment_queue (pending (m_db_dbi w'))
    = delete row (payment_queue (pending (m_db_dbi w))) /\
  payment_queue (pending (m_db_dbi w')) !! row = None /\
  parameters (pending (m_db_dbi w')) = parameters (pending (m_db_dbi w)) /\
  labels (pending (m_db_dbi w')) = labels (pending (m_db_dbi w)) /\
  commits (m_db_dbi w')
    = (if bool_decide (head tid = Some "x"%byte)
       then S (commits (m_db_dbi w)) else commits (m_db_dbi w)) /\
  committed (m_db_dbi w')
    = (if bool_decide (head tid = Some "x"%byte)
       then pending (m_db_dbi w') else committed (m_db_dbi w)).
Proof.
  cbv zeta. unfold payment_queue_remove.
  destruct (bool_decide (head tid = Some "x"%byte)); cbn;
    repeat split; apply lookup_delete_eq.
Qed.

(** *** Reading encrypted rows *)

(** The buffer [decrypt_data] decrypts into is the cipher's output. *)
Lemma decrypt_data_result (key iv : list byte) (value : list byte) :
  (HASH_SIZE <= length value)%nat ->
  memcpy_at (zeros (length value - HASH_SIZE)) 0
    (chacha 20 (slice value HASH_SIZE (length value - HASH_SIZE)) key iv)
  = chacha 20 (slice value HASH_SIZE (length value - HASH_SIZE)) key iv.
Proof using chacha_length.
  intros Hlen. rewrite memcpy_at_0, chacha_length.
  unfold slice, zeros. rewrite length_take, length_drop, drop_replicate.
  replace (length value - HASH_SIZE - _)%nat with 0%nat by lia.
  apply app_nil_r.
Qed.

(** X11.  [decrypt_data] reads nothing outside the value it is given: a
    value shorter than the iv and the length field fails the first
    invariant, every failure is a failed invariant, and a payload that
    comes back is at least 36 bytes shorter than the value. *)
Theorem decrypt_data_bounds (wallet_key value : list byte) :
  ((length value < 4 + HASH_SIZE)%nat ->
   decrypt_data wallet_key value = Throw InvariantFailed) /\
  (forall e : error, decrypt_data wallet_key value = Throw e -> e = InvariantFailed) /\
  (forall plain : list byte,
     decrypt_data wallet_key value = Ok plain ->
     (length plain + 4 + HASH_SIZE <= length value)%nat).
Proof using chacha_length.
  unfold decrypt_data, invariant. split; [|split].
  - intros Hshort.
    by replace (4 + Z.of_nat HASH_SIZE <=? Z.of_nat (length value)) with false
      by (symmetry; apply Z.leb_gt; lia).
  - intros e. destruct (_ <=? Z.of_nat (length value)); cbn [bind]; [|by intros [= <-]].
    destruct (_ <=? _); cbn [bind]; [done|by intros [= <-]].
  - intros plain.
    destruct (4 + Z.of_nat HASH_SIZE <=? Z.of_nat (length value)) eqn:E1;
      cbn [bind]; [|done].
    apply Z.leb_le in E1.
    rewrite decrypt_data_result by lia.
    set (dec := chacha 20 _ _ _).
    assert (Hdec : length dec = (length value - HASH_SIZE)%nat).
    { subst dec. rewrite chacha_length. unfold slice.
      rewrite length_take, length_drop. lia. }
    destruct (_ <=? _) eqn:E2; cbn [bind]; [|done].
    apply Z.leb_le in E2. intros [= <-].
    unfold slice. rewrite length_take, length_drop. lia.
Qed.

(** [get (key, value)] for a [BinaryArray]: [None] is the answer [false]. *)
Definition get (w : Wallet) (key : string) : result (option (list byte)) :=
  let key_hash :=
    derive_from_key (m_wallet_key w) (as_binary_array ("db_parameters" +:+ key)) in
  match parameters (pending (m_db_dbi w)) !! key_hash with
  | None => Ok None
  | Some (_, enc_value) =>
      let* value := decrypt_data (m_wallet_key w) enc_value in
      Ok (Some value)
  end.

Definition as_string (ba : list byte) : string :=
  Strings.String.string_of_list_byte ba.

(** [put] and [get] for a [std::string] *)
Definition put_string (w : Wallet) (key value : string) (nooverwrite : bool)
    (iv_key iv_value : list byte) : result Wallet :=
  put w key (as_binary_array value) nooverwrite iv_key iv_value.

Definition get_string (w : Wallet) (key : string) : result (option string) :=
  let* ba := get w key in
  Ok (as_string <$> ba).

Lemma put_ok (w w' : Wallet) (key : string) (value iv_key iv_value : list byte)
    (nooverwrite : bool) :
  put w key value nooverwrite iv_key iv_value = Ok w' ->
  exists enc_key enc_value : list byte,
    encrypt_data (m_wallet_key w) iv_key (as_binary_array key) = Some enc_key /\
    encrypt_data (m_wallet_key w) iv_value value = Some enc_value /\
    w' = with_pending w
           {| parameters :=
                <[derive_from_key (m_wallet_key w)
                    (as_binary_array ("db_parameters" +:+ key))
                  := (enc_key, enc_value)]> (parameters (pending (m_db_dbi w)));
              labels := labels (pending (m_db_dbi w));
              payment_queue := payment_queue (pending (m_db_dbi w)) |}.
Proof.
  unfold put.
  destruct (encrypt_data _ iv_key _) as [enc_key|]; [|done].
  destruct (encrypt_data _ iv_value _) as [enc_value|]; [|done].
  destruct (_ && _); [done|]. intros [= <-]. by eexists _, _.
Qed.

Lemma get_after_put (w w' : Wallet) (key : string) (value iv_key iv_value : list byte)
    (nooverwrite : bool) :
  length iv_value = HASH_SIZE -> Z.of_nat (length value) <= 2 ^ 31 ->
  put w key value nooverwrite iv_key iv_value = Ok w' ->
  get w' key = Ok (Some value).
Proof using chacha_length chacha_involutive.
  intros Hiv Hlen Hput.
  apply put_ok in Hput as (enc_key & enc_value & _ & Henc & ->).
  apply decrypt_encrypt_data in Henc; [|done|done].
  unfold get. cbn [with_pending with_db m_wallet_key m_db_dbi pending parameters].
  by rewrite lookup_insert_eq, Henc.
Qed.

(** X12.  What [put] stores [get] reads.  After a [put] that returned,
    [get] of the same key gives the value that was put, the string
    variants likewise; a key with another hash reads as before; and the
    row is in the open transaction only: nothing is committed by [put]. *)
Theorem get_put (w w' : Wallet) (key : string) (value iv_key iv_value : list byte)
    (nooverwrite : bool) :
  length iv_value = HASH_SIZE -> Z.of_nat (length value) <= 2 ^ 31 ->
  put w key value nooverwrite iv_key iv_value = Ok w' ->
  get w' key = Ok (Some value) /\
  get_string w' key = Ok (Some (as_string value)) /\
  (forall key' : string,
     derive_from_key (m_wallet_key w) (as_binary_array ("db_parameters" +:+ key'))
     <> derive_from_key (m_wallet_key w) (as_binary_array ("db_parameters" +:+ key)) ->
     get w' key' = get w key') /\
  committed (m_db_dbi w') = committed (m_db_dbi w) /\
  commits (m_db_dbi w') = commits (m_db_dbi w).
Proof using chacha_length chacha_involutive.
  intros Hiv Hlen Hput.
  pose proof (get_after_put w w' key value iv_key iv_value nooverwrite Hiv Hlen Hput)
    as Hget.
  apply put_ok in Hput as (enc_key & enc_value & _ & _ & ->).
  split; [exact Hget|]. split; [|split; [|done]].
  - unfold get_string. by rewrite Hget.
  - intros key' Hne. unfold get.
    cbn [with_pending with_db m_wallet_key m_db_dbi pending parameters].
    by rewrite lookup_insert_ne.
Qed.

(** *** Labels *)

(** [set_label (address, label)], with [m_labels] before and after;
    [iv_address] and [iv_label] are the two values of
    [crypto::rand<Hash> ()]. *)
Definition set_label (w : Wallet) (m_labels : gmap string string)
    (address label : string) (iv_address iv_label : list byte)
  : result (Wallet * gmap string string) :=
  let address_hash :=
    derive_from_key (m_wallet_key w) (as_binary_array ("db_labels" +:+ address)) in
  match encrypt_data (m_wallet_key w) iv_address (as_binary_array address),
        encrypt_data (m_wallet_key w) iv_label (as_binary_array label) with
  | Some enc_address, Some enc_label =>
      let t := pending (m_db_dbi w) in
      if bool_decide (label = ""%string) then
        Ok (commit (with_pending w
                      {| parameters := parameters t;
                         labels := delete address_hash (labels t);
                         payment_queue := payment_queue t |}),
            delete address m_labels)
      else
        Ok (commit (with_pending w
                      {| parameters := parameters t;
                         labels := <[address_hash := (enc_address, enc_label)]> (labels t);
                         payment_queue := payment_queue t |}),
            <[address := label]> m_labels)
  | _, _ => Throw NoReturn
  end.

Definition get_label (m_labels : gmap string string) (address : string) : string :=
  match m_labels !! address with
  | None => ""%string
  | Some label => label
  end.

(** X13.  [get_label] after [set_label] gives the label that was set
    (the empty string after the label was removed) and what it gave before
    for every other address.  [set_label] always commits; the row of the
    address is gone when the label is empty, and otherwise holds
    the address and the label, each readable by [decrypt_data]. *)
Theorem get_label_set_label (w w' : Wallet) (m_labels m_labels' : gmap string string)
    (address label : string) (iv_address iv_label : list byte) :
  length iv_address = HASH_SIZE -> length iv_label = HASH_SIZE ->
  Z.of_nat (length (as_binary_array address)) <= 2 ^ 31 ->
  Z.of_nat (length (as_binary_array label)) <= 2 ^ 31 ->
  set_label w m_labels address label iv_address iv_label = Ok (w', m_labels') ->
  get_label m_labels' address = label /\
  (forall address' : string,
     address' <> address -> get_label m_labels' address' = get_label m_labels address') /\
  committed (m_db_dbi w') = pending (m_db_dbi w') /\
  commits (m_db_dbi w') = S (commits (m_db_dbi w)) /\
  match labels (committed (m_db_dbi w'))
          !! derive_from_key (m_wallet_key w) (as_binary_array ("db_labels" +:+ address)) with
  | None => label = ""%string
  | Some (enc_address, enc_label) =>
      label <> ""%string /\
      decrypt_data (m_wallet_key w) enc_address = Ok (as_binary_array address) /\
      decrypt_data (m_wallet_key w) enc_label = Ok (as_binary_array label)
  end.
Proof using chacha_length chacha_involutive.
  intros Hiva Hivl Hla Hll. unfold set_label.
  destruct (encrypt_data _ iv_address _) as [enc_address|] eqn:Ea; [|done].
  destruct (encrypt_data _ iv_label _) as [enc_label|] eqn:El; [|done].
  apply decrypt_encrypt_data in Ea; [|done|done].
  apply decrypt_encrypt_data in El; [|done|done].
  destruct (decide (label = ""%string)) as [->|Hne].
  - rewrite bool_decide_eq_true_2 by done. intros [= <- <-].
    unfold get_label. rewrite lookup_delete_eq. split; [done|]. split.
    { intros address' Hne. by rewrite lookup_delete_ne. }
    cbn [commit with_pending with_db m_db_dbi committed pending commits labels].
    by rewrite lookup_delete_eq.
  - rewrite bool_decide_eq_false_2 by done. intros [= <- <-].
    unfold get_label. rewrite lookup_insert_eq. split; [done|]. split.
    { intros address' Hne'. by rewrite lookup_insert_ne. }
    cbn [commit with_pending with_db m_db_dbi committed pending commits labels].
    by rewrite lookup_insert_eq.
Qed.

(** *** The payment queue *)

(** A [SELECT] without [ORDER BY] steps through the rows of a table in an
    order that is SQLite's to choose: some order of all the rows. *)
Variable select_rows :
  gmap (list byte) (list byte * list byte) -> list (list byte * list byte).
Variable select_queue_rows :
  gmap (list byte * list byte) (list byte * list byte * list byte)
  -> list (list byte * list byte * list byte).

Hypothesis select_rows_all : forall t, select_rows t ≡ₚ (map_to_list t).*2.
Hypothesis select_queue_rows_all : forall t, select_queue_rows t ≡ₚ (map_to_list t).*2.

(** A loop that pushes one result per row and is left by the first
    exception. *)
Fixpoint for_each_row {A B : Type} (f : A -> result B) (rows : list A)
  : result (list B) :=
  match rows with
  | [] => Ok []
  | row :: rows' =>
      let* x := f row in
      let* xs := for_each_row f rows' in
      Ok (x :: xs)
  end.

Definition payment_queue_add (w : Wallet) (tid : list byte) (net : string)
    (binary_transaction : list byte) (iv_tid iv_net iv_value : list byte)
  : result Wallet :=
  let tid_hash :=
    derive_from_key (m_wallet_key w) (as_binary_array "db_payment_queue_tid" ++ tid) in
  let net_hash :=
    derive_from_key (m_wallet_key w) (as_binary_array ("db_payment_queue_net" +:+ net)) in
  match encrypt_data (m_wallet_key w) iv_tid tid,
        encrypt_data (m_wallet_key w) iv_net (as_binary_array net),
        encrypt_data (m_wallet_key w) iv_value binary_transaction with
  | Some enc_tid, Some enc_net, Some enc_value =>
      let t := pending (m_db_dbi w) in
      Ok (with_pending w
            {| parameters := parameters t; labels := labels t;
               payment_queue :=
                 <[(tid_hash, net_hash) := (enc_tid, enc_net, enc_value)]>
                   (payment_queue t) |})
  | _, _, _ => Throw NoReturn
  end.

(** The body of the loop of [payment_queue_get2]. *)
Definition payment_queue_row (w : Wallet) (row : list byte * list byte * list byte)
  : result (list byte * string * list byte) :=
  let* key := decrypt_data (m_wallet_key w) row.1.1 in
  let* _ := invariant (bool_decide (length key = HASH_SIZE)) in
  let* net := decrypt_data (m_wallet_key w) row.1.2 in
  let* ba := decrypt_data (m_wallet_key w) row.2 in
  Ok (key, as_string net, ba).

Definition payment_queue_get2 (w : Wallet)
  : result (list (list byte * string * list byte)) :=
  for_each_row (payment_queue_row w)
    (select_queue_rows (payment_queue (pending (m_db_dbi w)))).

(** [payment_queue_get]; [net] is [m_currency.net]. *)
Definition payment_queue_get (net : string) (w : Wallet) : result (list (list byte)) :=
  let* pq2 := payment_queue_get2 w in
  Ok (map (fun el => el.2) (filter (fun el => el.1.2 = net) pq2)).

(** The body of the loop of [parameters_get]. *)
Definition parameters_row (w : Wallet) (row : list byte * list byte)
  : result (string * list byte) :=
  let* ka := decrypt_data (m_wallet_key w) row.1 in
  let* ba := decrypt_data (m_wallet_key w) row.2 in
  Ok (as_string ka, ba).

Definition parameters_get (w : Wallet) : result (list (string * list byte)) :=
  for_each_row (parameters_row w) (select_rows (parameters (pending (m_db_dbi w)))).

Lemma for_each_row_elem {A B : Type} (f : A -> result B) (rows : list A)
    (xs : list B) (row : A) :
  for_each_row f rows = Ok xs -> row ∈ rows ->
  exists x : B, f row = Ok x /\ x ∈ xs.
Proof.
  revert xs. induction rows as [|r rows IH]; intros xs H Hin.
  - by apply elem_of_nil in Hin.
  - cbn [for_each_row] in H.
    destruct (f r) as [x|] eqn:Ex; [|done]. cbn [bind] in H.
    destruct (for_each_row f rows) as [xs'|]; [|done]. injection H as <-.
    apply elem_of_cons in Hin as [->|Hin].
    + exists x. split; [done|left].
    + destruct (IH xs' eq_refl Hin) as (y & Hy & Hiny). exists y. split; [done|by right].
Qed.

(** X14.  A transaction put into the payment queue is in the queue: after
    [payment_queue_add], whenever [payment_queue_get2] returns, the triple
    of transaction id, net and transaction is among what it returns, and
    [payment_queue_get] on that net returns the transaction.  The row is
    in the open transaction only -- [payment_queue_add] does not commit --
    and [payment_queue_remove] of the same id on the same net leaves the
    queue as it was without that row. *)
Theorem payment_queue_add_get (w w' : Wallet) (tid : list byte) (net : string)
    (binary_transaction iv_tid iv_net iv_value : list byte) :
  length tid = HASH_SIZE ->
  length iv_tid = HASH_SIZE -> length iv_net = HASH_SIZE -> length iv_value = HASH_SIZE ->
  Z.of_nat (length (as_binary_array net)) <= 2 ^ 31 ->
  Z.of_nat (length binary_transaction) <= 2 ^ 31 ->
  payment_queue_add w tid net binary_transaction iv_tid iv_net iv_value = Ok w' ->
  (forall pq2, payment_queue_get2 w' = Ok pq2 -> (tid, net, binary_transaction) ∈ pq2) /\
  (forall txs, payment_queue_get net w' = Ok txs -> binary_transaction ∈ txs) /\
  committed (m_db_dbi w') = committed (m_db_dbi w) /\
  commits (m_db_dbi w') = commits (m_db_dbi w) /\
  payment_queue (pending (m_db_dbi (payment_queue_remove net w' tid)))
  = delete (derive_from_key (m_wallet_key w)
              (as_binary_array "db_payment_queue_tid" ++ tid),
            derive_from_key (m_wallet_key w)
              (as_binary_array ("db_payment_queue_net" +:+ net)))
      (payment_queue (pending (m_db_dbi w))).
Proof using chacha_length chacha_involutive select_queue_rows_all.
  intros Htid Hiv1 Hiv2 Hiv3 Hnet Htx. unfold payment_queue_add.
  destruct (encrypt_data _ iv_tid _) as [enc_tid|] eqn:E1; [|done].
  destruct (encrypt_data _ iv_net _) as [enc_net|] eqn:E2; [|done].
  destruct (encrypt_data _ iv_value _) as [enc_value|] eqn:E3; [|done].
  intros [= <-].
  apply decrypt_encrypt_data in E1; [|done|unfold HASH_SIZE in Htid; lia].
  apply decrypt_encrypt_data in E2; [|done|done].
  apply decrypt_encrypt_data in E3; [|done|done].
  set (row := (derive_from_key (m_wallet_key w)
                 (as_binary_array "db_payment_queue_tid" ++ tid),
               derive_from_key (m_wallet_key w)
                 (as_binary_array ("db_payment_queue_net" +:+ net)))).
  set (w' := with_pending w _).
  assert (Hget2 : forall pq2, payment_queue_get2 w' = Ok pq2 ->
                              (tid, net, binary_transaction) ∈ pq2).
  { intros pq2 H. unfold payment_queue_get2 in H.
    destruct (for_each_row_elem _ _ pq2 (enc_tid, enc_net, enc_value) H)
      as (el & Hel & Hin).
    { rewrite select_queue_rows_all.
      apply (list_elem_of_fmap_2' snd _ (row, (enc_tid, enc_net, enc_value))); [|done].
      apply elem_of_map_to_list. subst w'. cbn. apply lookup_insert_eq. }
    unfold payment_queue_row in Hel. subst w'.
    cbn [with_pending with_db m_wallet_key fst snd] in Hel.
    rewrite E1 in Hel. cbn [bind] in Hel. unfold invariant in Hel.
    rewrite bool_decide_eq_true_2 in Hel by done. cbn [bind] in Hel.
    rewrite E2, E3 in Hel. cbn [bind] in Hel. injection Hel as <-.
    unfold as_string, as_binary_array in Hin.
    by rewrite Strings.String.string_of_list_byte_of_string in Hin. }
  split; [exact Hget2|]. split; [|split; [done|split; [done|]]].
  - intros txs H. unfold payment_queue_get in H.
    destruct (payment_queue_get2 w') as [pq2|] eqn:E; [|done]. cbn [bind] in H.
    injection H as <-.
    apply (list_elem_of_fmap_2' snd _ (tid, net, binary_transaction)); [|done].
    apply list_elem_of_filter. split; [done|]. by apply Hget2.
  - unfold payment_queue_remove. fold row.
    assert (Hq : forall w0 : Wallet,
      payment_queue (pending (m_db_dbi
        (if bool_decide (head tid = Some "x"%byte) then commit w0 else w0)))
      = payment_queue (pending (m_db_dbi w0))).
    { intros w0. by destruct (bool_decide _). }
    rewrite Hq. subst w'. cbn. apply delete_insert_eq.
Qed.

(** *** Record [i] of the window *)

Section ByIndex.

(** The key pair of an index: what [crypto::generate_hd_spendkeys] puts
    into slot [i] of a vector it fills from [counter] on is the key pair of
    index [counter + i]. *)
Variable key_at : KeyPair -> list byte -> Z -> KeyPair.

Hypothesis generate_hd_spendkeys_at :
  forall base view_seed counter n,
    generate_hd_spendkeys base view_seed counter n
    = map (fun i : nat => key_at base view_seed (counter + Z.of_nat i)) (seq 0 n).

(** The record of index [i] in the wallet [w]. *)
Definition record_at_index (w : Wallet) (i : Z) : WalletRecord :=
  hd_record (key_at (m_spend_key_base w) (public_key (m_spend_key_base w)) i).

Definition records_by_index (w : Wallet) : Prop :=
  forall (i : nat) (r : WalletRecord),
    m_wallet_records w !! i = Some r -> r = record_at_index w (Z.of_nat i).

Lemma generate_ahead1_at (w : Wallet) (counter : Z) (n : nat) :
  generate_ahead1 w counter n
  = map (fun i : nat => record_at_index w (counter + Z.of_nat i)) (seq 0 n).
Proof using generate_hd_spendkeys_at.
  unfold generate_ahead1. rewrite generate_hd_spendkeys_at, map_map. done.
Qed.

Lemma generate_ahead1_app (w : Wallet) (counter : Z) (n m : nat) :
  generate_ahead1 w counter (n + m)
  = generate_ahead1 w counter n ++ generate_ahead1 w (counter + Z.of_nat n) m.
Proof using generate_hd_spendkeys_at.
  rewrite !generate_ahead1_at, seq_app, map_app. f_equal.
  replace (0 + n)%nat with (n + 0)%nat by lia.
  rewrite <- fmap_add_seq, map_map.
  apply map_ext. intros i. f_equal. lia.
Qed.

(** The slices of the first [k] threads, one after the other, are the
    records one thread generates from [size] on. *)
Lemma thread_slices_at (w : Wallet) (size delta : Z) (k : nat) :
  0 < hardware_concurrency -> 0 <= size -> 0 <= delta ->
  size + delta < 2 ^ 64 -> delta * hardware_concurrency < 2 ^ 64 ->
  Z.of_nat k <= hardware_concurrency ->
  concat (map (fun i : nat =>
            let start := wrap64 (delta * Z.of_nat i) / hardware_concurrency in
            generate_ahead1 w (wrap64 (size + start))
              (Z.to_nat (wrap64 (wrap64 (delta * (Z.of_nat i + 1))
                                   / hardware_concurrency - start))))
          (seq 0 k))
  = generate_ahead1 w size (Z.to_nat (delta * Z.of_nat k / hardware_concurrency)).
Proof using generate_hd_spendkeys_at.
  intros Hthc Hsize Hdelta Hfit Hmul. induction k as [|k IH]; intros Hk.
  - cbn. rewrite Z.mul_0_r. cbn. by rewrite generate_ahead1_at.
  - rewrite seq_S, map_app, concat_app, IH by lia.
    cbn [map concat Nat.add]. rewrite app_nil_r.
    assert (H1 : 0 <= delta * Z.of_nat k < 2 ^ 64) by nia.
    assert (H2 : 0 <= delta * (Z.of_nat k + 1) < 2 ^ 64) by nia.
    rewrite (wrap64_small _ H1), (wrap64_small _ H2).
    set (a := delta * Z.of_nat k / hardware_concurrency).
    set (b := delta * (Z.of_nat k + 1) / hardware_concurrency).
    assert (H3 : a <= b) by (apply Z.div_le_mono; nia).
    assert (H4 : 0 <= a) by (apply Z.div_pos; lia).
    assert (H5 : b <= delta).
    { apply Z.div_le_upper_bound; [lia|]. nia. }
    rewrite (wrap64_small (b - a)) by lia.
    rewrite (wrap64_small (size + a)) by lia.
    replace (Z.of_nat (S k)) with (Z.of_nat k + 1) by lia. fold b.
    replace (Z.to_nat b) with (Z.to_nat a + Z.to_nat (b - a))%nat by lia.
    rewrite generate_ahead1_app. do 2 f_equal. lia.
Qed.

Lemma generate_ahead_results_at (w : Wallet) (size delta : Z) :
  0 < hardware_concurrency -> 0 <= size -> 0 <= delta ->
  size + delta < 2 ^ 64 -> delta * hardware_concurrency < 2 ^ 64 ->
  concat (generate_ahead_results w size delta)
  = generate_ahead1 w size (Z.to_nat delta).
Proof using generate_hd_spendkeys_at.
  intros Hthc Hsize Hdelta Hfit Hmul. unfold generate_ahead_results.
  destruct (delta <? 1000).
  - cbn [concat]. by rewrite app_nil_r.
  - rewrite thread_slices_at by lia.
    rewrite Z2Nat.id by lia. by rewrite Z.div_mul by lia.
Qed.

Lemma foldl_push_record_base (l : list WalletRecord) (w : Wallet) :
  m_spend_key_base (foldl push_record w l) = m_spend_key_base w.
Proof. revert w. induction l as [|r l IH]; intros w; cbn [foldl]; [done|]. by rewrite IH. Qed.

Lemma generate_ahead_at (w : Wallet) :
  0 < hardware_concurrency -> 0 <= m_used_address_count w ->
  (m_used_address_count w + GENERATE_AHEAD) * hardware_concurrency < 2 ^ 64 ->
  m_spend_key_base (generate_ahead w) = m_spend_key_base w /\
  (records_by_index w -> records_by_index (generate_ahead w)).
Proof using generate_hd_spendkeys_at.
  intros Hthc Hused Hmul. unfold generate_ahead.
  assert (Ht : 0 <= m_used_address_count w + GENERATE_AHEAD < 2 ^ 64)
    by (unfold GENERATE_AHEAD in *; nia).
  rewrite (wrap64_small _ Ht).
  destruct (_ >=? _) eqn:E; [done|].
  rewrite Z.geb_leb in E. apply Z.leb_gt in E.
  set (size := Z.of_nat (length (m_wallet_records w))) in *.
  set (target := m_used_address_count w + GENERATE_AHEAD) in *.
  rewrite (wrap64_small (target - size)) by lia.
  rewrite generate_ahead_results_at by nia.
  split; [apply foldl_push_record_base|].
  intros Hw i r Hr.
  destruct (foldl_push_record (generate_ahead1 w size (Z.to_nat (target - size))) w)
    as (Hrec & _).
  rewrite Hrec in Hr. unfold record_at_index. rewrite foldl_push_record_base.
  apply lookup_app_Some in Hr as [Hr|[Hge Hr]]; [by apply Hw|].
  rewrite generate_ahead1_at in Hr.
  change (map ?f ?l) with (f <$> l) in Hr. rewrite list_lookup_fmap in Hr.
  destruct (seq 0 (Z.to_nat (target - size)) !! (i - length (m_wallet_records w))%nat)
    as [j|] eqn:Ej; [|done].
  apply lookup_seq in Ej as [-> _]. injection Hr as <-.
  unfold record_at_index. do 2 f_equal. subst size. lia.
Qed.

(** What [generate_ahead] appends: the records of the indices from the
    number of records on, up to [m_used_address_count + GENERATE_AHEAD]. *)
Lemma generate_ahead_records_at (w : Wallet) :
  0 < hardware_concurrency -> 0 <= m_used_address_count w ->
  (m_used_address_count w + GENERATE_AHEAD) * hardware_concurrency < 2 ^ 64 ->
  m_wallet_records (generate_ahead w)
  = m_wallet_records w
    ++ map (fun i : nat =>
              record_at_index w (Z.of_nat (length (m_wallet_records w)) + Z.of_nat i))
         (seq 0 (Z.to_nat (m_used_address_count w + GENERATE_AHEAD
                           - Z.of_nat (length (m_wallet_records w))))).
Proof using generate_hd_spendkeys_at.
  intros Hthc Hused Hmul. unfold generate_ahead.
  assert (Ht : 0 <= m_used_address_count w + GENERATE_AHEAD < 2 ^ 64)
    by (unfold GENERATE_AHEAD in *; nia).
  rewrite (wrap64_small _ Ht).
  destruct (_ >=? _) eqn:E.
  - rewrite Z.geb_leb in E. apply Z.leb_le in E.
    replace (Z.to_nat _) with 0%nat by lia. cbn [seq map]. by rewrite app_nil_r.
  - rewrite Z.geb_leb in E. apply Z.leb_gt in E.
    set (size := Z.of_nat (length (m_wallet_records w))) in *.
    set (target := m_used_address_count w + GENERATE_AHEAD) in *.
    rewrite (wrap64_small (target - size)) by lia.
    rewrite generate_ahead_results_at by nia.
    destruct (foldl_push_record (generate_ahead1 w size (Z.to_nat (target - size))) w)
      as (Hrec & _).
    by rewrite Hrec, generate_ahead1_at.
Qed.

(** X15.  The record of an index does not depend on how it was made.
    When the key pair in slot [i] of a vector filled from [counter] on is
    the key pair of index [counter + i], the slices the worker threads
    generate are, put together, what one thread generates, whatever the
    number of threads.  [generate_ahead] keeps the records that are
    there and appends exactly the records of the indices that follow, up
    to index [m_used_address_count + GENERATE_AHEAD]; so in a wallet all
    of whose records are the records of their indices, they still are
    afterwards. *)
Theorem generate_ahead_by_index (w : Wallet) :
  0 < hardware_concurrency -> 0 <= m_used_address_count w ->
  (m_used_address_count w + GENERATE_AHEAD) * hardware_concurrency < 2 ^ 64 ->
  (forall size delta : Z,
     0 <= size -> 0 <= delta -> size + delta < 2 ^ 64 ->
     delta * hardware_concurrency < 2 ^ 64 ->
     concat (generate_ahead_results w size delta)
     = generate_ahead1 w size (Z.to_nat delta)) /\
  m_wallet_records (generate_ahead w)
  = m_wallet_records w
    ++ map (fun i : nat =>
              record_at_index w (Z.of_nat (length (m_wallet_records w)) + Z.of_nat i))
         (seq 0 (Z.to_nat (m_used_address_count w + GENERATE_AHEAD
                           - Z.of_nat (length (m_wallet_records w))))) /\
  (records_by_index w ->
   forall (i : nat) (r : WalletRecord),
     m_wallet_records (generate_ahead w) !! i = Some r ->
     r = record_at_index w (Z.of_nat i)).
Proof using generate_hd_spendkeys_at.
  intros Hthc Hused Hmul. split; [|split].
  - intros size delta Hsize Hdelta Hfit Hdmul. by apply generate_ahead_results_at.
  - by apply generate_ahead_records_at.
  - intros Hw i r Hr.
    destruct (generate_ahead_at w Hthc Hused Hmul) as [Hbase Hkeep].
    specialize (Hkeep Hw i r Hr). unfold record_at_index in *. by rewrite Hbase in Hkeep.
Qed.

End ByIndex.

(** *** Growing the window when an output is found *)

Definition create_look_ahead_records (w : Wallet) (count : Z)
    (iv_key iv_value : list byte) : result Wallet :=
  if count <=? m_used_address_count w then Ok w
  else
    let w := with_used_address_count w count in
    let w := generate_ahead w in
    let* w := put w ADDRESS_COUNT_PREFIX (to_binary (m_used_address_count w))
                false iv_key iv_value in
    Ok (commit w).

(** [Wallet::get_look_ahead_record] on the HD back end; the record comes
    with the answer [true], [None] is the answer [false]. *)
Definition get_look_ahead_record (w : Wallet) (spend_public_key : PublicKey)
    (iv_key iv_value : list byte) : result (Wallet * option WalletRecord) :=
  match m_records_map w !! spend_public_key with
  | None => Ok (w, None)
  | Some idx =>
      let* found := records_at w (Z.of_nat idx) in
      let* _ := invariant (bool_decide (WalletCore.spend_public_key found = spend_public_key)) in
      let* w := create_look_ahead_records w (wrap64 (Z.of_nat idx + 1)) iv_key iv_value in
      Ok (w, Some found)
  end.

Lemma create_look_ahead_records_grows (w : Wallet) (count : Z)
    (iv_key iv_value : list byte) :
  0 < hardware_concurrency -> 0 <= m_used_address_count w -> 0 <= count ->
  (count + GENERATE_AHEAD) * hardware_concurrency < 2 ^ 64 ->
  m_used_address_count w + GENERATE_AHEAD <= Z.of_nat (length (m_wallet_records w)) ->
  exists (w' : Wallet) (tail : list WalletRecord),
    create_look_ahead_records w count iv_key iv_value = Ok w' /\
    m_used_address_count w' = Z.max (m_used_address_count w) count /\
    m_wallet_records w' = m_wallet_records w ++ tail /\
    m_used_address_count w' + GENERATE_AHEAD <= Z.of_nat (length (m_wallet_records w')) /\
    (count <= m_used_address_count w -> w' = w) /\
    (m_used_address_count w < count ->
     committed (m_db_dbi w') = pending (m_db_dbi w') /\
     commits (m_db_dbi w') = S (commits (m_db_dbi w)) /\
     (length iv_value = HASH_SIZE ->
      get w' ADDRESS_COUNT_PREFIX = Ok (Some (to_binary count)))).
Proof using generate_hd_spendkeys_length to_binary_length chacha_length
  chacha_involutive.
  intros Hthc Hused Hcount Hmul Hwin. unfold create_look_ahead_records.
  destruct (count <=? m_used_address_count w) eqn:E.
  - apply Z.leb_le in E. exists w, []. rewrite app_nil_r.
    split; [done|]. split; [lia|]. split; [done|]. split; [done|].
    split; [done|lia].
  - apply Z.leb_gt in E.
    set (w1 := with_used_address_count w count).
    destruct (generate_ahead_window w1) as (tail & Hrec & Hwin1 & Hu & Hdb & Hkey);
      [done|done|done|].
    set (w2 := generate_ahead w1) in *.
    destruct (put_replace w2 ADDRESS_COUNT_PREFIX (to_binary (m_used_address_count w2))
                iv_key iv_value) as (w3 & Hput & Hr3 & Hu3 & Hc3 & Hn3 & _);
      [vm_compute; discriminate | apply to_binary_length |].
    rewrite Hput. cbn [bind]. exists (commit w3), tail.
    split; [done|].
    assert (Hget : length iv_value = HASH_SIZE ->
                   get (commit w3) ADDRESS_COUNT_PREFIX = Ok (Some (to_binary count))).
    { intros Hiv.
      pose proof (get_after_put w2 w3 ADDRESS_COUNT_PREFIX
                    (to_binary (m_used_address_count w2)) iv_key iv_value false
                    Hiv (to_binary_length _) Hput) as Hg.
      rewrite Hu in Hg. apply put_ok in Hput as (ek & ev & _ & _ & ->).
      exact Hg. }
    cbn [commit with_db m_used_address_count m_wallet_records m_db_dbi
         committed pending commits].
    rewrite Hu3, Hu, Hr3, Hrec, Hn3, Hdb. subst w1.
    cbn [with_used_address_count m_used_address_count m_wallet_records m_db_dbi] in *.
    split; [lia|]. split; [done|]. split; [by rewrite <- Hrec|].
    split; [lia|]. intros _. split; [done|]. split; [done|exact Hget].
Qed.

(** X16.  Finding an output at a look-ahead address moves the window.
    [get_look_ahead_record] answers [false] for a key that is not in the
    map and changes nothing; for a key the map sends to a record with
    that key it hands out the record, and [m_used_address_count] becomes
    the index of the record plus one unless it was larger already.  The
    records that were there stay where they are, at least
    [GENERATE_AHEAD] records follow the used ones afterwards as before,
    and when the counter moved it was stored and committed -- [get] of
    the counter's key then reads the new counter, from tables that are
    all on disk; when it did not, the wallet is as it was. *)
Theorem get_look_ahead_record_grows (w : Wallet) (spend_public_key : PublicKey)
    (iv_key iv_value : list byte) :
  0 < hardware_concurrency -> 0 <= m_used_address_count w ->
  (Z.of_nat (length (m_wallet_records w)) + GENERATE_AHEAD) * hardware_concurrency
    < 2 ^ 64 ->
  m_used_address_count w + GENERATE_AHEAD <= Z.of_nat (length (m_wallet_records w)) ->
  (m_records_map w !! spend_public_key = None ->
   get_look_ahead_record w spend_public_key iv_key iv_value = Ok (w, None)) /\
  (forall (idx : nat) (found : WalletRecord),
     m_records_map w !! spend_public_key = Some idx ->
     m_wallet_records w !! idx = Some found ->
     WalletCore.spend_public_key found = spend_public_key ->
     exists (w' : Wallet) (tail : list WalletRecord),
       get_look_ahead_record w spend_public_key iv_key iv_value = Ok (w', Some found) /\
       m_used_address_count w' = Z.max (m_used_address_count w) (Z.of_nat idx + 1) /\
       m_wallet_records w' = m_wallet_records w ++ tail /\
       m_used_address_count w' + GENERATE_AHEAD
         <= Z.of_nat (length (m_wallet_records w')) /\
       (Z.of_nat idx + 1 <= m_used_address_count w -> w' = w) /\
       (m_used_address_count w < Z.of_nat idx + 1 ->
        committed (m_db_dbi w') = pending (m_db_dbi w') /\
        commits (m_db_dbi w') = S (commits (m_db_dbi w)) /\
        (length iv_value = HASH_SIZE ->
         get w' ADDRESS_COUNT_PREFIX = Ok (Some (to_binary (Z.of_nat idx + 1)))))).
Proof using generate_hd_spendkeys_length to_binary_length chacha_length
  chacha_involutive.
  intros Hthc Hused Hmul Hwin. unfold get_look_ahead_record. split.
  - by intros ->.
  - intros idx found -> Hfound Hpk.
    unfold records_at. rewrite Nat2Z.id, Hfound. cbn [bind]. unfold invariant.
    rewrite bool_decide_eq_true_2 by done. cbn [bind].
    apply lookup_lt_Some in Hfound as Hlt.
    assert (Hidx : 0 <= Z.of_nat idx + 1 < 2 ^ 64)
      by (unfold GENERATE_AHEAD in *; nia).
    rewrite (wrap64_small _ Hidx).
    destruct (create_look_ahead_records_grows w (Z.of_nat idx + 1) iv_key iv_value)
      as (w' & tail & -> & H1 & H2 & H3 & H4 & H5); [done|done|lia| |done|].
    { unfold GENERATE_AHEAD in *. nia. }
    cbn [bind]. by exists w', tail.
Qed.

(** *** The first output *)

Definition CREATION_TIMESTAMP_PREFIX : string := "creation_timestamp".

(** [on_first_output_found (ts)]; [net] is [m_currency.net], and
    [m_oldest_timestamp] is read, not written. *)
Definition on_first_output_found (net : string) (m_oldest_timestamp : Z) (w : Wallet)
    (ts : Z) (iv_key iv_value : list byte) : result Wallet :=
  if negb (m_oldest_timestamp =? 0) || (ts =? 0) then Ok w
  else
    let* w := put w (CREATION_TIMESTAMP_PREFIX +:+ WalletContainerStorage.net_append net)
                (to_binary ts) false iv_key iv_value in
    Ok (commit w).

(** X17.  The first output found pins the creation timestamp in the
    database, not in the records.  With a known oldest timestamp, or for
    [ts = 0], [on_first_output_found] does nothing; otherwise it stores
    [ts] under the key of the net and commits, after which [get] of that
    key reads [ts] back, while the records, the map and the counter of
    used addresses are as they were. *)
Theorem on_first_output_found_stores (net : string) (m_oldest_timestamp : Z)
    (w : Wallet) (ts : Z) (iv_key iv_value : list byte) :
  length iv_value = HASH_SIZE ->
  Z.of_nat (length (as_binary_array
                      (CREATION_TIMESTAMP_PREFIX +:+ WalletContainerStorage.net_append net)))
    <= 2 ^ 31 ->
  (m_oldest_timestamp <> 0 \/ ts = 0 ->
   on_first_output_found net m_oldest_timestamp w ts iv_key iv_value = Ok w) /\
  (m_oldest_timestamp = 0 -> ts <> 0 ->
   exists w' : Wallet,
     on_first_output_found net m_oldest_timestamp w ts iv_key iv_value = Ok w' /\
     get w' (CREATION_TIMESTAMP_PREFIX +:+ WalletContainerStorage.net_append net)
     = Ok (Some (to_binary ts)) /\
     m_wallet_records w' = m_wallet_records w /\
     m_records_map w' = m_records_map w /\
     m_used_address_count w' = m_used_address_count w /\
     committed (m_db_dbi w') = pending (m_db_dbi w') /\
     commits (m_db_dbi w') = S (commits (m_db_dbi w))).
Proof using chacha_length chacha_involutive to_binary_length.
  intros Hiv Hkey. unfold on_first_output_found. split.
  - intros [Hne| ->].
    + by replace (m_oldest_timestamp =? 0) with false
        by (symmetry; by apply Z.eqb_neq).
    + by rewrite orb_true_r.
  - intros -> Hts. cbn [Z.eqb negb orb].
    replace (ts =? 0) with false by (symmetry; by apply Z.eqb_neq).
    set (key := (CREATION_TIMESTAMP_PREFIX +:+ WalletContainerStorage.net_append net)%string)
      in *.
    destruct (put_replace w key (to_binary ts) iv_key iv_value Hkey (to_binary_length ts))
      as (w1 & Hput & _ & _ & _ & Hn & _).
    rewrite Hput. cbn [bind]. exists (commit w1). split; [done|].
    pose proof (get_after_put w w1 key (to_binary ts) iv_key iv_value false Hiv
                  (to_binary_length ts) Hput) as Hget.
    apply put_ok in Hput as (enc_key & enc_value & _ & _ & ->).
    split; [exact Hget|]. by repeat split.
Qed.

(** *** Addresses of the HD wallet *)

(** [crypto::generate_address_s_v] and
    [AccountAddressUnlinkable::type_tag_auditable] *)
Variable generate_address_s_v : PublicKey -> SecretKey -> PublicKey.
Variable type_tag_auditable : Z.

#[local] Instance AccountAddress_eq_dec : EqDecision AccountAddress.
Proof. solve_decision. Defined.

(** Modelled from the spec: [Wallet::is_auditable] and
    [Wallet::get_actual_records_count] for this back end (Wallet.hpp is not
    part of the sources at hand), "true iff the address type is the
    auditable variant" and "for HD: [m_used_address_count]". *)
Definition is_auditable (m_address_type : Z) : bool :=
  m_address_type =? type_tag_auditable.
Definition get_actual_records_count (w : Wallet) : Z := m_used_address_count w.

(** [m_view_secret_key] and [m_address_type] are read, not written. *)
Definition record_to_address (m_view_secret_key : SecretKey) (m_address_type : Z)
    (record : WalletRecord) : AccountAddress :=
  let sv := generate_address_s_v (spend_public_key record) m_view_secret_key in
  AccountAddressUnlinkable (spend_public_key record) sv
    (m_address_type =? type_tag_auditable).

(** [get_record (&record, v_addr)]: the [bool] result and the content of
    [*record] after the call. *)
Definition get_record (m_view_secret_key : SecretKey) (m_address_type : Z)
    (w : Wallet) (record : WalletRecord) (v_addr : AccountAddress)
  : result (bool * WalletRecord) :=
  match v_addr with
  | AccountAddressSimple _ _ => Ok (false, record)
  | AccountAddressUnlinkable s _ addr_is_auditable =>
      if negb (Bool.eqb addr_is_auditable (is_auditable m_address_type))
      then Ok (false, record)
      else
        match m_records_map w !! s with
        | None => Ok (false, record)
        | Some idx =>
            if Z.of_nat idx >=? get_actual_records_count w then Ok (false, record)
            else
              let* r := records_at w (Z.of_nat idx) in
              let addr2 := record_to_address m_view_secret_key m_address_type r in
              if negb (bool_decide (v_addr = addr2)) then Ok (false, record)
              else Ok (true, r)
        end
  end.

(** X18.  Only used addresses are ours.  [get_record] of the HD wallet
    answers [false], leaving [*record] alone, for every simple address
    and for every address whose key the map sends to a look-ahead record,
    one at [m_used_address_count] or beyond; and when it answers [true],
    the record it hands out is a used one that the map holds under its
    spend public key, and the address asked for is, field by field, the
    address of that record. *)
Theorem get_record_used_only (m_view_secret_key : SecretKey) (m_address_type : Z)
    (w : Wallet) (record : WalletRecord) :
  (forall spend view : PublicKey,
     get_record m_view_secret_key m_address_type w record
       (AccountAddressSimple spend view) = Ok (false, record)) /\
  (forall (s sv : PublicKey) (a : bool) (idx : nat),
     m_records_map w !! s = Some idx -> m_used_address_count w <= Z.of_nat idx ->
     get_record m_view_secret_key m_address_type w record
       (AccountAddressUnlinkable s sv a) = Ok (false, record)) /\
  (forall (v_addr : AccountAddress) (r : WalletRecord),
     get_record m_view_secret_key m_address_type w record v_addr = Ok (true, r) ->
     v_addr = record_to_address m_view_secret_key m_address_type r /\
     exists idx : nat,
       m_records_map w !! spend_public_key r = Some idx /\
       m_wallet_records w !! idx = Some r /\
       Z.of_nat idx < m_used_address_count w).
Proof.
  split; [done|]. split.
  - intros s sv a idx Hidx Hge. cbn [get_record]. rewrite Hidx.
    unfold get_actual_records_count.
    replace (Z.of_nat idx >=? m_used_address_count w) with true
      by (symmetry; rewrite Z.geb_leb; apply Z.leb_le; lia).
    by destruct (negb _).
  - intros [spend view|s sv a] r; cbn [get_record]; [done|].
    destruct (negb (Bool.eqb a _)); [done|].
    destruct (m_records_map w !! s) as [idx|] eqn:Em; [|done].
    unfold get_actual_records_count.
    destruct (Z.of_nat idx >=? m_used_address_count w) eqn:Ege; [done|].
    rewrite Z.geb_leb in Ege. apply Z.leb_gt in Ege.
    unfold records_at. rewrite Nat2Z.id.
    destruct (m_wallet_records w !! idx) as [r0|] eqn:Er; [|done]. cbn [bind].
    destruct (decide (AccountAddressUnlinkable s sv a
                      = record_to_address m_view_secret_key m_address_type r0))
      as [Heq|Hne].
    + rewrite bool_decide_eq_true_2 by done. intros [= <-]. split; [done|].
      exists idx. injection Heq as -> _ _. by repeat split.
    + by rewrite bool_decide_eq_false_2.
Qed.

(** *** Changing the password *)

(** [generate_chacha8_key (cn_ctx, data, size)] comes from the crypto
    library. *)
Variable generate_chacha8_key : list byte -> list byte.

Definition with_wallet_key (w : Wallet) (key : list byte) : Wallet :=
  {| m_wallet_key := key; m_spend_key_base := m_spend_key_base w;
     m_wallet_records := m_wallet_records w; m_records_map := m_records_map w;
     m_used_address_count := m_used_address_count w; m_db_dbi := m_db_dbi w |}.

(** The table [unencrypted] and its one row: [put_salt] and [get_salt]. *)
Definition put_salt (unencrypted : gmap string (list byte)) (salt : list byte)
  : gmap string (list byte) :=
  <["salt"%string := salt]> unencrypted.

Definition get_salt (unencrypted : gmap string (list byte)) : result (list byte) :=
  match unencrypted !! "salt"%string with
  | Some salt => Ok salt
  | None => Throw InvariantFailed
  end.

(** [for (const auto &p : parameters) put (p.first, p.second, true);]
    where [rand k] is the value of the [k]-th call of
    [crypto::rand<Hash> ()] and [drawn] the number of calls made. *)
Fixpoint put_all (w : Wallet) (ps : list (string * list byte))
    (rand : nat -> list byte) (drawn : nat) : result (Wallet * nat) :=
  match ps with
  | [] => Ok (w, drawn)
  | p :: ps' =>
      let* w := put w p.1 p.2 true (rand drawn) (rand (S drawn)) in
      put_all w ps' rand (S (S drawn))
  end.

(** [for (const auto &l : m_labels) set_label (l.first, l.second);] over
    the entries [ls].  A label that is there is not empty, and
    [set_label] assigns to the entry the loop stands on. *)
Fixpoint set_label_all (w : Wallet) (m_labels : gmap string string)
    (ls : list (string * string)) (rand : nat -> list byte) (drawn : nat)
  : result (Wallet * gmap string string * nat) :=
  match ls with
  | [] => Ok (w, m_labels, drawn)
  | l :: ls' =>
      let* r := set_label w m_labels l.1 l.2 (rand drawn) (rand (S drawn)) in
      set_label_all r.1 r.2 ls' rand (S (S drawn))
  end.

(** [for (const auto &el : pq2) payment_queue_add (...);] *)
Fixpoint payment_queue_add_all (w : Wallet)
    (pq2 : list (list byte * string * list byte))
    (rand : nat -> list byte) (drawn : nat) : result (Wallet * nat) :=
  match pq2 with
  | [] => Ok (w, drawn)
  | el :: pq2' =>
      let* w := payment_queue_add w el.1.1 el.1.2 el.2
                  (rand drawn) (rand (S drawn)) (rand (S (S drawn))) in
      payment_queue_add_all w pq2' rand (S (S (S drawn)))
  end.

(** A [std::map<std::string, std::string>] is walked in the order of its
    keys, strings compared byte by byte. *)
Definition labels_in_order (m_labels : gmap string string) : list (string * string) :=
  merge_sort (fun x y : string * string => String.leb x.1 y.1) (map_to_list m_labels).

(** [set_password (password)]: the wallet, [m_labels] and the table
    [unencrypted] after the call; [salt] is what
    [crypto::generate_random_bytes] wrote into the [sizeof (Hash)] bytes
    of the salt. *)
Definition set_password (w : Wallet) (m_labels : gmap string string)
    (unencrypted : gmap string (list byte)) (password : string)
    (salt : list byte) (rand : nat -> list byte)
  : result (Wallet * gmap string string * gmap string (list byte)) :=
  let* parameters_ := parameters_get w in
  let* pq2 := payment_queue_get2 w in
  let w := with_pending w {| parameters := ∅; labels := ∅; payment_queue := ∅ |} in
  let unencrypted := put_salt unencrypted salt in
  let salt := salt ++ as_binary_array password in
  let w := with_wallet_key w (generate_chacha8_key salt) in
  let* r1 := put_all w parameters_ rand 0 in
  let* r2 := set_label_all r1.1 m_labels (labels_in_order m_labels) rand r1.2 in
  let* r3 := payment_queue_add_all r2.1.1 pq2 rand r2.2 in
  Ok (commit r3.1, r2.1.2, unencrypted).

(** No blob of the encrypted tables is longer than SQLite lets a blob be. *)
Definition blobs_small (t : Tables) : Prop :=
  (forall kh ek ev, parameters t !! kh = Some (ek, ev) ->
     Z.of_nat (length ek) <= 2 ^ 31 /\ Z.of_nat (length ev) <= 2 ^ 31) /\
  (forall kh et en ev, payment_queue t !! kh = Some (et, en, ev) ->
     Z.of_nat (length et) <= 2 ^ 31 /\ Z.of_nat (length en) <= 2 ^ 31 /\
     Z.of_nat (length ev) <= 2 ^ 31).

Definition labels_small (m_labels : gmap string string) : Prop :=
  forall address label, m_labels !! address = Some label ->
    label <> ""%string /\
    Z.of_nat (length (as_binary_array address)) <= 2 ^ 31 /\
    Z.of_nat (length (as_binary_array label)) <= 2 ^ 31.

Lemma decrypt_data_length (wallet_key value plain : list byte) :
  decrypt_data wallet_key value = Ok plain ->
  (length plain + 4 + HASH_SIZE <= length value)%nat.
Proof using chacha_length.
  unfold decrypt_data, invariant.
  destruct (4 + Z.of_nat HASH_SIZE <=? Z.of_nat (length value)) eqn:E1;
    cbn [bind]; [|done].
  apply Z.leb_le in E1.
  rewrite decrypt_data_result by lia.
  set (dec := chacha 20 _ _ _).
  assert (Hdec : length dec = (length value - HASH_SIZE)%nat).
  { subst dec. rewrite chacha_length. unfold slice.
    rewrite length_take, length_drop. lia. }
  destruct (_ <=? _) eqn:E2; cbn [bind]; [|done].
  apply Z.leb_le in E2. intros [= <-].
  unfold slice. rewrite length_take, length_drop. lia.
Qed.

Lemma as_binary_array_as_string (ba : list byte) :
  as_binary_array (as_string ba) = ba.
Proof. apply Strings.String.list_byte_of_string_of_list_byte. Qed.

Lemma for_each_row_source {A B : Type} (f : A -> result B) (rows : list A)
    (xs : list B) (x : B) :
  for_each_row f rows = Ok xs -> x ∈ xs ->
  exists row : A, row ∈ rows /\ f row = Ok x.
Proof.
  revert xs. induction rows as [|r rows IH]; intros xs H Hin.
  - injection H as <-. by apply elem_of_nil in Hin.
  - cbn [for_each_row] in H.
    destruct (f r) as [y|] eqn:Ey; [|done]. cbn [bind] in H.
    destruct (for_each_row f rows) as [xs'|]; [|done]. injection H as <-.
    apply elem_of_cons in Hin as [->|Hin].
    + exists r. split; [left|done].
    + destruct (IH xs' eq_refl Hin) as (row & Hrow & Hf).
      exists row. split; [by right|done].
Qed.

(** What [parameters_get] returns was decrypted from a row, and is
    shorter than the row. *)
Lemma parameters_get_small (w : Wallet) (ps : list (string * list byte))
    (k : string) (v : list byte) :
  blobs_small (pending (m_db_dbi w)) ->
  parameters_get w = Ok ps -> (k, v) ∈ ps ->
  Z.of_nat (length (as_binary_array k)) <= 2 ^ 31 /\ Z.of_nat (length v) <= 2 ^ 31.
Proof using chacha_length select_rows_all.
  intros [Hsmall _] Hps Hin. unfold parameters_get in Hps.
  destruct (for_each_row_source _ _ _ _ Hps Hin) as (row & Hrow & Hf).
  rewrite select_rows_all in Hrow.
  apply list_elem_of_fmap in Hrow as ([kh [ek ev]] & -> & Hrow).
  apply elem_of_map_to_list in Hrow. cbn [snd] in *.
  destruct (Hsmall _ _ _ Hrow) as [Hek Hev].
  unfold parameters_row in Hf. cbn [fst snd] in Hf.
  destruct (decrypt_data _ ek) as [ka|] eqn:Eka; [|done]. cbn [bind] in Hf.
  destruct (decrypt_data _ ev) as [ba|] eqn:Eba; [|done]. cbn [bind] in Hf.
  injection Hf as <- <-.
  apply decrypt_data_length in Eka, Eba.
  rewrite as_binary_array_as_string. lia.
Qed.

Lemma payment_queue_get2_small (w : Wallet)
    (pq2 : list (list byte * string * list byte))
    (tid : list byte) (net : string) (tx : list byte) :
  blobs_small (pending (m_db_dbi w)) ->
  payment_queue_get2 w = Ok pq2 -> (tid, net, tx) ∈ pq2 ->
  length tid = HASH_SIZE /\
  Z.of_nat (length (as_binary_array net)) <= 2 ^ 31 /\ Z.of_nat (length tx) <= 2 ^ 31.
Proof using chacha_length select_queue_rows_all.
  intros [_ Hsmall] Hps Hin. unfold payment_queue_get2 in Hps.
  destruct (for_each_row_source _ _ _ _ Hps Hin) as (row & Hrow & Hf).
  rewrite select_queue_rows_all in Hrow.
  apply list_elem_of_fmap in Hrow as ([kh [[et en] ev]] & -> & Hrow).
  apply elem_of_map_to_list in Hrow. cbn [snd] in *.
  destruct (Hsmall _ _ _ _ Hrow) as (Het & Hen & Hev).
  unfold payment_queue_row in Hf. cbn [fst snd] in Hf.
  destruct (decrypt_data _ et) as [key|] eqn:Ekey; [|done]. cbn [bind] in Hf.
  unfold invariant in Hf.
  destruct (bool_decide (length key = HASH_SIZE)) eqn:Elen; [|done].
  apply bool_decide_eq_true in Elen. cbn [bind] in Hf.
  destruct (decrypt_data _ en) as [nb|] eqn:Enb; [|done]. cbn [bind] in Hf.
  destruct (decrypt_data _ ev) as [ba|] eqn:Eba; [|done]. cbn [bind] in Hf.
  injection Hf as <- <- <-.
  apply decrypt_data_length in Enb, Eba.
  rewrite as_binary_array_as_string. split; [done|]. lia.
Qed.

(** The rows of the three tables of [t] that decrypt under [key] to an
    entry of [ps], of [ls], of [pq2]. *)
Definition parameters_from (key : list byte) (ps : list (string * list byte))
    (t : gmap (list byte) (list byte * list byte)) : Prop :=
  forall kh ek ev, t !! kh = Some (ek, ev) ->
    exists k v, (k, v) ∈ ps /\
      decrypt_data key ek = Ok (as_binary_array k) /\ decrypt_data key ev = Ok v.

Definition labels_from (key : list byte) (ls : list (string * string))
    (t : gmap (list byte) (list byte * list byte)) : Prop :=
  forall ah ea el, t !! ah = Some (ea, el) ->
    exists address label, (address, label) ∈ ls /\
      decrypt_data key ea = Ok (as_binary_array address) /\
      decrypt_data key el = Ok (as_binary_array label).

Definition payment_queue_from (key : list byte)
    (pq2 : list (list byte * string * list byte))
    (t : gmap (list byte * list byte) (list byte * list byte * list byte)) : Prop :=
  forall kh et en ev, t !! kh = Some (et, en, ev) ->
    exists tid net tx, (tid, net, tx) ∈ pq2 /\
      decrypt_data key et = Ok tid /\
      decrypt_data key en = Ok (as_binary_array net) /\
      decrypt_data key ev = Ok tx.

Lemma put_all_spec (rand : nat -> list byte) (ps0 ps : list (string * list byte)) :
  (forall k, length (rand k) = HASH_SIZE) ->
  (forall k v, (k, v) ∈ ps0 ->
     Z.of_nat (length (as_binary_array k)) <= 2 ^ 31 /\ Z.of_nat (length v) <= 2 ^ 31) ->
  forall (w w' : Wallet) (drawn drawn' : nat),
    ps ⊆ ps0 ->
    parameters_from (m_wallet_key w) ps0 (parameters (pending (m_db_dbi w))) ->
    put_all w ps rand drawn = Ok (w', drawn') ->
    exists t' : Tables,
      w' = with_pending w t' /\
      labels t' = labels (pending (m_db_dbi w)) /\
      payment_queue t' = payment_queue (pending (m_db_dbi w)) /\
      parameters_from (m_wallet_key w) ps0 (parameters t') /\
      (forall kh row, parameters (pending (m_db_dbi w)) !! kh = Some row ->
         parameters t' !! kh = Some row) /\
      (forall k v, (k, v) ∈ ps -> get w' k = Ok (Some v)).
Proof using chacha_length chacha_involutive.
  intros Hrand Hsmall. induction ps as [|[k v] ps IH]; intros w w' drawn drawn' Hsub Hfrom H.
  - injection H as <- <-. exists (pending (m_db_dbi w)).
    split; [by destruct w as [? ? ? ? ? []]|]. do 4 (split; [done|]).
    intros k v Hin. by apply elem_of_nil in Hin.
  - cbn [put_all fst snd] in H.
    destruct (put w k v true (rand drawn) (rand (S drawn))) as [w1|] eqn:Eput; [|done].
    cbn [bind] in H.
    assert (Hkv : (k, v) ∈ ps0) by (apply Hsub; left).
    destruct (Hsmall k v Hkv) as [Hk Hv].
    assert (Hfresh : parameters (pending (m_db_dbi w))
                       !! derive_from_key (m_wallet_key w)
                            (as_binary_array ("db_parameters" +:+ k)) = None).
    { unfold put in Eput.
      destruct (encrypt_data _ _ (as_binary_array k)); [|done].
      destruct (encrypt_data _ _ v); [|done].
      cbn [andb] in Eput.
      destruct (parameters (pending (m_db_dbi w)) !! _) as [row|]; [|done].
      by rewrite bool_decide_eq_true_2 in Eput. }
    destruct (put_ok _ _ _ _ _ _ _ Eput) as (ek & ev & Hek & Hev & ->).
    apply decrypt_encrypt_data in Hek; [|done|done].
    apply decrypt_encrypt_data in Hev; [|done|done].
    apply IH in H as (t' & -> & Hl & Hq & Hfrom' & Hkeep & Hget).
    + exists t'. split; [done|]. split; [done|]. split; [done|].
      split; [exact Hfrom'|]. split.
      * intros kh row Hrow. apply Hkeep.
        cbn [with_pending with_db m_db_dbi pending parameters].
        rewrite lookup_insert_ne; [done|]. intros <-. by rewrite Hfresh in Hrow.
      * intros k' v' Hin. apply elem_of_cons in Hin as [[= -> ->]|Hin];
          [|by apply Hget].
        unfold get. cbn [with_pending with_db m_wallet_key m_db_dbi pending].
        rewrite (Hkeep _ (ek, ev)).
        -- by rewrite Hev.
        -- cbn [with_pending with_db m_db_dbi pending parameters].
           by rewrite lookup_insert_eq.
    + intros x Hx. apply Hsub. by right.
    + cbn [with_pending with_db m_wallet_key m_db_dbi pending parameters].
      intros kh ek' ev' Hrow.
      destruct (decide (kh = derive_from_key (m_wallet_key w)
                               (as_binary_array ("db_parameters" +:+ k)))) as [->|Hne].
      * rewrite lookup_insert_eq in Hrow. injection Hrow as <- <-. by exists k, v.
      * rewrite lookup_insert_ne in Hrow by done. exact (Hfrom kh ek' ev' Hrow).
Qed.

Lemma set_label_all_spec (rand : nat -> list byte) (m_labels : gmap string string)
    (ls0 ls : list (string * string)) :
  (forall k, length (rand k) = HASH_SIZE) ->
  labels_small m_labels ->
  (forall address label, (address, label) ∈ ls0 -> m_labels !! address = Some label) ->
  forall (w w' : Wallet) (m_labels' : gmap string string) (drawn drawn' : nat),
    ls ⊆ ls0 ->
    labels_from (m_wallet_key w) ls0 (labels (pending (m_db_dbi w))) ->
    set_label_all w m_labels ls rand drawn = Ok (w', m_labels', drawn') ->
    exists db' : Dbi,
      w' = with_db w db' /\ m_labels' = m_labels /\
      parameters (pending db') = parameters (pending (m_db_dbi w)) /\
      payment_queue (pending db') = payment_queue (pending (m_db_dbi w)) /\
      labels_from (m_wallet_key w) ls0 (labels (pending db')) /\
      commits db' = (commits (m_db_dbi w) + length ls)%nat.
Proof using chacha_length chacha_involutive.
  intros Hrand Hsmall Hin0.
  induction ls as [|[a l] ls IH]; intros w w' m_labels' drawn drawn' Hsub Hfrom H.
  - injection H as <- <- <-. exists (m_db_dbi w).
    split; [by destruct w|]. do 4 (split; [done|]). cbn [length]. lia.
  - cbn [set_label_all fst snd] in H.
    assert (Hal : m_labels !! a = Some l) by (apply Hin0, Hsub; left).
    destruct (Hsmall a l Hal) as (Hne & Ha & Hl).
    unfold set_label in H.
    destruct (encrypt_data _ (rand drawn) _) as [ea|] eqn:Ea; [|done].
    destruct (encrypt_data _ (rand (S drawn)) _) as [el|] eqn:El; [|done].
    rewrite bool_decide_eq_false_2 in H by done. cbn [bind fst snd] in H.
    rewrite (insert_id m_labels a l Hal) in H.
    apply decrypt_encrypt_data in Ea; [|done|done].
    apply decrypt_encrypt_data in El; [|done|done].
    apply IH in H as (db' & -> & -> & Hp & Hq & Hfrom' & Hc).
    + exists db'. split; [done|]. split; [done|]. split; [exact Hp|].
      split; [exact Hq|]. split; [exact Hfrom'|].
      rewrite Hc. cbn. lia.
    + intros x Hx. apply Hsub. by right.
    + cbn [commit with_pending with_db m_wallet_key m_db_dbi pending labels].
      intros ah ea' el' Hrow.
      destruct (decide (ah = derive_from_key (m_wallet_key w)
                               (as_binary_array ("db_labels" +:+ a)))) as [->|Hneq].
      * rewrite lookup_insert_eq in Hrow. injection Hrow as <- <-.
        exists a, l. split; [apply Hsub; left|done].
      * rewrite lookup_insert_ne in Hrow by done. exact (Hfrom ah ea' el' Hrow).
Qed.

Lemma payment_queue_add_all_spec (rand : nat -> list byte)
    (pq0 pq : list (list byte * string * list byte)) :
  (forall k, length (rand k) = HASH_SIZE) ->
  (forall tid net tx, (tid, net, tx) ∈ pq0 ->
     length tid = HASH_SIZE /\
     Z.of_nat (length (as_binary_array net)) <= 2 ^ 31 /\
     Z.of_nat (length tx) <= 2 ^ 31) ->
  forall (w w' : Wallet) (drawn drawn' : nat),
    pq ⊆ pq0 ->
    payment_queue_from (m_wallet_key w) pq0 (payment_queue (pending (m_db_dbi w))) ->
    payment_queue_add_all w pq rand drawn = Ok (w', drawn') ->
    exists t' : Tables,
      w' = with_pending w t' /\
      parameters t' = parameters (pending (m_db_dbi w)) /\
      labels t' = labels (pending (m_db_dbi w)) /\
      payment_queue_from (m_wallet_key w) pq0 (payment_queue t').
Proof using chacha_length chacha_involutive.
  intros Hrand Hsmall.
  induction pq as [|[[tid net] tx] pq IH]; intros w w' drawn drawn' Hsub Hfrom H.
  - injection H as <- <-. exists (pending (m_db_dbi w)).
    split; [by destruct w as [? ? ? ? ? []]|]. done.
  - cbn [payment_queue_add_all fst snd] in H.
    assert (Hel : (tid, net, tx) ∈ pq0) by (apply Hsub; left).
    destruct (Hsmall tid net tx Hel) as (Htid & Hnet & Htx).
    unfold payment_queue_add in H.
    destruct (encrypt_data _ (rand drawn) _) as [et|] eqn:Et; [|done].
    destruct (encrypt_data _ (rand (S drawn)) _) as [en|] eqn:En; [|done].
    destruct (encrypt_data _ (rand (S (S drawn))) _) as [ev|] eqn:Ev; [|done].
    cbn [bind] in H.
    apply decrypt_encrypt_data in Et; [|done|unfold HASH_SIZE in Htid; lia].
    apply decrypt_encrypt_data in En; [|done|done].
    apply decrypt_encrypt_data in Ev; [|done|done].
    apply IH in H as (t' & -> & Hp & Hl & Hfrom').
    + exists t'. by repeat split.
    + intros x Hx. apply Hsub. by right.
    + cbn [with_pending with_db m_wallet_key m_db_dbi pending payment_queue].
      intros kh et' en' ev' Hrow.
      destruct (decide (kh = (derive_from_key (m_wallet_key w)
                                (as_binary_array "db_payment_queue_tid" ++ tid),
                              derive_from_key (m_wallet_key w)
                                (as_binary_array ("db_payment_queue_net" +:+ net)))))
        as [->|Hneq].
      * rewrite lookup_insert_eq in Hrow. injection Hrow as <- <- <-.
        by exists tid, net, tx.
      * rewrite lookup_insert_ne in Hrow by done. exact (Hfrom kh et' en' ev' Hrow).
Qed.

Lemma labels_in_order_elem (m_labels : gmap string string) (address label : string) :
  (address, label) ∈ labels_in_order m_labels <-> m_labels !! address = Some label.
Proof.
  unfold labels_in_order. rewrite merge_sort_Permutation.
  apply elem_of_map_to_list.
Qed.

Lemma length_labels_in_order (m_labels : gmap string string) :
  length (labels_in_order m_labels) = size m_labels.
Proof.
  unfold labels_in_order. rewrite merge_sort_Permutation.
  apply length_map_to_list.
Qed.

(** X20.  Changing the password loses nothing and leaves nothing behind.
    When [set_password] returns, the salt in [unencrypted] is the new one
    and the wallet key is the key of that salt and the new password, the
    key a later opening with that password derives; every parameter that
    [parameters_get] listed before reads back with [get]; every row left
    in the three tables decrypts under the new key, to a parameter that
    was listed, a label of [m_labels], a transaction that was queued;
    [m_labels], the records, their map and the counter of used addresses
    are as before; and the database was committed once for every label
    and once at the end. *)
Theorem set_password_keeps (w w' : Wallet) (m_labels m_labels' : gmap string string)
    (unencrypted unencrypted' : gmap string (list byte)) (password : string)
    (salt : list byte) (rand : nat -> list byte) :
  (forall k, length (rand k) = HASH_SIZE) ->
  blobs_small (pending (m_db_dbi w)) -> labels_small m_labels ->
  set_password w m_labels unencrypted password salt rand
  = Ok (w', m_labels', unencrypted') ->
  exists (ps : list (string * list byte)) (pq2 : list (list byte * string * list byte)),
    parameters_get w = Ok ps /\ payment_queue_get2 w = Ok pq2 /\
    get_salt unencrypted' = Ok salt /\
    m_wallet_key w' = generate_chacha8_key (salt ++ as_binary_array password) /\
    (forall k v, (k, v) ∈ ps -> get w' k = Ok (Some v)) /\
    parameters_from (m_wallet_key w') ps (parameters (pending (m_db_dbi w'))) /\
    labels_from (m_wallet_key w') (map_to_list m_labels)
      (labels (pending (m_db_dbi w'))) /\
    payment_queue_from (m_wallet_key w') pq2
      (payment_queue (pending (m_db_dbi w'))) /\
    m_labels' = m_labels /\
    m_wallet_records w' = m_wallet_records w /\
    m_records_map w' = m_records_map w /\
    m_used_address_count w' = m_used_address_count w /\
    committed (m_db_dbi w') = pending (m_db_dbi w') /\
    commits (m_db_dbi w') = S (commits (m_db_dbi w) + size m_labels).
Proof using chacha_length chacha_involutive select_rows_all select_queue_rows_all.
  intros Hrand Hblobs Hlabels. unfold set_password.
  destruct (parameters_get w) as [ps|] eqn:Eps; [|done]. cbn [bind].
  destruct (payment_queue_get2 w) as [pq2|] eqn:Epq; [|done]. cbn [bind].
  set (key := generate_chacha8_key (salt ++ as_binary_array password)).
  set (w0 := with_wallet_key (with_pending w _) key).
  destruct (put_all w0 ps rand 0) as [[w1 d1]|] eqn:E1; [|done]. cbn [bind fst snd].
  destruct (set_label_all w1 m_labels _ rand d1) as [[[w2 m2] d2]|] eqn:E2; [|done].
  cbn [bind fst snd].
  destruct (payment_queue_add_all w2 pq2 rand d2) as [[w3 d3]|] eqn:E3; [|done].
  cbn [bind fst snd]. intros [= <- <- <-].
  apply (put_all_spec rand ps ps Hrand) in E1 as (t1 & -> & Hl1 & Hq1 & Hfrom1 & _ & Hget);
    [|intros k v Hin; by apply (parameters_get_small w ps)|done|by intros kh ek ev Hrow].
  apply (set_label_all_spec rand m_labels (labels_in_order m_labels) _ Hrand Hlabels)
    in E2 as (db2 & -> & -> & Hp2 & Hq2 & Hfrom2 & Hc2);
    [|intros a l; apply labels_in_order_elem|done
     |cbn [with_pending with_db m_db_dbi pending]; rewrite Hl1; by intros ah ea el Hrow].
  apply (payment_queue_add_all_spec rand pq2 pq2 Hrand) in E3
    as (t3 & -> & Hp3 & Hl3 & Hfrom3);
    [|intros tid net tx Hin; by apply (payment_queue_get2_small w pq2)|done
     |cbn [with_pending with_db m_db_dbi pending]; rewrite Hq2;
      cbn [with_pending with_db m_db_dbi pending]; rewrite Hq1;
      by intros kh et en ev Hrow].
  cbn [with_pending with_db with_wallet_key m_db_dbi pending m_wallet_key] in *.
  exists ps, pq2. split; [done|]. split; [done|].
  split; [unfold get_salt, put_salt; by rewrite lookup_insert_eq|].
  split; [done|]. split.
  { intros k v Hin. specialize (Hget k v Hin). unfold get in *.
    cbn [commit with_pending with_db with_wallet_key m_db_dbi pending m_wallet_key] in *.
    by rewrite Hp3, Hp2. }
  cbn [commit with_pending with_db with_wallet_key m_db_dbi pending m_wallet_key
       m_wallet_records m_records_map m_used_address_count committed commits].
  split; [by rewrite Hp3, Hp2|]. split.
  { rewrite Hl3. intros ah ea el Hrow.
    destruct (Hfrom2 ah ea el Hrow) as (a & l & Hin & Hdec).
    exists a, l. split; [|done].
    apply elem_of_map_to_list. by apply labels_in_order_elem. }
  split; [done|]. do 5 (split; [done|]).
  rewrite Hc2, length_labels_in_order. subst w0. cbn. lia.
Qed.

(** *** Exporting the wallet *)

(** Modelled from the spec: [Wallet::is_view_only] (Wallet.hpp is not part
    of the sources at hand), "true iff the first record has no spend
    secret". *)
Definition is_view_only (w : Wallet) : result bool :=
  let* r := records_at w 0 in
  Ok (bool_decide (spend_secret_key r = zero_key)).

(** [export_wallet]: the object [other] as the call leaves it, its
    [m_labels] and its table [unencrypted].  [other] is made by the
    creating constructor, which for an empty mnemonic opens a new
    database, creates the four tables, stores the salt and derives the
    key, and is done: [open_check_create] is what opening the new file
    came to, [blank] holds the members as the base class initialises
    them, [salt] is what [crypto::generate_random_bytes] wrote. *)
Definition export_wallet (w : Wallet) (m_labels : gmap string string)
    (m_tx_derivation_seed : list byte) (blank : Wallet)
    (open_check_create : result unit) (new_password : string) (salt : list byte)
    (view_only view_outgoing_addresses : bool) (rand : nat -> list byte)
  : result (Wallet * gmap string string * gmap string (list byte)) :=
  let* _ := open_check_create in
  let unencrypted := put_salt ∅ salt in
  let tables := {| parameters := ∅; labels := ∅; payment_queue := ∅ |} in
  let other :=
    with_wallet_key
      (with_db blank {| committed := tables; pending := tables; commits := 0 |})
      (generate_chacha8_key (salt ++ as_binary_array new_password)) in
  let* is_view_only_ := is_view_only w in
  if negb is_view_only_ && view_only then
    let* other := put other "spend_key_base_public_key"
                    (public_key (m_spend_key_base w)) true (rand 0%nat) (rand 1%nat) in
    let* r0 :=
      if view_outgoing_addresses
      then let* other := put other "tx_derivation_seed" m_tx_derivation_seed true
                           (rand 2%nat) (rand 3%nat) in
           Ok (other, 4%nat)
      else Ok (other, 2%nat) in
    let* parameters_ := parameters_get w in
    let* r1 :=
      put_all r0.1
        (filter (fun p : string * list byte =>
                   p.1 <> "mnemonic"%string /\ p.1 <> "mnemonic-password"%string)
           parameters_)
        rand r0.2 in
    let* r2 := set_label_all r1.1 ∅ (labels_in_order m_labels) rand r1.2 in
    Ok (commit r2.1.1, r2.1.2, unencrypted)
  else
    let* parameters_ := parameters_get w in
    let* r1 := put_all other parameters_ rand 0 in
    let* r2 := set_label_all r1.1 ∅ (labels_in_order m_labels) rand r1.2 in
    let* pq2 := payment_queue_get2 w in
    let* r3 := payment_queue_add_all r2.1.1 pq2 rand r2.2 in
    Ok (commit r3.1, r2.1.2, unencrypted).

(** [backup (dst_name, pass)] *)
Definition backup (w : Wallet) (m_labels : gmap string string)
    (m_tx_derivation_seed : list byte) (blank : Wallet)
    (open_check_create : result unit) (pass : string) (salt : list byte)
    (rand : nat -> list byte)
  : result (Wallet * gmap string string * gmap string (list byte)) :=
  export_wallet w m_labels m_tx_derivation_seed blank open_check_create pass salt
    false false rand.

Lemma as_binary_array_inj (s1 s2 : string) :
  as_binary_array s1 = as_binary_array s2 -> s1 = s2.
Proof.
  intros H. apply (f_equal as_string) in H. unfold as_string, as_binary_array in H.
  by rewrite !Strings.String.string_of_list_byte_of_string in H.
Qed.

(** [set_label] row by row, whatever the labels are. *)
Lemma set_label_all_rows (rand : nat -> list byte) (ls0 ls : list (string * string)) :
  (forall k, length (rand k) = HASH_SIZE) ->
  (forall address label, (address, label) ∈ ls0 ->
     Z.of_nat (length (as_binary_array address)) <= 2 ^ 31 /\
     Z.of_nat (length (as_binary_array label)) <= 2 ^ 31) ->
  forall (w w' : Wallet) (m_labels m_labels' : gmap string string) (drawn drawn' : nat),
    ls ⊆ ls0 ->
    labels_from (m_wallet_key w) ls0 (labels (pending (m_db_dbi w))) ->
    set_label_all w m_labels ls rand drawn = Ok (w', m_labels', drawn') ->
    exists db' : Dbi,
      w' = with_db w db' /\
      parameters (pending db') = parameters (pending (m_db_dbi w)) /\
      payment_queue (pending db') = payment_queue (pending (m_db_dbi w)) /\
      labels_from (m_wallet_key w) ls0 (labels (pending db')).
Proof using chacha_length chacha_involutive.
  intros Hrand Hsmall.
  induction ls as [|[a l] ls IH];
    intros w w' m_labels m_labels' drawn drawn' Hsub Hfrom H.
  - injection H as <- <- <-. exists (m_db_dbi w). split; [by destruct w|done].
  - cbn [set_label_all fst snd] in H.
    assert (Hal : (a, l) ∈ ls0) by (apply Hsub; left).
    destruct (Hsmall a l Hal) as (Ha & Hl).
    unfold set_label in H.
    destruct (encrypt_data _ (rand drawn) _) as [ea|] eqn:Ea; [|done].
    destruct (encrypt_data _ (rand (S drawn)) _) as [el|] eqn:El; [|done].
    apply decrypt_encrypt_data in Ea; [|done|done].
    apply decrypt_encrypt_data in El; [|done|done].
    destruct (bool_decide (l = ""%string)); cbn [bind fst snd] in H.
    all: apply IH in H as (db' & -> & Hp & Hq & Hfrom');
      [by exists db'|intros x Hx; apply Hsub; by right|].
    all: cbn [commit with_pending with_db m_wallet_key m_db_dbi pending labels].
    all: intros ah ea' el' Hrow.
    all: destruct (decide (ah = derive_from_key (m_wallet_key w)
                                  (as_binary_array ("db_labels" +:+ a)))) as [->|Hneq].
    + by rewrite lookup_delete_eq in Hrow.
    + rewrite lookup_delete_ne in Hrow by done. exact (Hfrom ah ea' el' Hrow).
    + rewrite lookup_insert_eq in Hrow. injection Hrow as <- <-. by exists a, l.
    + rewrite lookup_insert_ne in Hrow by done. exact (Hfrom ah ea' el' Hrow).
Qed.

Lemma labels_small_sizes (m_labels : gmap string string) (address label : string) :
  labels_small m_labels -> (address, label) ∈ labels_in_order m_labels ->
  Z.of_nat (length (as_binary_array address)) <= 2 ^ 31 /\
  Z.of_nat (length (as_binary_array label)) <= 2 ^ 31.
Proof.
  intros Hsmall Hin. apply labels_in_order_elem in Hin.
  by destruct (Hsmall address label Hin) as (_ & Ha & Hl).
Qed.

Lemma labels_from_in_order (key : list byte) (m_labels : gmap string string)
    (t : gmap (list byte) (list byte * list byte)) :
  labels_from key (labels_in_order m_labels) t ->
  labels_from key (map_to_list m_labels) t.
Proof.
  intros Hfrom ah ea el Hrow.
  destruct (Hfrom ah ea el Hrow) as (a & l & Hin & Hdec).
  exists a, l. split; [|done].
  apply elem_of_map_to_list. by apply labels_in_order_elem.
Qed.

(** X21.  A view-only export carries no mnemonic.  Exporting a wallet
    that can spend with [view_only] set leaves in the new database the
    public spend key base, the derivation seed when
    [view_outgoing_addresses] is set, and every parameter but the two of
    the mnemonic, each read back by [get] under the key of the new
    password; no row of its parameters decrypts to the key ["mnemonic"]
    or ["mnemonic-password"], its payment queue is empty, its labels are
    labels of the wallet, and all of it is committed. *)
Theorem export_wallet_drops_mnemonic (w other : Wallet)
    (m_labels m_labels' : gmap string string) (m_tx_derivation_seed : list byte)
    (blank : Wallet) (open_check_create : result unit) (new_password : string)
    (salt : list byte) (view_outgoing_addresses : bool) (rand : nat -> list byte)
    (unencrypted' : gmap string (list byte)) :
  (forall k, length (rand k) = HASH_SIZE) ->
  blobs_small (pending (m_db_dbi w)) -> labels_small m_labels ->
  length (public_key (m_spend_key_base w)) = KEY_SIZE ->
  length m_tx_derivation_seed = HASH_SIZE ->
  is_view_only w = Ok false ->
  export_wallet w m_labels m_tx_derivation_seed blank open_check_create new_password
    salt true view_outgoing_addresses rand = Ok (other, m_labels', unencrypted') ->
  exists ps : list (string * list byte),
    parameters_get w = Ok ps /\
    get_salt unencrypted' = Ok salt /\
    m_wallet_key other = generate_chacha8_key (salt ++ as_binary_array new_password) /\
    get other "spend_key_base_public_key" = Ok (Some (public_key (m_spend_key_base w))) /\
    (view_outgoing_addresses = true ->
     get other "tx_derivation_seed" = Ok (Some m_tx_derivation_seed)) /\
    (forall k v, (k, v) ∈ ps -> k <> "mnemonic"%string ->
       k <> "mnemonic-password"%string -> get other k = Ok (Some v)) /\
    (forall kh ek ev k,
       parameters (committed (m_db_dbi other)) !! kh = Some (ek, ev) ->
       decrypt_data (m_wallet_key other) ek = Ok (as_binary_array k) ->
       k <> "mnemonic"%string /\ k <> "mnemonic-password"%string) /\
    payment_queue (committed (m_db_dbi other)) = ∅ /\
    labels_from (m_wallet_key other) (map_to_list m_labels)
      (labels (committed (m_db_dbi other))) /\
    committed (m_db_dbi other) = pending (m_db_dbi other).
Proof using chacha_length chacha_involutive select_rows_all.
  intros Hrand Hblobs Hlabels Hpk Hseed Hvo. unfold export_wallet.
  destruct open_check_create as [[]|]; [|done]. cbn [bind].
  rewrite Hvo. cbn [bind negb andb].
  set (key := generate_chacha8_key (salt ++ as_binary_array new_password)).
  set (other0 := with_wallet_key _ key).
  set (pk := public_key (m_spend_key_base w)) in *.
  destruct (put other0 _ pk true _ _) as [o1|] eqn:E1; [|done]. cbn [bind].
  set (prefix := if view_outgoing_addresses
                 then [("tx_derivation_seed"%string, m_tx_derivation_seed)] else []).
  intros H.
  assert (exists ps r1,
            parameters_get w = Ok ps /\
            put_all other0
              (("spend_key_base_public_key"%string, pk) :: prefix
               ++ filter (fun p : string * list byte =>
                            p.1 <> "mnemonic"%string /\ p.1 <> "mnemonic-password"%string)
                    ps) rand 0 = Ok r1 /\
            bind (set_label_all r1.1 ∅ (labels_in_order m_labels) rand r1.2)
              (fun r2 => Ok (commit r2.1.1, r2.1.2, put_salt ∅ salt))
            = Ok (other, m_labels', unencrypted')) as (ps & r1 & Eps & Er1 & H').
  { subst prefix. destruct view_outgoing_addresses.
    - destruct (put o1 _ m_tx_derivation_seed true _ _) as [o2|] eqn:E2; [|done].
      cbn [bind fst snd] in H.
      destruct (parameters_get w) as [ps|]; [|done]. cbn [bind] in H.
      destruct (put_all o2 _ rand 4) as [r1|] eqn:Er1; [|done]. cbn [bind] in H.
      exists ps, r1. split; [done|]. split; [|done].
      cbn [put_all app fst snd]. rewrite E1. cbn [bind]. by rewrite E2.
    - cbn [bind fst snd] in H.
      destruct (parameters_get w) as [ps|]; [|done]. cbn [bind] in H.
      destruct (put_all o1 _ rand 2) as [r1|] eqn:Er1; [|done]. cbn [bind] in H.
      exists ps, r1. split; [done|]. split; [|done].
      cbn [put_all app fst snd]. by rewrite E1. }
  clear H E1 o1. destruct r1 as [w1 d1]. cbn [fst snd] in H'.
  set (filtered := filter _ ps) in *.
  set (L := _ :: prefix ++ filtered) in *.
  destruct (set_label_all w1 ∅ _ rand d1) as [[[w2 m2] d2]|] eqn:E2; [|done].
  cbn [bind fst snd] in H'. injection H' as <- <- <-.
  assert (HL : forall k v, (k, v) ∈ L ->
                 Z.of_nat (length (as_binary_array k)) <= 2 ^ 31 /\
                 Z.of_nat (length v) <= 2 ^ 31).
  { intros k v Hin. subst L. apply elem_of_cons in Hin as [[= -> ->]|Hin].
    - split; [vm_compute; discriminate|]. rewrite Hpk. vm_compute. discriminate.
    - apply elem_of_app in Hin as [Hin|Hin].
      + subst prefix. destruct view_outgoing_addresses; [|by apply elem_of_nil in Hin].
        apply list_elem_of_singleton in Hin as [= -> ->].
        split; [vm_compute; discriminate|]. rewrite Hseed. vm_compute. discriminate.
      + subst filtered. apply list_elem_of_filter in Hin as [_ Hin].
        by apply (parameters_get_small w ps). }
  assert (HLk : forall k v, (k, v) ∈ L ->
                  k <> "mnemonic"%string /\ k <> "mnemonic-password"%string).
  { intros k v Hin. subst L. apply elem_of_cons in Hin as [[= -> ->]|Hin]; [done|].
    apply elem_of_app in Hin as [Hin|Hin].
    - subst prefix. destruct view_outgoing_addresses; [|by apply elem_of_nil in Hin].
      by apply list_elem_of_singleton in Hin as [= -> ->].
    - subst filtered. by apply list_elem_of_filter in Hin as [Hk _]. }
  apply (put_all_spec rand L L Hrand HL) in Er1
    as (t1 & -> & Hl1 & Hq1 & Hfrom1 & _ & Hget);
    [|done|by intros kh ek ev Hrow].
  apply (set_label_all_rows rand (labels_in_order m_labels) _ Hrand) in E2
    as (db2 & -> & Hp2 & Hq2 & Hfrom2);
    [|intros a l Hin; by apply (labels_small_sizes m_labels)|done
     |cbn [with_pending with_db m_db_dbi pending]; rewrite Hl1; by intros ah ea el Hrow].
  assert (Hget' : forall k v, (k, v) ∈ L ->
                    get (commit (with_db (with_pending other0 t1) db2)) k = Ok (Some v)).
  { intros k v Hin. specialize (Hget k v Hin). unfold get in *.
    cbn [commit with_pending with_db with_wallet_key m_db_dbi pending m_wallet_key] in *.
    by rewrite Hp2. }
  exists ps. split; [done|].
  split; [unfold get_salt, put_salt; by rewrite lookup_insert_eq|].
  split; [done|]. split; [apply Hget'; left|]. split.
  { intros ->. apply Hget'. right. apply elem_of_app. left. left. }
  split.
  { intros k v Hin Hk1 Hk2. apply Hget'. right. apply elem_of_app. right.
    subst filtered. by apply list_elem_of_filter. }
  cbn [commit with_pending with_db with_wallet_key m_db_dbi pending m_wallet_key
       committed] in *.
  split.
  { intros kh ek ev k Hrow Hdec. rewrite Hp2 in Hrow.
    destruct (Hfrom1 kh ek ev Hrow) as (k' & v' & Hin & Hdk & _).
    rewrite Hdec in Hdk. injection Hdk as Hdk. apply as_binary_array_inj in Hdk as ->.
    by apply (HLk k' v'). }
  split; [by rewrite Hq2, Hq1|].
  split; [by apply labels_from_in_order|done].
Qed.

(** What a full copy of [w] holds: the salt and the key of the new
    password, every parameter of [w] readable by [get], and in the three
    tables only rows that decrypt under the new key to a parameter, a
    label, a queued transaction of [w], everything committed. *)
Definition full_copy (w : Wallet) (m_labels : gmap string string) (password : string)
    (salt : list byte) (other : Wallet) (unencrypted' : gmap string (list byte))
  : Prop :=
  exists (ps : list (string * list byte)) (pq2 : list (list byte * string * list byte)),
    parameters_get w = Ok ps /\ payment_queue_get2 w = Ok pq2 /\
    get_salt unencrypted' = Ok salt /\
    m_wallet_key other = generate_chacha8_key (salt ++ as_binary_array password) /\
    (forall k v, (k, v) ∈ ps -> get other k = Ok (Some v)) /\
    parameters_from (m_wallet_key other) ps (parameters (committed (m_db_dbi other))) /\
    labels_from (m_wallet_key other) (map_to_list m_labels)
      (labels (committed (m_db_dbi other))) /\
    payment_queue_from (m_wallet_key other) pq2
      (payment_queue (committed (m_db_dbi other))) /\
    committed (m_db_dbi other) = pending (m_db_dbi other).

(** X22.  A full export is a full copy.  [export_wallet] without
    [view_only], or of a wallet that is view-only already, and [backup],
    which is such an export, leave a database that holds the new salt,
    is keyed by the new password, gives back every parameter of the
    wallet -- the mnemonic with the others -- and has in its tables only
    rows that decrypt under the new key to a parameter, a label or a
    queued transaction of the wallet; all of it is committed. *)
Theorem export_wallet_full_copy (w other : Wallet)
    (m_labels m_labels' : gmap string string) (m_tx_derivation_seed : list byte)
    (blank : Wallet) (open_check_create : result unit) (new_password : string)
    (salt : list byte) (view_only view_outgoing_addresses : bool)
    (rand : nat -> list byte) (unencrypted' : gmap string (list byte)) :
  (forall k, length (rand k) = HASH_SIZE) ->
  blobs_small (pending (m_db_dbi w)) -> labels_small m_labels ->
  (export_wallet w m_labels m_tx_derivation_seed blank open_check_create new_password
     salt view_only view_outgoing_addresses rand = Ok (other, m_labels', unencrypted') ->
   view_only = false \/ is_view_only w = Ok true ->
   full_copy w m_labels new_password salt other unencrypted') /\
  (backup w m_labels m_tx_derivation_seed blank open_check_create new_password
     salt rand = Ok (other, m_labels', unencrypted') ->
   full_copy w m_labels new_password salt other unencrypted').
Proof using chacha_length chacha_involutive select_rows_all select_queue_rows_all.
  intros Hrand Hblobs Hlabels.
  assert (Hgen : forall view_only view_outgoing_addresses,
            export_wallet w m_labels m_tx_derivation_seed blank open_check_create
              new_password salt view_only view_outgoing_addresses rand
            = Ok (other, m_labels', unencrypted') ->
            view_only = false \/ is_view_only w = Ok true ->
            full_copy w m_labels new_password salt other unencrypted').
  { clear view_only view_outgoing_addresses.
    intros view_only view_outgoing_addresses H Hcase. unfold export_wallet in H.
    destruct open_check_create as [[]|]; [|done]. cbn [bind] in H.
    destruct (is_view_only w) as [vo|] eqn:Evo; [|done]. cbn [bind] in H.
    replace (negb vo && view_only) with false in H
      by (destruct Hcase as [->|[= ->]]; [by rewrite andb_false_r|done]).
    set (key := generate_chacha8_key (salt ++ as_binary_array new_password)) in H.
    set (other0 := with_wallet_key _ key) in H.
    destruct (parameters_get w) as [ps|] eqn:Eps; [|done]. cbn [bind] in H.
    destruct (put_all other0 ps rand 0) as [[w1 d1]|] eqn:E1; [|done].
    cbn [bind fst snd] in H.
    destruct (set_label_all w1 ∅ _ rand d1) as [[[w2 m2] d2]|] eqn:E2; [|done].
    cbn [bind fst snd] in H.
    destruct (payment_queue_get2 w) as [pq2|] eqn:Epq; [|done]. cbn [bind] in H.
    destruct (payment_queue_add_all w2 pq2 rand d2) as [[w3 d3]|] eqn:E3; [|done].
    cbn [bind fst snd] in H. injection H as <- <- <-.
    apply (put_all_spec rand ps ps Hrand) in E1
      as (t1 & -> & Hl1 & Hq1 & Hfrom1 & _ & Hget);
      [|intros k v Hin; by apply (parameters_get_small w ps)|done
       |by intros kh ek ev Hrow].
    apply (set_label_all_rows rand (labels_in_order m_labels) _ Hrand) in E2
      as (db2 & -> & Hp2 & Hq2 & Hfrom2);
      [|intros a l Hin; by apply (labels_small_sizes m_labels)|done
       |cbn [with_pending with_db m_db_dbi pending]; rewrite Hl1;
        by intros ah ea el Hrow].
    apply (payment_queue_add_all_spec rand pq2 pq2 Hrand) in E3
      as (t3 & -> & Hp3 & Hl3 & Hfrom3);
      [|intros tid net tx Hin; by apply (payment_queue_get2_small w pq2)|done
       |cbn [with_pending with_db m_db_dbi pending]; rewrite Hq2;
        cbn [with_pending with_db m_db_dbi pending]; rewrite Hq1;
        by intros kh et en ev Hrow].
    cbn [with_pending with_db with_wallet_key m_db_dbi pending m_wallet_key] in *.
    exists ps, pq2. split; [done|]. split; [done|].
    split; [unfold get_salt, put_salt; by rewrite lookup_insert_eq|].
    split; [done|]. split.
    { intros k v Hin. specialize (Hget k v Hin). unfold get in *.
      cbn [commit with_pending with_db with_wallet_key m_db_dbi pending m_wallet_key]
        in *.
      by rewrite Hp3, Hp2. }
    cbn [commit with_pending with_db with_wallet_key m_db_dbi pending m_wallet_key
         committed].
    split; [by rewrite Hp3, Hp2|].
    split; [rewrite Hl3; by apply labels_from_in_order|done]. }
  split; [apply Hgen|].
  intros H. apply (Hgen false false); [exact H|by left].
Qed.

End Storage.

Lemma encrypt_decrypt_roundtrip_witness :
  exists (enc : list byte) (k : Z),
    encrypt_data id xor_cipher 8 [x2a] (zeros 32) [x68; x69] = Some enc /\
    decrypt_data id xor_cipher 8 [x2a] enc = Ok [x68; x69] /\
    Z.of_nat (length enc) = 2 ^ k /\ 256 <= Z.of_nat (length enc) /\
    Z.of_nat (length [x68; x69]) + EXTRA_SIZE <= 2 ^ k /\
    (k = 8 \/ 2 ^ (k - 1) < Z.of_nat (length [x68; x69]) + EXTRA_SIZE).
Proof.
  apply (encrypt_decrypt_roundtrip id xor_cipher 8
           xor_cipher_length xor_cipher_involutive [x2a] (zeros 32) [x68; x69]).
  - reflexivity.
  - simpl. lia.
Defined.

Lemma pow2_plus_32_ne_256 (k : nat) : 256 <> 2 ^ Z.of_nat k + 32.
Proof.
  destruct (Nat.lt_ge_cases k 8) as [Hlt|Hge].
  - do 8 (destruct k as [|k]; [simpl; lia|]). lia.
  - assert (2 ^ 8 <= 2 ^ Z.of_nat k) by (apply Z.pow_le_mono_r; lia).
    change (2 ^ 8) with 256 in *. lia.
Qed.

(** C1 as stated fails on the empty payload: the encrypted value is 256
    bytes long, and 256 is not a power of two plus 32. *)
Lemma encrypt_data_length_not_pow2_plus_32 :
  exists enc : list byte,
    encrypt_data id xor_cipher 8 [x2a] (zeros 32) [] = Some enc /\
    length enc = 256%nat /\
    ~ (exists k : nat, Z.of_nat (length enc) = 2 ^ Z.of_nat k + 32).
Proof.
  eexists. split; [vm_compute; reflexivity|].
  split; [reflexivity|].
  intros [k Hk]. apply (pow2_plus_32_ne_256 k). exact Hk.
Qed.

(** *** A small HD wallet

    Key pair number [i] of the toy generator is the number [i + 1] in
    little-endian bytes, the hash is the identity, four threads. *)

Definition toy_generate_hd_spendkeys (base : KeyPair) (view_seed : list byte)
    (counter : Z) (n : nat) : list KeyPair :=
  map (fun i : nat =>
         {| public_key := uint_le_to_bytes 32 (counter + Z.of_nat i + 1);
            secret_key := uint_le_to_bytes 32 (2 * (counter + Z.of_nat i) + 1) |})
      (seq 0 n).
Definition toy_to_binary (z : Z) : list byte := uint_le_to_bytes 8 z.
Definition toy_hardware_concurrency : Z := 4.
Definition toy_TIMESTAMP_MAX : Z := 2 ^ 32 - 1.

Lemma toy_generate_hd_spendkeys_length (base : KeyPair) (view_seed : list byte)
    (counter : Z) (n : nat) :
  length (toy_generate_hd_spendkeys base view_seed counter n) = n.
Proof. unfold toy_generate_hd_spendkeys. by rewrite length_map, length_seq. Qed.

Lemma toy_to_binary_length (z : Z) : Z.of_nat (length (toy_to_binary z)) <= 2 ^ 31.
Proof. unfold toy_to_binary. rewrite length_uint_le_to_bytes. lia. Qed.

Definition empty_tables : Tables :=
  {| parameters := ∅; labels := ∅; payment_queue := ∅ |}.

(** A wallet with one used address, no record materialized yet, and one
    payment-queue row added since the last commit. *)
Definition toy_wallet : Wallet :=
  {| m_wallet_key := [x2a];
     m_spend_key_base := {| public_key := zeros 32; secret_key := zeros 32 |};
     m_wallet_records := [];
     m_records_map := ∅;
     m_used_address_count := 1;
     m_db_dbi :=
       {| committed := empty_tables;
          pending :=
            {| parameters := ∅; labels := ∅;
               payment_queue := {[ ([x01], [x02]) := ([x03], [x04], [x05]) ]} |};
          commits := 0 |} |}.

Definition toy_generate_new_addresses (sks : list SecretKey)
  : Wallet * bool * result (list WalletRecord) :=
  generate_new_addresses id xor_cipher 8 toy_generate_hd_spendkeys
    toy_hardware_concurrency toy_to_binary toy_TIMESTAMP_MAX
    toy_wallet false sks 0 0 (zeros 32) (zeros 32).

Lemma generate_new_addresses_deterministic_witness :
  exists (result tail : list WalletRecord),
    (toy_generate_new_addresses [zero_key; zero_key]).2 = Ok result /\
    m_wallet_records (toy_generate_new_addresses [zero_key; zero_key]).1.1
      = m_wallet_records toy_wallet ++ tail /\
    result = take (length [zero_key; zero_key])
               (drop (Z.to_nat (m_used_address_count toy_wallet))
                  (m_wallet_records (toy_generate_new_addresses [zero_key; zero_key]).1.1)) /\
    length result = length [zero_key; zero_key] /\
    m_used_address_count (toy_generate_new_addresses [zero_key; zero_key]).1.1
      = m_used_address_count toy_wallet + Z.of_nat (length [zero_key; zero_key]) /\
    m_used_address_count (toy_generate_new_addresses [zero_key; zero_key]).1.1
      + GENERATE_AHEAD
      <= Z.of_nat (length (m_wallet_records
                             (toy_generate_new_addresses [zero_key; zero_key]).1.1)) /\
    committed (m_db_dbi (toy_generate_new_addresses [zero_key; zero_key]).1.1)
      = pending (m_db_dbi (toy_generate_new_addresses [zero_key; zero_key]).1.1) /\
    commits (m_db_dbi (toy_generate_new_addresses [zero_key; zero_key]).1.1)
      = S (commits (m_db_dbi toy_wallet)) /\
    exists enc_key enc_value : list byte,
      parameters
        (pending (m_db_dbi (toy_generate_new_addresses [zero_key; zero_key]).1.1))
        !! derive_from_key id (m_wallet_key toy_wallet)
             (as_binary_array ("db_parameters" +:+ ADDRESS_COUNT_PREFIX))
      = Some (enc_key, enc_value) /\
      encrypt_data id xor_cipher 8 (m_wallet_key toy_wallet) (zeros 32)
        (as_binary_array ADDRESS_COUNT_PREFIX) = Some enc_key /\
      encrypt_data id xor_cipher 8 (m_wallet_key toy_wallet) (zeros 32)
        (toy_to_binary (m_used_address_count toy_wallet
                        + Z.of_nat (length [zero_key; zero_key])))
      = Some enc_value /\
      (length (zeros 32) = HASH_SIZE ->
       decrypt_data id xor_cipher 8 (m_wallet_key toy_wallet) enc_value
       = Ok (toy_to_binary (m_used_address_count toy_wallet
                            + Z.of_nat (length [zero_key; zero_key])))).
Proof.
  pose proof (generate_new_addresses_deterministic id xor_cipher 8
                xor_cipher_length xor_cipher_involutive
                toy_generate_hd_spendkeys toy_hardware_concurrency toy_to_binary
                toy_TIMESTAMP_MAX toy_generate_hd_spendkeys_length
                toy_to_binary_length toy_wallet false [zero_key; zero_key] 0 0
                (zeros 32) (zeros 32)) as H.
  cbv zeta in H. destruct H as (_ & _ & _ & H).
  apply H.
  - repeat constructor.
  - discriminate.
  - unfold toy_hardware_concurrency. lia.
  - cbn. lia.
  - cbn. unfold toy_hardware_concurrency, GENERATE_AHEAD. lia.
Defined.

(** C4 as stated fails on the empty list: the call returns without a
    commit, and the row that was pending stays uncommitted. *)
Lemma generate_new_addresses_empty_does_not_commit :
  (toy_generate_new_addresses []).2 = Ok [] /\
  commits (m_db_dbi (toy_generate_new_addresses []).1.1)
    = commits (m_db_dbi toy_wallet) /\
  committed (m_db_dbi (toy_generate_new_addresses []).1.1)
    <> pending (m_db_dbi (toy_generate_new_addresses []).1.1).
Proof.
  split; [reflexivity|]. split; [reflexivity|].
  intros H. apply (f_equal (fun t => payment_queue t !! ([x01], [x02]))) in H.
  vm_compute in H. discriminate.
Qed.

(** *** The toy wallet's database and window *)

Definition toy_select_queue_rows
    (t : gmap (list byte * list byte) (list byte * list byte * list byte))
  : list (list byte * list byte * list byte) :=
  (map_to_list t).*2.

Lemma toy_select_queue_rows_all
    (t : gmap (list byte * list byte) (list byte * list byte * list byte)) :
  toy_select_queue_rows t ≡ₚ (map_to_list t).*2.
Proof. reflexivity. Qed.

Definition toy_key_at (base : KeyPair) (view_seed : list byte) (i : Z) : KeyPair :=
  {| public_key := uint_le_to_bytes 32 (i + 1);
     secret_key := uint_le_to_bytes 32 (2 * i + 1) |}.

Lemma toy_generate_hd_spendkeys_at (base : KeyPair) (view_seed : list byte)
    (counter : Z) (n : nat) :
  toy_generate_hd_spendkeys base view_seed counter n
  = map (fun i : nat => toy_key_at base view_seed (counter + Z.of_nat i)) (seq 0 n).
Proof.
  unfold toy_generate_hd_spendkeys, toy_key_at. apply map_ext. intros i.
  f_equal; f_equal; lia.
Qed.

Definition toy_put (w : Wallet) (key : string) (value : list byte) : result Wallet :=
  put id xor_cipher 8 w key value false (zeros 32) (zeros 32).

Definition toy_put_wallet : Wallet :=
  match toy_put toy_wallet "coinname" [x62; x63; x6e] with
  | Ok w => w
  | Throw _ => toy_wallet
  end.

Lemma decrypt_data_bounds_witness :
  decrypt_data id xor_cipher 8 [x2a] (zeros 35) = Throw InvariantFailed /\
  (length [x68; x69] + 4 + HASH_SIZE <= length (zeros 32 ++ [x28; x2a; x2a; x2a; x42; x43]))%nat.
Proof.
  destruct (decrypt_data_bounds id xor_cipher 8 xor_cipher_length [x2a] (zeros 35))
    as (Hshort & _ & _).
  destruct (decrypt_data_bounds id xor_cipher 8 xor_cipher_length [x2a]
              (zeros 32 ++ [x28; x2a; x2a; x2a; x42; x43])) as (_ & _ & Hplain).
  split.
  - apply Hshort. vm_compute. lia.
  - apply Hplain. vm_compute. reflexivity.
Defined.

Lemma get_put_witness :
  get id xor_cipher 8 toy_put_wallet "coinname" = Ok (Some [x62; x63; x6e]) /\
  get_string id xor_cipher 8 toy_put_wallet "coinname"
  = Ok (Some (as_string [x62; x63; x6e])) /\
  (forall key' : string,
     derive_from_key id (m_wallet_key toy_wallet)
       (as_binary_array ("db_parameters" +:+ key'))
     <> derive_from_key id (m_wallet_key toy_wallet)
          (as_binary_array ("db_parameters" +:+ "coinname")) ->
     get id xor_cipher 8 toy_put_wallet key' = get id xor_cipher 8 toy_wallet key') /\
  committed (m_db_dbi toy_put_wallet) = committed (m_db_dbi toy_wallet) /\
  commits (m_db_dbi toy_put_wallet) = commits (m_db_dbi toy_wallet).
Proof.
  apply (get_put id xor_cipher 8 xor_cipher_length xor_cipher_involutive
           toy_wallet toy_put_wallet "coinname" [x62; x63; x6e] (zeros 32) (zeros 32) false).
  - reflexivity.
  - vm_compute. discriminate.
  - vm_compute. reflexivity.
Defined.

Definition toy_labelled : Wallet * gmap string string :=
  match set_label id xor_cipher 8 toy_wallet ∅ "addr" "mine" (zeros 32) (zeros 32) with
  | Ok r => r
  | Throw _ => (toy_wallet, ∅)
  end.

Lemma get_label_set_label_witness :
  get_label toy_labelled.2 "addr" = "mine"%string /\
  (forall address' : string,
     address' <> "addr"%string -> get_label toy_labelled.2 address' = get_label ∅ address') /\
  committed (m_db_dbi toy_labelled.1) = pending (m_db_dbi toy_labelled.1) /\
  commits (m_db_dbi toy_labelled.1) = S (commits (m_db_dbi toy_wallet)) /\
  match labels (committed (m_db_dbi toy_labelled.1))
          !! derive_from_key id (m_wallet_key toy_wallet)
               (as_binary_array ("db_labels" +:+ "addr")) with
  | None => "mine"%string = ""%string
  | Some (enc_address, enc_label) =>
      "mine"%string <> ""%string /\
      decrypt_data id xor_cipher 8 (m_wallet_key toy_wallet) enc_address
      = Ok (as_binary_array "addr") /\
      decrypt_data id xor_cipher 8 (m_wallet_key toy_wallet) enc_label
      = Ok (as_binary_array "mine")
  end.
Proof.
  apply (get_label_set_label id xor_cipher 8 xor_cipher_length xor_cipher_involutive
           toy_wallet toy_labelled.1 ∅ toy_labelled.2 "addr" "mine" (zeros 32) (zeros 32)).
  - reflexivity.
  - reflexivity.
  - vm_compute. discriminate.
  - vm_compute. discriminate.
  - vm_compute. reflexivity.
Defined.

Definition toy_queued : Wallet :=
  match payment_queue_add id xor_cipher 8 toy_wallet (zeros 32) "main" [x01; x02]
          (zeros 32) (zeros 32) (zeros 32) with
  | Ok w => w
  | Throw _ => toy_wallet
  end.

Lemma payment_queue_add_get_witness :
  (forall pq2,
     payment_queue_get2 id xor_cipher 8 toy_select_queue_rows toy_queued = Ok pq2 ->
     (zeros 32, "main"%string, [x01; x02]) ∈ pq2) /\
  (forall txs,
     payment_queue_get id xor_cipher 8 toy_select_queue_rows "main" toy_queued = Ok txs ->
     [x01; x02] ∈ txs) /\
  committed (m_db_dbi toy_queued) = committed (m_db_dbi toy_wallet) /\
  commits (m_db_dbi toy_queued) = commits (m_db_dbi toy_wallet) /\
  payment_queue (pending (m_db_dbi (payment_queue_remove id "main" toy_queued (zeros 32))))
  = delete (derive_from_key id (m_wallet_key toy_wallet)
              (as_binary_array "db_payment_queue_tid" ++ zeros 32),
            derive_from_key id (m_wallet_key toy_wallet)
              (as_binary_array ("db_payment_queue_net" +:+ "main")))
      (payment_queue (pending (m_db_dbi toy_wallet))).
Proof.
  apply (payment_queue_add_get id xor_cipher 8 xor_cipher_length xor_cipher_involutive
           toy_select_queue_rows toy_select_queue_rows_all
           toy_wallet toy_queued (zeros 32) "main" [x01; x02]
           (zeros 32) (zeros 32) (zeros 32)).
  - reflexivity.
  - reflexivity.
  - reflexivity.
  - reflexivity.
  - vm_compute. discriminate.
  - vm_compute. discriminate.
  - vm_compute. reflexivity.
Defined.

Lemma generate_ahead_by_index_witness :
  (forall size delta : Z,
     0 <= size -> 0 <= delta -> size + delta < 2 ^ 64 ->
     delta * toy_hardware_concurrency < 2 ^ 64 ->
     concat (generate_ahead_results toy_generate_hd_spendkeys toy_hardware_concurrency
               toy_TIMESTAMP_MAX toy_wallet size delta)
     = generate_ahead1 toy_generate_hd_spendkeys toy_TIMESTAMP_MAX toy_wallet size
         (Z.to_nat delta)) /\
  m_wallet_records
    (generate_ahead toy_generate_hd_spendkeys toy_hardware_concurrency
       toy_TIMESTAMP_MAX toy_wallet)
  = m_wallet_records toy_wallet
    ++ map (fun i : nat =>
              record_at_index toy_TIMESTAMP_MAX toy_key_at toy_wallet
                (Z.of_nat (length (m_wallet_records toy_wallet)) + Z.of_nat i))
         (seq 0 (Z.to_nat (m_used_address_count toy_wallet + GENERATE_AHEAD
                           - Z.of_nat (length (m_wallet_records toy_wallet))))) /\
  (records_by_index toy_TIMESTAMP_MAX toy_key_at toy_wallet ->
   forall (i : nat) (r : WalletRecord),
     m_wallet_records
       (generate_ahead toy_generate_hd_spendkeys toy_hardware_concurrency
          toy_TIMESTAMP_MAX toy_wallet) !! i = Some r ->
     r = record_at_index toy_TIMESTAMP_MAX toy_key_at toy_wallet (Z.of_nat i)).
Proof.
  apply (generate_ahead_by_index toy_generate_hd_spendkeys toy_hardware_concurrency
           toy_TIMESTAMP_MAX toy_key_at toy_generate_hd_spendkeys_at toy_wallet).
  - unfold toy_hardware_concurrency. lia.
  - cbn. lia.
  - cbn. unfold toy_hardware_concurrency, GENERATE_AHEAD. lia.
Defined.

(** A wallet whose window is full: no address used yet, [GENERATE_AHEAD]
    records, the map holding the key of the first. *)
Definition toy_window_record : WalletRecord :=
  {| spend_public_key := uint_le_to_bytes 32 1;
     spend_secret_key := uint_le_to_bytes 32 1;
     creation_timestamp := toy_TIMESTAMP_MAX |}.

Definition toy_window_wallet : Wallet :=
  {| m_wallet_key := [x2a];
     m_spend_key_base := {| public_key := zeros 32; secret_key := zeros 32 |};
     m_wallet_records := replicate (Z.to_nat GENERATE_AHEAD) toy_window_record;
     m_records_map := {[ uint_le_to_bytes 32 1 := 0%nat ]};
     m_used_address_count := 0;
     m_db_dbi := {| committed := empty_tables; pending := empty_tables; commits := 0 |} |}.

Lemma toy_window_wallet_length :
  Z.of_nat (length (m_wallet_records toy_window_wallet)) = GENERATE_AHEAD.
Proof.
  unfold toy_window_wallet. cbn [m_wallet_records].
  rewrite length_replicate. unfold GENERATE_AHEAD. lia.
Qed.

Lemma get_look_ahead_record_grows_witness :
  exists (w' : Wallet) (tail : list WalletRecord),
    get_look_ahead_record id xor_cipher 8 toy_generate_hd_spendkeys
      toy_hardware_concurrency toy_to_binary toy_TIMESTAMP_MAX
      toy_window_wallet (uint_le_to_bytes 32 1) (zeros 32) (zeros 32)
    = Ok (w', Some toy_window_record) /\
    m_used_address_count w'
    = Z.max (m_used_address_count toy_window_wallet) (Z.of_nat 0 + 1) /\
    m_wallet_records w' = m_wallet_records toy_window_wallet ++ tail /\
    m_used_address_count w' + GENERATE_AHEAD
      <= Z.of_nat (length (m_wallet_records w')) /\
    (Z.of_nat 0 + 1 <= m_used_address_count toy_window_wallet -> w' = toy_window_wallet) /\
    (m_used_address_count toy_window_wallet < Z.of_nat 0 + 1 ->
     committed (m_db_dbi w') = pending (m_db_dbi w') /\
     commits (m_db_dbi w') = S (commits (m_db_dbi toy_window_wallet)) /\
     (length (zeros 32) = HASH_SIZE ->
      get id xor_cipher 8 w' ADDRESS_COUNT_PREFIX
      = Ok (Some (toy_to_binary (Z.of_nat 0 + 1))))).
Proof.
  destruct (get_look_ahead_record_grows id xor_cipher 8 xor_cipher_length
              xor_cipher_involutive toy_generate_hd_spendkeys
              toy_hardware_concurrency toy_to_binary toy_TIMESTAMP_MAX
              toy_generate_hd_spendkeys_length toy_to_binary_length
              toy_window_wallet (uint_le_to_bytes 32 1) (zeros 32) (zeros 32))
    as [_ H].
  - unfold toy_hardware_concurrency. lia.
  - unfold toy_window_wallet. cbn [m_used_address_count]. lia.
  - rewrite toy_window_wallet_length. unfold toy_hardware_concurrency, GENERATE_AHEAD. lia.
  - rewrite toy_window_wallet_length. unfold toy_window_wallet.
    cbn [m_used_address_count]. lia.
  - apply (H 0%nat toy_window_record).
    + unfold toy_window_wallet. cbn [m_records_map]. apply lookup_singleton_eq.
    + unfold toy_window_wallet. cbn [m_wallet_records].
      apply lookup_replicate_2. unfold GENERATE_AHEAD. lia.
    + reflexivity.
Defined.

Lemma on_first_output_found_stores_witness :
  exists w' : Wallet,
    on_first_output_found id xor_cipher 8 toy_to_binary "main" 0 toy_wallet 5
      (zeros 32) (zeros 32) = Ok w' /\
    get id xor_cipher 8 w'
      (CREATION_TIMESTAMP_PREFIX +:+ WalletContainerStorage.net_append "main")
    = Ok (Some (toy_to_binary 5)) /\
    m_wallet_records w' = m_wallet_records toy_wallet /\
    m_records_map w' = m_records_map toy_wallet /\
    m_used_address_count w' = m_used_address_count toy_wallet /\
    committed (m_db_dbi w') = pending (m_db_dbi w') /\
    commits (m_db_dbi w') = S (commits (m_db_dbi toy_wallet)).
Proof.
  destruct (on_first_output_found_stores id xor_cipher 8 xor_cipher_length
              xor_cipher_involutive toy_to_binary toy_to_binary_length
              "main" 0 toy_wallet 5 (zeros 32) (zeros 32)) as [_ H].
  - reflexivity.
  - vm_compute. discriminate.
  - apply H; [reflexivity|lia].
Defined.

Definition toy_generate_address_s_v (spend : PublicKey) (view_secret : SecretKey)
  : PublicKey := rev spend.

Lemma get_record_used_only_witness :
  get_record toy_generate_address_s_v 1 (zeros 32) 1 toy_window_wallet toy_window_record
    (AccountAddressUnlinkable (uint_le_to_bytes 32 1)
       (toy_generate_address_s_v (uint_le_to_bytes 32 1) (zeros 32)) true)
  = Ok (false, toy_window_record).
Proof.
  destruct (get_record_used_only toy_generate_address_s_v 1 (zeros 32) 1
              toy_window_wallet toy_window_record) as (_ & H & _).
  apply (H _ _ _ 0%nat).
  - unfold toy_window_wallet. cbn [m_records_map]. apply lookup_singleton_eq.
  - unfold toy_window_wallet. cbn [m_used_address_count]. lia.
Defined.

(** *** A wallet with a parameter, a label and a queued transaction *)

Definition toy_select_rows (t : gmap (list byte) (list byte * list byte))
  : list (list byte * list byte) :=
  (map_to_list t).*2.

Lemma toy_select_rows_all (t : gmap (list byte) (list byte * list byte)) :
  toy_select_rows t ≡ₚ (map_to_list t).*2.
Proof. reflexivity. Qed.

Definition toy_encrypt (data : list byte) : list byte :=
  default [] (encrypt_data id xor_cipher 8 [x2a] (zeros 32) data).

Definition toy_stocked : Wallet :=
  {| m_wallet_key := [x2a];
     m_spend_key_base := {| public_key := zeros 32; secret_key := zeros 32 |};
     m_wallet_records := [];
     m_records_map := ∅;
     m_used_address_count := 1;
     m_db_dbi :=
       {| committed := empty_tables;
          pending :=
            {| parameters :=
                 {[ derive_from_key id [x2a] (as_binary_array "db_parameterscoinname")
                    := (toy_encrypt (as_binary_array "coinname"),
                        toy_encrypt [x62; x63; x6e]) ]};
               labels := ∅;
               payment_queue :=
                 {[ (derive_from_key id [x2a]
                       (as_binary_array "db_payment_queue_tid" ++ zeros 32),
                     derive_from_key id [x2a]
                       (as_binary_array "db_payment_queue_netmain"))
                    := (toy_encrypt (zeros 32),
                        toy_encrypt (as_binary_array "main"),
                        toy_encrypt [x01; x02]) ]} |};
          commits := 0 |} |}.

Definition toy_labels : gmap string string := {[ "addr"%string := "mine"%string ]}.

Definition toy_set_password
  : result (Wallet * gmap string string * gmap string (list byte)) :=
  set_password id xor_cipher 8 toy_select_rows toy_select_queue_rows id
    toy_stocked toy_labels ∅ "secret" (zeros 32) (fun _ => zeros 32).

Definition toy_repassworded : Wallet * gmap string string * gmap string (list byte) :=
  match toy_set_password with
  | Ok r => r
  | Throw _ => (toy_stocked, toy_labels, ∅)
  end.

Lemma toy_stocked_small : blobs_small (pending (m_db_dbi toy_stocked)).
Proof.
  split.
  - intros kh ek ev H. unfold toy_stocked in H.
    cbn [m_db_dbi pending parameters payment_queue] in H.
    apply lookup_singleton_Some in H as [_ [= <- <-]].
    vm_compute. split; discriminate.
  - intros kh et en ev H. unfold toy_stocked in H.
    cbn [m_db_dbi pending parameters payment_queue] in H.
    apply lookup_singleton_Some in H as [_ [= <- <- <-]].
    vm_compute. repeat split; discriminate.
Defined.

Lemma toy_labels_small : labels_small toy_labels.
Proof.
  intros address label H. unfold toy_labels in H.
  apply lookup_singleton_Some in H as [<- <-].
  split; [discriminate|]. vm_compute. split; discriminate.
Defined.

Lemma set_password_keeps_witness :
  get id xor_cipher 8 toy_repassworded.1.1 "coinname" = Ok (Some [x62; x63; x6e]) /\
  get_salt toy_repassworded.2 = Ok (zeros 32) /\
  m_wallet_key toy_repassworded.1.1 = zeros 32 ++ as_binary_array "secret" /\
  toy_repassworded.1.2 = toy_labels /\
  committed (m_db_dbi toy_repassworded.1.1) = pending (m_db_dbi toy_repassworded.1.1) /\
  commits (m_db_dbi toy_repassworded.1.1) = 2%nat.
Proof.
  destruct (set_password_keeps id xor_cipher 8 xor_cipher_length xor_cipher_involutive
              toy_select_rows toy_select_queue_rows toy_select_rows_all
              toy_select_queue_rows_all id
              toy_stocked toy_repassworded.1.1 toy_labels toy_repassworded.1.2
              ∅ toy_repassworded.2 "secret" (zeros 32) (fun _ => zeros 32))
    as (ps & pq2 & Hps & _ & Hsalt & Hkey & Hget & _ & _ & _ & Hl & _ & _ & _ & Hc & Hn).
  - reflexivity.
  - exact toy_stocked_small.
  - exact toy_labels_small.
  - vm_compute. reflexivity.
  - assert (Hps' : parameters_get id xor_cipher 8 toy_select_rows toy_stocked
                   = Ok [("coinname"%string, [x62; x63; x6e])])
      by (vm_compute; reflexivity).
    rewrite Hps' in Hps. injection Hps as <-.
    split; [apply Hget; left|]. split; [exact Hsalt|]. split; [exact Hkey|].
    split; [exact Hl|]. split; [exact Hc|]. rewrite Hn. reflexivity.
Defined.

(** *** A wallet that can spend, and its exports *)

Definition toy_spending : Wallet :=
  {| m_wallet_key := [x2a];
     m_spend_key_base := {| public_key := zeros 32; secret_key := zeros 32 |};
     m_wallet_records := [toy_window_record];
     m_records_map := {[ uint_le_to_bytes 32 1 := 0%nat ]};
     m_used_address_count := 1;
     m_db_dbi :=
       {| committed := empty_tables;
          pending :=
            {| parameters :=
                 {[ derive_from_key id [x2a] (as_binary_array "db_parametersmnemonic")
                    := (toy_encrypt (as_binary_array "mnemonic"),
                        toy_encrypt (as_binary_array "owl fox cat lion deer")) ]};
               labels := ∅;
               payment_queue :=
                 {[ (derive_from_key id [x2a]
                       (as_binary_array "db_payment_queue_tid" ++ zeros 32),
                     derive_from_key id [x2a]
                       (as_binary_array "db_payment_queue_netmain"))
                    := (toy_encrypt (zeros 32),
                        toy_encrypt (as_binary_array "main"),
                        toy_encrypt [x01; x02]) ]} |};
          commits := 0 |} |}.

Definition toy_blank : Wallet :=
  {| m_wallet_key := [];
     m_spend_key_base := {| public_key := zeros 32; secret_key := zeros 32 |};
     m_wallet_records := [];
     m_records_map := ∅;
     m_used_address_count := 1;
     m_db_dbi := {| committed := empty_tables; pending := empty_tables; commits := 0 |} |}.

Lemma toy_spending_small : blobs_small (pending (m_db_dbi toy_spending)).
Proof.
  split.
  - intros kh ek ev H. unfold toy_spending in H.
    cbn [m_db_dbi pending parameters payment_queue] in H.
    apply lookup_singleton_Some in H as [_ [= <- <-]].
    vm_compute. split; discriminate.
  - intros kh et en ev H. unfold toy_spending in H.
    cbn [m_db_dbi pending parameters payment_queue] in H.
    apply lookup_singleton_Some in H as [_ [= <- <- <-]].
    vm_compute. repeat split; discriminate.
Qed.

Definition toy_export (view_only : bool)
  : Wallet * gmap string string * gmap string (list byte) :=
  match export_wallet id xor_cipher 8 toy_select_rows toy_select_queue_rows id
          toy_spending toy_labels (zeros 32) toy_blank (Ok ()) "secret" (zeros 32)
          view_only true (fun _ => zeros 32) with
  | Ok r => r
  | Throw _ => (toy_blank, ∅, ∅)
  end.

Lemma export_wallet_drops_mnemonic_witness :
  get id xor_cipher 8 (toy_export true).1.1 "spend_key_base_public_key"
  = Ok (Some (zeros 32)) /\
  get id xor_cipher 8 (toy_export true).1.1 "tx_derivation_seed"
  = Ok (Some (zeros 32)) /\
  (forall kh ek ev k,
     parameters (committed (m_db_dbi (toy_export true).1.1)) !! kh = Some (ek, ev) ->
     decrypt_data id xor_cipher 8 (m_wallet_key (toy_export true).1.1) ek
     = Ok (as_binary_array k) ->
     k <> "mnemonic"%string /\ k <> "mnemonic-password"%string) /\
  payment_queue (committed (m_db_dbi (toy_export true).1.1)) = ∅.
Proof.
  destruct (export_wallet_drops_mnemonic id xor_cipher 8 xor_cipher_length
              xor_cipher_involutive toy_select_rows toy_select_queue_rows
              toy_select_rows_all id
              toy_spending (toy_export true).1.1 toy_labels (toy_export true).1.2
              (zeros 32) toy_blank (Ok ()) "secret" (zeros 32) true
              (fun _ => zeros 32) (toy_export true).2)
    as (ps & _ & _ & _ & Hpk & Hseed & _ & Hno & Hq & _).
  - reflexivity.
  - exact toy_spending_small.
  - exact toy_labels_small.
  - reflexivity.
  - reflexivity.
  - vm_compute. reflexivity.
  - vm_compute. reflexivity.
  - split; [exact Hpk|]. split; [by apply Hseed|]. split; [exact Hno|exact Hq].
Defined.

Lemma export_wallet_full_copy_witness :
  full_copy id xor_cipher 8 toy_select_rows toy_select_queue_rows id
    toy_spending toy_labels "secret" (zeros 32) (toy_export false).1.1 (toy_export false).2.
Proof.
  destruct (export_wallet_full_copy id xor_cipher 8 xor_cipher_length
              xor_cipher_involutive toy_select_rows toy_select_queue_rows
              toy_select_rows_all toy_select_queue_rows_all id
              toy_spending (toy_export false).1.1 toy_labels (toy_export false).1.2
              (zeros 32) toy_blank (Ok ()) "secret" (zeros 32) false true
              (fun _ => zeros 32) (toy_export false).2) as [H _].
  - reflexivity.
  - exact toy_spending_small.
  - exact toy_labels_small.
  - apply H; [vm_compute; reflexivity|by left].
Defined.

(** ** Mnemonic generation *)

(** Modelled from the spec: [common::BITS_PER_WORD] (common/Words.hpp is not
    part of the sources at hand); the dictionary is "a 2^11 table", a word
    stands for 11 bits. *)
Definition BITS_PER_WORD : Z := 11.

(** No object is larger than [PTRDIFF_MAX] bytes: a [new size_t[n]] that
    asks for more throws. *)
Definition PTRDIFF_MAX : Z := 2 ^ 63 - 1.

Section Mnemonic.

(** The word tables of common/Words.hpp and the two CRC32 steps of
    common/CRC32.hpp.  [word_ptrs i] is the offset of word [i] in
    [raw_words] ([word_ptrs WORDS_COUNT] is the end of the last word) and
    [words_bylen l] is the offset in [word_crc32_adj] where the words of
    length [WORDS_MIN_LEN + l] end. *)
Variable WORDS_COUNT WORDS_MIN_LEN WORDS_MAX_LEN : nat.
Variable raw_words : list byte.
Variable word_ptrs : nat -> nat.
Variable word_crc32_adj : nat -> Z.
Variable words_bylen : nat -> nat.
Variable crc32_step_zero crc32_reverse_step_zero : Z -> Z.

(** [p = word_ptrs[j]; p != word_ptrs[j + 1]; p++] runs this many times. *)
Definition word_len (j : nat) : nat := (word_ptrs (S j) - word_ptrs j)%nat.

(** [std::string (word_ptrs[j], word_ptrs[j + 1])] *)
Definition word (j : nat) : list byte := slice raw_words (word_ptrs j) (word_len j).

(** The running CRC32 after one more word: as many zero steps as the word
    is long, then the adjustment of the word. *)
Definition crc32_add_word (crc : Z) (j : nat) : Z :=
  Z.lxor (Nat.iter (word_len j) crc32_step_zero crc) (word_crc32_adj j).

(** The CRC32 of a phrase, word after word from 0. *)
Definition words_crc32 (ids : list nat) : Z := foldl crc32_add_word 0 ids.

(** [last_word]: for every word the CRC32 that has to precede it. *)
Definition last_word_table (version : Z) : gmap Z nat :=
  foldl (fun (m : gmap Z nat) (i : nat) =>
           <[Nat.iter (word_len i) crc32_reverse_step_zero
               (Z.lxor version (word_crc32_adj i)) := i]> m)
        ∅ (seq 0 WORDS_COUNT).

(** [for (; adj2 != words_bylen[l2]; adj2++)] over the indices [js]. *)
Fixpoint find_last_word (last_word : gmap Z nat) (crc32_prefix2 : Z) (js : list nat)
  : option (nat * nat) :=
  match js with
  | [] => None
  | adj2 :: js' =>
      match last_word !! Z.lxor crc32_prefix2 (word_crc32_adj adj2) with
      | Some it => Some (adj2, it)
      | None => find_last_word last_word crc32_prefix2 js'
      end
  end.

(** [for (size_t l2 = 0;; l2++)], with [n] lengths still to come after
    [l2]. *)
Fixpoint scan_second (last_word : gmap Z nat) (n l2 adj2 : nat) (crc32_prefix2 : Z)
  : option (nat * nat) :=
  match find_last_word last_word crc32_prefix2
          (seq adj2 (words_bylen l2 - adj2)) with
  | Some found => Some found
  | None =>
      match n with
      | O => None
      | S n' =>
          scan_second last_word n' (S l2) (words_bylen l2)
            (crc32_step_zero crc32_prefix2)
      end
  end.

(** [for (; adj1 != words_bylen[l1]; adj1++)] over the indices [js]. *)
Fixpoint find_first_word (last_word : gmap Z nat) (crc32_prefix : Z) (js : list nat)
  : option (nat * nat * nat) :=
  match js with
  | [] => None
  | adj1 :: js' =>
      let crc32_prefix2 :=
        Nat.iter WORDS_MIN_LEN crc32_step_zero
          (Z.lxor crc32_prefix (word_crc32_adj adj1)) in
      match scan_second last_word (WORDS_MAX_LEN - WORDS_MIN_LEN) 0 0 crc32_prefix2 with
      | Some (adj2, it) => Some (adj1, adj2, it)
      | None => find_first_word last_word crc32_prefix js'
      end
  end.

(** [for (size_t l1 = 0;; l1++)] *)
Fixpoint scan_first (last_word : gmap Z nat) (n l1 adj1 : nat) (crc32_prefix : Z)
  : option (nat * nat * nat) :=
  match find_first_word last_word crc32_prefix
          (seq adj1 (words_bylen l1 - adj1)) with
  | Some found => Some found
  | None =>
      match n with
      | O => None
      | S n' =>
          scan_first last_word n' (S l1) (words_bylen l1)
            (crc32_step_zero crc32_prefix)
      end
  end.

(** The prefix of one turn of [while (true)]: [rand k] is the value of the
    [k]-th call of [crypto::rand<size_t> ()]. *)
Definition prefix_ids (rand : nat -> Z) (drawn words_in_prefix : nat) : list nat :=
  map (fun i : nat => Z.to_nat (rand (drawn + i)%nat mod Z.of_nat WORDS_COUNT))
      (seq 0 words_in_prefix).

Definition attempt (last_word : gmap Z nat) (rand : nat -> Z)
    (drawn words_in_prefix : nat) : option (list nat) :=
  let word_ids := prefix_ids rand drawn words_in_prefix in
  let crc32_prefix := foldl crc32_add_word 0 word_ids in
  let crc32_prefix := Nat.iter WORDS_MIN_LEN crc32_step_zero crc32_prefix in
  match scan_first last_word (WORDS_MAX_LEN - WORDS_MIN_LEN) 0 0 crc32_prefix with
  | Some (adj1, adj2, it) => Some (word_ids ++ [adj1; adj2; it])
  | None => None
  end.

(** [while (true)], for at most [turns] turns. *)
Fixpoint search (last_word : gmap Z nat) (rand : nat -> Z) (words_in_prefix : nat)
    (turns drawn : nat) : option (list nat) :=
  match turns with
  | O => None
  | S turns' =>
      match attempt last_word rand drawn words_in_prefix with
      | Some word_ids => Some word_ids
      | None =>
          search last_word rand words_in_prefix turns' (drawn + words_in_prefix)
      end
  end.

(** The words of [word_ids], a space between two. *)
Definition phrase (word_ids : list nat) : list byte :=
  match word_ids with
  | [] => []
  | word0 :: rest => word word0 ++ concat (map (fun j => " "%byte :: word j) rest)
  end.

(** [(bits - 1) / BITS_PER_WORD + 1] in [size_t]. *)
Definition words_in_prefix_of (bits : Z) : Z :=
  wrap64 (wrap64 (bits - 1) / BITS_PER_WORD + 1).

(** [generate_mnemonic (bits, version)]: [Throw NoReturn] when the loop is
    still running after [turns] turns. *)
Definition generate_mnemonic (bits version : Z) (rand : nat -> Z) (turns : nat)
  : result (list byte) :=
  let last_word := last_word_table version in
  let words_in_prefix := words_in_prefix_of bits in
  let words_total := wrap64 (words_in_prefix + 3) in
  if words_total * 8 >? PTRDIFF_MAX then Throw BadAlloc
  else
    match search last_word rand (Z.to_nat words_in_prefix) turns 0 with
    | Some word_ids => Ok (phrase word_ids)
    | None => Throw NoReturn
    end.

(** *** What the tables are assumed to satisfy

    The reverse step undoes the zero step on 32-bit values; the
    adjustments are 32-bit values; [word_crc32_adj] lists the words by
    increasing length, [words_bylen l] closing the words of length
    [WORDS_MIN_LEN + l], the last of them at [WORDS_COUNT] or before. *)
Hypothesis crc32_step_reverse :
  forall x, 0 <= x < 2 ^ 32 -> crc32_step_zero (crc32_reverse_step_zero x) = x.
Hypothesis crc32_reverse_range :
  forall x, 0 <= x < 2 ^ 32 -> 0 <= crc32_reverse_step_zero x < 2 ^ 32.
Hypothesis word_crc32_adj_range :
  forall j, 0 <= word_crc32_adj j < 2 ^ 32.
Hypothesis WORDS_COUNT_pos : (0 < WORDS_COUNT)%nat.

Definition bucket_start (l : nat) : nat :=
  match l with
  | O => 0%nat
  | S l' => words_bylen l'
  end.

Hypothesis words_bylen_length :
  forall l j, (l <= WORDS_MAX_LEN - WORDS_MIN_LEN)%nat ->
    (bucket_start l <= j < words_bylen l)%nat ->
    word_len j = (WORDS_MIN_LEN + l)%nat.
Hypothesis words_bylen_mono :
  forall l, (l < WORDS_MAX_LEN - WORDS_MIN_LEN)%nat ->
    (words_bylen l <= words_bylen (S l))%nat.
Hypothesis words_bylen_end :
  (words_bylen (WORDS_MAX_LEN - WORDS_MIN_LEN) <= WORDS_COUNT)%nat.

(** [lia] on the goal and the local facts only. *)
Ltac arith := try clear words_bylen_end; try clear WORDS_COUNT_pos; lia.

Lemma iter_reverse_range (n : nat) (x : Z) :
  0 <= x < 2 ^ 32 -> 0 <= Nat.iter n crc32_reverse_step_zero x < 2 ^ 32.
Proof using crc32_reverse_range.
  intros Hx. induction n as [|n IH]; [done|].
  cbn [Nat.iter nat_rect]. by apply crc32_reverse_range.
Qed.

Lemma iter_step_reverse (n : nat) (x : Z) :
  0 <= x < 2 ^ 32 ->
  Nat.iter n crc32_step_zero (Nat.iter n crc32_reverse_step_zero x) = x.
Proof using crc32_step_reverse crc32_reverse_range.
  intros Hx. induction n as [|n IH]; [done|].
  rewrite Nat.iter_succ_r. cbn [Nat.iter nat_rect].
  rewrite crc32_step_reverse by (by apply iter_reverse_range). exact IH.
Qed.

Lemma foldl_insert_lookup (f : nat -> Z) (l : list nat) :
  forall (m : gmap Z nat) (key : Z) (c : nat),
    foldl (fun (m : gmap Z nat) (i : nat) => <[f i := i]> m) m l !! key = Some c ->
    (c ∈ l /\ key = f c) \/ m !! key = Some c.
Proof.
  induction l as [|x l IH]; intros m key c H; cbn [foldl] in H; [by right|].
  apply IH in H as [[Hin Hk]|H].
  - left. split; [by right|done].
  - destruct (decide (f x = key)) as [<-|Hne].
    + rewrite lookup_insert_eq in H. injection H as <-. left. split; [left|done].
    + rewrite lookup_insert_ne in H by done. by right.
Qed.

Lemma last_word_table_lookup (version key : Z) (c : nat) :
  last_word_table version !! key = Some c ->
  (c < WORDS_COUNT)%nat /\
  key = Nat.iter (word_len c) crc32_reverse_step_zero
          (Z.lxor version (word_crc32_adj c)).
Proof.
  unfold last_word_table. intros H.
  apply (foldl_insert_lookup
           (fun i => Nat.iter (word_len i) crc32_reverse_step_zero
                       (Z.lxor version (word_crc32_adj i)))) in H
    as [[Hin Hk]|H]; [|by rewrite lookup_empty in H].
  apply elem_of_seq in Hin. split; [arith|done].
Qed.

Lemma find_last_word_found (last_word : gmap Z nat) (crc : Z) (js : list nat)
    (b c : nat) :
  find_last_word last_word crc js = Some (b, c) ->
  b ∈ js /\ last_word !! Z.lxor crc (word_crc32_adj b) = Some c.
Proof.
  induction js as [|j js IH]; [done|]. cbn [find_last_word].
  destruct (last_word !! Z.lxor crc (word_crc32_adj j)) as [it|] eqn:E.
  - intros [= <- <-]. split; [left|done].
  - intros H. apply IH in H as [Hin Hl]. split; [by right|done].
Qed.

Lemma scan_second_found (last_word : gmap Z nat) (n : nat) :
  forall (l2 : nat) (crc : Z) (b c : nat),
    scan_second last_word n l2 (bucket_start l2) crc = Some (b, c) ->
    exists l : nat,
      (l2 <= l <= l2 + n)%nat /\ (bucket_start l <= b < words_bylen l)%nat /\
      last_word !! Z.lxor (Nat.iter (l - l2) crc32_step_zero crc) (word_crc32_adj b)
        = Some c.
Proof.
  induction n as [|n IH]; intros l2 crc b c H; cbn [scan_second] in H.
  all: destruct (find_last_word _ _ _) as [[b' c']|] eqn:E; [simplify_eq|].
  all: try (apply find_last_word_found in E as [Hin Hl];
            apply elem_of_seq in Hin; exists l2;
            rewrite Nat.sub_diag; repeat split; [arith..|done]).
  - done.
  - change (words_bylen l2) with (bucket_start (S l2)) in H.
    apply IH in H as (l & Hl & Hb & Hfound).
    exists l. split; [arith|]. split; [done|].
    replace (l - l2)%nat with (S (l - S l2)) by arith.
    by rewrite Nat.iter_succ_r.
Qed.

Lemma find_first_word_found (last_word : gmap Z nat) (crc : Z) (js : list nat)
    (a b c : nat) :
  find_first_word last_word crc js = Some (a, b, c) ->
  a ∈ js /\
  scan_second last_word (WORDS_MAX_LEN - WORDS_MIN_LEN) 0 0
    (Nat.iter WORDS_MIN_LEN crc32_step_zero (Z.lxor crc (word_crc32_adj a)))
  = Some (b, c).
Proof.
  induction js as [|j js IH]; [done|]. cbn [find_first_word].
  destruct (scan_second last_word _ 0 0
              (Nat.iter _ _ (Z.lxor crc (word_crc32_adj j)))) as [[b' c']|] eqn:E.
  - intros H. simplify_eq. split; [left|done].
  - intros H. apply IH in H as [Hin Hs]. split; [by right|done].
Qed.

Lemma scan_first_found (last_word : gmap Z nat) (n : nat) :
  forall (l1 : nat) (crc : Z) (a b c : nat),
    scan_first last_word n l1 (bucket_start l1) crc = Some (a, b, c) ->
    exists l : nat,
      (l1 <= l <= l1 + n)%nat /\ (bucket_start l <= a < words_bylen l)%nat /\
      scan_second last_word (WORDS_MAX_LEN - WORDS_MIN_LEN) 0 0
        (Nat.iter WORDS_MIN_LEN crc32_step_zero
           (Z.lxor (Nat.iter (l - l1) crc32_step_zero crc) (word_crc32_adj a)))
      = Some (b, c).
Proof.
  induction n as [|n IH]; intros l1 crc a b c H; cbn [scan_first] in H.
  all: destruct (find_first_word _ _ _) as [[[a' b'] c']|] eqn:E; [simplify_eq|].
  all: try (apply find_first_word_found in E as [Hin Hs];
            apply elem_of_seq in Hin; exists l1;
            rewrite Nat.sub_diag; repeat split; [arith..|done]).
  - done.
  - change (words_bylen l1) with (bucket_start (S l1)) in H.
    apply IH in H as (l & Hl & Hb & Hfound).
    exists l. split; [arith|]. split; [done|].
    replace (l - l1)%nat with (S (l - S l1)) by arith.
    by rewrite Nat.iter_succ_r.
Qed.

Lemma words_bylen_le_end (l : nat) :
  (l <= WORDS_MAX_LEN - WORDS_MIN_LEN)%nat ->
  (words_bylen l <= WORDS_COUNT)%nat.
Proof using words_bylen_mono words_bylen_end.
  clear WORDS_COUNT_pos. intros Hl.
  assert (H : forall d, (l + d <= WORDS_MAX_LEN - WORDS_MIN_LEN)%nat ->
                        (words_bylen l <= words_bylen (l + d))%nat).
  { induction d as [|d IH]; intros Hd; [by rewrite Nat.add_0_r|].
    rewrite Nat.add_succ_r.
    etrans; [apply IH; lia|]. apply words_bylen_mono. lia. }
  specialize (H (WORDS_MAX_LEN - WORDS_MIN_LEN - l)%nat).
  replace (l + (WORDS_MAX_LEN - WORDS_MIN_LEN - l))%nat
    with (WORDS_MAX_LEN - WORDS_MIN_LEN)%nat in H by lia.
  etrans; [apply H; lia|]. exact words_bylen_end.
Qed.

(** A word found in the bucket of [l] extra letters: the zero steps taken
    so far are the steps of that word. *)
Lemma crc32_add_word_bucket (crc : Z) (l j : nat) :
  (l <= WORDS_MAX_LEN - WORDS_MIN_LEN)%nat ->
  (bucket_start l <= j < words_bylen l)%nat ->
  Z.lxor (Nat.iter (l - 0) crc32_step_zero (Nat.iter WORDS_MIN_LEN crc32_step_zero crc))
    (word_crc32_adj j)
  = crc32_add_word crc j.
Proof using words_bylen_length.
  intros Hl Hj. unfold crc32_add_word.
  rewrite (words_bylen_length l j Hl Hj), Nat.sub_0_r.
  replace (WORDS_MIN_LEN + l)%nat with (l + WORDS_MIN_LEN)%nat by arith.
  by rewrite Nat.iter_add.
Qed.

(** A turn of the search that finds its three words has a phrase whose
    CRC32 is [version]. *)
Lemma attempt_found (version : Z) (rand : nat -> Z) (drawn words_in_prefix : nat)
    (word_ids : list nat) :
  0 <= version < 2 ^ 32 ->
  attempt (last_word_table version) rand drawn words_in_prefix = Some word_ids ->
  length word_ids = (words_in_prefix + 3)%nat /\
  Forall (fun j => (j < WORDS_COUNT)%nat) word_ids /\
  words_crc32 word_ids = version.
Proof using crc32_step_reverse crc32_reverse_range word_crc32_adj_range
  WORDS_COUNT_pos words_bylen_length words_bylen_mono words_bylen_end.
  intros Hversion. unfold attempt.
  set (prefix := prefix_ids rand drawn words_in_prefix).
  set (P := foldl crc32_add_word 0 prefix).
  destruct (scan_first _ _ _ _ _) as [[[a b] c]|] eqn:E; [|done].
  intros [= <-].
  change (scan_first (last_word_table version) (WORDS_MAX_LEN - WORDS_MIN_LEN) 0
            (bucket_start 0) (Nat.iter WORDS_MIN_LEN crc32_step_zero P)
          = Some (a, b, c)) in E.
  apply scan_first_found in E as (l1 & Hl1 & Ha & E).
  rewrite crc32_add_word_bucket in E by (done || lia).
  change (scan_second (last_word_table version) (WORDS_MAX_LEN - WORDS_MIN_LEN) 0
            (bucket_start 0)
            (Nat.iter WORDS_MIN_LEN crc32_step_zero (crc32_add_word P a))
          = Some (b, c)) in E.
  apply scan_second_found in E as (l2 & Hl2 & Hb & E).
  rewrite crc32_add_word_bucket in E by (done || lia).
  apply last_word_table_lookup in E as [Hc E].
  split; [|split].
  - rewrite length_app. subst prefix. unfold prefix_ids.
    rewrite length_map, length_seq. cbn. lia.
  - apply Forall_app. split.
    + subst prefix. unfold prefix_ids. apply Forall_map, Forall_forall.
      intros i _. cbn.
      pose proof (Z.mod_pos_bound (rand (drawn + i)%nat) (Z.of_nat WORDS_COUNT)).
      lia.
    + pose proof (words_bylen_le_end l1 ltac:(lia)).
      pose proof (words_bylen_le_end l2 ltac:(lia)).
      repeat constructor; lia.
  - unfold words_crc32. rewrite foldl_app. fold P. cbn [foldl].
    unfold crc32_add_word at 1. rewrite E.
    pose proof (word_crc32_adj_range c) as Hadj.
    rewrite iter_step_reverse by (apply (lxor_range 32); lia).
    by rewrite Z.lxor_assoc, Z.lxor_nilpotent, Z.lxor_0_r.
Qed.

Lemma search_found (version : Z) (rand : nat -> Z) (words_in_prefix turns : nat) :
  forall (drawn : nat) (word_ids : list nat),
    0 <= version < 2 ^ 32 ->
    search (last_word_table version) rand words_in_prefix turns drawn = Some word_ids ->
    length word_ids = (words_in_prefix + 3)%nat /\
    Forall (fun j => (j < WORDS_COUNT)%nat) word_ids /\
    words_crc32 word_ids = version.
Proof using crc32_step_reverse crc32_reverse_range word_crc32_adj_range
  WORDS_COUNT_pos words_bylen_length words_bylen_mono words_bylen_end.
  induction turns as [|turns IH]; intros drawn word_ids Hversion H; [done|].
  cbn [search] in H.
  destruct (attempt _ rand drawn words_in_prefix) as [found|] eqn:E.
  - injection H as <-. by apply (attempt_found version rand drawn).
  - by apply (IH (drawn + words_in_prefix)%nat).
Qed.

(** For a positive [bits] the number of prefix words is the ceiling of
    [bits / BITS_PER_WORD]; for [bits = 0] the subtraction wraps and the
    array of word indices cannot be allocated. *)
Lemma words_in_prefix_of_ceil (bits : Z) :
  0 <= bits < 2 ^ 64 ->
  (wrap64 (words_in_prefix_of bits + 3) * 8 >? PTRDIFF_MAX) = false ->
  0 <= words_in_prefix_of bits /\
  bits <= BITS_PER_WORD * words_in_prefix_of bits < bits + BITS_PER_WORD.
Proof.
  intros Hbits Halloc.
  destruct (Z.eq_dec bits 0) as [->|Hne].
  - vm_compute in Halloc. discriminate.
  - unfold words_in_prefix_of, BITS_PER_WORD in *.
    rewrite (wrap64_small (bits - 1)) by arith.
    pose proof (Z.div_mod (bits - 1) 11 ltac:(arith)) as Hdiv.
    pose proof (Z.mod_pos_bound (bits - 1) 11 ltac:(arith)) as Hmod.
    rewrite wrap64_small by arith. arith.
Qed.

(** C6.  A phrase that [generate_mnemonic] returns is made of
    [words_in_prefix + 3] words of the table, a space between two, where
    [words_in_prefix] is the ceiling of [bits / BITS_PER_WORD], and the
    CRC32 of the phrase -- every word advancing the CRC by as many zero
    steps as it has letters and then XORing its adjustment -- is
    [version]. *)
Theorem generate_mnemonic_crc32 (bits version : Z) (rand : nat -> Z) (turns : nat)
    (mnemonic : list byte) :
  0 <= bits < 2 ^ 64 -> 0 <= version < 2 ^ 32 ->
  generate_mnemonic bits version rand turns = Ok mnemonic ->
  exists (word_ids : list nat) (words_in_prefix : Z),
    mnemonic = phrase word_ids /\
    bits <= BITS_PER_WORD * words_in_prefix < bits + BITS_PER_WORD /\
    Z.of_nat (length word_ids) = words_in_prefix + 3 /\
    Forall (fun j => (j < WORDS_COUNT)%nat) word_ids /\
    words_crc32 word_ids = version.
Proof using crc32_step_reverse crc32_reverse_range word_crc32_adj_range
  WORDS_COUNT_pos words_bylen_length words_bylen_mono words_bylen_end.
  intros Hbits Hversion. unfold generate_mnemonic.
  destruct (_ >? PTRDIFF_MAX) eqn:Halloc; [done|].
  destruct (search _ _ _ _ _) as [word_ids|] eqn:E; [|done].
  intros [= <-].
  destruct (words_in_prefix_of_ceil bits Hbits Halloc) as [Hnn Hceil].
  destruct (search_found version rand _ turns 0%nat word_ids Hversion E)
    as (Hlen & Hall & Hcrc).
  exists word_ids, (words_in_prefix_of bits).
  split; [done|]. split; [done|]. split; [|done].
  rewrite Hlen. lia.
Qed.

(** *** The search misses nothing *)

(** The zero step is a permutation of the 32-bit values: the reverse step
    undoes it on this side too. *)
Hypothesis crc32_reverse_step :
  forall x, 0 <= x < 2 ^ 32 -> crc32_reverse_step_zero (crc32_step_zero x) = x.
Hypothesis crc32_step_range :
  forall x, 0 <= x < 2 ^ 32 -> 0 <= crc32_step_zero x < 2 ^ 32.

Lemma iter_step_range (n : nat) (x : Z) :
  0 <= x < 2 ^ 32 -> 0 <= Nat.iter n crc32_step_zero x < 2 ^ 32.
Proof using crc32_step_range.
  intros Hx. induction n as [|n IH]; [done|].
  cbn [Nat.iter nat_rect]. by apply crc32_step_range.
Qed.

Lemma iter_reverse_step (n : nat) (x : Z) :
  0 <= x < 2 ^ 32 ->
  Nat.iter n crc32_reverse_step_zero (Nat.iter n crc32_step_zero x) = x.
Proof using crc32_reverse_step crc32_step_range.
  intros Hx. induction n as [|n IH]; [done|].
  rewrite Nat.iter_succ_r. cbn [Nat.iter nat_rect].
  rewrite crc32_reverse_step by (by apply iter_step_range). exact IH.
Qed.

Lemma crc32_add_word_range (crc : Z) (j : nat) :
  0 <= crc < 2 ^ 32 -> 0 <= crc32_add_word crc j < 2 ^ 32.
Proof using crc32_step_range word_crc32_adj_range.
  intros Hcrc. unfold crc32_add_word.
  apply (lxor_range 32); [arith|by apply iter_step_range|apply word_crc32_adj_range].
Qed.

Lemma words_crc32_range (ids : list nat) (crc : Z) :
  0 <= crc < 2 ^ 32 -> 0 <= foldl crc32_add_word crc ids < 2 ^ 32.
Proof using crc32_step_range word_crc32_adj_range.
  revert crc. induction ids as [|j ids IH]; intros crc Hcrc; [done|].
  cbn [foldl]. by apply IH, crc32_add_word_range.
Qed.

Lemma foldl_insert_kept (f : nat -> Z) (l : list nat) :
  forall (m : gmap Z nat) (key : Z),
    is_Some (m !! key) ->
    is_Some (foldl (fun (m : gmap Z nat) (i : nat) => <[f i := i]> m) m l !! key).
Proof.
  induction l as [|x l IH]; intros m key H; [done|]. cbn [foldl]. apply IH.
  destruct (decide (f x = key)) as [<-|Hne].
  - by rewrite lookup_insert_eq.
  - by rewrite lookup_insert_ne.
Qed.

Lemma foldl_insert_has (f : nat -> Z) (l : list nat) :
  forall (m : gmap Z nat) (c : nat),
    c ∈ l ->
    is_Some (foldl (fun (m : gmap Z nat) (i : nat) => <[f i := i]> m) m l !! f c).
Proof.
  induction l as [|x l IH]; intros m c Hin; [by apply elem_of_nil in Hin|].
  cbn [foldl]. apply elem_of_cons in Hin as [->|Hin].
  - apply foldl_insert_kept. by rewrite lookup_insert_eq.
  - by apply IH.
Qed.

(** Every word has its entry in [last_word], under the CRC32 that has to
    precede it or under that of a word that overwrote it. *)
Lemma last_word_table_has (version : Z) (c : nat) :
  (c < WORDS_COUNT)%nat ->
  is_Some (last_word_table version
             !! Nat.iter (word_len c) crc32_reverse_step_zero
                  (Z.lxor version (word_crc32_adj c))).
Proof.
  intros Hc. unfold last_word_table.
  apply (foldl_insert_has
           (fun i => Nat.iter (word_len i) crc32_reverse_step_zero
                       (Z.lxor version (word_crc32_adj i)))).
  apply elem_of_seq. arith.
Qed.

Lemma find_last_word_none (last_word : gmap Z nat) (crc : Z) (js : list nat) (b : nat) :
  find_last_word last_word crc js = None -> b ∈ js ->
  last_word !! Z.lxor crc (word_crc32_adj b) = None.
Proof.
  induction js as [|j js IH]; intros H Hin; [by apply elem_of_nil in Hin|].
  cbn [find_last_word] in H.
  destruct (last_word !! Z.lxor crc (word_crc32_adj j)) as [it|] eqn:E; [done|].
  apply elem_of_cons in Hin as [->|Hin]; [done|by apply IH].
Qed.

Lemma scan_second_none (last_word : gmap Z nat) (n : nat) :
  forall (l2 : nat) (crc : Z) (l b : nat),
    scan_second last_word n l2 (bucket_start l2) crc = None ->
    (l2 <= l <= l2 + n)%nat -> (bucket_start l <= b < words_bylen l)%nat ->
    last_word !! Z.lxor (Nat.iter (l - l2) crc32_step_zero crc) (word_crc32_adj b)
    = None.
Proof.
  induction n as [|n IH]; intros l2 crc l b H Hl Hb; cbn [scan_second] in H.
  all: destruct (find_last_word _ _ _) as [found|] eqn:E; [done|].
  - replace l with l2 in * by arith. rewrite Nat.sub_diag.
    apply (find_last_word_none _ _ _ b E). apply elem_of_seq. arith.
  - destruct (decide (l = l2)) as [->|Hne].
    + rewrite Nat.sub_diag.
      apply (find_last_word_none _ _ _ b E). apply elem_of_seq. arith.
    + change (words_bylen l2) with (bucket_start (S l2)) in H.
      replace (l - l2)%nat with (S (l - S l2)) by arith.
      rewrite Nat.iter_succ_r. apply (IH (S l2)); [done|arith|done].
Qed.

Lemma find_first_word_none (last_word : gmap Z nat) (crc : Z) (js : list nat) (a : nat) :
  find_first_word last_word crc js = None -> a ∈ js ->
  scan_second last_word (WORDS_MAX_LEN - WORDS_MIN_LEN) 0 0
    (Nat.iter WORDS_MIN_LEN crc32_step_zero (Z.lxor crc (word_crc32_adj a)))
  = None.
Proof.
  induction js as [|j js IH]; intros H Hin; [by apply elem_of_nil in Hin|].
  cbn [find_first_word] in H.
  destruct (scan_second last_word _ 0 0
              (Nat.iter _ _ (Z.lxor crc (word_crc32_adj j)))) as [[b' c']|] eqn:E;
    [done|].
  apply elem_of_cons in Hin as [->|Hin]; [done|by apply IH].
Qed.

Lemma scan_first_none (last_word : gmap Z nat) (n : nat) :
  forall (l1 : nat) (crc : Z) (l a : nat),
    scan_first last_word n l1 (bucket_start l1) crc = None ->
    (l1 <= l <= l1 + n)%nat -> (bucket_start l <= a < words_bylen l)%nat ->
    scan_second last_word (WORDS_MAX_LEN - WORDS_MIN_LEN) 0 0
      (Nat.iter WORDS_MIN_LEN crc32_step_zero
         (Z.lxor (Nat.iter (l - l1) crc32_step_zero crc) (word_crc32_adj a)))
    = None.
Proof.
  induction n as [|n IH]; intros l1 crc l a H Hl Ha; cbn [scan_first] in H.
  all: destruct (find_first_word _ _ _) as [found|] eqn:E; [done|].
  - replace l with l1 in * by arith. rewrite Nat.sub_diag.
    apply (find_first_word_none _ _ _ a E). apply elem_of_seq. arith.
  - destruct (decide (l = l1)) as [->|Hne].
    + rewrite Nat.sub_diag.
      apply (find_first_word_none _ _ _ a E). apply elem_of_seq. arith.
    + change (words_bylen l1) with (bucket_start (S l1)) in H.
      replace (l - l1)%nat with (S (l - S l1)) by arith.
      rewrite Nat.iter_succ_r. apply (IH (S l1)); [done|arith|done].
Qed.

(** A word below the end of a bucket is in that bucket or in one before. *)
Lemma bucket_of (n j : nat) :
  (j < words_bylen n)%nat ->
  exists l : nat, (l <= n)%nat /\ (bucket_start l <= j < words_bylen l)%nat.
Proof.
  induction n as [|n IH]; intros Hj.
  - exists 0%nat. cbn [bucket_start]. arith.
  - destruct (decide (j < words_bylen n)%nat) as [Hlt|Hge].
    + destruct (IH Hlt) as (l & Hl & Hb). exists l. split; [arith|done].
    + exists (S n). cbn [bucket_start]. arith.
Qed.

(** A turn of the search that gives up had no three words to find. *)
Lemma attempt_none (version : Z) (rand : nat -> Z) (drawn words_in_prefix : nat)
    (a b c : nat) :
  0 <= version < 2 ^ 32 ->
  attempt (last_word_table version) rand drawn words_in_prefix = None ->
  (a < words_bylen (WORDS_MAX_LEN - WORDS_MIN_LEN))%nat ->
  (b < words_bylen (WORDS_MAX_LEN - WORDS_MIN_LEN))%nat ->
  (c < WORDS_COUNT)%nat ->
  words_crc32 (prefix_ids rand drawn words_in_prefix ++ [a; b; c]) <> version.
Proof using crc32_reverse_step crc32_step_range word_crc32_adj_range
  words_bylen_length.
  intros Hversion Hnone Ha Hb Hc Hcrc. unfold attempt in Hnone.
  set (prefix := prefix_ids rand drawn words_in_prefix) in *.
  set (P := foldl crc32_add_word 0 prefix) in *.
  destruct (scan_first _ _ _ _ _) as [[[a' b'] c']|] eqn:E; [done|]. clear Hnone.
  assert (HP : 0 <= P < 2 ^ 32) by (apply words_crc32_range; arith).
  pose proof (crc32_add_word_range P a HP) as HPa.
  pose proof (crc32_add_word_range _ b HPa) as HPb.
  destruct (bucket_of _ a Ha) as (la & Hla & Hba).
  destruct (bucket_of _ b Hb) as (lb & Hlb & Hbb).
  change (scan_first (last_word_table version) (WORDS_MAX_LEN - WORDS_MIN_LEN) 0
            (bucket_start 0) (Nat.iter WORDS_MIN_LEN crc32_step_zero P) = None) in E.
  apply (scan_first_none _ _ _ _ la a) in E; [|arith|done].
  rewrite crc32_add_word_bucket in E by done.
  change (scan_second (last_word_table version) (WORDS_MAX_LEN - WORDS_MIN_LEN) 0
            (bucket_start 0)
            (Nat.iter WORDS_MIN_LEN crc32_step_zero (crc32_add_word P a)) = None) in E.
  apply (scan_second_none _ _ _ _ lb b) in E; [|arith|done].
  rewrite crc32_add_word_bucket in E by done.
  unfold words_crc32 in Hcrc. rewrite foldl_app in Hcrc. fold P in Hcrc.
  cbn [foldl] in Hcrc.
  set (Pb := crc32_add_word (crc32_add_word P a) b) in *.
  unfold crc32_add_word at 1 in Hcrc.
  assert (Hkey : Pb = Nat.iter (word_len c) crc32_reverse_step_zero
                        (Z.lxor version (word_crc32_adj c))).
  { rewrite <- Hcrc, Z.lxor_assoc, Z.lxor_nilpotent, Z.lxor_0_r.
    by rewrite iter_reverse_step. }
  destruct (last_word_table_has version c Hc) as [it Hit].
  rewrite <- Hkey in Hit. by rewrite E in Hit.
Qed.

Lemma search_none (last_word : gmap Z nat) (rand : nat -> Z) (words_in_prefix : nat)
    (turns : nat) :
  forall (drawn t : nat),
    search last_word rand words_in_prefix turns drawn = None -> (t < turns)%nat ->
    attempt last_word rand (drawn + t * words_in_prefix) words_in_prefix = None.
Proof.
  induction turns as [|turns IH]; intros drawn t H Ht; [arith|].
  cbn [search] in H.
  destruct (attempt last_word rand drawn words_in_prefix) as [found|] eqn:E; [done|].
  destruct t as [|t].
  - by rewrite Nat.mul_0_l, Nat.add_0_r.
  - replace (drawn + S t * words_in_prefix)%nat
      with (drawn + words_in_prefix + t * words_in_prefix)%nat by arith.
    apply IH; [done|arith].
Qed.

(** X19.  The search misses nothing.  [generate_mnemonic] is still
    running after [turns] turns of its [while (true)] only if none of the
    prefixes drawn on these turns can be completed: as soon as the words
    drawn on a turn have three words -- the first two from the buckets
    the scan visits, the last any word of the table -- that bring the
    CRC32 of the phrase to [version], the call returns a phrase, on that
    turn or before. *)
Theorem generate_mnemonic_finds (bits version : Z) (rand : nat -> Z)
    (turns t a b c : nat) :
  0 <= version < 2 ^ 32 ->
  wrap64 (words_in_prefix_of bits + 3) * 8 <= PTRDIFF_MAX ->
  (t < turns)%nat ->
  (a < words_bylen (WORDS_MAX_LEN - WORDS_MIN_LEN))%nat ->
  (b < words_bylen (WORDS_MAX_LEN - WORDS_MIN_LEN))%nat ->
  (c < WORDS_COUNT)%nat ->
  words_crc32
    (prefix_ids rand (t * Z.to_nat (words_in_prefix_of bits))
       (Z.to_nat (words_in_prefix_of bits)) ++ [a; b; c]) = version ->
  exists word_ids : list nat,
    generate_mnemonic bits version rand turns = Ok (phrase word_ids).
Proof using crc32_reverse_step crc32_step_range word_crc32_adj_range
  words_bylen_length.
  intros Hversion Halloc Ht Ha Hb Hc Hcrc. unfold generate_mnemonic.
  replace (_ >? PTRDIFF_MAX) with false
    by (symmetry; rewrite Z.gtb_ltb; apply Z.ltb_ge; exact Halloc).
  destruct (search _ _ _ _ _) as [word_ids|] eqn:E; [by exists word_ids|].
  apply (search_none _ _ _ _ 0%nat t) in E; [|done].
  rewrite Nat.add_0_l in E.
  by destruct (attempt_none version rand _ _ a b c Hversion E Ha Hb Hc).
Qed.

End Mnemonic.

(** *** A dictionary of eight words

    Four words of three letters, then four of four; the toy CRC step adds
    one, its reverse takes one away. *)

Definition toy_raw_words : list byte :=
  Strings.String.list_byte_of_string "catdogfoxowllionbearwolfdeer".
Definition toy_word_ptrs (j : nat) : nat :=
  if (j <=? 4)%nat then (3 * j)%nat else (12 + 4 * (j - 4))%nat.
Definition toy_word_crc32_adj (j : nat) : Z := (Z.of_nat j * 40503 + 17) mod 2 ^ 32.
Definition toy_words_bylen (l : nat) : nat :=
  match l with
  | O => 4%nat
  | S _ => 8%nat
  end.
Definition toy_crc32_step_zero (x : Z) : Z := (x + 1) mod 2 ^ 32.
Definition toy_crc32_reverse_step_zero (x : Z) : Z := (x - 1) mod 2 ^ 32.
Definition toy_rand (k : nat) : Z := Z.of_nat k * 7 + 3.

Lemma toy_crc32_step_reverse (x : Z) :
  0 <= x < 2 ^ 32 -> toy_crc32_step_zero (toy_crc32_reverse_step_zero x) = x.
Proof.
  intros Hx. unfold toy_crc32_step_zero, toy_crc32_reverse_step_zero.
  rewrite Zplus_mod_idemp_l. replace (x - 1 + 1) with x by lia.
  by apply Z.mod_small.
Qed.

Lemma toy_crc32_reverse_range (x : Z) :
  0 <= x < 2 ^ 32 -> 0 <= toy_crc32_reverse_step_zero x < 2 ^ 32.
Proof. intros _. apply Z.mod_pos_bound. lia. Qed.

Lemma toy_word_crc32_adj_range (j : nat) : 0 <= toy_word_crc32_adj j < 2 ^ 32.
Proof. apply Z.mod_pos_bound. lia. Qed.

Lemma toy_words_bylen_length (l j : nat) :
  (l <= 4 - 3)%nat ->
  (bucket_start toy_words_bylen l <= j < toy_words_bylen l)%nat ->
  word_len toy_word_ptrs j = (3 + l)%nat.
Proof.
  intros Hl Hj. destruct l as [|[|l]]; [| |lia]; cbn in Hj.
  all: do 8 (destruct j as [|j]; [try lia; reflexivity|]); lia.
Qed.

Lemma toy_words_bylen_mono (l : nat) :
  (l < 4 - 3)%nat -> (toy_words_bylen l <= toy_words_bylen (S l))%nat.
Proof. intros Hl. destruct l; cbn; lia. Qed.

Definition toy_generate_mnemonic (bits version : Z) : result (list byte) :=
  generate_mnemonic 8 3 4 toy_raw_words toy_word_ptrs toy_word_crc32_adj
    toy_words_bylen toy_crc32_step_zero toy_crc32_reverse_step_zero
    bits version toy_rand 4.

Definition toy_mnemonic : list byte :=
  Strings.String.list_byte_of_string "owl fox cat lion deer".

Example toy_generate_mnemonic_runs :
  toy_generate_mnemonic 22 445860 = Ok toy_mnemonic /\
  toy_generate_mnemonic 0 445860 = Throw BadAlloc.
Proof. vm_compute. split; reflexivity. Qed.

Lemma generate_mnemonic_crc32_witness :
  exists (word_ids : list nat) (words_in_prefix : Z),
    toy_mnemonic = phrase toy_raw_words toy_word_ptrs word_ids /\
    22 <= BITS_PER_WORD * words_in_prefix < 22 + BITS_PER_WORD /\
    Z.of_nat (length word_ids) = words_in_prefix + 3 /\
    Forall (fun j => (j < 8)%nat) word_ids /\
    words_crc32 toy_word_ptrs toy_word_crc32_adj toy_crc32_step_zero word_ids = 445860.
Proof.
  refine (generate_mnemonic_crc32 8 3 4 toy_raw_words toy_word_ptrs
            toy_word_crc32_adj toy_words_bylen toy_crc32_step_zero
            toy_crc32_reverse_step_zero toy_crc32_step_reverse
            toy_crc32_reverse_range toy_word_crc32_adj_range _
            toy_words_bylen_length toy_words_bylen_mono _
            22 445860 toy_rand 4 toy_mnemonic _ _ _).
  - lia.
  - cbn. lia.
  - lia.
  - lia.
  - vm_compute. reflexivity.
Defined.

Lemma toy_crc32_reverse_step (x : Z) :
  0 <= x < 2 ^ 32 -> toy_crc32_reverse_step_zero (toy_crc32_step_zero x) = x.
Proof.
  intros Hx. unfold toy_crc32_step_zero, toy_crc32_reverse_step_zero.
  rewrite Zminus_mod_idemp_l. replace (x + 1 - 1) with x by lia.
  by apply Z.mod_small.
Qed.

Lemma toy_crc32_step_range (x : Z) :
  0 <= x < 2 ^ 32 -> 0 <= toy_crc32_step_zero x < 2 ^ 32.
Proof. intros _. apply Z.mod_pos_bound. lia. Qed.

Lemma generate_mnemonic_finds_witness :
  exists word_ids : list nat,
    toy_generate_mnemonic 22 445860
    = Ok (phrase toy_raw_words toy_word_ptrs word_ids).
Proof.
  refine (generate_mnemonic_finds 8 3 4 toy_raw_words toy_word_ptrs
            toy_word_crc32_adj toy_words_bylen toy_crc32_step_zero
            toy_crc32_reverse_step_zero toy_word_crc32_adj_range
            toy_words_bylen_length toy_crc32_reverse_step toy_crc32_step_range
            22 445860 toy_rand 4 0 0 4 7 _ _ _ _ _ _ _).
  - lia.
  - vm_compute. discriminate.
  - lia.
  - cbn. lia.
  - cbn. lia.
  - lia.
  - vm_compute. reflexivity.
Defined.

End WalletHD.
